(* ===== verification/_CoqProject ===== *)
-Q . S2P
Prelude.v
GoStd.v
Models.v
Schema.v
Services.v
Scripts.v
World.v
Keys.v
Logic.v
RedisClient.v
Reservation.v
Inventory.v
Expiry.v
Reconcile.v
Ledger.v
Config.v
RefServices.v
ReserveSpec.v
ConfirmSpec.v
Discipline.v
Concurrency.v
ExpirySpec.v
WaitlistSpec.v
InventorySpec.v
ReconcileSpec.v
Races.v
Hub.v
HubSpec.v
RateLimit.v
RateLimitSpec.v
Metrics.v
Http.v
Sessions.v
HttpSpec.v
Pipeline.v
Wiring.v
Boot.v
Claims.v
Traffic.v
Calls.v
Schedule.v
Api.v
Replies.v
SessionsSpec.v
BootSpec.v
Streams.v
Pumps.v
Idempotency.v
MetricsSpec.v
Chaos.v
Witnesses.v
