(* ===== verification/Prelude.v ===== *)
(** * The flash-sale backend, verified

    The program is a Go server that sells a limited stock: a sale has so many
    units, a buyer reserves one, then confirms (an order) or releases it, and a
    reservation that is not confirmed in time expires and goes to the first
    user of a waitlist. Redis holds the counters [sale:<id>:available] and
    [sale:<id>:reserved], which Lua scripts move atomically; PostgreSQL holds
    the rows; a startup pass and a periodic worker recompute the counters from
    the rows; Pub/Sub messages reach browsers through a WebSocket hub.

    ** Parts, and the files that model them

    - Prelude: scopes, tactics, lemmas on lists.
    - GoStd: int64, strconv, strings, utf8, error texts; the functions of these
      packages the code uses, with their round trips.
    - Models: internal/models, the tables of migrations/, every SQL statement
      of the services with the constraints it has to meet ([stmt_ok]) and its
      effect ([stmt_effect]), every query ([row_answer], [rows_answer]).
    - Schema: the well-formedness of the tables, kept by every statement.
    - Services: what is not code of this repository, as classes of operations
      with laws: google/uuid, Lua numbers, the argument format of go-redis,
      Redis, PostgreSQL, and the outside world ([Oracle]: clock, random ids and
      the fault of the n-th call: none, dropped before the service saw it, or
      executed with its answer lost).
    - Scripts: internal/redis/scripts/*.lua, one definition per script, in a
      monad of server states and errors.
    - World: calls, handlers as trees of calls ([prog]), the run of one handler
      ([run]), with Go's [defer], and the interleaving of many ([pool_step]),
      where a step is one call of one handler.
    - Keys: the key and channel formats, splitChannel of cmd/server/main.go, and
      that keys of different kinds or sales differ.
    - Logic: weakest preconditions of handlers on what can be observed of a
      world ([view]), one rule per call.
    - RedisClient: internal/redis/client.go (calls of the scripts),
      internal/events/publisher.go, internal/audit/logger.go.
    - Reservation: internal/reservation/service.go. Inventory:
      internal/inventory/service.go and internal/waitlist/service.go. Expiry:
      internal/queue/expiry_handler.go. Reconcile: internal/recovery and
      internal/worker. RateLimit: internal/ratelimit/limiter.go. Hub:
      internal/websocket (hub.go, the channels of client.go) and the fan-out
      loops of main. Http: internal/api (handlers, middleware, router).
    - Sessions: internal/websocket/handler.go, the one handler that also sends on
      the channels of the hub, where it can wait and can panic: a tree of calls
      and sends ([session]), run beside the other goroutines of the hub ([play]),
      and its route behind the middleware.
    - Wiring: the structs of the services, handlers and clients, their
      constructors and NewRouter: which connection and which pool each object
      holds, and what the models of the handlers keep of it ([service_of],
      [handler_of], [server_of]).
    - Config: internal/config/config.go over viper, a class with laws. Boot:
      cmd/server/main.go, the objects it builds and the goroutines it starts
      over them, with NewClient and loadScripts, NewLimiter and
      InitTracer, as a tree of calls ([boot]) with deferred calls and
      [log.Fatalf], and the process it runs in ([boot_run]); a [Host] gives the
      answers of the operating system and of the network.
    - Streams: internal/streams/logger.go, from what XADD and XREADGROUP answer
      to what the consumer does. Pumps: the write and the read pump of
      internal/websocket/client.go, from what they meet to what they do to the
      connection. Idempotency: the response cache of
      internal/api/metrics_middleware.go. Metrics: the collectors of
      internal/metrics/metrics.go with the series each update goes to, and the
      budgets of internal/slo.
    - Ledger: the abstract specification of the stock, a machine of three
      numbers (available, held, sold) with the steps reserve, confirm and
      release; [implements] relates it to the counters and the rows.
    - RefServices: one concrete instance of every service with its laws proved,
      on which the handlers run; Witnesses: every theorem at an input.

    ** What the theorems show

    - ReserveSpec, ConfirmSpec, ExpirySpec: each handler, run to its end, refines
      a step of the ledger on every branch, errors included, and leaves other
      sales alone; idempotency keys give one unit and one order; what a second
      expiry notification does; which warnings are sent.
    - Discipline, Concurrency: every handler that reserves, promotes, joins or
      leaves follows a discipline of units, call by call; under any schedule of
      any number of them, with calls dropped anywhere, no sale is oversold.
    - Claims, Traffic: what each of many handlers knows and owes, so that
      reservations, confirmations, releases and expiries interleaved in any way
      keep the stock, and leave counters and tables in agreement when they are
      all done, provided no two of them handle one reservation or one key.
    - Api: the same for the server as it is seen from outside: HTTP requests on
      all routes, WebSocket requests, expired keys and warning ticks at once.
      And under failures: requests that only shop never oversell.
    - Chaos: the handlers, the worker and restarted servers in any interleaving,
      with calls lost before or after they took effect, goroutines that die at
      any point and a Redis that forgets keys; whatever that leads to, the next
      pass of the worker or of a startup that meets no failure sets the counters
      of every active sale right.
    - Calls, Schedule: a request or an expired key makes twenty-one calls at
      most, so in every schedule it is done after twenty-one turns of its own.
      Replies: scripts reply with values of one type, so no assertion of the
      client panics, and of the handlers only the rate limiter's can, on a user
      id that is not UTF-8.
    - SessionsSpec: what a WebSocket request gets, where the connection can be
      taken over and behind the router, where it never can; and how the
      handler's first message, a plain send, waits or panics when the hub has
      filled the client's buffer.
    - BootSpec: a server that listens is reconciled and holds its scripts under
      the right names; every object it serves with uses one primary, one pool
      and one configuration; a normal end closes what was opened.
    - ReconcileSpec: a pass of the worker, or of the startup code, sets the
      counters of every active sale to what the rows say, from any counters and
      from missing ones; it is idempotent; the two copies of the algorithm agree.
    - InventorySpec, WaitlistSpec, RateLimitSpec: sales start a ledger and read
      back; places in the queue, first come first served between seconds; the
      token bucket lets exactly its capacity through in one instant.
    - HubSpec: with orderly clients the hub never panics, its gauge shows the
      clients in rooms, and each message is delivered once, in order, to the
      room; Pipeline: from the Pub/Sub channel through fan-out, hub and buffer
      to the frames, a client that keeps up gets every event of its sale.
    - HttpSpec: every request is answered with one of nine codes; reserving,
      confirming and releasing over HTTP refine the ledger end to end.
    - MetricsSpec: every Reserve is timed once and counted under its outcome;
      registration succeeds and every update has the labels of its collector.
    - Races, and the theorems of ConfirmSpec, ExpirySpec, WaitlistSpec and HubSpec
      that say so: runs in which the code breaks the ledger or the process (a
      double release, a lost answer, an overdue reservation that is confirmed,
      a reconciliation pass in the middle of a Reserve,
      a compensation that inflates the stock, a promotion that loses its user,
      three ways to crash the hub, a WebSocket handler that hangs).

    ** Assumptions and bounds

    A theorem on [wp] holds in every world that looks like the given view. It
    assumes the laws of Services and, where it says [NoFaults] or
    [NoLostReplies], that no call fails or no answer is lost. Counters are
    int64 and the theorems carry the bounds under which INCR and DECR do not
    overflow; sale stocks are INTEGER columns. Instants are nanoseconds;
    PostgreSQL's rounding of them to microseconds is not modelled. Text columns
    are measured in bytes. Lua numbers are rationals with an abstract monotone
    rounding that keeps the integers up to 2^53. No definition needs fuel: the
    loops recurse on the rows, wakes or messages they are given, and printing an
    integer uses the bit length of the number, which bounds its digits. The
    histories of Chaos are bounded by 2^58 calls, which no process reaches and
    which keeps counters moved by one per call, from 32-bit stocks and fewer
    than 2^32 rows at the start, inside int64.

    The tasks of Schedule, in the theorems of Api, Chaos and Schedule, make calls
    to Redis and PostgreSQL, each of which returns, with an answer or an error. A
    WebSocket request counts there with its calls: a goroutine that waits at the
    hub is one that is not scheduled again, and one that panics there makes no
    further call (Sessions has its sends). The metrics that panic on a label that
    is not UTF-8 are those whose labels come from a request
    ([Metrics.IncWithLabelValues]).

    The machine of Boot follows main alone: what the goroutines do once they
    are started is the subject of the other files.

    ** Not modelled

    Logging, tracing spans, what Prometheus makes of the updates of its
    collectors, the timeouts of the HTTP server, the timing of tickers and
    deadlines, the JSON decoding of request bodies (a handler is given its
    result), non-ASCII case folding in the keys of a stream entry, and chi's own
    answers to unknown routes (the middleware around them is: see
    [unrouted_path_panics] in Replies). The libraries that
    open connections or read the environment (go-redis, pgx, viper,
    OpenTelemetry, gorilla/websocket) are parameters. *)
From stdpp Require Export base gmap strings list list_numbers fin_maps.
From Stdlib Require Export ZArith Lia.

#[global] Open Scope Z_scope.
#[global] Set Default Goal Selector "!".


(** Case analysis on the first [match] or [if] of the goal or of a
    hypothesis, keeping the equation. *)
Ltac case_any :=
  match goal with
  | |- context [match ?x with _ => _ end] => destruct x eqn:?
  | H : context [match ?x with _ => _ end] |- _ => destruct x eqn:?
  end.

(** Turn boolean comparisons in the context into propositions. *)
Ltac bool_to_prop :=
  repeat match goal with
  | H : (_ <=? _) = true |- _ => apply Z.leb_le in H
  | H : (_ <=? _) = false |- _ => apply Z.leb_gt in H
  | H : (_ <? _) = true |- _ => apply Z.ltb_lt in H
  | H : (_ <? _) = false |- _ => apply Z.ltb_ge in H
  | H : (_ =? _) = true |- _ => apply Z.eqb_eq in H
  | H : (_ =? _) = false |- _ => apply Z.eqb_neq in H
  | H : (_ && _)%bool = true |- _ => apply andb_true_iff in H as [? ?]
  end.

(** ** Lists *)

(** Two filters that agree on the elements of a list. *)
Lemma filter_ext_in {A} (P Q : A -> Prop) `{forall x, Decision (P x)} `{forall x, Decision (Q x)} (l : list A) :
  (forall x, x ∈ l -> P x <-> Q x) -> base.filter P l = base.filter Q l.
Proof.
  induction l as [|x l IH]; intros HPQ; [done|]. rewrite !filter_cons.
  assert (P x <-> Q x) as Hx by (apply HPQ, elem_of_cons; by left).
  rewrite IH by (intros y Hy; apply HPQ, elem_of_cons; by right).
  by repeat case_decide; try tauto.
Qed.

(** The keys of a filtered association list stay distinct. *)
Lemma NoDup_fst_filter {A B} (P : A * B -> Prop) `{forall x, Decision (P x)} (l : list (A * B)) :
  NoDup l.*1 -> NoDup (base.filter P l).*1.
Proof.
  induction l as [|x l IH]; [done|]. intros [Hx Hl]%NoDup_cons. rewrite filter_cons.
  case_decide; [|by apply IH]. apply NoDup_cons. split; [|by apply IH]. intros Hin. apply Hx.
  apply list_elem_of_fmap in Hin as (y & -> & Hy). apply list_elem_of_filter in Hy as [_ Hy].
  apply list_elem_of_fmap. eauto.
Qed.
