(* ===== verification/GoStd.v ===== *)
(** * The part of Go's standard library (and of int64) the program uses *)
From S2P Require Import Prelude.
From Stdlib Require Import Ascii.
Local Open Scope string_scope.
Local Open Scope Z_scope.

#[local] Arguments Ascii.eqb : simpl never.
#[local] Arguments String.append !_ _ /.

(** ** int64 *)

Definition max_int64 : Z := 9223372036854775807.
Definition min_int64 : Z := -9223372036854775808.
Definition int64b (n : Z) : bool := (min_int64 <=? n) && (n <=? max_int64).
Definition int64 (n : Z) : Prop := min_int64 <= n <= max_int64.

(** Two's complement wrap-around of a 64-bit operation. *)
Definition wrap64 (n : Z) : Z := (n - min_int64) mod 18446744073709551616 + min_int64.

(** [time.Duration(n) * time.Second]: nanoseconds in an int64. *)
Definition seconds (n : Z) : Z := wrap64 (n * 1000000000).

(** ** Errors: the message [err.Error()] returns *)

Abbreviation error := string.

(** [fmt.Errorf("pre: %w", err)]. *)
Definition Errorf_w (pre : string) (err : error) : error := pre ++ ": " ++ err.

(** ** strconv *)

Definition digit_val (c : ascii) : option Z :=
  let n := Z.of_N (N_of_ascii c) in
  if (48 <=? n) && (n <=? 57) then Some (n - 48) else None.

Definition digit_char (d : Z) : ascii := ascii_of_N (Z.to_N (d + 48)).

Fixpoint parse_digits (acc : Z) (s : string) : option Z :=
  match s with
  | EmptyString => Some acc
  | String c r =>
      match digit_val c with
      | Some d => parse_digits (acc * 10 + d) r
      | None => None
      end
  end.

(** The integer a decimal literal denotes: an optional sign, then one digit
    or more. *)
Definition parse_int (s : string) : option Z :=
  match s with
  | EmptyString => None
  | String "-" EmptyString => None
  | String "+" EmptyString => None
  | String "-" r => Z.opp <$> parse_digits 0 r
  | String "+" r => parse_digits 0 r
  | _ => parse_digits 0 s
  end.

(** [strconv.Atoi]: the value and the error. *)
Definition Atoi (s : string) : Z * option error :=
  match parse_int s with
  | None => (0, Some "invalid syntax")
  | Some n =>
      if n <? min_int64 then (min_int64, Some "value out of range")
      else if max_int64 <? n then (max_int64, Some "value out of range")
      else (n, None)
  end.

Fixpoint print_digits (fuel : nat) (n : Z) (acc : string) : string :=
  match fuel with
  | O => acc
  | S f =>
      let acc' := String (digit_char (n mod 10)) acc in
      if n / 10 =? 0 then acc' else print_digits f (n / 10) acc'
  end.

(** [strconv.Itoa], and the decimal form Redis stores an integer in. *)
Definition Itoa (n : Z) : string :=
  if n <? 0 then String "-" (print_digits (S (Z.to_nat (Z.log2 (- n)))) (- n) "")
  else print_digits (S (Z.to_nat (Z.log2 n))) n "".

(** ** strings *)

(** [strings.Split(s, sep)] for a one-character separator. *)
Fixpoint split_on (c : ascii) (s : string) : list string :=
  match s with
  | EmptyString => [""]
  | String a r =>
      if Ascii.eqb a c then "" :: split_on c r
      else match split_on c r with
           | [] => [String a ""]
           | x :: xs => String a x :: xs
           end
  end.

Definition Split (s : string) (sep : ascii) : list string := split_on sep s.

Definition HasPrefix (s pre : string) : bool := String.prefix pre s.

Definition HasSuffix (s suf : string) : bool :=
  let n := String.length s in
  let m := String.length suf in
  Nat.leb m n && String.eqb (String.substring (n - m) m s) suf.

Fixpoint no_char (c : ascii) (s : string) : bool :=
  match s with
  | EmptyString => true
  | String a r => negb (Ascii.eqb a c) && no_char c r
  end.

(** ** unicode/utf8 *)

Definition byte_in (lo hi : Z) (c : ascii) : bool :=
  let n := Z.of_N (N_of_ascii c) in (lo <=? n) && (n <=? hi).

Definition continuation (c : ascii) : bool := byte_in 128 191 c.

(** The first two bytes of the encodings of three and of four bytes: no overlong
    forms, no surrogates, nothing beyond U+10FFFF. *)
Definition three_bytes (a b : ascii) : bool :=
  byte_in 224 224 a && byte_in 160 191 b || byte_in 225 236 a && continuation b ||
  byte_in 237 237 a && byte_in 128 159 b || byte_in 238 239 a && continuation b.

Definition four_bytes (a b : ascii) : bool :=
  byte_in 240 240 a && byte_in 144 191 b || byte_in 241 243 a && continuation b ||
  byte_in 244 244 a && byte_in 128 143 b.

(** [utf8.ValidString] *)
Fixpoint utf8_ValidString (s : string) : bool :=
  match s with
  | EmptyString => true
  | String a r =>
      if byte_in 0 127 a then utf8_ValidString r
      else match r with
      | EmptyString => false
      | String b r =>
          if byte_in 194 223 a && continuation b then utf8_ValidString r
          else match r with
          | EmptyString => false
          | String c r =>
              if three_bytes a b && continuation c then utf8_ValidString r
              else match r with
              | EmptyString => false
              | String d r =>
                  if four_bytes a b && continuation c && continuation d then utf8_ValidString r
                  else false
              end
          end
      end
  end.

Fixpoint is_ascii (s : string) : bool :=
  match s with EmptyString => true | String a r => byte_in 0 127 a && is_ascii r end.

(** The Euro sign, U+10000 and a Latin-1 byte; an overlong slash, a surrogate. *)
Example utf8_examples :
  map (fun l => utf8_ValidString (String.concat "" (map (fun n => String (ascii_of_N n) "") l)))
    [[97; 226; 130; 172]; [240; 144; 128; 128]; [97; 233; 98]; [192; 175]; [237; 160; 128]; [226; 130]]%N
  = [true; true; false; false; false; false].
Proof. vm_compute. reflexivity. Qed.

(** ** Lemmas *)

Lemma ascii_utf8 s : is_ascii s = true -> utf8_ValidString s = true.
Proof. induction s as [|a s IH]; cbn; [done|]. intros [-> H]%andb_true_iff. by apply IH. Qed.

Lemma digit_ascii n : byte_in 0 127 (digit_char (n mod 10)) = true.
Proof.
  pose proof (Z.mod_pos_bound n 10 ltac:(lia)) as H. unfold byte_in, digit_char.
  rewrite N_ascii_embedding by lia. apply andb_true_iff. rewrite !Z.leb_le. lia.
Qed.

Lemma print_digits_ascii fuel : forall n acc, is_ascii acc = true -> is_ascii (print_digits fuel n acc) = true.
Proof.
  induction fuel as [|f IH]; intros n acc Hacc; [done|]. cbn [print_digits].
  assert (is_ascii (String (digit_char (n mod 10)) acc) = true) as H
    by (cbn [is_ascii]; by rewrite digit_ascii, Hacc).
  destruct (n / 10 =? 0); [exact H|by apply IH].
Qed.

Lemma Itoa_utf8 n : utf8_ValidString (Itoa n) = true.
Proof.
  apply ascii_utf8. unfold Itoa. destruct (n <? 0); [|by apply print_digits_ascii].
  cbn [is_ascii]. by rewrite print_digits_ascii.
Qed.

Lemma int64b_spec n : int64b n = true <-> int64 n.
Proof. unfold int64b, int64. rewrite andb_true_iff, !Z.leb_le. done. Qed.

Lemma wrap64_id n : int64 n -> wrap64 n = n.
Proof. unfold int64, wrap64, min_int64, max_int64. intros. rewrite Z.mod_small; lia. Qed.

Lemma wrap64_range n : int64 (wrap64 n).
Proof.
  unfold wrap64, int64, min_int64, max_int64.
  pose proof (Z.mod_pos_bound (n - -9223372036854775808) 18446744073709551616).
  lia.
Qed.

Lemma digit_val_char d : 0 <= d < 10 -> digit_val (digit_char d) = Some d.
Proof.
  intros H. unfold digit_val, digit_char.
  assert (d = 0 \/ d = 1 \/ d = 2 \/ d = 3 \/ d = 4 \/ d = 5 \/ d = 6 \/ d = 7 \/ d = 8 \/ d = 9)
    as Hd by lia.
  repeat destruct Hd as [-> | Hd]; subst; reflexivity.
Qed.

Lemma digit_char_neq d c : 0 <= d < 10 -> digit_val c = None -> digit_char d <> c.
Proof. intros Hd Hc <-. rewrite digit_val_char in Hc by done. done. Qed.

Lemma parse_print_digits fuel : forall n acc,
  0 <= n < 2 ^ Z.of_nat fuel -> (0 < fuel)%nat ->
  exists k, 0 <= k /\ forall a, parse_digits a (print_digits fuel n acc) = parse_digits (a * 10 ^ k + n) acc.
Proof.
  induction fuel as [|f IH]; intros n acc Hn Hf; [lia|]. cbn [print_digits].
  pose proof (Z.mod_pos_bound n 10 ltac:(lia)) as Hm.
  pose proof (Z.div_mod n 10 ltac:(lia)) as Hdm.
  destruct (n / 10 =? 0) eqn:E; bool_to_prop.
  - exists 1. split; [lia|]. intros a. cbn [parse_digits].
    rewrite digit_val_char by lia. f_equal. lia.
  - destruct f as [|f'].
    + exfalso. change (2 ^ Z.of_nat 1) with 2 in Hn. apply E, Z.div_small. lia.
    + destruct (IH (n / 10) (String (digit_char (n mod 10)) acc)) as (k & Hk & IHk).
      * rewrite Nat2Z.inj_succ, Z.pow_succ_r in Hn by lia.
        split; [apply Z.div_pos; lia|]. apply Z.div_lt_upper_bound; lia.
      * lia.
      * exists (k + 1). split; [lia|]. intros a. rewrite IHk. cbn [parse_digits].
        rewrite digit_val_char by lia. f_equal.
        rewrite Z.pow_add_r by lia. lia.
Qed.

Lemma print_digits_head fuel : forall n acc,
  (0 < fuel)%nat -> exists d r, 0 <= d < 10 /\ print_digits fuel n acc = String (digit_char d) r.
Proof.
  induction fuel as [|f IH]; intros n acc Hf; [lia|]. cbn [print_digits].
  pose proof (Z.mod_pos_bound n 10 ltac:(lia)) as Hm.
  destruct (n / 10 =? 0); [eauto|].
  destruct f as [|f']; [cbn; eauto|]. apply IH. lia.
Qed.

Lemma log2_fuel n : 0 <= n -> 0 <= n < 2 ^ Z.of_nat (S (Z.to_nat (Z.log2 n))).
Proof.
  intros Hn. split; [done|].
  rewrite Nat2Z.inj_succ, Z2Nat.id by apply Z.log2_nonneg.
  destruct (Z.eq_dec n 0) as [->|]; [cbn; lia|].
  apply Z.log2_spec. lia.
Qed.

Lemma parse_int_digit d r :
  0 <= d < 10 -> parse_int (String (digit_char d) r) = parse_digits 0 (String (digit_char d) r).
Proof.
  intros H.
  assert (d = 0 \/ d = 1 \/ d = 2 \/ d = 3 \/ d = 4 \/ d = 5 \/ d = 6 \/ d = 7 \/ d = 8 \/ d = 9)
    as Hd by lia.
  repeat destruct Hd as [-> | Hd]; subst; reflexivity.
Qed.

Lemma parse_int_Itoa n : parse_int (Itoa n) = Some n.
Proof.
  unfold Itoa. destruct (n <? 0) eqn:E; bool_to_prop.
  - destruct (print_digits_head (S (Z.to_nat (Z.log2 (- n)))) (- n) "") as (d & r & Hd & Hp); [lia|].
    destruct (parse_print_digits (S (Z.to_nat (Z.log2 (- n)))) (- n) "") as (k & _ & Hk);
      [apply log2_fuel; lia | lia |].
    specialize (Hk 0). rewrite Hp in *. cbn [parse_int]. rewrite Hk. cbn. f_equal. lia.
  - destruct (print_digits_head (S (Z.to_nat (Z.log2 n))) n "") as (d & r & Hd & Hp); [lia|].
    destruct (parse_print_digits (S (Z.to_nat (Z.log2 n))) n "") as (k & _ & Hk);
      [apply log2_fuel; lia | lia |].
    specialize (Hk 0). rewrite Hp in *. rewrite parse_int_digit by done.
    rewrite Hk. cbn. f_equal.
Qed.

Lemma Itoa_inj n m : Itoa n = Itoa m -> n = m.
Proof. intros H%(f_equal parse_int). rewrite !parse_int_Itoa in H. congruence. Qed.

Lemma Atoi_Itoa_eq n : int64 n -> Atoi (Itoa n) = (n, None).
Proof.
  intros [Hl Hu]. unfold Atoi. rewrite parse_int_Itoa.
  destruct (n <? min_int64) eqn:E1; destruct (max_int64 <? n) eqn:E2; bool_to_prop; lia || done.
Qed.

(** *** Splitting *)

Lemma split_on_no_char c s : no_char c s = true -> split_on c s = [s].
Proof.
  induction s as [|a r IH]; cbn; [done|]. intros [Ha Hr]%andb_true_iff.
  apply negb_true_iff in Ha. by rewrite Ha, IH.
Qed.

Lemma split_on_app c s t :
  no_char c s = true -> split_on c (s ++ String c t) = s :: split_on c t.
Proof.
  induction s as [|a r IH]; cbn.
  - by rewrite Ascii.eqb_refl.
  - intros [Ha Hr]%andb_true_iff. apply negb_true_iff in Ha. by rewrite Ha, IH.
Qed.

Lemma no_char_app c s t : no_char c (s ++ t) = no_char c s && no_char c t.
Proof. induction s as [|a r IH]; cbn; [done|]. by rewrite IH, andb_assoc. Qed.

Lemma prefix_app s t : String.prefix s (s ++ t) = true.
Proof.
  induction s as [|a r IH]; cbn; [by destruct t|]. destruct (ascii_dec a a); [exact IH | congruence].
Qed.

Lemma HasPrefix_app s t : HasPrefix (s ++ t) s = true.
Proof. apply prefix_app. Qed.

Lemma length_append s t : String.length (s ++ t) = (String.length s + String.length t)%nat.
Proof. induction s as [|a r IH]; cbn; [done|]. by rewrite IH. Qed.

Lemma substring_all t : String.substring 0 (String.length t) t = t.
Proof. induction t as [|a r IH]; cbn; [done|]. by rewrite IH. Qed.

Lemma substring_skip s t :
  String.substring (String.length s) (String.length t) (s ++ t) = t.
Proof. induction s as [|a r IH]; cbn; [apply substring_all|done]. Qed.

Lemma HasSuffix_app s t : HasSuffix (s ++ t) t = true.
Proof.
  unfold HasSuffix. rewrite length_append.
  replace (String.length s + String.length t - String.length t)%nat with (String.length s) by lia.
  rewrite substring_skip, String.eqb_refl, andb_true_r. apply Nat.leb_le. lia.
Qed.

Lemma append_assoc s t u : (s ++ t) ++ u = s ++ (t ++ u).
Proof. induction s as [|a r IH]; cbn; [done|]. by rewrite IH. Qed.

Lemma append_inj_l s t u : s ++ t = s ++ u -> t = u.
Proof. induction s as [|a r IH]; cbn; [done|]. intros [= H]. auto. Qed.
