(* ===== verification/Models.v ===== *)
(** * Data of the program: internal/models, and the schema and statements of
    the database (migrations/, and the SQL texts of the services). *)
From S2P Require Import Prelude GoStd.
Local Open Scope string_scope.
Local Open Scope Z_scope.

(** A UUID is its 128-bit value. *)
Definition uuid : Type := N.
#[global] Instance uuid_eq_dec : EqDecision uuid := N.eq_dec.
#[global] Instance uuid_countable : Countable uuid := N_countable.

(** ** internal/models *)

Inductive ReservationStatus :=
| ReservationStatusReserved
| ReservationStatusConfirmed
| ReservationStatusReleased
| ReservationStatusExpired.

#[global] Instance ReservationStatus_eq_dec : EqDecision ReservationStatus.
Proof. solve_decision. Defined.

(** Instants are nanoseconds since the epoch. *)
Record Reservation := mkReservation {
  ID : uuid;
  UserID : uuid;
  SaleID : uuid;
  ItemID : uuid;
  Status : ReservationStatus;
  ReservedAt : Z;
  ConfirmedAt : option Z;
  ExpiresAt : Z
}.

(** [Amount] is a float64 in the source, which only ever stores 0 there; the
    model keeps hundredths, as the DECIMAL(10, 2) column does. *)
Record Order := mkOrder {
  OrderID : uuid;
  OrderReservationID : uuid;
  OrderUserID : uuid;
  OrderSaleID : uuid;
  Amount : Z;
  OrderStatus : string;
  IdempotencyKey : string;
  OrderCreatedAt : Z
}.

(** [SaleStatus] is a Go string: the API stores whatever it is sent. *)
Definition SaleStatus : Type := string.
Definition SaleStatusPending : SaleStatus := "pending".
Definition SaleStatusActive : SaleStatus := "active".
Definition SaleStatusPaused : SaleStatus := "paused".
Definition SaleStatusEnded : SaleStatus := "ended".

Record Sale := mkSale {
  SaleRowID : uuid;
  Name : string;
  TotalStock : Z;
  StartTime : Z;
  EndTime : Z;
  SaleStatusField : SaleStatus;
  SaleCreatedAt : Z
}.

Record SaleStats := mkSaleStats { Available : Z; Reserved : Z; Total : Z }.

(** JSON values, for the payloads of the events and of the audit log.
    [JBase64 j] is the string json.Marshal makes of a []byte that holds [j]. *)
#[local] Set Warnings "-register-all".
Inductive json :=
| JNum (z : Z)
| JBool (b : bool)
| JStr (s : string)
| JObj (fields : list (string * json))
| JBase64 (j : json).

(** ** The tables *)

Record reservation_row := mkRow { row_res : Reservation; row_promoted : bool }.

Record audit_row := mkAudit {
  EntityType : string;
  EntityID : uuid;
  EventType : string;
  Payload : json
}.

(** The columns of [users] and [sale_items] other than the key are never read. *)
Record db := mkDB {
  t_users : gset uuid;
  t_sales : gmap uuid Sale;
  t_sale_items : gset uuid;
  t_reservations : gmap uuid reservation_row;
  t_orders : gmap uuid Order;
  t_audit : list audit_row
}.

Definition set_sales (f : gmap uuid Sale -> gmap uuid Sale) (d : db) : db :=
  mkDB (t_users d) (f (t_sales d)) (t_sale_items d) (t_reservations d) (t_orders d) (t_audit d).
Definition set_reservations (f : gmap uuid reservation_row -> gmap uuid reservation_row) (d : db) : db :=
  mkDB (t_users d) (t_sales d) (t_sale_items d) (f (t_reservations d)) (t_orders d) (t_audit d).
Definition set_orders (f : gmap uuid Order -> gmap uuid Order) (d : db) : db :=
  mkDB (t_users d) (t_sales d) (t_sale_items d) (t_reservations d) (f (t_orders d)) (t_audit d).
Definition set_audit (f : list audit_row -> list audit_row) (d : db) : db :=
  mkDB (t_users d) (t_sales d) (t_sale_items d) (t_reservations d) (t_orders d) (f (t_audit d)).

(** CONSTRAINT valid_confirmation. *)
Definition valid_confirmation (r : Reservation) : bool :=
  match Status r, ConfirmedAt r with
  | ReservationStatusConfirmed, Some _ => true
  | ReservationStatusConfirmed, None => false
  | _, None => true
  | _, Some _ => false
  end.

(** TYPE order_status. *)
Definition order_status_enum : list string := ["pending"; "paid"; "failed"; "refunded"].

(** INTEGER and VARCHAR(n) columns; a character is one byte here. *)
Definition int4b (n : Z) : bool := (-2147483648 <=? n) && (n <=? 2147483647).
Definition varchar (n : nat) (s : string) : bool := Nat.leb (String.length s) n.

(** ** The statements that write *)

Inductive stmt :=
| InsertSale (s : Sale)
| UpdateSaleStatusStmt (status : SaleStatus) (id : uuid)
| InsertReservation (r : Reservation) (promoted : bool)
| UpdateReservationStatus (status : ReservationStatus) (id : uuid)
| UpdateReservationConfirmed (status : ReservationStatus) (confirmed_at : Z) (id : uuid)
| InsertOrder (o : Order)
| InsertAudit (a : audit_row).

Definition with_status (st : ReservationStatus) (r : Reservation) : Reservation :=
  mkReservation (ID r) (UserID r) (SaleID r) (ItemID r) st (ReservedAt r) (ConfirmedAt r) (ExpiresAt r).
Definition with_confirmed_at (t : option Z) (r : Reservation) : Reservation :=
  mkReservation (ID r) (UserID r) (SaleID r) (ItemID r) (Status r) (ReservedAt r) t (ExpiresAt r).
Definition on_row (f : Reservation -> Reservation) (w : reservation_row) : reservation_row :=
  mkRow (f (row_res w)) (row_promoted w).
Definition with_sale_status (st : SaleStatus) (s : Sale) : Sale :=
  mkSale (SaleRowID s) (Name s) (TotalStock s) (StartTime s) (EndTime s) st (SaleCreatedAt s).

Definition idempotency_key_used (key : string) (m : gmap uuid Order) : bool :=
  existsb (fun p => String.eqb (IdempotencyKey (snd p)) key) (map_to_list m).

(** The constraints the schema puts on a statement. *)
Definition stmt_ok (s : stmt) (d : db) : bool :=
  match s with
  | InsertSale x =>
      bool_decide (t_sales d !! SaleRowID x = None) && varchar 255 (Name x)
      && int4b (TotalStock x) && varchar 50 (SaleStatusField x)
  | UpdateSaleStatusStmt st _ => varchar 50 st
  | InsertReservation r _ =>
      bool_decide (t_reservations d !! ID r = None)
      && bool_decide (UserID r ∈ t_users d)
      && bool_decide (is_Some (t_sales d !! SaleID r))
      && bool_decide (ItemID r ∈ t_sale_items d)
      && valid_confirmation (with_confirmed_at None r)
  | UpdateReservationStatus st id =>
      match t_reservations d !! id with
      | Some w => valid_confirmation (with_status st (row_res w))
      | None => true
      end
  | UpdateReservationConfirmed st t id =>
      match t_reservations d !! id with
      | Some w => valid_confirmation (with_confirmed_at (Some t) (with_status st (row_res w)))
      | None => true
      end
  | InsertOrder o =>
      bool_decide (t_orders d !! OrderID o = None)
      && bool_decide (is_Some (t_reservations d !! OrderReservationID o))
      && bool_decide (OrderUserID o ∈ t_users d)
      && bool_decide (is_Some (t_sales d !! OrderSaleID o))
      && bool_decide (OrderStatus o ∈ order_status_enum)
      && varchar 255 (IdempotencyKey o)
      && negb (idempotency_key_used (IdempotencyKey o) (t_orders d))
  | InsertAudit a => varchar 100 (EntityType a) && varchar 100 (EventType a)
  end.

(** What a statement that is accepted does to the tables. *)
Definition stmt_effect (s : stmt) (d : db) : db :=
  match s with
  | InsertSale x => set_sales (<[SaleRowID x := x]>) d
  | UpdateSaleStatusStmt st id => set_sales (alter (with_sale_status st) id) d
  | InsertReservation r p =>
      set_reservations (<[ID r := mkRow (with_confirmed_at None r) p]>) d
  | UpdateReservationStatus st id => set_reservations (alter (on_row (with_status st)) id) d
  | UpdateReservationConfirmed st t id =>
      set_reservations (alter (on_row (fun r => with_confirmed_at (Some t) (with_status st r))) id) d
  | InsertOrder o => set_orders (<[OrderID o := o]>) d
  | InsertAudit a => set_audit (fun l => l ++ [a])%list d
  end.

Fixpoint stmts_ok (l : list stmt) (d : db) : bool :=
  match l with
  | [] => true
  | s :: l' => stmt_ok s d && stmts_ok l' (stmt_effect s d)
  end.

Definition stmts_effect (l : list stmt) (d : db) : db := fold_left (fun d s => stmt_effect s d) l d.

(** ** The queries *)

(** [WHERE sale_id = $1 AND status = 'reserved' AND expires_at > NOW()]. *)
Definition live_reservation (sale : uuid) (now : Z) (w : reservation_row) : bool :=
  bool_decide (SaleID (row_res w) = sale)
  && bool_decide (Status (row_res w) = ReservationStatusReserved)
  && (now <? ExpiresAt (row_res w)).

(** [WHERE sale_id = $1 AND status IN ('pending', 'paid')]. *)
Definition counted_order (sale : uuid) (o : Order) : bool :=
  bool_decide (OrderSaleID o = sale)
  && (String.eqb (OrderStatus o) "pending" || String.eqb (OrderStatus o) "paid").

(** [COUNT] of the rows a test selects. *)
Definition count {A} (f : A -> bool) (m : gmap uuid A) : Z :=
  Z.of_nat (size (filter (fun p => f (snd p) = true) m)).

(** Queries answered with one row ([QueryRow]); [None] is pgx.ErrNoRows. *)
Inductive row_query : Type -> Type :=
| SelectReservation (id : uuid) : row_query (option Reservation)
| SelectOrderByKey (key : string) : row_query (option Order)
| SelectOrder (id : uuid) : row_query (option Order)
| SelectSale (id : uuid) : row_query (option Sale)
| CountLiveReservations (sale : uuid) : row_query (option Z)
| CountOrders (sale : uuid) : row_query (option Z).

Definition row_answer {X} (q : row_query X) (now : Z) (d : db) : X :=
  match q with
  | SelectReservation id => row_res <$> t_reservations d !! id
  | SelectOrderByKey key =>
      snd <$> find (fun p => String.eqb (IdempotencyKey (snd p)) key) (map_to_list (t_orders d))
  | SelectOrder id => t_orders d !! id
  | SelectSale id => t_sales d !! id
  | CountLiveReservations sale => Some (count (live_reservation sale now) (t_reservations d))
  | CountOrders sale => Some (count (counted_order sale) (t_orders d))
  end.

(** Queries answered with several rows ([Query]), in no order the program
    asks for. *)
Inductive rows_query : Type -> Type :=
| SelectActiveSales : rows_query (uuid * Z)
| SelectExpiring : rows_query (uuid * uuid * Z).

(** [expires_at BETWEEN NOW() + 55 s AND NOW() + 90 s], status reserved. *)
Definition expiring_soon (now : Z) (w : reservation_row) : bool :=
  bool_decide (Status (row_res w) = ReservationStatusReserved)
  && (now + 55000000000 <=? ExpiresAt (row_res w))
  && (ExpiresAt (row_res w) <=? now + 90000000000).

Definition rows_answer {X} (q : rows_query X) (now : Z) (d : db) : list X :=
  match q with
  | SelectActiveSales =>
      (fun p => (fst p, TotalStock (snd p))) <$>
        base.filter (fun p => SaleStatusField (snd p) = SaleStatusActive) (map_to_list (t_sales d))
  | SelectExpiring =>
      (fun p => (fst p, UserID (row_res (snd p)), ExpiresAt (row_res (snd p)))) <$>
        base.filter (fun p => expiring_soon now (snd p) = true) (map_to_list (t_reservations d))
  end.
