(* ===== verification/Schema.v ===== *)
(** * Well-formedness of the tables

    The constraints of migrations/ as an invariant, kept by every statement
    the program sends. *)
From S2P Require Import Prelude GoStd Models.
Local Open Scope string_scope.
Local Open Scope Z_scope.

(** Primary keys index their row, foreign keys point somewhere, statuses and
    idempotency keys obey their constraints. *)
Record schema_ok (d : db) : Prop := {
  so_sale_key : forall k s, t_sales d !! k = Some s -> SaleRowID s = k;
  so_reservation_key : forall k w, t_reservations d !! k = Some w -> ID (row_res w) = k;
  so_reservation_user : forall k w, t_reservations d !! k = Some w -> UserID (row_res w) ∈ t_users d;
  so_reservation_sale : forall k w, t_reservations d !! k = Some w ->
    is_Some (t_sales d !! SaleID (row_res w));
  so_reservation_item : forall k w, t_reservations d !! k = Some w ->
    ItemID (row_res w) ∈ t_sale_items d;
  so_confirmation : forall k w, t_reservations d !! k = Some w ->
    valid_confirmation (row_res w) = true;
  so_order_key : forall k o, t_orders d !! k = Some o -> OrderID o = k;
  so_order_reservation : forall k o, t_orders d !! k = Some o ->
    is_Some (t_reservations d !! OrderReservationID o);
  so_order_sale : forall k o, t_orders d !! k = Some o -> is_Some (t_sales d !! OrderSaleID o);
  so_order_status : forall k o, t_orders d !! k = Some o -> OrderStatus o ∈ order_status_enum;
  so_idempotency_unique : forall k1 k2 o1 o2,
    t_orders d !! k1 = Some o1 -> t_orders d !! k2 = Some o2 ->
    IdempotencyKey o1 = IdempotencyKey o2 -> k1 = k2
}.

(** ** Lemmas *)

Lemma idempotency_key_used_spec key m :
  idempotency_key_used key m = true <-> exists k o, m !! k = Some o /\ IdempotencyKey o = key.
Proof.
  unfold idempotency_key_used. rewrite existsb_exists. split.
  - intros ([k o] & Hin & Heq). exists k, o. apply String.eqb_eq in Heq. split; [|done].
    by apply elem_of_map_to_list, list_elem_of_In.
  - intros (k & o & Hk & Heq). exists (k, o). split; [by apply list_elem_of_In, elem_of_map_to_list|].
    by apply String.eqb_eq.
Qed.

Lemma row_answer_key_none key now d :
  row_answer (SelectOrderByKey key) now d = None <-> idempotency_key_used key (t_orders d) = false.
Proof.
  cbn. unfold idempotency_key_used. set (l := map_to_list (t_orders d)). clearbody l.
  induction l as [|p l IH]; cbn; [done|]. destruct (String.eqb _ key); cbn; [done|exact IH].
Qed.

Lemma row_answer_key_some key now d o :
  row_answer (SelectOrderByKey key) now d = Some o ->
  exists k, t_orders d !! k = Some o /\ IdempotencyKey o = key.
Proof.
  cbn. destruct (find _ _) as [[k o']|] eqn:E; cbn; [|done]. intros [= <-].
  apply find_some in E as [Hin Heq]. exists k. apply String.eqb_eq in Heq. split; [|done].
  by apply elem_of_map_to_list, list_elem_of_In.
Qed.

Lemma schema_insert_sale d s : schema_ok d -> stmt_ok (InsertSale s) d = true ->
  schema_ok (stmt_effect (InsertSale s) d).
Proof.
  intros H Hok. cbn in Hok. rewrite !andb_true_iff, bool_decide_eq_true in Hok.
  destruct Hok as [[[Hfresh _] _] _].
  assert (forall k, is_Some (t_sales d !! k) -> is_Some (<[SaleRowID s := s]> (t_sales d) !! k)) as Hm.
  { intros k Hk. destruct (decide (SaleRowID s = k)) as [<-|Hne].
    - rewrite lookup_insert_eq. eauto.
    - by rewrite lookup_insert_ne. }
  destruct H. split; cbn; eauto.
  intros k x. rewrite lookup_insert. case_decide; [intros [= <-]; done|eauto].
Qed.

Lemma schema_sale_status d st id : schema_ok d ->
  schema_ok (stmt_effect (UpdateSaleStatusStmt st id) d).
Proof.
  intros H.
  assert (forall k, is_Some (t_sales d !! k) -> is_Some (alter (with_sale_status st) id (t_sales d) !! k))
    as Hm.
  { intros k Hk. rewrite lookup_alter. case_decide; [|done]. subst. by apply fmap_is_Some. }
  destruct H. split; cbn; eauto.
  intros k x. rewrite lookup_alter. case_decide; [|eauto]. subst.
  destruct (t_sales d !! k) as [y|] eqn:E; [|done]. intros [= <-]. cbn. eauto.
Qed.

Lemma schema_insert_reservation d r p : schema_ok d -> stmt_ok (InsertReservation r p) d = true ->
  schema_ok (stmt_effect (InsertReservation r p) d).
Proof.
  intros H Hok. cbn [stmt_ok] in Hok. rewrite !andb_true_iff, !bool_decide_eq_true in Hok.
  destruct Hok as [[[[Hfresh Hu] Hs] Hi] Hc].
  assert (forall (P : reservation_row -> Prop) k w,
    P (mkRow (with_confirmed_at None r) p) ->
    (forall w, t_reservations d !! k = Some w -> P w) ->
    <[ID r := mkRow (with_confirmed_at None r) p]> (t_reservations d) !! k = Some w -> P w) as Hrow.
  { intros P k w HP Hold. rewrite lookup_insert. case_decide; [intros [= <-]; done|apply Hold]. }
  destruct H. split; cbn; eauto.
  - intros k w. rewrite lookup_insert. case_decide; [intros [= <-]; done|eauto].
  - intros k w. apply (Hrow (fun w => UserID (row_res w) ∈ t_users d)); eauto.
  - intros k w. apply (Hrow (fun w => is_Some (t_sales d !! SaleID (row_res w)))); eauto.
  - intros k w. apply (Hrow (fun w => ItemID (row_res w) ∈ t_sale_items d)); eauto.
  - intros k w. apply (Hrow (fun w => valid_confirmation (row_res w) = true)); eauto.
  - intros k o Ho. rewrite lookup_insert. case_decide; eauto.
Qed.

(** An update of one row in place. *)
Lemma schema_update_row d f id :
  schema_ok d ->
  (forall r, ID (f r) = ID r /\ UserID (f r) = UserID r /\ SaleID (f r) = SaleID r /\
     ItemID (f r) = ItemID r) ->
  (forall w, t_reservations d !! id = Some w -> valid_confirmation (f (row_res w)) = true) ->
  schema_ok (set_reservations (alter (on_row f) id) d).
Proof.
  intros H Hf Hc.
  assert (forall (P : reservation_row -> Prop) k w,
    (forall w, t_reservations d !! k = Some w -> k = id -> P (on_row f w)) ->
    (forall w, t_reservations d !! k = Some w -> P w) ->
    alter (on_row f) id (t_reservations d) !! k = Some w -> P w) as Hrow.
  { intros P k w Hnew Hold. rewrite lookup_alter. case_decide; [|apply Hold]. subst.
    destruct (t_reservations d !! k) as [y|] eqn:E; [|done]. intros [= <-]. eauto. }
  destruct H. split; cbn; eauto.
  - intros k w. apply (Hrow (fun w => ID (row_res w) = k)); eauto.
    intros y Hy _. cbn. rewrite (proj1 (Hf _)). eauto.
  - intros k w. apply (Hrow (fun w => UserID (row_res w) ∈ t_users d)); eauto.
    intros y Hy _. cbn. rewrite (proj1 (proj2 (Hf _))). eauto.
  - intros k w. apply (Hrow (fun w => is_Some (t_sales d !! SaleID (row_res w)))); eauto.
    intros y Hy _. cbn. rewrite (proj1 (proj2 (proj2 (Hf _)))). eauto.
  - intros k w. apply (Hrow (fun w => ItemID (row_res w) ∈ t_sale_items d)); eauto.
    intros y Hy _. cbn. rewrite (proj2 (proj2 (proj2 (Hf _)))). eauto.
  - intros k w. apply (Hrow (fun w => valid_confirmation (row_res w) = true)); eauto.
    intros y Hy ->. by apply Hc.
  - intros k o Ho. rewrite lookup_alter. case_decide; [|eauto]. subst. apply fmap_is_Some. eauto.
Qed.

Lemma schema_insert_order d o : schema_ok d -> stmt_ok (InsertOrder o) d = true ->
  schema_ok (stmt_effect (InsertOrder o) d).
Proof.
  intros H Hok. cbn [stmt_ok] in Hok.
  rewrite !andb_true_iff, !bool_decide_eq_true, negb_true_iff in Hok.
  destruct Hok as [[[[[[Hfresh Hr] Hu] Hs] Hst] _] Hkey].
  assert (forall k x, t_orders d !! k = Some x -> IdempotencyKey x <> IdempotencyKey o) as Hnew.
  { intros k x Hx E. assert (idempotency_key_used (IdempotencyKey o) (t_orders d) = true) as F.
    { apply idempotency_key_used_spec. eauto. }
    congruence. }
  destruct H. split; cbn; eauto.
  - intros k x. rewrite lookup_insert. case_decide; [intros [= <-]; done|eauto].
  - intros k x. rewrite lookup_insert. case_decide; [intros [= <-]; done|eauto].
  - intros k x. rewrite lookup_insert. case_decide; [intros [= <-]; done|eauto].
  - intros k x. rewrite lookup_insert. case_decide; [intros [= <-]; done|eauto].
  - intros k1 k2 o1 o2. rewrite !lookup_insert. repeat case_decide; subst; try done.
    + intros [= <-] Hk2 E. by destruct (Hnew k2 o2).
    + intros Hk1 [= <-] E. by destruct (Hnew k1 o1).
    + eauto.
Qed.

Lemma schema_step (s : stmt) (d : db) :
  schema_ok d -> stmt_ok s d = true -> schema_ok (stmt_effect s d).
Proof.
  intros H Hok. destruct s.
  - by apply schema_insert_sale.
  - by apply schema_sale_status.
  - by apply schema_insert_reservation.
  - apply schema_update_row; [done|done|]. intros w Hw. cbn in Hok. by rewrite Hw in Hok.
  - apply schema_update_row; [done|done|]. intros w Hw. cbn [stmt_ok] in Hok. by rewrite Hw in Hok.
  - by apply schema_insert_order.
  - destruct H. by split.
Qed.

Lemma schema_steps (l : list stmt) (d : db) :
  schema_ok d -> stmts_ok l d = true -> schema_ok (stmts_effect l d).
Proof.
  revert d. induction l as [|s l IH]; intros d H Hok; [done|].
  cbn [stmts_ok] in Hok. apply andb_true_iff in Hok as [Hs Hl].
  exact (IH _ (schema_step s d H Hs) Hl).
Qed.
