(* ===== verification/Services.v ===== *)
(** * The services and libraries the program calls, as parameters

    Redis, PostgreSQL, google/uuid, the Lua number library and the outside
    world (clock, network faults, random numbers) are not code of this
    repository: each is a class of operations, and what the program relies on
    is a second class of laws, stated on what can be observed. *)
From S2P Require Import Prelude GoStd Models.
From Stdlib Require Import Ascii QArith OrdersEx.
Local Open Scope string_scope.
Local Open Scope Z_scope.

(** ** google/uuid *)

Class UuidLib := {
  uuid_String : uuid -> string;
  uuid_Parse : string -> error + uuid
}.

Class UuidLaws `{UL : UuidLib} := {
  Parse_String : forall u, uuid_Parse (uuid_String u) = inr u;
  String_no_colon : forall u, no_char ":"%char (uuid_String u) = true;
  Parse_short : forall s, (String.length s < 32)%nat -> exists e, uuid_Parse s = inl e
}.

(** ** Lua 5.1 numbers: rationals, rounded after each operation *)

Class LuaNum := {
  lua_round : Q -> Q;
  lua_tonumber : string -> option Q;
  lua_tostring : Q -> string
}.

Class LuaNumLaws `{LN : LuaNum} := {
  lua_round_mono : forall p q, (p <= q)%Q -> (lua_round p <= lua_round q)%Q;
  lua_round_int : forall n, -9007199254740992 <= n <= 9007199254740992 ->
    (lua_round (inject_Z n) == inject_Z n)%Q;
  lua_tonumber_Itoa : forall n, int64 n ->
    lua_tonumber (Itoa n) = Some (lua_round (inject_Z n));
  lua_tonumber_tostring : forall q,
    exists q', lua_tonumber (lua_tostring (lua_round q)) = Some q' /\ (q' == lua_round q)%Q
}.

(** How go-redis writes a float64 argument, and that Lua reads it back. *)
Class FloatArg := format_float : Q -> string.

Class FloatArgLaws `{LN : LuaNum} `{FA : FloatArg} := {
  tonumber_format_float : forall q, (lua_round q == q)%Q ->
    exists q', lua_tonumber (format_float q) = Some q' /\ (q' == q)%Q
}.

(** ** Redis *)

(** A value of the keyspace. *)
Inductive rval :=
| RStr (s : string)
| RHash (h : gmap string string)
| RZset (z : gmap string Z).

(** Members of a sorted set, by score and then by byte order. *)
Definition zmember_before (a b : string * Z) : bool :=
  (snd a <? snd b) || ((snd a =? snd b) && (fst a <? fst b)%string).

Definition zrank (z : gmap string Z) (m : string) (score : Z) : Z :=
  Z.of_nat (length (base.filter (fun p => zmember_before p (m, score) = true) (map_to_list z))).

(** The commands, as the server executes them, each on the whole server state
    and answered with a value or an error. [dataset] is the keyspace (a key
    whose time to live has passed is no longer in it), [published] the
    messages handed to Pub/Sub so far. *)
Class RedisServer (R : Type) := {
  dataset : R -> gmap string rval;
  published : R -> list (string * json);
  GET : string -> R -> (error + option string) * R;
  SET : string -> string -> Z -> R -> (error + unit) * R;
  INCR : string -> R -> (error + Z) * R;
  DECR : string -> R -> (error + Z) * R;
  HSET : string -> list (string * string) -> R -> (error + unit) * R;
  HMGET : string -> list string -> R -> (error + list (option string)) * R;
  EXPIRE : string -> Z -> R -> (error + unit) * R;
  ZADD : string -> string -> string -> R -> (error + Z) * R;
  ZSCORE : string -> string -> R -> (error + option string) * R;
  ZRANK : string -> string -> R -> (error + option Z) * R;
  ZPOPMIN : string -> R -> (error + list string) * R;
  ZCARD : string -> R -> (error + Z) * R;
  ZREM : string -> string -> R -> (error + Z) * R;
  PUBLISH : string -> json -> R -> (error + unit) * R
}.

(** A command that answers [x], leaves the keyspace [d] and the messages [p]. *)
Definition answers {R X} `{RedisServer R} (res : (error + X) * R) (x : X)
    (d : gmap string rval) (p : list (string * json)) : Prop :=
  fst res = inr x /\ dataset (snd res) = d /\ published (snd res) = p.

(** Only the key [k] may differ. *)
Definition only_key {R} `{RedisServer R} (k : string) (r r' : R) : Prop :=
  forall k', k' <> k -> dataset r' !! k' = dataset r !! k'.

(** The string at a key that the string commands accept. *)
Definition str_at (d : gmap string rval) (k : string) : option string :=
  match d !! k with Some (RStr s) => Some s | _ => None end.

(** The integer a counter key holds; a missing key counts as 0 for INCR and
    DECR. *)
Definition counter_at (d : gmap string rval) (k : string) : option Z :=
  match d !! k with
  | Some (RStr s) =>
      match parse_int s with
      | Some n => if bool_decide (s = Itoa n) && int64b n then Some n else None
      | None => None
      end
  | _ => None
  end.

Definition zset_at (d : gmap string rval) (k : string) : option (gmap string Z) :=
  match d !! k with
  | Some (RZset z) => Some z
  | None => Some ∅
  | _ => None
  end.

Definition hash_at (d : gmap string rval) (k : string) : option (gmap string string) :=
  match d !! k with
  | Some (RHash h) => Some h
  | None => Some ∅
  | _ => None
  end.

(** A sorted set that becomes empty is removed. *)
Definition put_zset (k : string) (z : gmap string Z) (d : gmap string rval) : gmap string rval :=
  if decide (z = ∅) then delete k d else <[k := RZset z]> d.

(** What the documentation of each command says, for keys of the right type. *)
Class RedisLaws (R : Type) `{RS : RedisServer R} := {
  GET_none r k : dataset r !! k = None ->
    answers (GET k r) None (dataset r) (published r);
  GET_str r k s : dataset r !! k = Some (RStr s) ->
    answers (GET k r) (Some s) (dataset r) (published r);
  SET_spec r k v px :
    answers (SET k v px r) tt (<[k := RStr v]> (dataset r)) (published r);
  INCR_spec r k n : counter_at (dataset r) k = Some n \/ dataset r !! k = None /\ n = 0 ->
    n < max_int64 ->
    answers (INCR k r) (n + 1) (<[k := RStr (Itoa (n + 1))]> (dataset r)) (published r);
  DECR_spec r k n : counter_at (dataset r) k = Some n \/ dataset r !! k = None /\ n = 0 ->
    min_int64 < n ->
    answers (DECR k r) (n - 1) (<[k := RStr (Itoa (n - 1))]> (dataset r)) (published r);
  HSET_spec r k h fs : hash_at (dataset r) k = Some h ->
    answers (HSET k fs r) tt
      (<[k := RHash (fold_left (fun h p => <[fst p := snd p]> h) fs h)]> (dataset r)) (published r);
  HMGET_spec r k h fs : hash_at (dataset r) k = Some h ->
    answers (HMGET k fs r) ((fun f => h !! f) <$> fs) (dataset r) (published r);
  EXPIRE_spec r k n : answers (EXPIRE k n r) tt (dataset r) (published r);
  ZADD_spec r k z sc n m : zset_at (dataset r) k = Some z -> sc = Itoa n ->
    -9007199254740992 <= n <= 9007199254740992 ->
    exists a, answers (ZADD k sc m r) a (<[k := RZset (<[m := n]> z)]> (dataset r)) (published r);
  ZSCORE_spec r k z m : zset_at (dataset r) k = Some z ->
    exists o, answers (ZSCORE k m r) o (dataset r) (published r) /\ (is_Some o <-> is_Some (z !! m));
  ZRANK_spec r k z m : zset_at (dataset r) k = Some z ->
    answers (ZRANK k m r) (zrank z m <$> z !! m) (dataset r) (published r);
  ZPOPMIN_empty r k : zset_at (dataset r) k = Some ∅ ->
    answers (ZPOPMIN k r) [] (dataset r) (published r);
  ZPOPMIN_spec r k z : zset_at (dataset r) k = Some z -> z <> ∅ ->
    exists m sc s, z !! m = Some sc /\
      (forall m' sc', z !! m' = Some sc' -> zmember_before (m', sc') (m, sc) = false) /\
      answers (ZPOPMIN k r) [m; s] (put_zset k (delete m z) (dataset r)) (published r);
  ZCARD_spec r k z : zset_at (dataset r) k = Some z ->
    answers (ZCARD k r) (Z.of_nat (size z)) (dataset r) (published r);
  ZREM_spec r k z m : zset_at (dataset r) k = Some z ->
    answers (ZREM k m r) (if decide (is_Some (z !! m)) then 1 else 0)
      (put_zset k (delete m z) (dataset r)) (published r);
  PUBLISH_spec r ch m : answers (PUBLISH ch m r) tt (dataset r) (published r ++ [(ch, m)]);
  (* whatever the keys hold, a read changes nothing and a write only its key *)
  GET_read r k : dataset (snd (GET k r)) = dataset r;
  HMGET_read r k fs : dataset (snd (HMGET k fs r)) = dataset r;
  ZSCORE_read r k m : dataset (snd (ZSCORE k m r)) = dataset r;
  ZRANK_read r k m : dataset (snd (ZRANK k m r)) = dataset r;
  ZCARD_read r k : dataset (snd (ZCARD k r)) = dataset r;
  INCR_only r k : only_key k r (snd (INCR k r));
  DECR_only r k : only_key k r (snd (DECR k r));
  HSET_only r k fs : only_key k r (snd (HSET k fs r));
  ZADD_only r k sc m : only_key k r (snd (ZADD k sc m r));
  ZPOPMIN_only r k : only_key k r (snd (ZPOPMIN k r));
  ZREM_only r k m : only_key k r (snd (ZREM k m r))
}.

(** ** PostgreSQL *)

(** [tables] is the committed contents. [pg_exec] runs one statement in a
    transaction of its own; [pg_rows] answers the rows of a query, each with
    what [rows.Scan] makes of it; [pg_try] runs one inside a transaction that has
    executed the list so far; [pg_commit] commits such a list. *)
Class Postgres (D : Type) := {
  tables : D -> db;
  pg_exec : stmt -> D -> (error + unit) * D;
  pg_row : forall {X}, row_query X -> Z -> D -> error + X;
  pg_rows : forall {X}, rows_query X -> Z -> D -> error + list (error + X);
  pg_try : list stmt -> stmt -> D -> error + unit;
  pg_commit : list stmt -> D -> (error + unit) * D
}.

Class PostgresLaws (D : Type) `{PG : Postgres D} := {
  pg_exec_ok d s : stmt_ok s (tables d) = true ->
    fst (pg_exec s d) = inr tt /\ tables (snd (pg_exec s d)) = stmt_effect s (tables d);
  pg_exec_rejected d s : stmt_ok s (tables d) = false ->
    (exists e, fst (pg_exec s d) = inl e) /\ tables (snd (pg_exec s d)) = tables d;
  pg_row_spec d X (q : row_query X) now : pg_row q now d = inr (row_answer q now (tables d));
  pg_rows_spec d X (q : rows_query X) now :
    exists l, pg_rows q now d = inr (inr <$> l) /\ l ≡ₚ rows_answer q now (tables d);
  pg_try_ok d l s : stmts_ok (l ++ [s]) (tables d) = true -> pg_try l s d = inr tt;
  pg_try_rejected d l s : stmts_ok (l ++ [s]) (tables d) = false -> exists e, pg_try l s d = inl e;
  pg_commit_ok d l : stmts_ok l (tables d) = true ->
    fst (pg_commit l d) = inr tt /\ tables (snd (pg_commit l d)) = stmts_effect l (tables d);
  pg_commit_rejected d l : stmts_ok l (tables d) = false ->
    (exists e, fst (pg_commit l d) = inl e) /\ tables (snd (pg_commit l d)) = tables d
}.

(** ** The outside world *)

(** What happens to the n-th call: it goes through, it fails before the
    service sees it, or it is executed and its answer is lost. *)
Inductive fault := NoFault | Dropped (e : error) | LostReply (e : error).

Class Oracle := {
  fault_at : nat -> fault;
  time_at : nat -> Z;
  uuid_at : nat -> uuid
}.

Definition faulty {S X} (f : fault) (op : S -> (error + X) * S) (s : S) : (error + X) * S :=
  match f with
  | NoFault => op s
  | Dropped e => (inl e, s)
  | LostReply e => (inl e, snd (op s))
  end.

(** No call fails for reasons of its own. *)
Class NoFaults `{O : Oracle} := no_fault : forall n, fault_at n = NoFault.

(** No answer is lost: a call that reports an error did nothing. *)
Class NoLostReplies `{O : Oracle} := no_lost_reply : forall n e, fault_at n <> LostReply e.

(** ** Lemmas *)

#[export] Instance NoFaults_no_lost `{O : Oracle} : NoFaults -> NoLostReplies.
Proof. intros H n e. rewrite H. done. Qed.

Lemma counter_at_insert d k n : int64 n -> counter_at (<[k := RStr (Itoa n)]> d) k = Some n.
Proof.
  intros H. unfold counter_at. rewrite lookup_insert_eq, parse_int_Itoa.
  rewrite bool_decide_true, (proj2 (int64b_spec n)) by done. done.
Qed.

Lemma counter_at_insert_ne d k k' v : k <> k' -> counter_at (<[k := v]> d) k' = counter_at d k'.
Proof. intros H. unfold counter_at. by rewrite lookup_insert_ne. Qed.

Lemma counter_at_str d k n :
  counter_at d k = Some n <-> d !! k = Some (RStr (Itoa n)) /\ int64 n.
Proof.
  unfold counter_at. split.
  - destruct (d !! k) as [[s| |]|] eqn:E; try done.
    destruct (parse_int s) as [m|] eqn:P; [|done].
    case_bool_decide as Hs; cbn; [|done]. destruct (int64b m) eqn:I; [|done].
    intros [= <-]. rewrite Hs. by apply int64b_spec in I.
  - intros [-> H]. rewrite parse_int_Itoa, bool_decide_true, (proj2 (int64b_spec n)) by done. done.
Qed.

(** The sign of a counter survives Lua's conversion to a float. *)
Lemma tonumber_nonpos `{LuaNumLaws} n : int64 n ->
  exists q, lua_tonumber (Itoa n) = Some q /\ Qle_bool q 0 = (n <=? 0).
Proof.
  intros Hn. exists (lua_round (inject_Z n)). split; [by apply lua_tonumber_Itoa|].
  destruct (n <=? 0) eqn:E; bool_to_prop.
  - apply Qle_bool_iff. rewrite <- (lua_round_int 0) by lia. apply lua_round_mono.
    rewrite <- Zle_Qle. lia.
  - destruct (Qle_bool _ _) eqn:F; [|done]. apply Qle_bool_iff in F.
    exfalso. assert (inject_Z 1 <= 0)%Q as X; [|by apply X].
    eapply Qle_trans; [|exact F]. rewrite <- (lua_round_int 1) by lia. apply lua_round_mono.
    rewrite <- Zle_Qle. lia.
Qed.

(** *** The order of a sorted set *)

Lemma string_compare_OT a : forall b, String.compare a b = String_as_OT.compare a b.
Proof. induction a as [|x a IH]; intros [|y b]; [done|done|done|]. cbn. by rewrite IH. Qed.

Lemma string_ltb_lt a b : (a <? b)%string = true <-> String_as_OT.lt a b.
Proof.
  unfold String.ltb, String_as_OT.lt. rewrite string_compare_OT.
  destruct (String_as_OT.compare a b); split; congruence.
Qed.

Lemma string_ltb_trans a b c : (a <? b)%string = true -> (b <? c)%string = true -> (a <? c)%string = true.
Proof. rewrite !string_ltb_lt. intros H1 H2. by transitivity b. Qed.

Lemma zmember_before_trans p q r :
  zmember_before p q = true -> zmember_before q r = true -> zmember_before p r = true.
Proof.
  unfold zmember_before. rewrite !orb_true_iff, !andb_true_iff, !Z.ltb_lt, !Z.eqb_eq.
  intros [H1|[H1 H1']] [H2|[H2 H2']]; try (left; lia).
  right. split; [lia|]. by eapply string_ltb_trans.
Qed.

Lemma zmember_before_irrefl p : zmember_before p p = false.
Proof.
  unfold zmember_before. rewrite Z.ltb_irrefl, Z.eqb_refl. cbn.
  destruct (fst p <? fst p)%string eqn:E; [|done]. apply string_ltb_lt in E.
  exfalso. exact (irreflexivity String_as_OT.lt _ E).
Qed.

(** Two entries neither of which stands before the other are the same. *)
Lemma zmember_before_total p q :
  zmember_before p q = false -> zmember_before q p = false -> p = q.
Proof.
  destruct p as [a x], q as [b y]. unfold zmember_before. cbn [fst snd].
  rewrite !orb_false_iff. intros [H1 H2] [H3 H4]. bool_to_prop.
  assert (x = y) as -> by lia. rewrite Z.eqb_refl in H2, H4. cbn in H2, H4. f_equal.
  unfold String.ltb in *. pose proof (String.compare_antisym a b) as E.
  destruct (String.compare a b) eqn:F; [by apply String.compare_eq_iff|done|].
  by destruct (String.compare b a).
Qed.
