(* ===== verification/Scripts.v ===== *)
(** * The Lua scripts (internal/redis/scripts)

    Each script is a function on the server state, run as one step: Redis
    executes nothing else while a script runs. A command that fails aborts the
    script with its error and keeps what the script has written so far. *)
From S2P Require Import Prelude GoStd Models Services.
From Stdlib Require Import QArith Qround.
Local Open Scope string_scope.
Local Open Scope Z_scope.

(** ** The script monad: server state and errors *)

Definition lua (R X : Type) : Type := R -> (error + X) * R.

Definition lua_ret {R X} (x : X) : lua R X := fun r => (inr x, r).
Definition lua_fail {R X} (e : error) : lua R X := fun r => (inl e, r).
Definition lua_bind {R X Y} (m : lua R X) (f : X -> lua R Y) : lua R Y := fun r =>
  match m r with
  | (inr x, r') => f x r'
  | (inl e, r') => (inl e, r')
  end.

Declare Scope lua_scope.
Delimit Scope lua_scope with lua.
Notation "'let@' x ':=' m 'in' k" := (lua_bind m (fun x => k))
  (at level 10, x binder, k at level 200) : lua_scope.
Notation "m ;;; k" := (lua_bind m (fun _ => k)) (at level 100, right associativity) : lua_scope.

(** What a script returns to the client. *)
Inductive lua_value := LInt (z : Z) | LStr (s : string) | LNil.

Section Scripts.
Context {R : Type} `{RS : RedisServer R} `{LN : LuaNum}.
Local Open Scope lua_scope.

(** [tonumber(redis.call('GET', key))]: a missing key is [false], which
    [tonumber] maps to nil. *)
Definition get_number (key : string) : lua R (option Q) :=
  let@ v := GET key in lua_ret (v ≫= lua_tonumber).

(** [not n or n <= 0]. *)
Definition nil_or_nonpos (n : option Q) : bool :=
  match n with
  | None => true
  | Some q => Qle_bool q 0
  end.

(** reserve.lua: KEYS = available, reserved. *)
Definition reserve_lua (k1 k2 : string) : lua R lua_value :=
  let@ available := get_number k1 in
  if nil_or_nonpos available then lua_ret (LInt (-1))
  else DECR k1 ;;; INCR k2 ;;; lua_ret (LInt 1).

(** release.lua: KEYS = available, reserved. *)
Definition release_lua (k1 k2 : string) : lua R lua_value :=
  INCR k1 ;;; DECR k2 ;;; lua_ret (LInt 1).

(** confirm.lua: KEYS = reserved, available, meta. *)
Definition confirm_lua (k1 : string) : lua R lua_value :=
  let@ reserved := get_number k1 in
  if nil_or_nonpos reserved then lua_ret (LInt (-1))
  else DECR k1 ;;; lua_ret (LInt 1).

(** waitlist_join.lua: KEYS = available, waitlist; ARGV = user, timestamp. *)
Definition waitlist_join_lua (k1 k2 user timestamp : string) : lua R lua_value :=
  let@ available := get_number k1 in
  if negb (nil_or_nonpos available) then lua_ret (LInt (-1))
  else
    let@ existing := ZSCORE k2 user in
    match existing with
    | Some _ => lua_ret (LInt (-2))
    | None =>
        ZADD k2 timestamp user ;;;
        let@ rank := ZRANK k2 user in
        lua_ret (match rank with Some n => LInt n | None => LNil end)
    end.

(** waitlist_promote.lua: KEYS = waitlist, available, reserved. *)
Definition waitlist_promote_lua (k1 k2 k3 : string) : lua R lua_value :=
  let@ available := get_number k2 in
  if nil_or_nonpos available then lua_ret (LStr "-1")
  else
    let@ result := ZPOPMIN k1 in
    match result with
    | [] => lua_ret (LStr "-1")
    | user_id :: _ => DECR k2 ;;; INCR k3 ;;; lua_ret (LStr user_id)
    end.

(** token_bucket.lua: KEYS = bucket; ARGV = capacity, rate, now (ms). The
    arithmetic is that of Lua numbers, each operation rounded; the reply of
    [math.floor] is an integer. *)
Definition bucket_refill (capacity rate now tokens last : Q) : Q :=
  let elapsed := lua_round (lua_round (now - last) / 1000) in
  let refilled := lua_round (tokens + lua_round (elapsed * rate)) in
  if Qle_bool capacity refilled then capacity else refilled.

Definition token_bucket_lua (k1 a1 a2 a3 : string) : lua R lua_value :=
  let@ bucket := HMGET k1 ["tokens"; "last_refill"] in
  match bucket, lua_tonumber a1, lua_tonumber a2, lua_tonumber a3 with
  | [b1; b2], Some capacity, Some rate, Some now =>
      let refill :=
        match b1 ≫= lua_tonumber, b2 ≫= lua_tonumber with
        | None, _ => Some (bucket_refill capacity rate now capacity now)
        | Some tokens, Some last => Some (bucket_refill capacity rate now tokens last)
        | Some _, None => None
        end in
      match refill with
      | None => lua_fail "attempt to perform arithmetic on a nil value"
      | Some tokens =>
          if Qle_bool 1 tokens then
            let tokens' := lua_round (tokens - 1) in
            HSET k1 [("tokens", lua_tostring tokens'); ("last_refill", lua_tostring now)] ;;;
            EXPIRE k1 60 ;;;
            lua_ret (LInt (Qfloor tokens'))
          else lua_ret (LInt (-1))
      end
  | _, _, _, _ => lua_fail "attempt to compare nil with number"
  end.

(** The scripts by the SHA the client keeps of each ([loadScripts]). *)
Inductive script :=
| reserveSHA | releaseSHA | confirmSHA | waitlistJoinSHA | waitlistPromoteSHA | tokenBucketSHA.

Definition run_script (s : script) (keys argv : list string) : lua R lua_value :=
  match s, keys, argv with
  | reserveSHA, [k1; k2], [] => reserve_lua k1 k2
  | releaseSHA, [k1; k2], [] => release_lua k1 k2
  | confirmSHA, [k1; _; _], [] => confirm_lua k1
  | waitlistJoinSHA, [k1; k2], [a1; a2] => waitlist_join_lua k1 k2 a1 a2
  | waitlistPromoteSHA, [k1; k2; k3], [] => waitlist_promote_lua k1 k2 k3
  | tokenBucketSHA, [k1], [a1; a2; a3] => token_bucket_lua k1 a1 a2 a3
  | _, _, _ => lua_fail "wrong number of keys or arguments"
  end.
End Scripts.

(** ** What each script does to the counters *)

Section ScriptLemmas.
Context {R : Type} `{RL : RedisLaws R} `{LL : LuaNumLaws}.

Lemma lua_bind_answers {X Y} (m : lua R X) (f : X -> lua R Y) r x d p :
  answers (m r) x d p -> lua_bind m f r = f x (snd (m r)).
Proof. intros (Hx & _ & _). unfold lua_bind. destruct (m r); cbn in *. by subst. Qed.

(** Run the head command of a script: [H] is its law. *)
Ltac lua_step H :=
  rewrite (lua_bind_answers _ _ _ _ _ _ H);
  let Hd := fresh "Hd" in let Hp := fresh "Hp" in
  destruct H as (_ & Hd & Hp);
  match type of Hd with dataset (snd ?c) = _ => generalize dependent (snd c) end;
  let r := fresh "r" in intros r Hd Hp.

Lemma get_number_counter r k n :
  counter_at (dataset r) k = Some n ->
  exists q, answers (get_number k r) (Some q) (dataset r) (published r) /\ Qle_bool q 0 = (n <=? 0).
Proof.
  intros [Hk Hn]%counter_at_str.
  destruct (tonumber_nonpos n Hn) as (q & Hq & Hle). exists q. split; [|done].
  unfold get_number. pose proof (GET_str r k _ Hk) as H. lua_step H.
  unfold lua_ret, answers. cbn. by rewrite Hq.
Qed.

Lemma get_number_missing r k :
  dataset r !! k = None -> answers (get_number k r) None (dataset r) (published r).
Proof. intros Hk. unfold get_number. pose proof (GET_none r k Hk) as H. by lua_step H. Qed.

Lemma reserve_lua_ok r k1 k2 a b :
  k1 <> k2 ->
  counter_at (dataset r) k1 = Some a -> counter_at (dataset r) k2 = Some b ->
  0 < a -> b < max_int64 ->
  answers (reserve_lua k1 k2 r) (LInt 1)
    (<[k2 := RStr (Itoa (b + 1))]> (<[k1 := RStr (Itoa (a - 1))]> (dataset r))) (published r).
Proof.
  intros Hne Ha Hb Hpos Hmax. unfold reserve_lua.
  destruct (get_number_counter r k1 a Ha) as (q & H & Hq). lua_step H.
  cbn. rewrite Hq, (proj2 (Z.leb_gt _ _) Hpos).
  pose proof (DECR_spec r0 k1 a) as H1. rewrite Hd, Hp in H1.
  specialize (H1 (or_introl Ha)). destruct H1 as (H1 & H1d & H1p); [unfold min_int64; lia|].
  unfold lua_bind. destruct (DECR k1 r0) as [x r1]. cbn in *. subst x.
  pose proof (INCR_spec r1 k2 b) as H2. rewrite H1d, H1p in H2.
  destruct H2 as (H2 & H2d & H2p); [left; by rewrite counter_at_insert_ne|done|].
  destruct (INCR k2 r1) as [x r2]. cbn in *. by subst x.
Qed.

Lemma reserve_lua_sold_out r k1 k2 a :
  counter_at (dataset r) k1 = Some a -> a <= 0 ->
  answers (reserve_lua k1 k2 r) (LInt (-1)) (dataset r) (published r).
Proof.
  intros Ha Hpos. unfold reserve_lua.
  destruct (get_number_counter r k1 a Ha) as (q & H & Hq). lua_step H.
  cbn. by rewrite Hq, (proj2 (Z.leb_le _ _) Hpos).
Qed.

Lemma release_lua_ok r k1 k2 a b :
  k1 <> k2 ->
  counter_at (dataset r) k1 = Some a -> counter_at (dataset r) k2 = Some b ->
  a < max_int64 -> min_int64 < b ->
  answers (release_lua k1 k2 r) (LInt 1)
    (<[k2 := RStr (Itoa (b - 1))]> (<[k1 := RStr (Itoa (a + 1))]> (dataset r))) (published r).
Proof.
  intros Hne Ha Hb Hmax Hmin. unfold release_lua.
  pose proof (INCR_spec r k1 a (or_introl Ha) Hmax) as H. lua_step H.
  pose proof (DECR_spec r0 k2 b) as H2. rewrite Hd, Hp in H2.
  destruct H2 as (H2 & H2d & H2p); [left; by rewrite counter_at_insert_ne|done|].
  unfold lua_bind. destruct (DECR k2 r0) as [x r2]. cbn in *. by subst x.
Qed.

Lemma confirm_lua_ok r k1 b :
  counter_at (dataset r) k1 = Some b -> 0 < b ->
  answers (confirm_lua k1 r) (LInt 1) (<[k1 := RStr (Itoa (b - 1))]> (dataset r)) (published r).
Proof.
  intros Hb Hpos. unfold confirm_lua.
  destruct (get_number_counter r k1 b Hb) as (q & H & Hq). lua_step H.
  cbn. rewrite Hq, (proj2 (Z.leb_gt _ _) Hpos).
  pose proof (DECR_spec r0 k1 b) as H1. rewrite Hd, Hp in H1.
  specialize (H1 (or_introl Hb)). destruct H1 as (H1 & H1d & H1p); [unfold min_int64; lia|].
  unfold lua_bind. destruct (DECR k1 r0) as [x r1]. cbn in *. by subst x.
Qed.

Lemma confirm_lua_none r k1 b :
  counter_at (dataset r) k1 = Some b -> b <= 0 ->
  answers (confirm_lua k1 r) (LInt (-1)) (dataset r) (published r).
Proof.
  intros Hb Hpos. unfold confirm_lua.
  destruct (get_number_counter r k1 b Hb) as (q & H & Hq). lua_step H.
  cbn. by rewrite Hq, (proj2 (Z.leb_le _ _) Hpos).
Qed.
End ScriptLemmas.
