(* ===== verification/World.v ===== *)
(** * Programs, the world they run in, and concurrency

    A handler of the program is a tree of calls to the outside: [prog]. One
    call is one step; between two calls of a handler other handlers may run. *)
From S2P Require Import Prelude GoStd Models Services Scripts.
Local Open Scope string_scope.
Local Open Scope Z_scope.

(** ** Calls *)

(** The Prometheus metrics a handler updates (internal/metrics). *)
Inductive metric :=
| ReservationTotal (sale_id result : string)
| ReservationDuration (sale_id : string) (ns : Z)
| StockLevel (sale_id : string) (v : Z)
| ReconciliationCorrections (n : Z)
| RateLimitedTotal (user_id : string)
| HTTPRequestsTotal (route method status : string).

Inductive pipe_cmd :=
| PSet (k v : string) (px : Z)
| PHSet (k : string) (fields : list (string * string)).

Inductive call : Type -> Type :=
| CEvalSha (s : script) (keys argv : list string) : call (error + lua_value)
| CGet (k : string) : call (error + string)
| CSet (k v : string) (px : Z) : call (error + unit)
| CHSet (k : string) (fields : list (string * string)) : call (error + unit)
| CPipeline (cmds : list pipe_cmd) : call (error + unit)
| CZRank (k m : string) : call (error + Z)
| CZCard (k : string) : call (error + Z)
| CZRem (k m : string) : call (error + Z)
| CPublish (channel : string) (payload : json) : call (error + unit)
| CConfigSet (parameter value : string) : call (error + unit)
| CExec (s : stmt) : call (error + unit)
| CRow {X} (q : row_query (option X)) : call (error + X)
| CRows {X} (q : rows_query X) : call (error + list (error + X))
| CRowsErr : call (error + unit)
| CBegin : call (error + unit)
| CTxExec (before : list stmt) (s : stmt) : call (error + unit)
| CCommit (l : list stmt) : call (error + unit)
| CRollback : call unit
| CNow : call Z
| CNewUUID : call uuid
| CMetric (m : metric) : call unit.

(** ** Programs *)

Inductive prog (A : Type) : Type :=
| Ret (a : A)
| Panic (msg : string)
| Vis {X : Type} (c : call X) (k : X -> prog A).
Arguments Ret {A}. Arguments Panic {A}. Arguments Vis {A X}.

Fixpoint pbind {A B} (p : prog A) (f : A -> prog B) : prog B :=
  match p with
  | Ret a => f a
  | Panic m => Panic m
  | Vis c k => Vis c (fun x => pbind (k x) f)
  end.

Definition invoke {X} (c : call X) : prog X := Vis c Ret.

(** [defer d] at the head of [p]: [d] runs when [p] returns and when it panics. *)
Fixpoint defer {A} (d : prog unit) (p : prog A) {struct p} : prog A :=
  match p with
  | Ret a => pbind d (fun _ => Ret a)
  | Panic m => pbind d (fun _ => Panic m)
  | Vis c k => Vis c (fun x => defer d (k x))
  end.

Declare Scope prog_scope.
Delimit Scope prog_scope with prog.
Bind Scope prog_scope with prog.
Notation "'let!' x ':=' p 'in' k" := (pbind p (fun x => k))
  (at level 10, x binder, p at level 200, k at level 200) : prog_scope.
Notation "p ;; k" := (pbind p (fun _ => k)) (at level 100, k at level 200, right associativity) : prog_scope.

(** ** The world *)

Record world (R D : Type) := mkWorld {
  w_redis : R;
  w_pg : D;
  w_calls : nat;
  w_metrics : list metric
}.
Arguments mkWorld {R D}. Arguments w_redis {R D}. Arguments w_pg {R D}.
Arguments w_calls {R D}. Arguments w_metrics {R D}.

Inductive outcome (A : Type) := Ok (a : A) | Panicked (msg : string).
Arguments Ok {A}. Arguments Panicked {A}.

Section World.
Context {R D : Type} `{RS : RedisServer R} `{LN : LuaNum} `{PG : Postgres D} `{O : Oracle}.

Definition tick (w : world R D) : world R D :=
  mkWorld (w_redis w) (w_pg w) (S (w_calls w)) (w_metrics w).
Definition set_redis (r : R) (w : world R D) : world R D :=
  mkWorld r (w_pg w) (w_calls w) (w_metrics w).
Definition set_pg (d : D) (w : world R D) : world R D :=
  mkWorld (w_redis w) d (w_calls w) (w_metrics w).
Definition add_metric (m : metric) (w : world R D) : world R D :=
  mkWorld (w_redis w) (w_pg w) (w_calls w) (w_metrics w ++ [m]).

Definition now (w : world R D) : Z := time_at (w_calls w).

Definition on_redis {X} (op : R -> (error + X) * R) (w : world R D) : (error + X) * world R D :=
  let '(x, r) := faulty (fault_at (w_calls w)) op (w_redis w) in (x, tick (set_redis r w)).

Definition on_pg {X} (op : D -> (error + X) * D) (w : world R D) : (error + X) * world R D :=
  let '(x, d) := faulty (fault_at (w_calls w)) op (w_pg w) in (x, tick (set_pg d w)).

(** go-redis turns a nil reply into the error redis.Nil. *)
Definition or_nil {X} (op : R -> (error + option X) * R) (r : R) : (error + X) * R :=
  match op r with
  | (inl e, r') => (inl e, r')
  | (inr None, r') => (inl "redis: nil", r')
  | (inr (Some x), r') => (inr x, r')
  end.

Definition eval_script (s : script) (keys argv : list string) (r : R) : (error + lua_value) * R :=
  match run_script s keys argv r with
  | (inr LNil, r') => (inl "redis: nil", r')
  | res => res
  end.

Definition pipe_run (c : pipe_cmd) (r : R) : (error + unit) * R :=
  match c with
  | PSet k v px => SET k v px r
  | PHSet k fs => HSET k fs r
  end.

(** All the commands are executed; the first error is reported. *)
Fixpoint pipe_exec (cmds : list pipe_cmd) (r : R) : (error + unit) * R :=
  match cmds with
  | [] => (inr tt, r)
  | c :: cs =>
      let '(x, r1) := pipe_run c r in
      let '(y, r2) := pipe_exec cs r1 in
      (match x with inl e => inl e | inr _ => y end, r2)
  end.

(** [QueryRow(...).Scan(...)]: no row is the error pgx.ErrNoRows. *)
Definition row_of {X} (a : error + option X) : error + X :=
  match a with
  | inl e => inl e
  | inr None => inl "no rows in result set"
  | inr (Some x) => inr x
  end.

Definition exec {X} (c : call X) (w : world R D) : X * world R D :=
  match c in call X return X * world R D with
  | CEvalSha s keys argv => on_redis (eval_script s keys argv) w
  | CGet k => on_redis (or_nil (GET k)) w
  | CSet k v px => on_redis (SET k v px) w
  | CHSet k fs => on_redis (HSET k fs) w
  | CPipeline cmds => on_redis (pipe_exec cmds) w
  | CZRank k m => on_redis (or_nil (ZRANK k m)) w
  | CZCard k => on_redis (ZCARD k) w
  | CZRem k m => on_redis (ZREM k m) w
  | CPublish ch m => on_redis (PUBLISH ch m) w
  | CConfigSet _ _ => on_redis (fun r => (inr tt, r)) w
  | CExec s => on_pg (pg_exec s) w
  | CRow q => on_pg (fun d => (row_of (pg_row q (now w) d), d)) w
  | CRows q => on_pg (fun d => (pg_rows q (now w) d, d)) w
  | CRowsErr => on_pg (fun d => (inr tt, d)) w
  | CBegin => on_pg (fun d => (inr tt, d)) w
  | CTxExec l s => on_pg (fun d => (pg_try l s d, d)) w
  | CCommit l => on_pg (pg_commit l) w
  | CRollback => (tt, tick w)
  | CNow => (now w, tick w)
  | CNewUUID => (uuid_at (w_calls w), tick w)
  | CMetric m => (tt, tick (add_metric m w))
  end.

(** One handler from start to end, undisturbed. *)
Fixpoint run {A} (p : prog A) (w : world R D) : outcome A * world R D :=
  match p with
  | Ret a => (Ok a, w)
  | Panic m => (Panicked m, w)
  | Vis c k => let '(x, w') := exec c w in run (k x) w'
  end.

(** Handlers side by side: a step is one call of one of them. *)
Definition pool (A : Type) : Type := list (prog A) * world R D.

Inductive pool_step {A} : pool A -> pool A -> Prop :=
| pool_call pre X (c : call X) k post w :
    pool_step (pre ++ Vis c k :: post, w)%list
              (pre ++ k (fst (exec c w)) :: post, snd (exec c w))%list.

Definition pool_steps {A} : pool A -> pool A -> Prop := rtc pool_step.

Definition finished {A} (p : prog A) : bool :=
  match p with Vis _ _ => false | _ => true end.

(** The schedule that lets handler [i] make its next call; a finished handler
    makes none. *)
Definition pool_next {A} (i : nat) (s : pool A) : pool A :=
  match s.1 !! i with
  | Some (Vis c k) => let '(x, w') := exec c s.2 in (<[i := k x]> s.1, w')
  | _ => s
  end.

Definition pool_run {A} (schedule : list nat) (s : pool A) : pool A :=
  fold_left (fun s i => pool_next i s) schedule s.

(** ** Lemmas *)

Lemma exec_calls {X} (c : call X) (w : world R D) : w_calls (snd (exec c w)) = S (w_calls w).
Proof.
  destruct c; cbn; unfold on_redis, on_pg; try done;
    match goal with |- context [faulty ?f ?op ?s] => by destruct (faulty f op s) end.
Qed.

Lemma pool_next_steps {A} i (s : pool A) : pool_steps s (pool_next i s).
Proof.
  destruct s as [ps w]. unfold pool_next. cbn [fst snd].
  destruct (ps !! i) as [[a|m|X c k]|] eqn:E; try apply rtc_refl.
  destruct (exec c w) as [x w'] eqn:Ex. apply rtc_once.
  pose proof (take_drop_middle ps i _ E) as Hps. rewrite <- Hps at 1.
  rewrite insert_take_drop by (eapply lookup_lt_Some; exact E).
  pose proof (pool_call (take i ps) X c k (drop (S i) ps) w) as H. rewrite Ex in H. exact H.
Qed.

Lemma pool_run_steps {A} schedule (s : pool A) : pool_steps s (pool_run schedule s).
Proof.
  revert s. induction schedule as [|i l IH]; intros s; [apply rtc_refl|].
  etransitivity; [apply pool_next_steps|]. apply IH.
Qed.
End World.
