(* ===== verification/Keys.v ===== *)
(** * Redis key and channel names

    The [fmt.Sprintf] formats of the services, the channel splitter of
    cmd/server/main.go, and the facts that no two kinds of key collide. *)
From S2P Require Import Prelude GoStd Models Services.
From Stdlib Require Import Ascii.
Local Open Scope string_scope.
Local Open Scope Z_scope.
#[local] Arguments Ascii.eqb : simpl never.
#[local] Arguments String.append !_ _ /.

(** ** Formats *)

Definition sale_key (saleID suffix : string) : string := "sale:" ++ saleID ++ ":" ++ suffix.

Definition availableKey (saleID : string) : string := sale_key saleID "available".
Definition reservedKey (saleID : string) : string := sale_key saleID "reserved".
Definition metaKey (saleID : string) : string := sale_key saleID "meta".
Definition waitlistKey (saleID : string) : string := sale_key saleID "waitlist".
Definition saleChannel (saleID : string) : string := sale_key saleID "pubsub".
Definition idempotencyKeyOf (saleID key : string) : string :=
  sale_key saleID ("idempotency:" ++ key).
Definition ttlKey (reservationID : string) : string := "reservation:" ++ reservationID ++ ":ttl".
Definition userChannel (userID : string) : string := "user:" ++ userID ++ ":events".
Definition ratelimitKey (userID : string) : string := "ratelimit:" ++ userID.

(** ** [splitChannel] (cmd/server/main.go)

    [start] is the part of the channel since the last cut, [rest] what the
    loop has not read yet. *)
Fixpoint splitChannel_loop (result : list string) (start rest : string) : list string :=
  match rest with
  | EmptyString => (result ++ [start])%list
  | String c rest' =>
      if Ascii.eqb c ":" then
        let result' := (result ++ [start])%list in
        if Nat.eqb (List.length result') 2 then (result' ++ [rest'])%list
        else splitChannel_loop result' "" rest'
      else splitChannel_loop result (start ++ String c "") rest'
  end.

Definition splitChannel (channel : string) : list string := splitChannel_loop [] "" channel.

(** [strings.Join(parts, ":")]. *)
Fixpoint Join (parts : list string) : string :=
  match parts with
  | [] => ""
  | [x] => x
  | x :: xs => x ++ ":" ++ Join xs
  end.

(** ** Lemmas *)

Section Keys.
Context `{UuidLaws}.

Lemma sale_key_split u suffix :
  split_on ":" (sale_key (uuid_String u) suffix) = "sale" :: uuid_String u :: split_on ":" suffix.
Proof.
  unfold sale_key.
  change ("sale:" ++ uuid_String u ++ ":" ++ suffix)
    with ("sale" ++ String ":" (uuid_String u ++ String ":" suffix)).
  rewrite split_on_app by done. f_equal. by rewrite split_on_app by apply String_no_colon.
Qed.

Lemma ttlKey_split u : split_on ":" (ttlKey (uuid_String u)) = ["reservation"; uuid_String u; "ttl"].
Proof.
  unfold ttlKey.
  change ("reservation:" ++ uuid_String u ++ ":ttl")
    with ("reservation" ++ String ":" (uuid_String u ++ String ":" "ttl")).
  rewrite split_on_app by done. f_equal. by rewrite split_on_app by apply String_no_colon.
Qed.

Lemma uuid_String_inj u v : uuid_String u = uuid_String v -> u = v.
Proof. intros E%(f_equal uuid_Parse). rewrite !Parse_String in E. congruence. Qed.

Lemma uuid_String_not_minus_one u : uuid_String u <> "-1".
Proof.
  intros E. destruct (Parse_short "-1") as [e He]; [cbn; lia|].
  rewrite <- E, Parse_String in He. done.
Qed.

Lemma sale_key_inj u v s t :
  sale_key (uuid_String u) s = sale_key (uuid_String v) t -> u = v /\ s = t.
Proof.
  intros E. pose proof (f_equal (split_on ":") E) as F. rewrite !sale_key_split in F.
  injection F as Fu _. pose proof (uuid_String_inj _ _ Fu) as ->. split; [done|].
  unfold sale_key in E. by apply append_inj_l, append_inj_l, append_inj_l in E.
Qed.

Lemma idempotency_suffix s key :
  In s ["available"; "reserved"; "meta"; "waitlist"; "pubsub"] -> s <> "idempotency:" ++ key.
Proof. cbn. intuition subst; discriminate. Qed.
End Keys.

(** Two keys of the program of different kinds, or of different sales, differ. *)
Ltac key_neq :=
  let E := fresh in
  intros E;
  repeat match goal with
  | H : ttlKey (uuid_String _) = sale_key _ _ |- _ =>
      apply (f_equal (split_on ":")) in H; rewrite ttlKey_split, sale_key_split in H; discriminate
  | H : sale_key _ _ = ttlKey (uuid_String _) |- _ => symmetry in H
  | H : sale_key (uuid_String _) _ = sale_key (uuid_String _) _ |- _ =>
      apply sale_key_inj in H as [? ?]
  | H : ?x = "idempotency:" ++ _ |- _ => exfalso; revert H; apply idempotency_suffix; cbn; tauto
  | H : "idempotency:" ++ _ = ?x |- _ => symmetry in H
  end; try congruence; try discriminate.

Section Distinct.
Context `{UuidLaws}.

Lemma available_reserved u v : availableKey (uuid_String u) <> reservedKey (uuid_String v).
Proof. unfold availableKey, reservedKey. key_neq. Qed.
Lemma reserved_available u v : reservedKey (uuid_String u) <> availableKey (uuid_String v).
Proof. apply not_eq_sym, available_reserved. Qed.
Lemma available_waitlist u v : availableKey (uuid_String u) <> waitlistKey (uuid_String v).
Proof. unfold availableKey, waitlistKey. key_neq. Qed.
Lemma reserved_waitlist u v : reservedKey (uuid_String u) <> waitlistKey (uuid_String v).
Proof. unfold reservedKey, waitlistKey. key_neq. Qed.
Lemma waitlist_meta u v : metaKey (uuid_String u) <> waitlistKey (uuid_String v).
Proof. unfold waitlistKey, metaKey. key_neq. Qed.
Lemma available_meta u v : metaKey (uuid_String u) <> availableKey (uuid_String v).
Proof. unfold availableKey, metaKey. key_neq. Qed.
Lemma reserved_meta u v : metaKey (uuid_String u) <> reservedKey (uuid_String v).
Proof. unfold reservedKey, metaKey. key_neq. Qed.
Lemma available_ttl u v : ttlKey (uuid_String u) <> availableKey (uuid_String v).
Proof. unfold availableKey. key_neq. Qed.
Lemma reserved_ttl u v : ttlKey (uuid_String u) <> reservedKey (uuid_String v).
Proof. unfold reservedKey. key_neq. Qed.
Lemma waitlist_ttl u v : ttlKey (uuid_String u) <> waitlistKey (uuid_String v).
Proof. unfold waitlistKey. key_neq. Qed.
Lemma available_idempotency u v k : idempotencyKeyOf (uuid_String u) k <> availableKey (uuid_String v).
Proof. unfold availableKey, idempotencyKeyOf. key_neq. Qed.
Lemma reserved_idempotency u v k : idempotencyKeyOf (uuid_String u) k <> reservedKey (uuid_String v).
Proof. unfold reservedKey, idempotencyKeyOf. key_neq. Qed.
Lemma waitlist_idempotency u v k : idempotencyKeyOf (uuid_String u) k <> waitlistKey (uuid_String v).
Proof. unfold waitlistKey, idempotencyKeyOf. key_neq. Qed.
Lemma ttl_idempotency u v k : ttlKey (uuid_String u) <> idempotencyKeyOf (uuid_String v) k.
Proof. unfold idempotencyKeyOf. key_neq. Qed.
Lemma available_inj u v : availableKey (uuid_String u) = availableKey (uuid_String v) -> u = v.
Proof. intros E. by apply sale_key_inj in E as [-> _]. Qed.
Lemma reserved_inj u v : reservedKey (uuid_String u) = reservedKey (uuid_String v) -> u = v.
Proof. intros E. by apply sale_key_inj in E as [-> _]. Qed.
Lemma available_ne u v : u <> v -> availableKey (uuid_String u) <> availableKey (uuid_String v).
Proof. intros Hne E%available_inj. done. Qed.
Lemma reserved_ne u v : u <> v -> reservedKey (uuid_String u) <> reservedKey (uuid_String v).
Proof. intros Hne E%reserved_inj. done. Qed.
Lemma waitlist_ne u v : u <> v -> waitlistKey (uuid_String u) <> waitlistKey (uuid_String v).
Proof. intros Hne E. by apply sale_key_inj in E as [-> _]. Qed.
End Distinct.

Create HintDb keys.
#[export] Hint Resolve available_reserved reserved_available available_waitlist reserved_waitlist
  available_meta reserved_meta available_ttl reserved_ttl waitlist_ttl available_idempotency
  reserved_idempotency waitlist_idempotency ttl_idempotency available_ne reserved_ne
  waitlist_meta waitlist_ne : keys.
#[export] Hint Resolve not_eq_sym : keys.

(** Writing one key leaves the counter at another. *)
Ltac skip_key := rewrite counter_at_insert_ne by eauto with keys.

(** *** [splitChannel] *)

Lemma append_empty_r s : s ++ "" = s.
Proof. induction s as [|c r IH]; cbn; [done|]. by rewrite IH. Qed.

Lemma append_cons_r s c t : s ++ String c t = (s ++ String c "") ++ t.
Proof. by rewrite append_assoc. Qed.

Lemma splitChannel_loop_cut result s t :
  no_char ":" s = true -> forall start,
  splitChannel_loop result start (s ++ String ":" t) =
  let result' := (result ++ [(start ++ s)%string])%list in
  if Nat.eqb (List.length result') 2 then (result' ++ [t])%list
  else splitChannel_loop result' "" t.
Proof.
  induction s as [|c r IH]; intros Hs start.
  - cbn. rewrite append_empty_r. done.
  - cbn in Hs |- *. apply andb_true_iff in Hs as [Hc Hr]. apply negb_true_iff in Hc. rewrite Hc.
    rewrite IH by done. by rewrite <- append_cons_r.
Qed.

Lemma splitChannel_two s t u :
  no_char ":" s = true -> no_char ":" t = true ->
  splitChannel (s ++ String ":" (t ++ String ":" u)) = [s; t; u].
Proof.
  intros Hs Ht. unfold splitChannel. rewrite splitChannel_loop_cut by done. cbn.
  rewrite splitChannel_loop_cut by done. done.
Qed.

Lemma splitChannel_loop_join rest : forall result start,
  (List.length result < 2)%nat ->
  Join (splitChannel_loop result start rest) = Join (result ++ [(start ++ rest)%string])%list /\
  (List.length (splitChannel_loop result start rest) <= 3)%nat.
Proof.
  induction rest as [|c r IH]; intros result start Hlen; cbn.
  - rewrite append_empty_r, length_app. cbn. split; [done|lia].
  - destruct (Ascii.eqb_spec c ":") as [->|Hc].
    + destruct result as [|x [|y l]]; cbn in *; [| |lia].
      * destruct (IH [start] "") as [H1 H2]; [cbn; lia|]. by rewrite H1.
      * split; [done|lia].
    + destruct (IH result (start ++ String c "")) as [H1 H2]; [done|].
      rewrite H1, <- append_cons_r. done.
Qed.
