(* ===== verification/Logic.v ===== *)
(** * Reasoning about handlers

    [wp p v Phi]: from every world that looks like [v], handler [p] run to its
    end gives an outcome and a view that satisfy [Phi]. The rules below hold
    when no reply is lost; a call may still fail before the service sees it
    ([drops]). *)
From S2P Require Import Prelude GoStd Models Services Scripts World.
Local Open Scope string_scope.
Local Open Scope Z_scope.

(** What can be seen of a world: the keyspace, the messages published, the
    committed tables and the metrics. *)
Record view := mkView {
  v_data : gmap string rval;
  v_pub : list (string * json);
  v_db : db;
  v_metrics : list metric
}.

Definition set_data (d : gmap string rval) (v : view) : view :=
  mkView d (v_pub v) (v_db v) (v_metrics v).
Definition publish (m : string * json) (v : view) : view :=
  mkView (v_data v) (v_pub v ++ [m]) (v_db v) (v_metrics v).
Definition set_db (d : db) (v : view) : view := mkView (v_data v) (v_pub v) d (v_metrics v).
Definition measure (m : metric) (v : view) : view :=
  mkView (v_data v) (v_pub v) (v_db v) (v_metrics v ++ [m]).

Section Logic.
Context {R D : Type} `{RL : RedisLaws R} `{LN : LuaNum} `{PL : PostgresLaws D} `{O : Oracle}.

Definition view_of (w : world R D) : view :=
  mkView (dataset (w_redis w)) (published (w_redis w)) (tables (w_pg w)) (w_metrics w).

Definition wp {A} (p : prog A) (v : view) (Phi : outcome A -> view -> Prop) : Prop :=
  forall w : world R D, view_of w = v -> Phi (fst (run p w)) (view_of (snd (run p w))).

(** Some call fails before it reaches its service. *)
Definition drops : Prop := exists n e, fault_at n = Dropped e.

(** ** Structural rules *)

Lemma run_pbind {A B} (p : prog A) (f : A -> prog B) (w : world R D) :
  run (pbind p f) w =
  match run p w with
  | (Ok a, w') => run (f a) w'
  | (Panicked m, w') => (Panicked m, w')
  end.
Proof.
  revert w. induction p as [a|m|X c k IH]; intros w; cbn; [done|done|].
  destruct (exec c w) as [x w']. apply IH.
Qed.

Lemma wp_ret {A} (a : A) v Phi : Phi (Ok a) v -> wp (Ret a) v Phi.
Proof. intros H w <-. exact H. Qed.

Lemma wp_panic {A} m v (Phi : outcome A -> view -> Prop) : Phi (Panicked m) v -> wp (Panic m) v Phi.
Proof. intros H w <-. exact H. Qed.

Lemma run_defer {A} (d : prog unit) (p : prog A) (w : world R D) :
  run (defer d p) w =
  let '(o, w1) := run p w in
  match run d w1 with
  | (Ok _, w2) => (o, w2)
  | (Panicked m, w2) => (Panicked m, w2)
  end.
Proof.
  revert w. induction p as [a|m|X c k IH]; intros w; cbn.
  - rewrite run_pbind. by destruct (run d w) as [[u|m] w2].
  - rewrite run_pbind. by destruct (run d w) as [[u|m'] w2].
  - destruct (exec c w) as [x w']. apply IH.
Qed.

Lemma wp_defer {A} (d : prog unit) (p : prog A) v (Phi : outcome A -> view -> Prop) :
  wp p v (fun o v1 => wp d v1 (fun od v2 =>
    match od with Ok _ => Phi o v2 | Panicked m => Phi (Panicked m) v2 end)) ->
  wp (defer d p) v Phi.
Proof.
  intros H w Hw. rewrite run_defer. specialize (H w Hw). destruct (run p w) as [o w1].
  specialize (H w1 eq_refl). by destruct (run d w1) as [[u|m] w2].
Qed.

Definition then_wp {A B} (f : A -> prog B) (Phi : outcome B -> view -> Prop) : outcome A -> view -> Prop :=
  fun o v => match o with Ok a => wp (f a) v Phi | Panicked m => Phi (Panicked m) v end.

Lemma wp_bind {A B} (p : prog A) (f : A -> prog B) v Phi :
  wp p v (then_wp f Phi) -> wp (pbind p f) v Phi.
Proof.
  intros H w Hw. rewrite run_pbind. specialize (H w Hw).
  destruct (run p w) as [[a|m] w'] eqn:E; cbn in *; [|done]. by apply H.
Qed.

Lemma wp_mono {A} (p : prog A) v (Phi Psi : outcome A -> view -> Prop) :
  wp p v Phi -> (forall o v', Phi o v' -> Psi o v') -> wp p v Psi.
Proof. intros H HP w Hw. apply HP, H, Hw. Qed.

Lemma wp_run_eq {A} (p q : prog A) v Phi :
  (forall w : world R D, run p w = run q w) -> wp q v Phi -> wp p v Phi.
Proof. intros E H w Hw. rewrite E. by apply H. Qed.

Lemma wp_and {A} (p : prog A) v (Phi Psi : outcome A -> view -> Prop) :
  wp p v Phi -> wp p v Psi -> wp p v (fun o v' => Phi o v' /\ Psi o v').
Proof. intros H1 H2 w Hw. split; [by apply H1|by apply H2]. Qed.

(** A single call has an answer. *)
Lemma wp_invoke_ok {X} (c : call X) v : wp (invoke c) v (fun o _ => exists x, o = Ok x).
Proof. intros w _. unfold invoke. cbn [run]. destruct (exec c w) as [x w']. by exists x. Qed.

(** ** Rules of the calls *)

Section Faults.
Context `{NL : !NoLostReplies}.

Lemma faulty_cases {S X} n (op : S -> (error + X) * S) s :
  faulty (fault_at n) op s = op s \/ drops /\ exists e, faulty (fault_at n) op s = (inl e, s).
Proof.
  destruct (fault_at n) as [|e|e] eqn:E.
  - by left.
  - right. split; [by exists n, e|]. by exists e.
  - by destruct (no_lost_reply n e).
Qed.

Lemma wp_redis {X} (c : call (error + X)) (op : R -> (error + X) * R) v Phi :
  (forall w : world R D, exec c w = on_redis op w) ->
  (drops -> forall e, Phi (Ok (inl e)) v) ->
  (forall r, dataset r = v_data v -> published r = v_pub v ->
     Phi (Ok (fst (op r)))
       (mkView (dataset (snd (op r))) (published (snd (op r))) (v_db v) (v_metrics v))) ->
  wp (invoke c) v Phi.
Proof.
  intros Hc Hf Hok w <-. unfold invoke. cbn [run]. rewrite Hc. unfold on_redis.
  destruct (faulty_cases (w_calls w) op (w_redis w)) as [-> | (Hd & e & ->)].
  - specialize (Hok (w_redis w) eq_refl eq_refl). destruct (op (w_redis w)). exact Hok.
  - exact (Hf Hd e).
Qed.

Lemma wp_pg {X} (c : call (error + X)) (op : nat -> D -> (error + X) * D) v Phi :
  (forall w : world R D, exec c w = on_pg (op (w_calls w)) w) ->
  (drops -> forall e, Phi (Ok (inl e)) v) ->
  (forall n d, tables d = v_db v ->
     Phi (Ok (fst (op n d))) (set_db (tables (snd (op n d))) v)) ->
  wp (invoke c) v Phi.
Proof.
  intros Hc Hf Hok w <-. unfold invoke. cbn [run]. rewrite Hc. unfold on_pg.
  destruct (faulty_cases (w_calls w) (op (w_calls w)) (w_pg w)) as [-> | (Hd & e & ->)].
  - specialize (Hok (w_calls w) (w_pg w) eq_refl). destruct (op (w_calls w) (w_pg w)). exact Hok.
  - exact (Hf Hd e).
Qed.

(** A script whose effect is known. *)
Lemma wp_eval s keys argv x d p v Phi :
  x <> LNil ->
  (forall r : R, dataset r = v_data v -> published r = v_pub v ->
     answers (run_script s keys argv r) x d p) ->
  (drops -> forall e, Phi (Ok (inl e)) v) ->
  Phi (Ok (inr x)) (mkView d p (v_db v) (v_metrics v)) ->
  wp (invoke (CEvalSha s keys argv)) v Phi.
Proof.
  intros Hx Hs Hf Hok. apply (wp_redis _ (eval_script s keys argv)); [done|done|].
  intros r Hd Hp. destruct (Hs r Hd Hp) as (H1 & H2 & H3). unfold eval_script.
  destruct (run_script s keys argv r) as [y r']. cbn in *. subst y.
  destruct x; cbn; rewrite ?H2, ?H3; done.
Qed.

Lemma wp_get_str k s v Phi :
  v_data v !! k = Some (RStr s) ->
  (drops -> forall e, Phi (Ok (inl e)) v) -> Phi (Ok (inr s)) v ->
  wp (invoke (CGet k)) v Phi.
Proof.
  intros Hk Hf Hok. apply (wp_redis _ (or_nil (GET k))); [done|done|].
  intros r Hd Hp. rewrite <- Hd in Hk. destruct (GET_str r k s Hk) as (H1 & H2 & H3).
  unfold or_nil. destruct (GET k r) as [y r']. cbn in *. subst y. cbn. rewrite H2, H3, Hd, Hp.
  by destruct v.
Qed.

Lemma wp_get_none k v Phi :
  v_data v !! k = None ->
  (forall e, Phi (Ok (inl e)) v) ->
  wp (invoke (CGet k)) v Phi.
Proof.
  intros Hk Hf. apply (wp_redis _ (or_nil (GET k))); [done|by intros|].
  intros r Hd Hp. rewrite <- Hd in Hk. destruct (GET_none r k Hk) as (H1 & H2 & H3).
  unfold or_nil. destruct (GET k r) as [y r']. cbn in *. subst y. cbn. rewrite H2, H3, Hd, Hp.
  by destruct v.
Qed.

Lemma wp_set k s px v Phi :
  (drops -> forall e, Phi (Ok (inl e)) v) ->
  Phi (Ok (inr tt)) (set_data (<[k := RStr s]> (v_data v)) v) ->
  wp (invoke (CSet k s px)) v Phi.
Proof.
  intros Hf Hok. apply (wp_redis _ (SET k s px)); [done|done|].
  intros r Hd Hp. destruct (SET_spec r k s px) as (H1 & H2 & H3).
  destruct (SET k s px r) as [y r']. cbn in *. subst y. cbn. rewrite H2, H3, Hd, Hp. exact Hok.
Qed.

Lemma wp_publish ch m v Phi :
  (drops -> forall e, Phi (Ok (inl e)) v) ->
  Phi (Ok (inr tt)) (publish (ch, m) v) ->
  wp (invoke (CPublish ch m)) v Phi.
Proof.
  intros Hf Hok. apply (wp_redis _ (PUBLISH ch m)); [done|done|].
  intros r Hd Hp. destruct (PUBLISH_spec r ch m) as (H1 & H2 & H3).
  destruct (PUBLISH ch m r) as [y r']. cbn in *. subst y. cbn. rewrite H2, H3, Hd, Hp. exact Hok.
Qed.

Lemma wp_zcard k z v Phi :
  zset_at (v_data v) k = Some z ->
  (drops -> forall e, Phi (Ok (inl e)) v) ->
  Phi (Ok (inr (Z.of_nat (size z)))) v ->
  wp (invoke (CZCard k)) v Phi.
Proof.
  intros Hz Hf Hok. apply (wp_redis _ (ZCARD k)); [done|done|].
  intros r Hd Hp. rewrite <- Hd in Hz. destruct (ZCARD_spec r k z Hz) as (H1 & H2 & H3).
  destruct (ZCARD k r) as [y r']. cbn in *. subst y. cbn. rewrite H2, H3, Hd, Hp. by destruct v.
Qed.

Lemma wp_zrank k z m v Phi :
  zset_at (v_data v) k = Some z ->
  (drops \/ z !! m = None -> forall e, Phi (Ok (inl e)) v) ->
  (forall sc, z !! m = Some sc -> Phi (Ok (inr (zrank z m sc))) v) ->
  wp (invoke (CZRank k m)) v Phi.
Proof.
  intros Hz Hf Hok. apply (wp_redis _ (or_nil (ZRANK k m))); [done|intros; apply Hf; by left|].
  intros r Hd Hp. rewrite <- Hd in Hz. destruct (ZRANK_spec r k z m Hz) as (H1 & H2 & H3).
  unfold or_nil. destruct (ZRANK k m r) as [y r']. cbn in *. subst y. cbn.
  destruct (z !! m) as [sc|] eqn:E; cbn; rewrite H2, H3, Hd, Hp.
  - specialize (Hok _ eq_refl). by destruct v.
  - assert (forall e, Phi (Ok (inl e)) v) as Hn by (apply Hf; by right). by destruct v.
Qed.

Lemma wp_zrem k z m v Phi :
  zset_at (v_data v) k = Some z ->
  (drops -> forall e, Phi (Ok (inl e)) v) ->
  Phi (Ok (inr (if decide (is_Some (z !! m)) then 1 else 0)))
    (set_data (put_zset k (delete m z) (v_data v)) v) ->
  wp (invoke (CZRem k m)) v Phi.
Proof.
  intros Hz Hf Hok. apply (wp_redis _ (ZREM k m)); [done|done|].
  intros r Hd Hp. rewrite <- Hd in Hz. destruct (ZREM_spec r k z m Hz) as (H1 & H2 & H3).
  destruct (ZREM k m r) as [y r']. cbn in *. subst y. cbn. rewrite H2, H3, Hd, Hp. exact Hok.
Qed.

Lemma wp_hset k h fs v Phi :
  hash_at (v_data v) k = Some h ->
  (drops -> forall e, Phi (Ok (inl e)) v) ->
  Phi (Ok (inr tt))
    (set_data (<[k := RHash (fold_left (fun h p => <[fst p := snd p]> h) fs h)]> (v_data v)) v) ->
  wp (invoke (CHSet k fs)) v Phi.
Proof.
  intros Hh Hf Hok. apply (wp_redis _ (HSET k fs)); [done|done|].
  intros r Hd Hp. rewrite <- Hd in Hh. destruct (HSET_spec r k h fs Hh) as (H1 & H2 & H3).
  destruct (HSET k fs r) as [y r']. cbn in *. subst y. cbn. rewrite H2, H3, Hd, Hp. exact Hok.
Qed.

(** A statement outside a transaction is applied or refused as the schema says. *)
Lemma wp_exec s v Phi :
  (drops \/ stmt_ok s (v_db v) = false -> forall e, Phi (Ok (inl e)) v) ->
  (stmt_ok s (v_db v) = true -> Phi (Ok (inr tt)) (set_db (stmt_effect s (v_db v)) v)) ->
  wp (invoke (CExec s)) v Phi.
Proof.
  intros Hf Hok. apply (wp_pg _ (fun _ => pg_exec s)); [done|intros; apply Hf; by left|].
  intros n d Hd. destruct (stmt_ok s (v_db v)) eqn:E; rewrite <- Hd in E.
  - destruct (pg_exec_ok d s E) as [H1 H2]. rewrite H1, H2, Hd. by apply Hok.
  - destruct (pg_exec_rejected d s E) as [[e H1] H2]. rewrite H1, H2, Hd.
    assert (forall e, Phi (Ok (inl e)) v) as Hn by (apply Hf; by right). by destruct v.
Qed.

Lemma wp_row_at {X} (q : row_query (option X)) v Phi :
  (drops -> forall e, Phi (Ok (inl e)) v) ->
  (forall n, match row_answer q (time_at n) (v_db v) with
    | Some x => Phi (Ok (inr x)) v
    | None => forall e, Phi (Ok (inl e)) v
    end) ->
  wp (invoke (CRow q)) v Phi.
Proof.
  intros Hf Hok. apply (wp_pg _ (fun n d => (row_of (pg_row q (time_at n) d), d))); [done|done|].
  intros n d Hd. specialize (Hok n). rewrite pg_row_spec. cbn. rewrite Hd.
  replace (set_db (v_db v) v) with v by (by destruct v).
  destruct (row_answer q (time_at n) (v_db v)); cbn; apply Hok.
Qed.

Lemma wp_row {X} (q : row_query (option X)) v Phi :
  (drops -> forall e, Phi (Ok (inl e)) v) ->
  (forall now, match row_answer q now (v_db v) with
    | Some x => Phi (Ok (inr x)) v
    | None => forall e, Phi (Ok (inl e)) v
    end) ->
  wp (invoke (CRow q)) v Phi.
Proof. intros Hf Hok. apply wp_row_at; [done|]. intros n. apply Hok. Qed.

Lemma wp_rows {X} (q : rows_query X) v Phi :
  (drops -> forall e, Phi (Ok (inl e)) v) ->
  (forall now l, l ≡ₚ rows_answer q now (v_db v) -> Phi (Ok (inr (inr <$> l))) v) ->
  wp (invoke (CRows q)) v Phi.
Proof.
  intros Hf Hok. apply (wp_pg _ (fun n d => (pg_rows q (time_at n) d, d))); [done|done|].
  intros n d Hd. destruct (pg_rows_spec d X q (time_at n)) as (l & Hl & Hp).
  rewrite Hl. cbn. rewrite Hd in *. replace (set_db (v_db v) v) with v by (by destruct v). eauto.
Qed.

Lemma wp_begin v Phi :
  (drops -> forall e, Phi (Ok (inl e)) v) -> Phi (Ok (inr tt)) v -> wp (invoke CBegin) v Phi.
Proof.
  intros Hf Hok. apply (wp_pg _ (fun _ d => (inr tt, d))); [done|done|].
  intros n d Hd. cbn. rewrite Hd. by destruct v.
Qed.

Lemma wp_rows_err v Phi :
  (drops -> forall e, Phi (Ok (inl e)) v) -> Phi (Ok (inr tt)) v -> wp (invoke CRowsErr) v Phi.
Proof.
  intros Hf Hok. apply (wp_pg _ (fun _ d => (inr tt, d))); [done|done|].
  intros n d Hd. cbn. rewrite Hd. by destruct v.
Qed.

Lemma wp_tx_exec l s v Phi :
  (drops \/ stmts_ok (l ++ [s]) (v_db v) = false -> forall e, Phi (Ok (inl e)) v) ->
  (stmts_ok (l ++ [s]) (v_db v) = true -> Phi (Ok (inr tt)) v) ->
  wp (invoke (CTxExec l s)) v Phi.
Proof.
  intros Hf Hok. apply (wp_pg _ (fun _ d => (pg_try l s d, d))); [done|intros; apply Hf; by left|].
  intros n d Hd. cbn. rewrite Hd. replace (set_db (v_db v) v) with v by (by destruct v).
  destruct (stmts_ok (l ++ [s]) (v_db v)) eqn:E; rewrite <- Hd in E.
  - rewrite pg_try_ok by done. by apply Hok.
  - destruct (pg_try_rejected d l s E) as [e ->]. apply Hf. by right.
Qed.

Lemma wp_commit l v Phi :
  (drops \/ stmts_ok l (v_db v) = false -> forall e, Phi (Ok (inl e)) v) ->
  (stmts_ok l (v_db v) = true -> Phi (Ok (inr tt)) (set_db (stmts_effect l (v_db v)) v)) ->
  wp (invoke (CCommit l)) v Phi.
Proof.
  intros Hf Hok. apply (wp_pg _ (fun _ => pg_commit l)); [done|intros; apply Hf; by left|].
  intros n d Hd. destruct (stmts_ok l (v_db v)) eqn:E; rewrite <- Hd in E.
  - destruct (pg_commit_ok d l E) as [H1 H2]. rewrite H1, H2, Hd. by apply Hok.
  - destruct (pg_commit_rejected d l E) as [[e H1] H2]. rewrite H1, H2, Hd.
    assert (forall e, Phi (Ok (inl e)) v) as Hn by (apply Hf; by right). by destruct v.
Qed.
End Faults.

Lemma wp_rollback v Phi : Phi (Ok tt) v -> wp (invoke CRollback) v Phi.
Proof. intros H w <-. exact H. Qed.

Lemma wp_now v Phi : (forall t, Phi (Ok t) v) -> wp (invoke CNow) v Phi.
Proof. intros H w <-. apply H. Qed.

Lemma wp_now_at v Phi : (forall n, Phi (Ok (time_at n)) v) -> wp (invoke CNow) v Phi.
Proof. intros H w <-. apply H. Qed.

Lemma wp_new_uuid v Phi : (forall n, Phi (Ok (uuid_at n)) v) -> wp (invoke CNewUUID) v Phi.
Proof. intros H w <-. apply H. Qed.

Lemma wp_metric m v Phi : Phi (Ok tt) (measure m v) -> wp (invoke (CMetric m)) v Phi.
Proof. intros H w <-. exact H. Qed.
End Logic.

(** One call of a handler: open the bind, keep its continuation folded. *)
Ltac wp_bind := apply wp_bind.

Lemma no_drops `{O : Oracle} `{!NoFaults} : ~ drops.
Proof. intros (n & e & E). rewrite no_fault in E. done. Qed.

(** ** Calls that neither a fault nor the schema can refuse *)

Section Calm.
Context {R D : Type} `{RL : RedisLaws R} `{LN : LuaNum} `{PL : PostgresLaws D} `{O : Oracle}
  `{NF : !NoFaults}.
#[local] Abbreviation wp := (wp (R := R) (D := D)).

Lemma wp_exec_ok s v Phi :
  stmt_ok s (v_db v) = true -> Phi (Ok (inr tt)) (set_db (stmt_effect s (v_db v)) v) ->
  wp (invoke (CExec s)) v Phi.
Proof.
  intros Hs HPhi. apply wp_exec; [|by intros].
  intros [Hd|Hbad]; [exfalso; exact (no_drops Hd)|congruence].
Qed.

Lemma wp_tx_ok l s v Phi :
  stmts_ok (l ++ [s]) (v_db v) = true -> Phi (Ok (inr tt)) v -> wp (invoke (CTxExec l s)) v Phi.
Proof.
  intros Hs HPhi. apply wp_tx_exec; [|by intros].
  intros [Hd|Hbad]; [exfalso; exact (no_drops Hd)|congruence].
Qed.

Lemma wp_commit_accepted l v Phi :
  stmts_ok l (v_db v) = true -> Phi (Ok (inr tt)) (set_db (stmts_effect l (v_db v)) v) ->
  wp (invoke (CCommit l)) v Phi.
Proof.
  intros Hs HPhi. apply wp_commit; [|by intros].
  intros [Hd|Hbad]; [exfalso; exact (no_drops Hd)|congruence].
Qed.
End Calm.
