(* ===== verification/RedisClient.v ===== *)
(** * internal/redis/client.go, internal/events, internal/audit

    The wrappers the services call: the Lua-backed client, the event publisher
    and the audit log. *)
From S2P Require Import Prelude GoStd Models Services Scripts World Keys.
Local Open Scope string_scope.
Local Open Scope Z_scope.
Local Open Scope prog_scope.

(** ** internal/redis/client.go *)

Module Client.

(** [result.(int64)] and [result.(string)]: a failed assertion panics. *)
Definition as_int64 (v : lua_value) : prog Z :=
  match v with
  | LInt z => Ret z
  | _ => Panic "interface conversion: interface {} is not int64"
  end.

Definition as_string (v : lua_value) : prog string :=
  match v with
  | LStr s => Ret s
  | _ => Panic "interface conversion: interface {} is not string"
  end.

Definition Reserve (saleID : string) : prog (error + Z) :=
  let! result := invoke (CEvalSha reserveSHA [availableKey saleID; reservedKey saleID] []) in
  match result with
  | inl err => Ret (inl (Errorf_w "reserve script failed" err))
  | inr x => let! v := as_int64 x in Ret (inr v)
  end.

Definition Release (saleID : string) : prog (option error) :=
  let! result := invoke (CEvalSha releaseSHA [availableKey saleID; reservedKey saleID] []) in
  match result with
  | inl err => Ret (Some (Errorf_w "release script failed" err))
  | inr _ => Ret None
  end.

Definition Confirm (saleID : string) : prog (error + Z) :=
  let! result := invoke (CEvalSha confirmSHA
    [reservedKey saleID; availableKey saleID; metaKey saleID] []) in
  match result with
  | inl err => Ret (inl (Errorf_w "confirm script failed" err))
  | inr x => let! v := as_int64 x in Ret (inr v)
  end.

Definition WaitlistJoin (saleID userID : string) (timestamp : Z) : prog (error + Z) :=
  let! result := invoke (CEvalSha waitlistJoinSHA
    [availableKey saleID; waitlistKey saleID] [userID; Itoa timestamp]) in
  match result with
  | inl err => Ret (inl (Errorf_w "waitlist_join script failed" err))
  | inr x => let! v := as_int64 x in Ret (inr v)
  end.

Definition WaitlistPromote (saleID : string) : prog (error + string) :=
  let! result := invoke (CEvalSha waitlistPromoteSHA
    [waitlistKey saleID; availableKey saleID; reservedKey saleID] []) in
  match result with
  | inl err => Ret (inl (Errorf_w "waitlist_promote script failed" err))
  | inr x => let! promoted := as_string x in Ret (inr promoted)
  end.

(** [rdb.Get(ctx, key).Int()] with its error dropped: the value is 0 when the
    command failed, and whatever [Atoi] gives when the value is no integer. *)
Definition get_int_ignoring_error (key : string) : prog Z :=
  let! s := invoke (CGet key) in
  match s with
  | inl _ => Ret 0
  | inr s => Ret (fst (Atoi s))
  end.

(** [rdb.Get(ctx, key).Int()] with its error. *)
Definition get_int (key : string) : prog (error + Z) :=
  let! s := invoke (CGet key) in
  match s with
  | inl e => Ret (inl e)
  | inr s =>
      match Atoi s with
      | (n, None) => Ret (inr n)
      | (_, Some e) => Ret (inl e)
      end
  end.
End Client.

(** ** internal/events/publisher.go *)

Module Publisher.

(** [json.Marshal(Event{Event: name, Data: data})]. *)
Definition Event (name : string) (data : list (string * json)) : json :=
  JObj [("event", JStr name); ("data", JObj data)].

Definition result_error (r : error + unit) : option error :=
  match r with inl e => Some e | inr _ => None end.

Definition Publish (saleID : string) (event : json) : prog (option error) :=
  let! r := invoke (CPublish (saleChannel saleID) event) in Ret (result_error r).

Definition PublishToUser (userID : string) (event : json) : prog (option error) :=
  let! r := invoke (CPublish (userChannel userID) event) in Ret (result_error r).

Definition StockUpdate (saleID : string) (remaining : Z) : prog (option error) :=
  Publish saleID (Event "stock_update" [("remaining", JNum remaining)]).

Definition SaleEnded (saleID reason : string) : prog (option error) :=
  Publish saleID (Event "sale_ended" [("reason", JStr reason)]).

Definition WaitlistPromoted (userID reservationID : string) : prog (option error) :=
  PublishToUser userID (Event "waitlist_promoted" [("your_reservation_id", JStr reservationID)]).

Definition ReservationExpiring (userID : string) (expiresInSeconds : Z) : prog (option error) :=
  PublishToUser userID (Event "reservation_expiring" [("expires_in_seconds", JNum expiresInSeconds)]).

Definition QueuePosition (saleID : string) (position : Z) : prog (option error) :=
  Publish saleID (Event "queue_position" [("position", JNum position)]).

Definition SaleStarted (saleID : string) (totalStock : Z) : prog (option error) :=
  Publish saleID (Event "sale_started" [("sale_id", JStr saleID); ("total_stock", JNum totalStock)]).
End Publisher.

(** ** internal/audit/logger.go *)

Module Audit.

(** The dynamic type of [db interface{}]: the pool, an open transaction (with
    the statements it has executed), or anything else. *)
Inductive conn := Pool | Tx (before : list stmt) | OtherConn.

(** [Payload interface{}]: a map of strings, or bytes that are already JSON. *)
Inductive payload := GoMap (fields : list (string * string)) | GoBytes (j : json).

(** [json.Marshal(entry.Payload)]. *)
Definition marshal_payload (p : payload) : json :=
  match p with
  | GoMap fs => JObj ((fun f => (fst f, JStr (snd f))) <$> fs)
  | GoBytes j => JBase64 j
  end.

Definition audit_stmt (entityType : string) (entityID : uuid) (eventType : string) (p : payload) : stmt :=
  InsertAudit (mkAudit entityType entityID eventType (marshal_payload p)).

Definition LogWithConn (db : conn) (entityType : string) (entityID : uuid) (eventType : string)
    (p : payload) : prog (option error) :=
  match db with
  | OtherConn => Ret (Some "unsupported connection type")
  | Pool | Tx _ =>
      let s := audit_stmt entityType entityID eventType p in
      let! r := invoke (match db with Tx l => CTxExec l s | _ => CExec s end) in
      match r with
      | inl err => Ret (Some (Errorf_w "failed to write audit log" err))
      | inr _ => Ret None
      end
  end.

Definition Log (entityType : string) (entityID : uuid) (eventType : string) (p : payload)
  : prog (option error) :=
  LogWithConn Pool entityType entityID eventType p.
End Audit.
