(* ===== verification/Reservation.v ===== *)
(** * internal/reservation/service.go: reserve, confirm, release *)
From S2P Require Import Prelude GoStd Models Services Scripts World Keys RedisClient.
Local Open Scope string_scope.
Local Open Scope Z_scope.
Local Open Scope prog_scope.

Module ReservationService.

(** The service; [publisher] says whether the publisher is non-nil. *)
Record Service := mkService { reservationTTL : Z; publisher : bool }.

Section Service.
Context `{UL : UuidLib}.

Definition setIdempotency (saleID : uuid) (key : string) (reservationID : uuid)
  : prog (error + unit) :=
  invoke (CSet (idempotencyKeyOf (uuid_String saleID) key) (uuid_String reservationID)
    (24 * 3600 * 1000000000)).

Definition checkIdempotency (saleID : uuid) (key : string) : prog (error + Reservation) :=
  let! reservationID := invoke (CGet (idempotencyKeyOf (uuid_String saleID) key)) in
  match reservationID with
  | inl err => Ret (inl err)
  | inr s =>
      match uuid_Parse s with
      | inl err => Ret (inl err)
      | inr resID =>
          let! r := invoke (CRow (SelectReservation resID)) in
          (* the SELECT leaves confirmed_at out *)
          Ret (match r with inl err => inl err | inr x => inr (with_confirmed_at None x) end)
      end
  end.

Definition getOrderByIdempotencyKey (key : string) : prog (error + Order) :=
  invoke (CRow (SelectOrderByKey key)).

(** [if s.publisher != nil { ... }] of Reserve and of Release. *)
Definition announce_stock (s : Service) (saleID : string) (available : Z) (sold_out_event : bool)
  : prog unit :=
  if publisher s then
    let! _ := Publisher.StockUpdate saleID available in
    if sold_out_event && (available =? 0) then
      let! _ := Publisher.SaleEnded saleID "sold_out" in Ret tt
    else Ret tt
  else Ret tt.

(** Reserve once the row is in the table: the TTL key, the idempotency key, the
    metrics, the events and the audit entry. *)
Definition reserve_notify (s : Service) (r : Reservation) : prog (error + Reservation) :=
  let sale := uuid_String (SaleID r) in
  let! available := Client.get_int_ignoring_error (availableKey sale) in
  let! _ := invoke (CMetric (StockLevel sale available)) in
  let! _ := invoke (CMetric (ReservationTotal sale "success")) in
  let! _ := announce_stock s sale available true in
  let! _ := Audit.Log "reservation" (ID r) "reserved"
    (Audit.GoMap [("user_id", uuid_String (UserID r)); ("sale_id", sale);
                  ("item_id", uuid_String (ItemID r))]) in
  Ret (inr r).

Definition reserve_finish (s : Service) (idempotencyKey : string) (r : Reservation)
  : prog (error + Reservation) :=
  let! set := invoke (CSet (ttlKey (uuid_String (ID r))) "1" (seconds (reservationTTL s))) in
  match set with
  | inl err => Ret (inl (Errorf_w "failed to set ttl" err))
  | inr _ =>
      let! _ := (if String.eqb idempotencyKey "" then Ret (inr tt)
                 else setIdempotency (SaleID r) idempotencyKey (ID r)) in
      reserve_notify s r
  end.

(** Reserve once a unit has been taken: the row of the reservation. *)
Definition reserve_record (s : Service) (userID saleID itemID : uuid) (idempotencyKey : string)
  : prog (error + Reservation) :=
  let sale := uuid_String saleID in
  let! id := invoke CNewUUID in
  let! t1 := invoke CNow in
  let! t2 := invoke CNow in
  let reservation := mkReservation id userID saleID itemID ReservationStatusReserved
    t1 None (t2 + seconds (reservationTTL s)) in
  let! ins := invoke (CExec (InsertReservation reservation false)) in
  match ins with
  | inl err =>
      let! _ := Client.Release sale in
      let! _ := invoke (CMetric (ReservationTotal sale "error")) in
      Ret (inl (Errorf_w "failed to create reservation" err))
  | inr _ => reserve_finish s idempotencyKey reservation
  end.

(** The body of Reserve, after its timer has started. *)
Definition reserve_attempt (s : Service) (userID saleID itemID : uuid) (idempotencyKey : string)
  : prog (error + Reservation) :=
  let sale := uuid_String saleID in
  let! existing :=
    if String.eqb idempotencyKey "" then Ret (inl "")
    else checkIdempotency saleID idempotencyKey in
  match existing with
  | inr r =>
      let! _ := invoke (CMetric (ReservationTotal sale "idempotent")) in
      Ret (inr r)
  | inl _ =>
      let! result := Client.Reserve sale in
      match result with
      | inl err =>
          let! _ := invoke (CMetric (ReservationTotal sale "error")) in
          Ret (inl (Errorf_w "redis reserve failed" err))
      | inr v =>
          if v =? -1 then
            let! _ := invoke (CMetric (ReservationTotal sale "sold_out")) in
            Ret (inl "sold out")
          else
            reserve_record s userID saleID itemID idempotencyKey
      end
  end.

(** The deferred [timer.Observe(time.Since(start).Seconds())]. *)
Definition observe_duration (sale : string) (start : Z) : prog unit :=
  let! finish := invoke CNow in
  invoke (CMetric (ReservationDuration sale (finish - start))).

Definition Reserve (s : Service) (userID saleID itemID : uuid) (idempotencyKey : string)
  : prog (error + Reservation) :=
  let! start := invoke CNow in
  defer (observe_duration (uuid_String saleID) start)
    (reserve_attempt s userID saleID itemID idempotencyKey).

(** The transaction of Confirm: from [s.db.Begin] to the end. [fail] is an
    early return after the transaction has begun: Redis is released, the
    deferred rollback runs. *)
Definition confirm_fail (sale pre : string) (err : error) : prog (error + Order) :=
  let! _ := Client.Release sale in
  let! _ := invoke CRollback in
  Ret (inl (Errorf_w pre err)).

Definition confirm_tx (reservationID : uuid) (idempotencyKey : string) (r : Reservation)
  : prog (error + Order) :=
  let sale := uuid_String (SaleID r) in
  let! tx := invoke CBegin in
  match tx with
  | inl err => Ret (inl (Errorf_w "failed to begin transaction" err))
  | inr _ =>
      let! now := invoke CNow in
      let upd := UpdateReservationConfirmed ReservationStatusConfirmed now reservationID in
      let! r1 := invoke (CTxExec [] upd) in
      match r1 with
      | inl err => confirm_fail sale "failed to update reservation" err
      | inr _ =>
          let! orderID := invoke CNewUUID in
          let order := mkOrder orderID reservationID (UserID r) (SaleID r) 0 "pending"
            idempotencyKey now in
          let! r2 := invoke (CTxExec [upd] (InsertOrder order)) in
          match r2 with
          | inl err => confirm_fail sale "failed to create order" err
          | inr _ =>
              let entry := Audit.GoMap [("order_id", uuid_String orderID)] in
              let! r3 := Audit.LogWithConn (Audit.Tx [upd; InsertOrder order])
                "reservation" reservationID "confirmed" entry in
              match r3 with
              | Some err => confirm_fail sale "failed to write audit log" err
              | None =>
                  let! r4 := invoke (CCommit [upd; InsertOrder order;
                    Audit.audit_stmt "reservation" reservationID "confirmed" entry]) in
                  match r4 with
                  | inl err => confirm_fail sale "failed to commit transaction" err
                  | inr _ => let! _ := invoke CRollback in Ret (inr order)
                  end
              end
          end
      end
  end.

Definition Confirm (reservationID : uuid) (idempotencyKey : string) : prog (error + Order) :=
  let! existingOrder :=
    if String.eqb idempotencyKey "" then Ret (inl "")
    else getOrderByIdempotencyKey idempotencyKey in
  match existingOrder with
  | inr o => Ret (inr o)
  | inl _ =>
      let! row := invoke (CRow (SelectReservation reservationID)) in
      match row with
      | inl err => Ret (inl (Errorf_w "reservation not found" err))
      | inr r =>
          if bool_decide (Status r <> ReservationStatusReserved) then
            Ret (inl "reservation not in reserved state")
          else
            let! result := Client.Confirm (uuid_String (SaleID r)) in
            match result with
            | inl err => Ret (inl (Errorf_w "redis confirm failed" err))
            | inr v =>
                if v =? -1 then Ret (inl "invalid reservation state")
                else confirm_tx reservationID idempotencyKey r
            end
      end
  end.

Definition Release (s : Service) (reservationID : uuid) : prog (option error) :=
  let! row := invoke (CRow (SelectReservation reservationID)) in
  match row with
  | inl err => Ret (Some (Errorf_w "reservation not found" err))
  | inr r =>
      if bool_decide (Status r <> ReservationStatusReserved) then
        Ret (Some "reservation not in reserved state")
      else
        let sale := uuid_String (SaleID r) in
        let! err := Client.Release sale in
        match err with
        | Some err => Ret (Some (Errorf_w "redis release failed" err))
        | None =>
            let! upd := invoke (CExec (UpdateReservationStatus ReservationStatusReleased reservationID)) in
            match upd with
            | inl err => Ret (Some (Errorf_w "failed to update reservation" err))
            | inr _ =>
                let! available := Client.get_int_ignoring_error (availableKey sale) in
                let! _ := announce_stock s sale available false in
                let! _ := Audit.Log "reservation" reservationID "released"
                  (Audit.GoMap [("sale_id", sale)]) in
                Ret None
            end
        end
  end.
End Service.
End ReservationService.
