(* ===== verification/Inventory.v ===== *)
(** * internal/inventory/service.go and internal/waitlist/service.go *)
From S2P Require Import Prelude GoStd Models Services Scripts World Keys RedisClient.
Local Open Scope string_scope.
Local Open Scope Z_scope.
Local Open Scope prog_scope.

Module InventoryService.
Section Service.
Context `{UL : UuidLib}.

(** [time.Time.Unix]: whole seconds, rounded down. *)
Definition Unix (t : Z) : Z := t / 1000000000.

(** [CreateSale(ctx, sale)]: the sale as the call leaves it, and the error. *)
Definition CreateSale (sale0 : Sale) : prog (Sale * option error) :=
  let! id := invoke CNewUUID in
  let! created := invoke CNow in
  let sale := mkSale id (Name sale0) (TotalStock sale0) (StartTime sale0) (EndTime sale0)
    SaleStatusPending created in
  let! ins := invoke (CExec (InsertSale sale)) in
  match ins with
  | inl err => Ret (sale, Some (Errorf_w "failed to create sale" err))
  | inr _ =>
      let saleID := uuid_String id in
      let! res := invoke (CPipeline
        [PSet (availableKey saleID) (Itoa (TotalStock sale)) 0;
         PSet (reservedKey saleID) (Itoa 0) 0;
         PHSet (metaKey saleID)
           [("total", Itoa (TotalStock sale)); ("start_time", Itoa (Unix (StartTime sale)));
            ("end_time", Itoa (Unix (EndTime sale))); ("status", SaleStatusField sale)]]) in
      match res with
      | inl err => Ret (sale, Some (Errorf_w "failed to initialize redis data" err))
      | inr _ => Ret (sale, None)
      end
  end.

Definition GetSale (saleID : uuid) : prog (error + Sale * SaleStats) :=
  let! row := invoke (CRow (SelectSale saleID)) in
  match row with
  | inl err => Ret (inl (Errorf_w "failed to get sale" err))
  | inr sale =>
      let! available := Client.get_int (availableKey (uuid_String saleID)) in
      match available with
      | inl err => Ret (inl (Errorf_w "failed to get available count" err))
      | inr available =>
          let! reserved := Client.get_int (reservedKey (uuid_String saleID)) in
          match reserved with
          | inl err => Ret (inl (Errorf_w "failed to get reserved count" err))
          | inr reserved => Ret (inr (sale, mkSaleStats available reserved (TotalStock sale)))
          end
      end
  end.

Definition UpdateSaleStatus (saleID : uuid) (status : SaleStatus) : prog (option error) :=
  let! upd := invoke (CExec (UpdateSaleStatusStmt status saleID)) in
  match upd with
  | inl err => Ret (Some (Errorf_w "failed to update sale status" err))
  | inr _ =>
      let! h := invoke (CHSet (metaKey (uuid_String saleID)) [("status", status)]) in
      match h with
      | inl err => Ret (Some (Errorf_w "failed to update redis status" err))
      | inr _ => Ret None
      end
  end.

Record SaleInput := mkSaleInput {
  InputName : string;
  InputTotalStock : Z;
  InputStartTime : Z;
  InputEndTime : Z
}.

(** The zero UUID, status and time of a Go struct literal that omits them. *)
Definition CreateSaleAndReturn (input : SaleInput) : prog (error + Sale) :=
  let! r := CreateSale (mkSale 0%N (InputName input) (InputTotalStock input)
    (InputStartTime input) (InputEndTime input) "" 0) in
  match r with
  | (_, Some err) => Ret (inl err)
  | (sale, None) => Ret (inr sale)
  end.
End Service.
End InventoryService.

Module WaitlistService.
Section Service.
Context `{UL : UuidLib}.

Record JoinResponse := mkJoinResponse { Position : Z; JoinedAt : Z }.
Record PositionResponse := mkPositionResponse { UserPosition : Z; TotalWaiting : Z }.

Definition Join (saleID userID : uuid) : prog (error + JoinResponse) :=
  let! t := invoke CNow in
  let timestamp := InventoryService.Unix t in
  let! r := Client.WaitlistJoin (uuid_String saleID) (uuid_String userID) timestamp in
  match r with
  | inl err => Ret (inl (Errorf_w "failed to join waitlist" err))
  | inr rank =>
      if rank =? -1 then Ret (inl "stock available")
      else if rank =? -2 then Ret (inl "already in waitlist")
      else Ret (inr (mkJoinResponse (wrap64 (rank + 1)) (timestamp * 1000000000)))
  end.

Definition GetPosition (saleID userID : uuid) : prog (error + PositionResponse) :=
  let key := waitlistKey (uuid_String saleID) in
  let! r := invoke (CZRank key (uuid_String userID)) in
  match r with
  | inl _ => Ret (inl "user not in waitlist")
  | inr rank =>
      let! t := invoke (CZCard key) in
      match t with
      | inl err => Ret (inl (Errorf_w "failed to get waitlist size" err))
      | inr total => Ret (inr (mkPositionResponse (wrap64 (rank + 1)) total))
      end
  end.

Definition Leave (saleID userID : uuid) : prog (option error) :=
  let! r := invoke (CZRem (waitlistKey (uuid_String saleID)) (uuid_String userID)) in
  match r with
  | inl err => Ret (Some (Errorf_w "failed to leave waitlist" err))
  | inr removed => if removed =? 0 then Ret (Some "user not in waitlist") else Ret None
  end.
End Service.
End WaitlistService.
