(* ===== verification/Expiry.v ===== *)
(** * internal/queue/expiry_handler.go: TTL expiry and waitlist promotion *)
From S2P Require Import Prelude GoStd Models Services Scripts World Keys RedisClient.
From Stdlib Require Import Ascii.
Local Open Scope string_scope.
Local Open Scope Z_scope.
Local Open Scope prog_scope.

Module ExpiryHandler.

Record ExpiryHandler := mkExpiryHandler { reservationTTL : Z; publisher : bool }.

Section Handler.
Context `{UL : UuidLib}.

Definition promoteNextUser (h : ExpiryHandler) (saleID : uuid) : prog unit :=
  let sale := uuid_String saleID in
  let! p := Client.WaitlistPromote sale in
  match p with
  | inl _ => Ret tt
  | inr userIDStr =>
      if String.eqb userIDStr "-1" then Ret tt
      else
        match uuid_Parse userIDStr with
        | inl _ => Ret tt
        | inr userID =>
            let! id := invoke CNewUUID in
            let! itemID := invoke CNewUUID in
            let! t1 := invoke CNow in
            let! t2 := invoke CNow in
            let newReservation := mkReservation id userID saleID itemID
              ReservationStatusReserved t1 None (t2 + seconds (reservationTTL h)) in
            let! ins := invoke (CExec (InsertReservation newReservation true)) in
            match ins with
            | inl _ => let! _ := Client.Release sale in Ret tt
            | inr _ =>
                let! _ := invoke (CSet (ttlKey (uuid_String id)) "1" (seconds (reservationTTL h))) in
                let! _ :=
                  (if publisher h then
                     let! _ := Publisher.WaitlistPromoted (uuid_String userID) (uuid_String id) in
                     let! available := Client.get_int_ignoring_error (availableKey sale) in
                     let! _ := Publisher.StockUpdate sale available in Ret tt
                   else Ret tt) in
                let! _ := Audit.Log "reservation" id "promoted"
                  (Audit.GoMap [("user_id", uuid_String userID); ("sale_id", sale)]) in
                Ret tt
            end
        end
  end.

Definition handleExpiredReservation (h : ExpiryHandler) (key : string) : prog unit :=
  match Split key ":" with
  | [_; part1; _] =>
      match uuid_Parse part1 with
      | inl _ => Ret tt
      | inr reservationID =>
          let! row := invoke (CRow (SelectReservation reservationID)) in
          match row with
          | inl _ => Ret tt
          | inr r =>
              if bool_decide (Status r <> ReservationStatusReserved) then Ret tt
              else
                let sale := uuid_String (SaleID r) in
                let! err := Client.Release sale in
                match err with
                | Some _ => Ret tt
                | None =>
                    let! upd := invoke (CExec
                      (UpdateReservationStatus ReservationStatusExpired reservationID)) in
                    match upd with
                    | inl _ => Ret tt
                    | inr _ =>
                        let! available := Client.get_int_ignoring_error (availableKey sale) in
                        let! _ :=
                          (if publisher h then
                             let! _ := Publisher.StockUpdate sale available in Ret tt
                           else Ret tt) in
                        let! _ := Audit.Log "reservation" reservationID "expired"
                          (Audit.GoMap [("sale_id", sale)]) in
                        promoteNextUser h (SaleID r)
                    end
                end
          end
      end
  | _ => Ret tt
  end.

(** One message of the [__keyevent@0__:expired] subscription ([Start]). *)
Definition on_expired_message (h : ExpiryHandler) (payload : string) : prog unit :=
  if HasPrefix payload "reservation:" && HasSuffix payload ":ttl"
  then handleExpiredReservation h payload
  else Ret tt.

(** [Start]: keyspace notifications are switched on; then one goroutine receives
    the expired keys and starts a goroutine for each ([listen]), another runs
    [runExpiryWarningTicker]. *)
Definition Start : prog (option error) :=
  let! r := invoke (CConfigSet "notify-keyspace-events" "Ex") in
  match r with
  | inl err => Ret (Some (Errorf_w "failed to enable keyspace notifications" err))
  | inr _ => Ret None
  end.

Definition listen (h : ExpiryHandler) (payloads : list string) : list (prog unit) :=
  on_expired_message h <$> payloads.

(** [int(time.Until(expiresAt).Seconds())], never negative: whole seconds, since
    the float64 of a duration below a hundred days keeps its nanoseconds. *)
Definition seconds_left (now expiresAt : Z) : Z :=
  let secondsLeft := Z.quot (expiresAt - now) 1000000000 in
  if secondsLeft <? 0 then 0 else secondsLeft.

Fixpoint notify_rows (rows : list (error + uuid * uuid * Z)) : prog unit :=
  match rows with
  | [] => Ret tt
  | inl _ :: rest => notify_rows rest
  | inr (_, userID, expiresAt) :: rest =>
      let! now := invoke CNow in
      let! _ := Publisher.ReservationExpiring (uuid_String userID) (seconds_left now expiresAt) in
      notify_rows rest
  end.

Definition notifyExpiringReservations (h : ExpiryHandler) : prog unit :=
  if publisher h then
    let! rows := invoke (CRows SelectExpiring) in
    match rows with
    | inl _ => Ret tt
    | inr rows => notify_rows rows
    end
  else Ret tt.

(** What the select of a ticker loop wakes up on. *)
Inductive wake := TickerC | CtxDone.

Fixpoint runExpiryWarningTicker (h : ExpiryHandler) (wakes : list wake) : prog unit :=
  match wakes with
  | [] => Ret tt
  | CtxDone :: _ => Ret tt
  | TickerC :: rest => let! _ := notifyExpiringReservations h in runExpiryWarningTicker h rest
  end.
End Handler.
End ExpiryHandler.
