(* ===== verification/Reconcile.v ===== *)
(** * internal/recovery and internal/worker: Redis counters from the database *)
From S2P Require Import Prelude GoStd Models Services Scripts World Keys RedisClient Expiry.
Local Open Scope string_scope.
Local Open Scope Z_scope.
Local Open Scope prog_scope.

(** ** internal/recovery/reconcile_startup.go *)

Module Recovery.

Record ReconciliationResult := mkResult {
  SaleID : string;
  TotalStock : Z;
  ReservedCount : Z;
  ConfirmedCount : Z;
  ExpectedAvailable : Z;
  RedisAvailableBefore : Z;
  RedisReservedBefore : Z;
  Corrected : bool
}.

(** [json.Marshal(result)]: the struct has no tags. *)
Definition marshal_result (r : ReconciliationResult) : json :=
  JObj [("SaleID", JStr (SaleID r)); ("TotalStock", JNum (TotalStock r));
        ("ReservedCount", JNum (ReservedCount r)); ("ConfirmedCount", JNum (ConfirmedCount r));
        ("ExpectedAvailable", JNum (ExpectedAvailable r));
        ("RedisAvailableBefore", JNum (RedisAvailableBefore r));
        ("RedisReservedBefore", JNum (RedisReservedBefore r));
        ("Corrected", JBool (Corrected r))].

Section Recovery.
Context `{UL : UuidLib}.

Definition reconcileSale (id : uuid) (totalStock : Z) : prog (error + ReconciliationResult) :=
  let saleID := uuid_String id in
  let! c1 := invoke (CRow (CountLiveReservations id)) in
  match c1 with
  | inl err => Ret (inl (Errorf_w "failed to count reservations" err))
  | inr reservedCount =>
      let! c2 := invoke (CRow (CountOrders id)) in
      match c2 with
      | inl err => Ret (inl (Errorf_w "failed to count orders" err))
      | inr confirmedCount =>
          let expectedAvailable := totalStock - reservedCount - confirmedCount in
          let! redisAvailable := Client.get_int_ignoring_error (availableKey saleID) in
          let! redisReserved := Client.get_int_ignoring_error (reservedKey saleID) in
          let result := mkResult saleID totalStock reservedCount confirmedCount expectedAvailable
            redisAvailable redisReserved in
          if negb (redisAvailable =? expectedAvailable) || negb (redisReserved =? reservedCount) then
            let! s1 := invoke (CSet (availableKey saleID) (Itoa expectedAvailable) 0) in
            match s1 with
            | inl err => Ret (inl (Errorf_w "failed to set available" err))
            | inr _ =>
                let! s2 := invoke (CSet (reservedKey saleID) (Itoa reservedCount) 0) in
                match s2 with
                | inl err => Ret (inl (Errorf_w "failed to set reserved" err))
                | inr _ => Ret (inr (result true))
                end
            end
          else Ret (inr (result false))
      end
  end.

(** The loop over the active sales; [corrections] counts the corrected ones. *)
Fixpoint startup_rows (rows : list (error + uuid * Z)) (corrections : Z) : prog (error + Z) :=
  match rows with
  | [] => Ret (inr corrections)
  | inl err :: _ => Ret (inl (Errorf_w "failed to scan sale row" err))
  | inr (id, totalStock) :: rest =>
      let! r := reconcileSale id totalStock in
      match r with
      | inl _ => startup_rows rest corrections
      | inr result =>
          if Corrected result then
            let! _ := Audit.Log "sale" id "startup_reconciliation" (Audit.GoBytes (marshal_result result)) in
            startup_rows rest (corrections + 1)
          else startup_rows rest corrections
      end
  end.

Definition ReconcileOnStartup : prog (option error) :=
  let! rows := invoke (CRows SelectActiveSales) in
  match rows with
  | inl err => Ret (Some (Errorf_w "failed to query active sales" err))
  | inr rows =>
      let! scanned := startup_rows rows 0 in
      match scanned with
      | inl err => Ret (Some err)
      | inr corrections =>
          let! e := invoke CRowsErr in
          match e with
          | inl err => Ret (Some (Errorf_w "error iterating sales" err))
          | inr _ =>
              let! _ := invoke (CMetric (ReconciliationCorrections corrections)) in
              Ret None
          end
      end
  end.
End Recovery.
End Recovery.

(** ** internal/worker/reconciler.go *)

Module Worker.

Record DriftDetails := mkDrift {
  DriftSaleID : string;
  RedisAvailable : Z;
  RedisReserved : Z;
  ExpectedAvailable : Z;
  ExpectedReserved : Z;
  PostgresReserved : Z;
  PostgresConfirmed : Z;
  DriftTotalStock : Z
}.

Definition marshal_drift (d : DriftDetails) : json :=
  JObj [("sale_id", JStr (DriftSaleID d)); ("redis_available", JNum (RedisAvailable d));
        ("redis_reserved", JNum (RedisReserved d));
        ("expected_available", JNum (ExpectedAvailable d));
        ("expected_reserved", JNum (ExpectedReserved d));
        ("postgres_reserved", JNum (PostgresReserved d));
        ("postgres_confirmed", JNum (PostgresConfirmed d));
        ("total_stock", JNum (DriftTotalStock d))].

Section Worker.
Context `{UL : UuidLib}.

Definition reconcileSingleSale (id : uuid) (totalStock : Z) : prog (error + bool) :=
  let saleID := uuid_String id in
  let! c1 := invoke (CRow (CountLiveReservations id)) in
  match c1 with
  | inl err => Ret (inl (Errorf_w "failed to count reservations" err))
  | inr pgReserved =>
      let! c2 := invoke (CRow (CountOrders id)) in
      match c2 with
      | inl err => Ret (inl (Errorf_w "failed to count orders" err))
      | inr pgConfirmed =>
          let expectedAvailable := totalStock - pgReserved - pgConfirmed in
          let! redisAvailable := Client.get_int_ignoring_error (availableKey saleID) in
          let! redisReserved := Client.get_int_ignoring_error (reservedKey saleID) in
          if negb (redisAvailable =? expectedAvailable) || negb (redisReserved =? pgReserved) then
            let drift := mkDrift saleID redisAvailable redisReserved expectedAvailable pgReserved
              pgReserved pgConfirmed totalStock in
            let! s1 := invoke (CSet (availableKey saleID) (Itoa expectedAvailable) 0) in
            match s1 with
            | inl err => Ret (inl (Errorf_w "failed to set available" err))
            | inr _ =>
                let! s2 := invoke (CSet (reservedKey saleID) (Itoa pgReserved) 0) in
                match s2 with
                | inl err => Ret (inl (Errorf_w "failed to set reserved" err))
                | inr _ =>
                    let! _ := Audit.Log "sale" id "reconciliation_correction"
                      (Audit.GoBytes (marshal_drift drift)) in
                    Ret (inr true)
                end
            end
          else Ret (inr false)
      end
  end.

Fixpoint worker_rows (rows : list (error + uuid * Z)) (corrections : Z) : prog Z :=
  match rows with
  | [] => Ret corrections
  | inl _ :: rest => worker_rows rest corrections
  | inr (id, totalStock) :: rest =>
      let! r := reconcileSingleSale id totalStock in
      match r with
      | inl _ => worker_rows rest corrections
      | inr corrected => worker_rows rest (if corrected then corrections + 1 else corrections)
      end
  end.

Definition reconcileAllSales : prog (option error) :=
  let! rows := invoke (CRows SelectActiveSales) in
  match rows with
  | inl err => Ret (Some (Errorf_w "failed to query active sales" err))
  | inr rows =>
      let! corrections := worker_rows rows 0 in
      let! _ := (if 0 <? corrections
                 then invoke (CMetric (ReconciliationCorrections corrections)) else Ret tt) in
      let! e := invoke CRowsErr in
      Ret (match e with inl err => Some err | inr _ => None end)
  end.

Fixpoint StartReconciliationWorker (wakes : list ExpiryHandler.wake) : prog unit :=
  match wakes with
  | [] => Ret tt
  | ExpiryHandler.CtxDone :: _ => Ret tt
  | ExpiryHandler.TickerC :: rest =>
      let! _ := reconcileAllSales in StartReconciliationWorker rest
  end.
End Worker.
End Worker.
