(* ===== verification/Ledger.v ===== *)
(** * The stock ledger

    What the two counters of a sale should say, given the tables: the contract
    the services keep between them. Also the rules for the client calls, in
    terms of the counters. *)
From S2P Require Import Prelude GoStd Models Services Scripts World Keys Logic RedisClient.
Local Open Scope string_scope.
Local Open Scope Z_scope.

(** ** Definitions *)

(** Rows of [reservations] that hold a unit of the sale. *)
Definition holds_unit (sale : uuid) (w : reservation_row) : bool :=
  bool_decide (SaleID (row_res w) = sale)
  && bool_decide (Status (row_res w) = ReservationStatusReserved).

Definition held (sale : uuid) (d : db) : Z := count (holds_unit sale) (t_reservations d).
Definition sold (sale : uuid) (d : db) : Z := count (counted_order sale) (t_orders d).

Definition int4 (n : Z) : Prop := -2147483648 <= n <= 2147483647.

Section Ledger.
Context `{UL : UuidLib}.

(** The counters [available] and [reserved] of a sale. *)
Definition stock (v : view) (sale : uuid) : option (Z * Z) :=
  match counter_at (v_data v) (availableKey (uuid_String sale)),
        counter_at (v_data v) (reservedKey (uuid_String sale)) with
  | Some a, Some b => Some (a, b)
  | _, _ => None
  end.

Definition set_stock (sale : uuid) (a b : Z) (v : view) : view :=
  set_data (<[reservedKey (uuid_String sale) := RStr (Itoa b)]>
           (<[availableKey (uuid_String sale) := RStr (Itoa a)]> (v_data v))) v.

(** The counters agree with the tables: every unit of the sale is available,
    held by a reservation in state reserved, or sold. *)
Definition consistent (sale : uuid) (total : Z) (v : view) : Prop :=
  stock v sale = Some (total - held sale (v_db v) - sold sale (v_db v), held sale (v_db v)).
End Ledger.

(** The ledger as an abstract machine: units available, held and sold. *)
Record ledger := mkLedger { l_available : Z; l_held : Z; l_sold : Z }.

Inductive ledger_op := LReserve | LConfirm | LRelease.

Definition ledger_step (op : ledger_op) (l : ledger) : option ledger :=
  match op with
  | LReserve =>
      if 0 <? l_available l then Some (mkLedger (l_available l - 1) (l_held l + 1) (l_sold l)) else None
  | LConfirm =>
      if 0 <? l_held l then Some (mkLedger (l_available l) (l_held l - 1) (l_sold l + 1)) else None
  | LRelease =>
      if 0 <? l_held l then Some (mkLedger (l_available l + 1) (l_held l - 1) (l_sold l)) else None
  end.

Definition ledger_total (l : ledger) : Z := l_available l + l_held l + l_sold l.

(** The counters and the tables implement a ledger. *)
Definition implements `{UuidLib} (sale : uuid) (l : ledger) (v : view) : Prop :=
  stock v sale = Some (l_available l, l_held l) /\
  held sale (v_db v) = l_held l /\ sold sale (v_db v) = l_sold l.

(** ** Counting rows *)

Lemma count_insert_fresh {A} (f : A -> bool) m k x :
  m !! k = None -> count f (<[k := x]> m) = count f m + (if f x then 1 else 0).
Proof.
  intros Hk. unfold count. destruct (f x) eqn:E.
  - rewrite map_filter_insert_True by done.
    rewrite map_size_insert_None; [lia|]. apply map_lookup_filter_None. by left.
  - rewrite map_filter_insert_False by (cbn; congruence). rewrite delete_id by done. lia.
Qed.

Lemma count_insert {A} (f : A -> bool) m k x y :
  m !! k = Some x ->
  count f (<[k := y]> m) = count f m - (if f x then 1 else 0) + (if f y then 1 else 0).
Proof.
  intros Hk. rewrite <- insert_delete_eq.
  rewrite count_insert_fresh by apply lookup_delete_eq.
  rewrite <- (insert_delete_id m k x Hk) at 2.
  rewrite count_insert_fresh by apply lookup_delete_eq. lia.
Qed.

Lemma count_nonneg {A} (f : A -> bool) m : 0 <= count f m.
Proof. unfold count. lia. Qed.

Lemma count_pos {A} (f : A -> bool) m k x : m !! k = Some x -> f x = true -> 0 < count f m.
Proof.
  intros Hk Hf. rewrite <- (insert_delete_id m k x Hk).
  rewrite count_insert_fresh, Hf by apply lookup_delete_eq.
  pose proof (count_nonneg f (delete k m)). lia.
Qed.

Lemma alter_row (f : reservation_row -> reservation_row) (m : gmap uuid reservation_row) k x :
  m !! k = Some x -> alter f k m = <[k := f x]> m.
Proof.
  intros Hk. apply map_eq. intros i. destruct (decide (i = k)) as [->|Hne].
  - by rewrite lookup_alter_eq, lookup_insert_eq, Hk.
  - by rewrite lookup_alter_ne, lookup_insert_ne.
Qed.

(** ** The counters *)

Section StockLemmas.
Context `{UuidLaws}.

Lemma stock_counters v s a b :
  stock v s = Some (a, b) <->
  counter_at (v_data v) (availableKey (uuid_String s)) = Some a /\
  counter_at (v_data v) (reservedKey (uuid_String s)) = Some b.
Proof.
  unfold stock. destruct (counter_at _ (availableKey _)), (counter_at _ (reservedKey _));
    split; (intros [= <- <-] || intros [[=] [=]]); subst; done.
Qed.

Lemma stock_set_stock s a b v : int64 a -> int64 b -> stock (set_stock s a b v) s = Some (a, b).
Proof.
  intros Ha Hb. apply stock_counters. cbn. split.
  - skip_key. by apply counter_at_insert.
  - by apply counter_at_insert.
Qed.

Lemma stock_set_stock_ne s s' a b v : s <> s' -> stock (set_stock s a b v) s' = stock v s'.
Proof.
  intros Hne. unfold stock. cbn.
  assert (availableKey (uuid_String s) <> availableKey (uuid_String s'))
    by (intros E%available_inj; done).
  assert (reservedKey (uuid_String s) <> reservedKey (uuid_String s'))
    by (intros E%reserved_inj; done).
  repeat skip_key. done.
Qed.

(** Two views with the same keyspace have the same stock. *)
Lemma stock_same_data v v' s : v_data v = v_data v' -> stock v s = stock v' s.
Proof. intros E. unfold stock. by rewrite E. Qed.

Lemma stock_other_key v s k x :
  k <> availableKey (uuid_String s) -> k <> reservedKey (uuid_String s) ->
  stock (set_data (<[k := x]> (v_data v)) v) s = stock v s.
Proof. intros H1 H2. unfold stock. cbn. by rewrite !counter_at_insert_ne. Qed.

Lemma stock_range v s a b : stock v s = Some (a, b) -> int64 a /\ int64 b.
Proof. intros [Ha Hb]%stock_counters. apply counter_at_str in Ha as [_ Ha]. apply counter_at_str in Hb as [_ Hb]. done. Qed.
End StockLemmas.

(** ** The client calls, on the counters *)

Section ClientRules.
Context {R D : Type} `{RL : RedisLaws R} `{LL : LuaNumLaws} `{PL : PostgresLaws D} `{O : Oracle}
  `{UU : UuidLaws} `{NL : !NoLostReplies}.
#[local] Abbreviation wp := (wp (R := R) (D := D)).

Lemma wp_client_reserve s v a b Phi :
  stock v s = Some (a, b) -> b < max_int64 ->
  (drops -> forall e, Phi (Ok (inl e)) v) ->
  (a <= 0 -> Phi (Ok (inr (-1))) v) ->
  (0 < a -> Phi (Ok (inr 1)) (set_stock s (a - 1) (b + 1) v)) ->
  wp (Client.Reserve (uuid_String s)) v Phi.
Proof.
  intros [Ha Hb]%stock_counters Hmax Hf Hno Hok. unfold Client.Reserve. apply wp_bind.
  destruct (Z.le_gt_cases a 0) as [Hle|Hgt].
  - eapply (wp_eval _ _ _ (LInt (-1)) (v_data v) (v_pub v)); [done| | |].
    + intros r Hd Hp. rewrite <- Hd, <- Hp. eapply reserve_lua_sold_out; [by rewrite Hd|done].
    + intros Hdr e. apply wp_ret. auto.
    + apply wp_ret. destruct v. by apply Hno.
  - eapply (wp_eval _ _ _ (LInt 1) _ (v_pub v)); [done| | |].
    + intros r Hd Hp. rewrite <- Hp.
      pose proof (reserve_lua_ok r (availableKey (uuid_String s)) (reservedKey (uuid_String s)) a b)
        as L. rewrite Hd in L. apply L; auto with keys.
    + intros Hdr e. apply wp_ret. auto.
    + apply wp_ret. by apply Hok.
Qed.

Lemma wp_client_release s v a b Phi :
  stock v s = Some (a, b) -> a < max_int64 -> min_int64 < b ->
  (drops -> forall e, Phi (Ok (Some e)) v) ->
  Phi (Ok None) (set_stock s (a + 1) (b - 1) v) ->
  wp (Client.Release (uuid_String s)) v Phi.
Proof.
  intros [Ha Hb]%stock_counters Hmax Hmin Hf Hok. unfold Client.Release. apply wp_bind.
  eapply (wp_eval _ _ _ (LInt 1) _ (v_pub v)); [done| | |].
  - intros r Hd Hp. rewrite <- Hp.
    pose proof (release_lua_ok r (availableKey (uuid_String s)) (reservedKey (uuid_String s)) a b)
      as L. rewrite Hd in L. apply L; auto with keys.
  - intros Hdr e. apply wp_ret. auto.
  - by apply wp_ret.
Qed.

Lemma wp_client_confirm s v a b Phi :
  stock v s = Some (a, b) ->
  (drops -> forall e, Phi (Ok (inl e)) v) ->
  (b <= 0 -> Phi (Ok (inr (-1))) v) ->
  (0 < b -> Phi (Ok (inr 1))
     (set_data (<[reservedKey (uuid_String s) := RStr (Itoa (b - 1))]> (v_data v)) v)) ->
  wp (Client.Confirm (uuid_String s)) v Phi.
Proof.
  intros [Ha Hb]%stock_counters Hf Hno Hok. unfold Client.Confirm. apply wp_bind.
  destruct (Z.le_gt_cases b 0) as [Hle|Hgt].
  - eapply (wp_eval _ _ _ (LInt (-1)) (v_data v) (v_pub v)); [done| | |].
    + intros r Hd Hp. rewrite <- Hd, <- Hp. eapply confirm_lua_none; [by rewrite Hd|done].
    + intros Hdr e. apply wp_ret. auto.
    + apply wp_ret. destruct v. by apply Hno.
  - eapply (wp_eval _ _ _ (LInt 1) _ (v_pub v)); [done| | |].
    + intros r Hd Hp. rewrite <- Hp.
      pose proof (confirm_lua_ok r (reservedKey (uuid_String s)) b) as L. rewrite Hd in L.
      by apply L.
    + intros Hdr e. apply wp_ret. auto.
    + apply wp_ret. by apply Hok.
Qed.

Lemma wp_get_counter k v a Phi :
  counter_at (v_data v) k = Some a ->
  (drops -> Phi (Ok 0) v) -> Phi (Ok a) v ->
  wp (Client.get_int_ignoring_error k) v Phi.
Proof.
  intros [Hk Ha]%counter_at_str Hf Hok. unfold Client.get_int_ignoring_error. apply wp_bind.
  eapply wp_get_str; [done| |].
  - intros Hd e. apply wp_ret. auto.
  - apply wp_ret. by rewrite Atoi_Itoa_eq.
Qed.

Lemma wp_get_int k v a Phi :
  counter_at (v_data v) k = Some a ->
  (drops -> forall e, Phi (Ok (inl e)) v) -> Phi (Ok (inr a)) v ->
  wp (Client.get_int k) v Phi.
Proof.
  intros [Hk Ha]%counter_at_str Hf Hok. unfold Client.get_int. apply wp_bind.
  eapply wp_get_str; [done| |].
  - intros Hd e. apply wp_ret. auto.
  - cbn [then_wp]. rewrite Atoi_Itoa_eq by done. by apply wp_ret.
Qed.

Lemma wp_event s m v Phi :
  (drops -> forall o, Phi (Ok o) v) ->
  Phi (Ok None) (publish (saleChannel s, m) v) ->
  wp (Publisher.Publish s m) v Phi.
Proof.
  intros Hf Hok. unfold Publisher.Publish. apply wp_bind.
  apply wp_publish; [intros Hd e|]; apply wp_ret; cbn; auto.
Qed.

Lemma wp_user_event s m v Phi :
  (drops -> forall o, Phi (Ok o) v) ->
  Phi (Ok None) (publish (userChannel s, m) v) ->
  wp (Publisher.PublishToUser s m) v Phi.
Proof.
  intros Hf Hok. unfold Publisher.PublishToUser. apply wp_bind.
  apply wp_publish; [intros Hd e|]; apply wp_ret; cbn; auto.
Qed.

Lemma wp_audit ty id ev p v Phi :
  varchar 100 ty = true -> varchar 100 ev = true ->
  (drops -> forall o, Phi (Ok o) v) ->
  Phi (Ok None) (set_db (stmt_effect (Audit.audit_stmt ty id ev p) (v_db v)) v) ->
  wp (Audit.Log ty id ev p) v Phi.
Proof.
  intros Ht He Hf Hok. unfold Audit.Log, Audit.LogWithConn. apply wp_bind.
  assert (stmt_ok (Audit.audit_stmt ty id ev p) (v_db v) = true) as Hs
    by (cbn [stmt_ok Audit.audit_stmt EntityType EventType]; by rewrite Ht, He).
  apply wp_exec.
  - intros [Hd|Hc] e; [apply wp_ret; auto | congruence].
  - intros _. by apply wp_ret.
Qed.
End ClientRules.

(** ** Automation for handler proofs *)

(** No call fails in this section: the failure branch of a rule is empty. *)
Ltac no_drop :=
  match goal with
  | |- drops -> _ => let H := fresh in intros H; exfalso; exact (no_drops H)
  end.

(** Compute the counters of a sale through writes to other keys. *)
Ltac stock_simpl :=
  unfold stock; cbn [v_data set_data publish set_db measure set_stock];
  repeat skip_key;
  rewrite ?counter_at_insert by assumption.

Section LedgerLemmas.
Context `{UuidLaws}.

Lemma implements_ext s l v v' :
  stock v' s = stock v s ->
  t_reservations (v_db v') = t_reservations (v_db v) -> t_orders (v_db v') = t_orders (v_db v) ->
  implements s l v -> implements s l v'.
Proof.
  intros Hs Hr Ho (H1 & H2 & H3). unfold implements, held, sold. rewrite Hs, Hr, Ho. done.
Qed.

Lemma implements_consistent s total v :
  consistent s total v <->
  exists l, implements s l v /\ ledger_total l = total.
Proof.
  split.
  - intros Hc. exists (mkLedger (total - held s (v_db v) - sold s (v_db v)) (held s (v_db v))
      (sold s (v_db v))). unfold ledger_total. split; [done|cbn; lia].
  - intros (l & (H1 & H2 & H3) & <-). unfold consistent, ledger_total. rewrite H1, H2, H3.
    f_equal. f_equal. lia.
Qed.

Lemma ledger_step_total op l l' : ledger_step op l = Some l' -> ledger_total l' = ledger_total l.
Proof.
  unfold ledger_total. destruct op; cbn; case_any; intros [= <-]; cbn; lia.
Qed.

Lemma held_insert s d r p :
  t_reservations d !! ID r = None ->
  held s (stmt_effect (InsertReservation r p) d) =
  held s d + (if bool_decide (SaleID r = s) && bool_decide (Status r = ReservationStatusReserved)
              then 1 else 0).
Proof. intros Hf. unfold held. cbn. by rewrite count_insert_fresh. Qed.
End LedgerLemmas.
