(* ===== verification/RefServices.v ===== *)
(** * A reference instance of every service

    The classes of Services.v are hypotheses of the development. This file
    builds one concrete instance of each and proves its laws, so that they are
    seen to be satisfiable and the handlers can be run on concrete inputs. It
    is used by the witnesses and the counterexamples only. *)
From S2P Require Import Prelude GoStd Models Services Scripts World Keys Config.
From Stdlib Require Import Ascii QArith.
Local Open Scope string_scope.
Local Open Scope Z_scope.
#[local] Arguments Ascii.eqb : simpl never.
#[local] Arguments String.append !_ _ /.

(** ** google/uuid: a fixed prefix and the number in decimal *)

Definition uuid_prefix : string := "00000000000000000000000000000000".

#[export] Instance ref_uuid : UuidLib := {|
  uuid_String u := uuid_prefix ++ Itoa (Z.of_N u);
  uuid_Parse s :=
    if HasPrefix s uuid_prefix then
      match parse_int (String.substring 32 (String.length s - 32) s) with
      | Some n => inr (Z.to_N n)
      | None => inl "invalid UUID format"
      end
    else inl "invalid UUID length"
|}.

(** ** Lua numbers: exact rationals *)

#[export] Instance ref_lua : LuaNum := {|
  lua_round q := q;
  lua_tonumber s :=
    match split_on "/" s with
    | [a] => inject_Z <$> parse_int a
    | [a; b] =>
        match parse_int a, parse_int b with
        | Some n, Some d => Some (Qmake n (Z.to_pos d))
        | _, _ => None
        end
    | _ => None
    end;
  lua_tostring q := Itoa (Qnum q) ++ "/" ++ Itoa (Zpos (Qden q))
|}.

#[export] Instance ref_float : FloatArg := fun q => Itoa (Qnum q) ++ "/" ++ Itoa (Zpos (Qden q)).

(** ** Redis: a finite map and the list of messages *)

Record ref_state := mkRef {
  ref_data : gmap string rval;
  ref_pub : list (string * json)
}.

Definition wrongtype : error := "WRONGTYPE".

Definition with_data (d : gmap string rval) (r : ref_state) : ref_state := mkRef d (ref_pub r).

Definition ref_add (k : string) (delta : Z) (r : ref_state) : (error + Z) * ref_state :=
  let go n :=
    if int64b (n + delta)
    then (inr (n + delta), with_data (<[k := RStr (Itoa (n + delta))]> (ref_data r)) r)
    else (inl "increment or decrement would overflow", r) in
  match ref_data r !! k with
  | None => go 0
  | Some _ =>
      match counter_at (ref_data r) k with
      | Some n => go n
      | None => (inl "value is not an integer or out of range", r)
      end
  end.

Definition ref_zset {X} (k : string) (f : gmap string Z -> X * gmap string Z) (r : ref_state)
  : (error + X) * ref_state :=
  match zset_at (ref_data r) k with
  | None => (inl wrongtype, r)
  | Some z => let '(x, z') := f z in (inr x, with_data (put_zset k z' (ref_data r)) r)
  end.

Definition ref_read {A X} (at_key : gmap string rval -> string -> option A) (k : string) (f : A -> X)
    (r : ref_state) : (error + X) * ref_state :=
  match at_key (ref_data r) k with
  | None => (inl wrongtype, r)
  | Some a => (inr (f a), r)
  end.

Definition zfirst (l : list (string * Z)) : option (string * Z) :=
  fold_right (fun p best =>
    match best with
    | None => Some p
    | Some q => if zmember_before p q then Some p else Some q
    end) None l.

#[export] Instance ref_redis : RedisServer ref_state := {|
  dataset := ref_data;
  published := ref_pub;
  GET k r :=
    match ref_data r !! k with
    | None => (inr None, r)
    | Some (RStr s) => (inr (Some s), r)
    | Some _ => (inl wrongtype, r)
    end;
  SET k v _ r := (inr tt, with_data (<[k := RStr v]> (ref_data r)) r);
  INCR k r := ref_add k 1 r;
  DECR k r := ref_add k (-1) r;
  HSET k fs r :=
    match hash_at (ref_data r) k with
    | None => (inl wrongtype, r)
    | Some h => (inr tt, with_data
        (<[k := RHash (fold_left (fun h p => <[fst p := snd p]> h) fs h)]> (ref_data r)) r)
    end;
  HMGET k fs := ref_read hash_at k (fun h => (fun f => h !! f) <$> fs);
  EXPIRE _ _ r := (inr tt, r);
  ZADD k sc m r :=
    match zset_at (ref_data r) k, parse_int sc with
    | Some z, Some n => (inr 1, with_data (<[k := RZset (<[m := n]> z)]> (ref_data r)) r)
    | _, _ => (inl wrongtype, r)
    end;
  ZSCORE k m := ref_read zset_at k (fun z => Itoa <$> z !! m);
  ZRANK k m := ref_read zset_at k (fun z => zrank z m <$> z !! m);
  ZPOPMIN k r :=
    match zset_at (ref_data r) k with
    | None => (inl wrongtype, r)
    | Some z =>
        match zfirst (map_to_list z) with
        | None => (inr [], r)
        | Some (m, sc) => (inr [m; Itoa sc], with_data (put_zset k (delete m z) (ref_data r)) r)
        end
    end;
  ZCARD k := ref_read zset_at k (fun z => Z.of_nat (size z));
  ZREM k m := ref_zset k (fun z => (if decide (is_Some (z !! m)) then 1 else 0, delete m z));
  PUBLISH ch m r := (inr tt, mkRef (ref_data r) (ref_pub r ++ [(ch, m)])%list)
|}.

(** ** PostgreSQL: the tables themselves *)

#[export] Instance ref_pg : Postgres db := {|
  tables d := d;
  pg_exec s d := if stmt_ok s d then (inr tt, stmt_effect s d) else (inl "constraint violation", d);
  pg_row X q now d := inr (row_answer q now d);
  pg_rows X q now d := inr (inr <$> rows_answer q now d);
  pg_try l s d := if stmts_ok (l ++ [s])%list d then inr tt else inl "constraint violation";
  pg_commit l d := if stmts_ok l d then (inr tt, stmts_effect l d) else (inl "constraint violation", d)
|}.

(** ** The outside: a clock that counts calls, fresh numbers, chosen faults *)

Definition plan (faults : nat -> fault) : Oracle := {|
  fault_at := faults;
  time_at n := Z.of_nat n;
  uuid_at n := (1000 + N.of_nat n)%N
|}.

#[export] Instance calm : Oracle := plan (fun _ => NoFault).

(** ** A sample world: sale 7 of two units, one of them held by reservation 50 *)

Definition sample_reservation : Reservation :=
  mkReservation 50%N 1%N 7%N 3%N ReservationStatusReserved 0 None 600000000000.

Definition sample_db : db :=
  mkDB {[1%N; 2%N]} {[7%N := mkSale 7%N "sneakers" 2 0 0 SaleStatusActive 0]} {[3%N]}
    {[50%N := mkRow sample_reservation false]} ∅ [].

Definition sample_data : gmap string rval :=
  <[availableKey (uuid_String 7%N) := RStr "1"]>
  {[reservedKey (uuid_String 7%N) := RStr "1"]}.

Definition sample_world : world ref_state db := mkWorld (mkRef sample_data []) sample_db 0 [].

(** ** The laws *)

#[export] Instance calm_no_faults : NoFaults.
Proof. intros n. done. Qed.

Lemma no_char_digits c fuel : (forall d, 0 <= d < 10 -> Ascii.eqb (digit_char d) c = false) ->
  forall n acc, no_char c acc = true -> no_char c (print_digits fuel n acc) = true.
Proof.
  intros Hc. induction fuel as [|f IH]; intros n acc Hacc; cbn; [done|].
  assert (no_char c (String (digit_char (n mod 10)) acc) = true) as H.
  { cbn. rewrite Hc, Hacc by (apply Z.mod_pos_bound; lia). done. }
  destruct (n / 10 =? 0); [done|]. by apply IH.
Qed.

Lemma no_char_Itoa c n : Ascii.eqb "-" c = false ->
  (forall d, 0 <= d < 10 -> Ascii.eqb (digit_char d) c = false) -> no_char c (Itoa n) = true.
Proof.
  intros Hm Hd. unfold Itoa. destruct (n <? 0).
  - cbn [no_char]. rewrite Hm. by apply no_char_digits.
  - by apply no_char_digits.
Qed.

Lemma digit_char_eqb c : digit_val c = None -> forall d, 0 <= d < 10 -> Ascii.eqb (digit_char d) c = false.
Proof. intros Hc d Hd. apply Ascii.eqb_neq. by apply digit_char_neq. Qed.

#[export] Instance ref_uuid_laws : UuidLaws.
Proof.
  split.
  - intros u. unfold uuid_Parse, uuid_String, ref_uuid. rewrite HasPrefix_app.
    rewrite length_append. change 32%nat with (String.length uuid_prefix).
    replace (String.length uuid_prefix + String.length (Itoa (Z.of_N u)) - String.length uuid_prefix)%nat
      with (String.length (Itoa (Z.of_N u))) by lia.
    rewrite substring_skip, parse_int_Itoa, N2Z.id. done.
  - intros u. unfold uuid_String, ref_uuid. rewrite no_char_app.
    rewrite no_char_Itoa; [done|done|]. apply digit_char_eqb. done.
  - intros s Hs. unfold uuid_Parse, ref_uuid. destruct (HasPrefix s uuid_prefix) eqn:E; [|eauto].
    exfalso. apply String.prefix_correct in E. apply (f_equal String.length) in E.
    cbn [String.length uuid_prefix] in E.
    assert (forall n s, (String.length (String.substring 0 n s) <= String.length s)%nat) as L.
    { clear. induction n; intros [|c s]; cbn; try lia. specialize (IHn s). lia. }
    specialize (L 32%nat s). change (String.length uuid_prefix) with 32%nat in E. lia.
Qed.

#[export] Instance ref_lua_laws : LuaNumLaws.
Proof.
  assert (forall n, no_char "/" (Itoa n) = true) as Hs.
  { intros n. apply no_char_Itoa; [done|]. by apply digit_char_eqb. }
  split; unfold lua_round, lua_tonumber, lua_tostring, ref_lua.
  - done.
  - intros. reflexivity.
  - intros n Hn. rewrite split_on_no_char, parse_int_Itoa by done. done.
  - intros q. change (Itoa (Qnum q) ++ "/" ++ Itoa (Zpos (Qden q)))
      with (Itoa (Qnum q) ++ String "/" (Itoa (Zpos (Qden q)))).
    rewrite split_on_app, split_on_no_char, !parse_int_Itoa by done.
    eexists. split; [done|]. cbn. by destruct q.
Qed.

Lemma zfirst_none l : zfirst l = None -> l = [].
Proof. destruct l as [|p l]; cbn; [done|]. destruct (foldr _ _ _); [case_match|]; done. Qed.

Lemma zfirst_some l p : zfirst l = Some p ->
  In p l /\ forall q, In q l -> zmember_before q p = false.
Proof.
  revert p. induction l as [|x l IH]; intros p; cbn; [done|].
  fold (zfirst l). destruct (zfirst l) as [b|] eqn:E.
  - destruct (IH b eq_refl) as [Hin Hmin]. destruct (zmember_before x b) eqn:F; intros [= <-].
    + split; [by left|]. intros q [<-|Hq]; [apply zmember_before_irrefl|].
      destruct (zmember_before q x) eqn:G; [|done].
      rewrite <- (Hmin q Hq). symmetry. by eapply zmember_before_trans.
    + split; [by right|]. intros q [<-|Hq]; auto.
  - apply zfirst_none in E as ->. intros [= <-]. split; [by left|].
    intros q [<-|[]]. apply zmember_before_irrefl.
Qed.

Lemma ref_add_counter k delta r n :
  counter_at (ref_data r) k = Some n \/ ref_data r !! k = None /\ n = 0 -> int64 (n + delta) ->
  ref_add k delta r = (inr (n + delta), with_data (<[k := RStr (Itoa (n + delta))]> (ref_data r)) r).
Proof.
  intros Hn Hr. apply int64b_spec in Hr. unfold ref_add. destruct Hn as [Hn|[-> ->]].
  - pose proof Hn as [Hk _]%counter_at_str. by rewrite Hk, Hn, Hr.
  - by rewrite Hr.
Qed.

Lemma ref_read_data {A X} (at_key : gmap string rval -> string -> option A) k (f : A -> X) r :
  ref_data (snd (ref_read at_key k f r)) = ref_data r.
Proof. unfold ref_read. by destruct (at_key _ k). Qed.

Lemma ref_add_only k delta r : only_key k r (snd (ref_add k delta r)).
Proof.
  intros k' Hne. unfold ref_add. cbn.
  repeat case_match; cbn; try done; by rewrite lookup_insert_ne.
Qed.

Lemma put_zset_only k z d k' : k' <> k -> put_zset k z d !! k' = d !! k'.
Proof.
  intros Hne. unfold put_zset. case_decide; [by rewrite lookup_delete_ne|by rewrite lookup_insert_ne].
Qed.

#[export] Instance ref_redis_laws : RedisLaws ref_state.
Proof.
  split; unfold answers; cbn.
  - intros r k ->. done.
  - intros r k s ->. done.
  - done.
  - intros r k n Hn Hm. erewrite ref_add_counter; [done|exact Hn|].
    destruct Hn as [[_ Hn]%counter_at_str|[_ ->]]; unfold int64, max_int64, min_int64 in *; lia.
  - intros r k n Hn Hm. change (n - 1) with (n + -1). erewrite ref_add_counter; [done|exact Hn|].
    destruct Hn as [[_ Hn]%counter_at_str|[_ ->]]; unfold int64, max_int64, min_int64 in *; lia.
  - intros r k h fs ->. done.
  - intros r k h fs Hh. unfold ref_read. by rewrite Hh.
  - done.
  - intros r k z sc n m -> -> _. exists 1. by rewrite parse_int_Itoa.
  - intros r k z m Hz. unfold ref_read. rewrite Hz. exists (Itoa <$> z !! m).
    split; [done|]. destruct (z !! m); cbn; split; intros [? ?]; eauto; done.
  - intros r k z m Hz. unfold ref_read. by rewrite Hz.
  - intros r k ->. done.
  - intros r k z -> Hne. destruct (zfirst (map_to_list z)) as [[m sc]|] eqn:E.
    + apply zfirst_some in E as [Hin Hmin]. exists m, sc, (Itoa sc).
      split; [by apply elem_of_map_to_list, list_elem_of_In|]. split; [|done].
      intros m' sc' Hm'. apply Hmin. by apply list_elem_of_In, elem_of_map_to_list.
    + apply zfirst_none in E. by apply map_to_list_empty_iff in E.
  - intros r k z Hz. unfold ref_read. by rewrite Hz.
  - intros r k z m Hz. unfold ref_zset. by rewrite Hz.
  - done.
  - intros r k. by repeat case_match.
  - intros r k fs. apply ref_read_data.
  - intros r k m. apply ref_read_data.
  - intros r k m. apply ref_read_data.
  - intros r k. apply ref_read_data.
  - intros r k. apply ref_add_only.
  - intros r k. apply ref_add_only.
  - intros r k fs k' Hne. cbn. repeat case_match; cbn; try done; by rewrite lookup_insert_ne.
  - intros r k sc m k' Hne. cbn. repeat case_match; cbn; try done; by rewrite lookup_insert_ne.
  - intros r k k' Hne. cbn. repeat case_match; cbn; try done; by rewrite put_zset_only.
  - intros r k m k' Hne. cbn. unfold ref_zset. repeat case_match; cbn; try done; by rewrite put_zset_only.
Qed.

#[export] Instance ref_float_laws : FloatArgLaws.
Proof.
  split. intros q _. destruct (lua_tonumber_tostring q) as (q' & Hq' & E). by exists q'.
Qed.

#[export] Instance ref_pg_laws : PostgresLaws db.
Proof.
  split; cbn.
  - intros d s ->. done.
  - intros d s ->. eauto.
  - done.
  - eauto.
  - intros d l s ->. done.
  - intros d l s ->. eauto.
  - intros d l ->. done.
  - intros d l ->. eauto.
Qed.

(** ** viper over finite maps *)

Record ref_viper := mkViper {
  rv_env : gmap string string;
  rv_auto : bool;
  rv_disk : read_error + gmap string string;
  rv_file : gmap string string;
  rv_default : gmap string setting
}.

Definition ref_layers (v : ref_viper) : layers :=
  mkLayers (if rv_auto v then rv_env v else ∅) (rv_file v) (rv_default v).

Definition number_of (s : string) : Z := default 0 (parse_int s).

Definition ref_get {X} (cast : setting -> X) (zero : X) (k : string) (v : ref_viper) : X :=
  match find_setting k (ref_layers v) with Some x => cast x | None => zero end.

Definition ref_string (x : setting) : string := match x with VStr s => s | VInt n => Itoa n end.
Definition ref_int (x : setting) : Z := match x with VStr s => number_of s | VInt n => n end.
Definition ref_float64 (x : setting) : Q := inject_Z (ref_int x).

#[export] Instance ref_viper_ops : Viper ref_viper := {|
  SetConfigFile _ v := v;
  AutomaticEnv v := mkViper (rv_env v) true (rv_disk v) (rv_file v) (rv_default v);
  ReadInConfig v :=
    match rv_disk v with
    | inl e => (Some e, v)
    | inr m => (None, mkViper (rv_env v) (rv_auto v) (rv_disk v) m (rv_default v))
    end;
  SetDefault k x v := mkViper (rv_env v) (rv_auto v) (rv_disk v) (rv_file v) (<[k := x]> (rv_default v));
  GetString := ref_get ref_string "";
  GetInt := ref_get ref_int 0;
  GetFloat64 := ref_get ref_float64 0%Q
|}.

#[export] Instance ref_viper_laws : ViperLaws ref_viper.
Proof.
  refine {| layers_of := ref_layers; cast_string := ref_string; cast_int := ref_int;
    cast_float := ref_float64; numeral := fun s => bool_decide (is_Some (parse_int s)) |}.
  all: intros; cbn; try done; try (unfold ref_get; by rewrite H).
  - by destruct (rv_disk v).
  - unfold number_of. by rewrite parse_int_Itoa.
  - apply bool_decide_eq_false, eq_None_not_Some in H. unfold number_of. by rewrite H.
  - apply bool_decide_eq_false, eq_None_not_Some in H. unfold ref_float64. cbn.
    unfold number_of. by rewrite H.
Defined.
