(* ===== verification/ReserveSpec.v ===== *)
(** * What [ReservationService.Reserve] promises *)
From S2P Require Import Prelude GoStd Models Services Scripts World Keys Logic RedisClient.
From S2P Require Import Reservation Ledger.
Local Open Scope string_scope.
Local Open Scope Z_scope.
Import ReservationService.

(** ** Specification *)

Section Spec.
Context `{UL : UuidLib}.

(** What Reserve leaves behind, by its answer: a new row and one unit moved
    from available to held; or no change of the ledger. *)
Definition reserve_post (sale user item : uuid) (key : string) (l : ledger) (v : view)
    (o : outcome (error + Reservation)) (v' : view) : Prop :=
  match o with
  | Panicked _ => False
  | Ok (inr r) =>
      exists l', ledger_step LReserve l = Some l' /\ implements sale l' v' /\
        t_reservations (v_db v) !! ID r = None /\
        t_reservations (v_db v') = <[ID r := mkRow r false]> (t_reservations (v_db v)) /\
        t_orders (v_db v') = t_orders (v_db v) /\
        UserID r = user /\ SaleID r = sale /\ ItemID r = item /\
        Status r = ReservationStatusReserved /\ ConfirmedAt r = None /\
        v_data v' !! ttlKey (uuid_String (ID r)) = Some (RStr "1") /\
        (key <> "" -> v_data v' !! idempotencyKeyOf (uuid_String sale) key =
           Some (RStr (uuid_String (ID r))))
  | Ok (inl e) =>
      implements sale l v' /\ v_db v' = v_db v /\
      (e = "sold out" <-> ledger_step LReserve l = None)
  end.

(** No other sale is touched. *)
Definition other_sales_same (sale : uuid) (v v' : view) : Prop :=
  forall s, s <> sale ->
    stock v' s = stock v s /\ held s (v_db v') = held s (v_db v) /\ sold s (v_db v') = sold s (v_db v).
End Spec.

(** ** Proofs *)

Section Proofs.
Context {R D : Type} `{RL : RedisLaws R} `{LL : LuaNumLaws} `{PL : PostgresLaws D} `{O : Oracle}
  `{UU : UuidLaws} `{NF : !NoFaults}.
#[local] Abbreviation wp := (wp (R := R) (D := D)).

Lemma wp_announce s sale n b v (Phi : outcome unit -> view -> Prop) :
  (forall v', v_data v' = v_data v -> v_db v' = v_db v -> Phi (Ok tt) v') ->
  wp (announce_stock s sale n b) v Phi.
Proof.
  intros H. unfold announce_stock. destruct (publisher s); [|apply wp_ret; by apply H].
  apply wp_bind. unfold Publisher.StockUpdate. apply wp_event; [no_drop|].
  destruct (b && (n =? 0)); cbn [then_wp].
  - apply wp_bind. unfold Publisher.SaleEnded. apply wp_event; [no_drop|].
    apply wp_ret. by apply H.
  - apply wp_ret. by apply H.
Qed.

(** The end of Reserve changes neither the counters nor the rows. *)
Lemma wp_reserve_notify svc r v a b (Phi : outcome (error + Reservation) -> view -> Prop) :
  stock v (SaleID r) = Some (a, b) ->
  (forall v', v_data v' = v_data v -> t_reservations (v_db v') = t_reservations (v_db v) ->
     t_orders (v_db v') = t_orders (v_db v) -> Phi (Ok (inr r)) v') ->
  wp (reserve_notify svc r) v Phi.
Proof.
  intros [Ea _]%stock_counters HPhi. unfold reserve_notify.
  apply wp_bind. eapply wp_get_counter; [exact Ea|no_drop|]. cbn [then_wp].
  apply wp_bind, wp_metric. cbn [then_wp]. apply wp_bind, wp_metric. cbn [then_wp].
  apply wp_bind, wp_announce. intros v3 Hd3 Hdb3. cbn [then_wp].
  apply wp_bind, wp_audit; [done|done|no_drop|]. cbn [then_wp]. apply wp_ret.
  apply HPhi; cbn; by rewrite ?Hd3, ?Hdb3.
Qed.

Lemma wp_reserve_finish svc key r v a b (Phi : outcome (error + Reservation) -> view -> Prop) :
  stock v (SaleID r) = Some (a, b) ->
  (forall v', (forall s, stock v' s = stock v s) ->
     t_reservations (v_db v') = t_reservations (v_db v) ->
     t_orders (v_db v') = t_orders (v_db v) ->
     v_data v' !! ttlKey (uuid_String (ID r)) = Some (RStr "1") ->
     (key <> "" -> v_data v' !! idempotencyKeyOf (uuid_String (SaleID r)) key =
        Some (RStr (uuid_String (ID r)))) ->
     Phi (Ok (inr r)) v') ->
  wp (reserve_finish svc key r) v Phi.
Proof.
  intros Hstock HPhi. unfold reserve_finish. apply wp_bind, wp_set; [no_drop|]. cbn [then_wp].
  set (v1 := set_data _ v).
  assert (forall s, stock v1 s = stock v s) as H1.
  { intros s. apply stock_other_key; auto with keys. }
  apply wp_bind. destruct (String.eqb_spec key "") as [Hk|Hk].
  - apply wp_ret. cbn [then_wp]. eapply wp_reserve_notify; [by rewrite H1|].
    intros v2 Hd Hr Ho. apply HPhi; [|done|done| |done].
    + intros s. rewrite <- H1. by apply stock_same_data.
    + rewrite Hd. apply lookup_insert_eq.
  - apply wp_set; [no_drop|]. cbn [then_wp]. set (v2 := set_data _ v1).
    assert (forall s, stock v2 s = stock v s) as H2.
    { intros s. rewrite <- H1. apply stock_other_key; auto with keys. }
    eapply wp_reserve_notify; [by rewrite H2|].
    intros v3 Hd Hr Ho. apply HPhi; [|done|done| |].
    + intros s. rewrite <- H2. by apply stock_same_data.
    + rewrite Hd. cbn. rewrite lookup_insert_ne by (apply not_eq_sym, ttl_idempotency).
      apply lookup_insert_eq.
    + intros _. rewrite Hd. apply lookup_insert_eq.
Qed.

(** A refused row: the unit goes back to where it was. *)
Lemma wp_reserve_refused sale v a b (Phi : outcome (option error) -> view -> Prop) :
  stock v sale = Some (a, b) -> 0 < a -> b < max_int64 ->
  (forall v', (forall s, stock v' s = stock v s) -> v_db v' = v_db v -> Phi (Ok None) v') ->
  wp (Client.Release (uuid_String sale)) (set_stock sale (a - 1) (b + 1) v) Phi.
Proof.
  intros Hs Hpos Hmax HPhi. destruct (stock_range _ _ _ _ Hs) as [Ra Rb].
  unfold int64, min_int64, max_int64 in *. set (v1 := set_stock sale (a - 1) (b + 1) v).
  assert (stock v1 sale = Some (a - 1, b + 1)) as Hs1
    by (apply stock_set_stock; unfold int64, min_int64, max_int64; lia).
  eapply wp_client_release; [exact Hs1|unfold max_int64; lia|unfold min_int64; lia|no_drop|].
  apply HPhi; [|done]. intros s. destruct (decide (s = sale)) as [->|Hne].
  - rewrite stock_set_stock, Hs by (unfold int64, min_int64, max_int64; lia). f_equal. f_equal; lia.
  - unfold v1. by rewrite !stock_set_stock_ne.
Qed.

Lemma implements_reserved sale l l' v v' r p :
  implements sale l v -> ledger_step LReserve l = Some l' ->
  t_reservations (v_db v) !! ID r = None ->
  SaleID r = sale -> Status r = ReservationStatusReserved -> ConfirmedAt r = None ->
  stock v' sale = Some (l_available l', l_held l') ->
  t_reservations (v_db v') = t_reservations (stmt_effect (InsertReservation r p) (v_db v)) ->
  t_orders (v_db v') = t_orders (v_db v) ->
  implements sale l' v'.
Proof.
  intros (Hs & Hh & Hsold) Hl Hf <- Hst _ Hs' Hr Ho.
  pose proof (held_insert (SaleID r) (v_db v) r p Hf) as E.
  rewrite Hst, !bool_decide_true in E by done. unfold ledger_step in Hl.
  destruct (0 <? l_available l); [|done]. injection Hl as <-. split; [exact Hs'|]. cbn.
  unfold held, sold in *. rewrite Hr, Ho, E, Hh, Hsold. done.
Qed.

Lemma other_sales_reserved sale v v' r p :
  t_reservations (v_db v) !! ID r = None -> SaleID r = sale ->
  (forall s, s <> sale -> stock v' s = stock v s) ->
  t_reservations (v_db v') = t_reservations (stmt_effect (InsertReservation r p) (v_db v)) ->
  t_orders (v_db v') = t_orders (v_db v) ->
  other_sales_same sale v v'.
Proof.
  intros Hf <- Hs Hr Ho s Hne. split; [by apply Hs|].
  pose proof (held_insert s (v_db v) r p Hf) as E.
  rewrite bool_decide_false in E by congruence. unfold held, sold in *.
  rewrite Hr, Ho, E. split; [cbn; lia|done].
Qed.

(** The unit has been taken: the row, or the unit back. *)
Lemma wp_reserve_record svc user sale item key v l :
  implements sale l v -> l_held l < max_int64 -> 0 < l_available l ->
  wp (reserve_record svc user sale item key)
    (set_stock sale (l_available l - 1) (l_held l + 1) v)
    (fun o v' => reserve_post sale user item key l v o v' /\ other_sales_same sale v v').
Proof.
  intros Hi Hmax Hpos. pose proof Hi as (Hs & Hh & Hsold).
  destruct (stock_range _ _ _ _ Hs) as [Ra Rb]. set (v1 := set_stock _ _ _ v).
  assert (stock v1 sale = Some (l_available l - 1, l_held l + 1)) as Hs1
    by (apply stock_set_stock; unfold int64, min_int64, max_int64 in *; lia).
  assert (ledger_step LReserve l = Some (mkLedger (l_available l - 1) (l_held l + 1) (l_sold l)))
    as Hstep by (unfold ledger_step; by rewrite (proj2 (Z.ltb_lt 0 _))).
  unfold reserve_record. apply wp_bind, wp_new_uuid. intros n. generalize (uuid_at n) as id. intros id. apply wp_bind, wp_now. intros t1.
  apply wp_bind, wp_now. intros t2. cbn [then_wp]. set (r := mkReservation id _ _ _ _ _ _ _).
  apply wp_bind, wp_exec.
  - intros [Hd|Hbad] e; [exfalso; exact (no_drops Hd)|]. cbn [then_wp].
    apply wp_bind, wp_reserve_refused; [done|done|done|]. intros v2 Hs2 Hdb2. cbn [then_wp].
    apply wp_bind, wp_metric, wp_ret. split.
    + split; [|split; [done|rewrite Hstep; done]].
      eapply implements_ext; [| | |exact Hi]; cbn; rewrite ?Hdb2; try done. apply Hs2.
    + intros s Hne. cbn. rewrite Hdb2. split; [apply Hs2|done].
  - intros Hok. cbn [then_wp]. eapply wp_reserve_finish; [exact Hs1|].
    intros v2 Hst Hres Hord Httl Hkey.
    assert (t_reservations (v_db v) !! ID r = None) as Hfresh.
    { cbn [stmt_ok] in Hok. rewrite !andb_true_iff, bool_decide_eq_true in Hok. apply Hok. }
    split.
    + eexists. split; [exact Hstep|]. split; [|by repeat split].
      apply (implements_reserved sale l _ v v2 r false); try done. by rewrite Hst.
    + apply (other_sales_reserved sale v v2 r false); try done.
      intros s Hne. rewrite Hst. by apply stock_set_stock_ne.
Qed.

(** A key that the cache does not know does not end the request. *)
Lemma wp_no_cached_answer sale key v (Phi : outcome (error + Reservation) -> view -> Prop) :
  (key = "" \/ v_data v !! idempotencyKeyOf (uuid_String sale) key = None) ->
  (forall e, Phi (Ok (inl e)) v) ->
  wp (if String.eqb key "" then Ret (inl "") else checkIdempotency sale key) v Phi.
Proof.
  intros Hkey HPhi. destruct (String.eqb_spec key "") as [->|Hne]; [by apply wp_ret|].
  destruct Hkey as [->|Hk]; [done|]. unfold checkIdempotency. apply wp_bind.
  apply wp_get_none; [done|]. intros e. by apply wp_ret.
Qed.

(** The timer adds one observation to what the attempt leaves. *)
Lemma wp_timed svc user sale item key v (Phi : outcome (error + Reservation) -> view -> Prop) :
  wp (reserve_attempt svc user sale item key) v (fun o v1 =>
    forall ns, Phi o (measure (ReservationDuration (uuid_String sale) ns) v1)) ->
  wp (Reserve svc user sale item key) v Phi.
Proof.
  intros H. unfold Reserve. apply wp_bind, wp_now. intros start. cbn [then_wp].
  apply wp_defer. eapply wp_mono; [exact H|]. intros o v1 HPhi.
  apply wp_bind, wp_now. intros finish. cbn [then_wp]. by apply wp_metric.
Qed.

Lemma reserve_post_measured sale user item key l v o v' m :
  reserve_post sale user item key l v o v' -> reserve_post sale user item key l v o (measure m v').
Proof. by destruct o as [[e|r]|msg]. Qed.

Lemma wp_reserve_new svc user sale item key v l :
  implements sale l v -> l_held l < max_int64 ->
  (key = "" \/ v_data v !! idempotencyKeyOf (uuid_String sale) key = None) ->
  wp (Reserve svc user sale item key) v
    (fun o v' => reserve_post sale user item key l v o v' /\ other_sales_same sale v v').
Proof.
  intros Hi Hmax Hkey. pose proof Hi as (Hs & Hh & Hsold). apply wp_timed.
  apply (wp_mono _ _ (fun o v' => reserve_post sale user item key l v o v' /\ other_sales_same sale v v')).
  2: { intros o v' [Hpost Hother] ns. split; [by apply reserve_post_measured|exact Hother]. }
  unfold reserve_attempt. apply wp_bind, wp_no_cached_answer; [done|]. intros e0. cbn [then_wp]. apply wp_bind.
  eapply wp_client_reserve; [exact Hs|done|no_drop| |].
  - intros Hle. cbn [then_wp]. apply wp_bind, wp_metric, wp_ret. split; [|done].
    split; [done|]. split; [done|]. unfold ledger_step. by rewrite (proj2 (Z.ltb_ge 0 _)).
  - intros Hgt. cbn [then_wp]. by apply wp_reserve_record.
Qed.

(** A key in the cache ends the request at once. *)
Lemma wp_reserve_cached svc user sale item key rid w v :
  key <> "" ->
  v_data v !! idempotencyKeyOf (uuid_String sale) key = Some (RStr (uuid_String rid)) ->
  t_reservations (v_db v) !! rid = Some w ->
  wp (Reserve svc user sale item key) v (fun o v' =>
    o = Ok (inr (with_confirmed_at None (row_res w))) /\
    exists ns, v' = measure (ReservationDuration (uuid_String sale) ns)
      (measure (ReservationTotal (uuid_String sale) "idempotent") v)).
Proof.
  intros Hne Hk Hw. apply wp_timed. unfold reserve_attempt. destruct (String.eqb_spec key "") as [|_]; [done|].
  apply wp_bind. unfold checkIdempotency. apply wp_bind. eapply wp_get_str; [exact Hk|no_drop|].
  cbn [then_wp]. rewrite Parse_String. apply wp_bind, wp_row; [no_drop|]. intros now.
  cbn [row_answer]. rewrite Hw. cbn [fmap option_fmap option_map then_wp].
  apply wp_ret. cbn [then_wp]. apply wp_bind, wp_metric. cbn [then_wp]. apply wp_ret.
  intros ns. split; [done|]. by exists ns.
Qed.

(** C5. Reserve, run to its end without network failures under a new
    idempotency key or none, refines the ledger's reserve step: either it
    returns a fresh row, one unit has moved from available to held and the TTL
    key and the idempotency key are set; or it returns an error, the ledger and
    the tables are as before, and the error is "sold out" exactly when no unit
    was available (a row the schema refuses gives its unit back). Other sales
    are not touched. *)
Theorem reserve_refines svc user sale item key v l :
  implements sale l v -> l_held l < max_int64 ->
  (key = "" \/ v_data v !! idempotencyKeyOf (uuid_String sale) key = None) ->
  wp (Reserve svc user sale item key) v
    (fun o v' => reserve_post sale user item key l v o v' /\ other_sales_same sale v v').
Proof. apply wp_reserve_new. Qed.

(** C14. A client that repeats a Reserve that went through, with the same
    idempotency key, gets the same reservation and one unit in all: the second
    request takes nothing, whatever user and item it names. *)
Theorem reserve_retry_takes_one svc user user' sale item item' key v l :
  implements sale l v -> 0 < l_available l -> l_held l < max_int64 -> key <> "" ->
  v_data v !! idempotencyKeyOf (uuid_String sale) key = None ->
  wp (pbind (Reserve svc user sale item key) (fun r1 =>
      match r1 with
      | inl e => Ret (inl e)
      | inr r => pbind (Reserve svc user' sale item' key) (fun r2 => Ret (inr (r, r2)))
      end)) v
    (fun o v' => match o with
     | Ok (inr (r1, r2)) =>
         r2 = inr r1 /\ UserID r1 = user /\
         exists l', ledger_step LReserve l = Some l' /\ implements sale l' v'
     | Ok (inl e) => e <> "sold out" /\ implements sale l v' /\ v_db v' = v_db v
     | Panicked _ => False
     end).
Proof.
  intros Hi Hpos Hmax Hne Hk. apply wp_bind.
  eapply wp_mono; [apply (wp_reserve_new svc user sale item key v l); auto|].
  assert (exists l', ledger_step LReserve l = Some l') as [l0 Hl0]
    by (unfold ledger_step; rewrite (proj2 (Z.ltb_lt 0 _)) by done; eauto).
  intros [[e|r]|m] v1 [Hpost _]; cbn [reserve_post then_wp] in *; [| |done].
  - destruct Hpost as (Hi1 & Hdb1 & He). apply wp_ret. split; [|done].
    intros E. apply He in E. congruence.
  - destruct Hpost as (l' & Hl & Hi1 & Hf & Hrows & _ & Hu & Hs & _ & _ & Hc & _ & Hkey).
    apply wp_bind. eapply wp_mono; [eapply (wp_reserve_cached svc user' sale item' key (ID r)
      (mkRow r false)); [done|by apply Hkey|rewrite Hrows; apply lookup_insert_eq]|].
    intros o v2 (-> & ns & ->). cbn [then_wp]. apply wp_ret. split; [|split; [done|]].
    + destruct r; cbn in *. by subst.
    + exists l'. split; [done|]. eapply implements_ext; [| | |exact Hi1]; done.
Qed.
End Proofs.
