(* ===== verification/ConfirmSpec.v ===== *)
(** * What [Confirm] and [Release] of the reservation service promise *)
From S2P Require Import Prelude GoStd Models Schema Services Scripts World Keys Logic.
From S2P Require Import RedisClient Reservation Ledger ReserveSpec.
Local Open Scope string_scope.
Local Open Scope Z_scope.
Import ReservationService.

(** ** Specification *)

Section Spec.
Context `{UL : UuidLib}.

(** The order Confirm inserts. *)
Definition confirm_order (orderID rid : uuid) (r : Reservation) (key : string) (now : Z) : Order :=
  mkOrder orderID rid (UserID r) (SaleID r) 0 "pending" key now.

(** The three statements of Confirm's transaction. *)
Definition confirm_stmts (orderID rid : uuid) (r : Reservation) (key : string) (now : Z) : list stmt :=
  [UpdateReservationConfirmed ReservationStatusConfirmed now rid;
   InsertOrder (confirm_order orderID rid r key now);
   Audit.audit_stmt "reservation" rid "confirmed"
     (Audit.GoMap [("order_id", uuid_String orderID)])].

Definition confirm_post (rid : uuid) (w : reservation_row) (key : string) (l : ledger) (v : view)
    (o : outcome (error + Order)) (v' : view) : Prop :=
  let sale := SaleID (row_res w) in
  match o with
  | Ok (inr ord) =>
      exists l' t, ledger_step LConfirm l = Some l' /\ implements sale l' v' /\
        ord = confirm_order (OrderID ord) rid (row_res w) key t /\
        t_orders (v_db v) !! OrderID ord = None /\
        t_orders (v_db v') = <[OrderID ord := ord]> (t_orders (v_db v)) /\
        t_reservations (v_db v') !! rid =
          Some (mkRow (with_confirmed_at (Some t) (with_status ReservationStatusConfirmed (row_res w)))
                 (row_promoted w))
  | _ => False
  end.

Definition release_post (rid : uuid) (w : reservation_row) (st : ReservationStatus) (l : ledger)
    (v' : view) : Prop :=
  exists l', ledger_step LRelease l = Some l' /\ implements (SaleID (row_res w)) l' v' /\
    t_reservations (v_db v') !! rid = Some (on_row (with_status st) w).

(** What Release of any id says, with the ledger of the sale its row names. *)
Definition release_outcome (rid : uuid) (l : ledger) (v : view) (o : outcome (option error)) (v' : view)
  : Prop :=
  match t_reservations (v_db v) !! rid with
  | Some w =>
      if bool_decide (Status (row_res w) = ReservationStatusReserved)
      then o = Ok None /\ release_post rid w ReservationStatusReleased l v'
      else o = Ok (Some "reservation not in reserved state") /\ v' = v
  | None => (exists e, o = Ok (Some (Errorf_w "reservation not found" e))) /\ v' = v
  end.
End Spec.

(** ** Counting *)

Lemma held_update s d f id w :
  t_reservations d !! id = Some w ->
  held s (set_reservations (alter (on_row f) id) d) =
  held s d - (if holds_unit s w then 1 else 0) + (if holds_unit s (on_row f w) then 1 else 0).
Proof.
  intros Hw. unfold held. cbn. rewrite (alter_row _ _ _ _ Hw). by apply count_insert.
Qed.

Lemma held_pos s d id w : t_reservations d !! id = Some w -> holds_unit s w = true -> 0 < held s d.
Proof. apply count_pos. Qed.

Lemma sold_insert s d o :
  t_orders d !! OrderID o = None ->
  sold s (stmt_effect (InsertOrder o) d) = sold s d + (if counted_order s o then 1 else 0).
Proof. intros Hf. unfold sold. cbn. by apply count_insert_fresh. Qed.

(** ** Proofs *)

Section Proofs.
Context {R D : Type} `{RL : RedisLaws R} `{LL : LuaNumLaws} `{PL : PostgresLaws D} `{O : Oracle}
  `{UU : UuidLaws} `{NF : !NoFaults}.
#[local] Abbreviation wp := (wp (R := R) (D := D)).

(** A key no order has, or none at all. *)
Lemma wp_no_previous_order key v (Phi : outcome (error + Order) -> view -> Prop) :
  (key = "" \/ idempotency_key_used key (t_orders (v_db v)) = false) ->
  (forall e, Phi (Ok (inl e)) v) ->
  wp (if String.eqb key "" then Ret (inl "") else getOrderByIdempotencyKey key) v Phi.
Proof.
  intros Hkey HPhi. destruct (String.eqb_spec key "") as [->|Hne]; [by apply wp_ret|].
  destruct Hkey as [->|Hk]; [done|]. apply wp_row; [by intros|]. intros now.
  rewrite (proj2 (row_answer_key_none key now (v_db v))) by done. exact HPhi.
Qed.

(** Up to the transaction: the row is read and reserved.lua's unit is taken
    off the reserved counter. *)
Lemma wp_confirm_start rid key v w l Phi :
  implements (SaleID (row_res w)) l v ->
  t_reservations (v_db v) !! rid = Some w ->
  Status (row_res w) = ReservationStatusReserved ->
  (key = "" \/ idempotency_key_used key (t_orders (v_db v)) = false) ->
  wp (confirm_tx rid key (row_res w))
    (set_data (<[reservedKey (uuid_String (SaleID (row_res w))) := RStr (Itoa (l_held l - 1))]>
       (v_data v)) v) Phi ->
  wp (Confirm rid key) v Phi.
Proof.
  intros (Hs & Hh & _) Hw Hst Hkey Htx. unfold Confirm.
  apply wp_bind, wp_no_previous_order; [done|]. intros e. cbn [then_wp].
  apply wp_bind, wp_row; [no_drop|]. intros now. cbn [row_answer]. rewrite Hw. cbn [fmap option_fmap option_map].
  cbn [then_wp]. rewrite bool_decide_false by (intros X; exact (X Hst)).
  assert (0 < l_held l) as Hpos.
  { rewrite <- Hh. eapply held_pos; [exact Hw|]. unfold holds_unit.
    by rewrite !bool_decide_true. }
  apply wp_bind. eapply wp_client_confirm; [exact Hs|no_drop|lia|]. intros _. cbn [then_wp]. exact Htx.
Qed.

(** The transaction goes through when its statements obey the schema. *)
Lemma wp_confirm_tx_ok rid key r v Phi :
  (forall n t, stmts_ok (confirm_stmts (uuid_at n) rid r key t) (v_db v) = true) ->
  (forall n t, Phi (Ok (inr (confirm_order (uuid_at n) rid r key t)))
     (set_db (stmts_effect (confirm_stmts (uuid_at n) rid r key t) (v_db v)) v)) ->
  wp (confirm_tx rid key r) v Phi.
Proof.
  intros Hok HPhi. unfold confirm_tx. apply wp_bind, wp_begin; [no_drop|]. cbn [then_wp].
  apply wp_bind, wp_now. intros t. cbn [then_wp].
  assert (forall n, stmts_ok [UpdateReservationConfirmed ReservationStatusConfirmed t rid] (v_db v) = true
    /\ stmts_ok [UpdateReservationConfirmed ReservationStatusConfirmed t rid;
                 InsertOrder (confirm_order (uuid_at n) rid r key t)] (v_db v) = true) as Hpre.
  { intros n. specialize (Hok n t). cbn [stmts_ok confirm_stmts] in *.
    rewrite !andb_true_iff in *. intuition. }
  apply wp_bind, wp_tx_ok; [exact (proj1 (Hpre 0%nat))|]. cbn [then_wp].
  apply wp_bind, wp_new_uuid. intros n. cbn [then_wp].
  apply wp_bind, wp_tx_ok; [exact (proj2 (Hpre n))|]. cbn [then_wp].
  apply wp_bind. unfold Audit.LogWithConn. apply wp_bind, wp_tx_ok; [exact (Hok n t)|].
  cbn [then_wp]. apply wp_ret. cbn [then_wp]. apply wp_bind, wp_commit_accepted; [exact (Hok n t)|].
  cbn [then_wp]. apply wp_bind, wp_rollback. cbn [then_wp]. apply wp_ret. apply HPhi.
Qed.

(** The statements are accepted for a well-formed database, a reserved row and
    a key no order has. *)
Lemma confirm_stmts_ok n rid w key t d :
  schema_ok d -> t_reservations d !! rid = Some w ->
  Status (row_res w) = ReservationStatusReserved ->
  t_orders d !! n = None -> varchar 255 key = true ->
  idempotency_key_used key (t_orders d) = false ->
  stmts_ok (confirm_stmts n rid (row_res w) key t) d = true.
Proof.
  intros Hok Hw Hst Hn Hlen Hkey. cbn [stmts_ok confirm_stmts]. rewrite !andb_true_iff.
  split; [|split; [|done]].
  - cbn [stmt_ok]. by rewrite Hw.
  - cbn [stmt_ok confirm_order OrderID OrderReservationID OrderUserID OrderSaleID OrderStatus
      IdempotencyKey stmt_effect set_reservations t_reservations t_orders t_users t_sales].
    rewrite Hlen, Hkey. rewrite !bool_decide_true; [done| | | | |].
    + unfold order_status_enum. set_solver.
    + by eapply so_reservation_sale.
    + by eapply so_reservation_user.
    + rewrite lookup_alter, decide_True by done. rewrite Hw. done.
    + done.
Qed.

(** The ledger after the transaction. *)
Lemma implements_confirmed rid w l v n key t :
  let sale := SaleID (row_res w) in
  implements sale l v -> t_reservations (v_db v) !! rid = Some w ->
  Status (row_res w) = ReservationStatusReserved -> t_orders (v_db v) !! n = None ->
  exists l', ledger_step LConfirm l = Some l' /\
    implements sale l'
      (set_db (stmts_effect (confirm_stmts n rid (row_res w) key t) (v_db v))
        (set_data (<[reservedKey (uuid_String sale) := RStr (Itoa (l_held l - 1))]> (v_data v)) v)).
Proof.
  intros sale (Hs & Hh & Ho) Hw Hst Hn.
  assert (holds_unit sale w = true) as Hu by (unfold holds_unit; by rewrite !bool_decide_true).
  pose proof (held_pos sale _ _ _ Hw Hu) as Hpos. rewrite Hh in Hpos.
  destruct (stock_range _ _ _ _ Hs) as [Ra Rb].
  exists (mkLedger (l_available l) (l_held l - 1) (l_sold l + 1)). split.
  { unfold ledger_step. by rewrite (proj2 (Z.ltb_lt 0 _)). }
  split; [|split].
  - apply stock_counters in Hs as [Ha _]. apply stock_counters. cbn. split.
    + by skip_key.
    + apply counter_at_insert. unfold int64, min_int64 in *. lia.
  - cbn [v_db set_db stmts_effect fold_left confirm_stmts].
    assert (forall o a d, held sale (stmt_effect (InsertAudit a) (stmt_effect (InsertOrder o) d)) = held sale d)
      as E by done.
    unfold Audit.audit_stmt. rewrite E. cbn [stmt_effect].
    rewrite (held_update _ _ _ _ _ Hw), Hu, Hh. unfold holds_unit. cbn.
    rewrite andb_false_r. lia.
  - cbn [v_db set_db stmts_effect fold_left confirm_stmts].
    assert (forall a d, sold sale (stmt_effect (InsertAudit a) d) = sold sale d) as E by done.
    unfold Audit.audit_stmt. rewrite E, sold_insert by done.
    unfold counted_order. cbn [confirm_order OrderSaleID OrderStatus].
    rewrite bool_decide_true by done. cbn [l_sold]. rewrite <- Ho. done.
Qed.

(** A reservation in state reserved goes to another unconfirmed state. *)
Lemma implements_released rid w (st : ReservationStatus) l v :
  let sale := SaleID (row_res w) in
  implements sale l v -> t_reservations (v_db v) !! rid = Some w ->
  Status (row_res w) = ReservationStatusReserved -> st <> ReservationStatusReserved ->
  l_available l < max_int64 ->
  exists l', ledger_step LRelease l = Some l' /\
    implements sale l'
      (set_db (stmt_effect (UpdateReservationStatus st rid) (v_db v))
         (set_stock sale (l_available l + 1) (l_held l - 1) v)).
Proof.
  intros sale (Hs & Hh & Ho) Hw Hst Hne Hmax.
  assert (holds_unit sale w = true) as Hu by (unfold holds_unit; by rewrite !bool_decide_true).
  pose proof (held_pos sale _ _ _ Hw Hu) as Hpos. rewrite Hh in Hpos.
  destruct (stock_range _ _ _ _ Hs) as [Ra Rb]. unfold int64, min_int64, max_int64 in *.
  exists (mkLedger (l_available l + 1) (l_held l - 1) (l_sold l)). split.
  { unfold ledger_step. by rewrite (proj2 (Z.ltb_lt 0 _)). }
  split; [|split].
  - cbn [l_available l_held]. rewrite (stock_same_data _ (set_stock sale (l_available l + 1)
      (l_held l - 1) v)) by done.
    apply stock_set_stock; unfold int64, min_int64, max_int64; lia.
  - cbn [v_db set_db stmt_effect l_held]. rewrite (held_update _ _ _ _ _ Hw), Hu, Hh.
    unfold holds_unit. cbn. rewrite (bool_decide_false (st = _)) by done.
    rewrite andb_false_r. lia.
  - exact Ho.
Qed.

(** The two calls that give a unit back, as Release and the expiry handler
    make them. *)
Lemma wp_give_back rid w l v (Phi : outcome (option error) -> view -> Prop) :
  let sale := SaleID (row_res w) in
  implements sale l v -> t_reservations (v_db v) !! rid = Some w ->
  Status (row_res w) = ReservationStatusReserved -> l_available l < max_int64 ->
  Phi (Ok None) (set_stock sale (l_available l + 1) (l_held l - 1) v) ->
  wp (Client.Release (uuid_String sale)) v Phi.
Proof.
  intros sale (Hs & Hh & Ho) Hw Hst Hmax HPhi.
  destruct (stock_range _ _ _ _ Hs) as [Ra Rb]. unfold int64, min_int64, max_int64 in *.
  assert (0 < l_held l).
  { rewrite <- Hh. eapply held_pos; [exact Hw|]. unfold holds_unit. by rewrite !bool_decide_true. }
  eapply wp_client_release; [exact Hs|unfold max_int64; lia|unfold min_int64; lia|no_drop|done].
Qed.

Lemma status_update_ok st rid w d :
  t_reservations d !! rid = Some w -> schema_ok d ->
  Status (row_res w) = ReservationStatusReserved -> st <> ReservationStatusConfirmed ->
  stmt_ok (UpdateReservationStatus st rid) d = true.
Proof.
  intros Hw Hok Hst Hne. cbn. rewrite Hw. pose proof (so_confirmation d Hok rid w Hw) as Hc.
  unfold valid_confirmation in *. rewrite Hst in Hc. cbn.
  destruct (ConfirmedAt (row_res w)); [done|]. by destruct st.
Qed.

(** A failed transaction: the compensation runs on counters that reserved.lua's
    confirm has already lowered. *)
Lemma wp_confirm_fail sale a b pre err v (Phi : outcome (error + Order) -> view -> Prop) :
  stock v sale = Some (a, b) -> a < max_int64 -> min_int64 < b ->
  Phi (Ok (inl (Errorf_w pre err))) (set_stock sale (a + 1) (b - 1) v) ->
  wp (confirm_fail (uuid_String sale) pre err) v Phi.
Proof.
  intros Hs Ha Hb HPhi. unfold confirm_fail. apply wp_bind.
  eapply wp_client_release; [exact Hs|done|done|no_drop|]. cbn [then_wp].
  apply wp_bind, wp_rollback. cbn [then_wp]. by apply wp_ret.
Qed.

Lemma wp_confirm_new rid key w l v :
  implements (SaleID (row_res w)) l v -> schema_ok (v_db v) ->
  t_reservations (v_db v) !! rid = Some w ->
  Status (row_res w) = ReservationStatusReserved ->
  varchar 255 key = true -> idempotency_key_used key (t_orders (v_db v)) = false ->
  (forall n, t_orders (v_db v) !! uuid_at n = None) ->
  wp (Confirm rid key) v (confirm_post rid w key l v).
Proof.
  intros Hi Hok Hw Hst Hlen Hkey Hfresh.
  apply (wp_confirm_start rid key v w l); [done|done|done|by right|].
  apply wp_confirm_tx_ok.
  { intros n t. by apply confirm_stmts_ok. }
  intros n t. destruct (implements_confirmed rid w l v (uuid_at n) key t) as (l' & Hl & Hi');
    [done|done|done|done|].
  exists l', t. split; [exact Hl|]. split; [exact Hi'|]. cbn. split; [done|].
  split; [done|]. split; [done|]. by rewrite lookup_alter, decide_True, Hw.
Qed.

(** A row that is missing or no longer reserved is refused before any effect. *)
Lemma wp_confirm_refused rid key v (Phi : outcome (error + Order) -> view -> Prop) :
  idempotency_key_used key (t_orders (v_db v)) = false ->
  (forall w, t_reservations (v_db v) !! rid = Some w -> Status (row_res w) <> ReservationStatusReserved) ->
  (forall e, Phi (Ok (inl e)) v) ->
  wp (Confirm rid key) v Phi.
Proof.
  intros Hkey Hst HPhi. unfold Confirm. apply wp_bind, wp_no_previous_order; [by right|].
  intros e. cbn [then_wp]. apply wp_bind, wp_row; [no_drop|]. intros now. cbn [row_answer].
  destruct (t_reservations (v_db v) !! rid) as [w|] eqn:Hw; cbn [fmap option_fmap option_map].
  - cbn [then_wp]. rewrite bool_decide_true by (by apply Hst). by apply wp_ret.
  - intros e'. cbn [then_wp]. by apply wp_ret.
Qed.

(** A key an order already has is answered with that order. *)
Lemma wp_confirm_replay rid key o v (Phi : outcome (error + Order) -> view -> Prop) :
  schema_ok (v_db v) -> key <> "" ->
  t_orders (v_db v) !! OrderID o = Some o -> IdempotencyKey o = key ->
  Phi (Ok (inr o)) v ->
  wp (Confirm rid key) v Phi.
Proof.
  intros Hok Hne Ho Hkey HPhi. unfold Confirm.
  destruct (String.eqb_spec key "") as [|_]; [done|].
  apply wp_bind, wp_row; [no_drop|]. intros now.
  destruct (row_answer (SelectOrderByKey key) now (v_db v)) as [o'|] eqn:E.
  - destruct (row_answer_key_some _ _ _ _ E) as (k & Hk & Hk').
    assert (k = OrderID o) as -> by (eapply so_idempotency_unique; eauto; congruence).
    cbn [then_wp]. apply wp_ret. replace o' with o by congruence. exact HPhi.
  - apply row_answer_key_none in E. exfalso.
    assert (idempotency_key_used key (t_orders (v_db v)) = true); [|congruence].
    apply idempotency_key_used_spec. eauto.
Qed.

(** Confirm, run to its end without network failures on a reserved row and
    an idempotency key no order has, implements the ledger's confirm step: one
    unit moves from held to sold, the row becomes confirmed and one pending
    order is inserted. *)
Theorem confirm_refines rid key w l v :
  implements (SaleID (row_res w)) l v -> schema_ok (v_db v) ->
  t_reservations (v_db v) !! rid = Some w ->
  Status (row_res w) = ReservationStatusReserved ->
  varchar 255 key = true -> idempotency_key_used key (t_orders (v_db v)) = false ->
  (forall n, t_orders (v_db v) !! uuid_at n = None) ->
  wp (Confirm rid key) v (confirm_post rid w key l v).
Proof. apply wp_confirm_new. Qed.

(** C23. A second Confirm without an idempotency key is refused by the UNIQUE
    constraint on orders.idempotency_key, since the empty key is inserted too.
    The reservation stays reserved and no order is written, yet the counters
    end at available + 1 and reserved - 2: the compensating Release undoes a
    reserve, while confirm.lua had only lowered the reserved counter. *)
Theorem confirm_without_key_inflates_stock rid w l v :
  implements (SaleID (row_res w)) l v -> schema_ok (v_db v) ->
  t_reservations (v_db v) !! rid = Some w ->
  Status (row_res w) = ReservationStatusReserved -> l_available l < max_int64 ->
  idempotency_key_used "" (t_orders (v_db v)) = true ->
  wp (Confirm rid "") v (fun o v' =>
    (exists e, o = Ok (inl (Errorf_w "failed to create order" e))) /\ v_db v' = v_db v /\
    stock v' (SaleID (row_res w)) = Some (l_available l + 1, l_held l - 2) /\
    forall total, consistent (SaleID (row_res w)) total v ->
      ~ consistent (SaleID (row_res w)) total v').
Proof.
  intros Hi Hok Hw Hst Hmax Hkey. pose proof Hi as (Hs & Hh & Ho).
  apply (wp_confirm_start rid "" v w l); [done|done|done|by left|].
  set (sale := SaleID (row_res w)) in *. set (v1 := set_data _ v).
  assert (0 < l_held l) as Hpos.
  { rewrite <- Hh. eapply held_pos; [exact Hw|]. unfold holds_unit. by rewrite !bool_decide_true. }
  destruct (stock_range _ _ _ _ Hs) as [Ra Rb]. unfold int64, min_int64, max_int64 in *.
  assert (stock v1 sale = Some (l_available l, l_held l - 1)) as Hs1.
  { apply stock_counters in Hs as [Ha _]. apply stock_counters. cbn. split; [by skip_key|].
    apply counter_at_insert. unfold int64, min_int64, max_int64. lia. }
  unfold confirm_tx. apply wp_bind, wp_begin; [no_drop|]. cbn [then_wp].
  apply wp_bind, wp_now. intros t. cbn [then_wp].
  apply wp_bind, wp_tx_ok; [cbn; by rewrite Hw|]. cbn [then_wp].
  apply wp_bind, wp_new_uuid. intros n. cbn [then_wp]. apply wp_bind, wp_tx_exec.
  - intros _ e. cbn [then_wp]. eapply wp_confirm_fail; [exact Hs1|unfold max_int64; lia|
      unfold min_int64; lia|].
    assert (stock (set_stock sale (l_available l + 1) (l_held l - 1 - 1) v1) sale =
      Some (l_available l + 1, l_held l - 2)) as Hfin.
    { rewrite stock_set_stock by (unfold int64, min_int64, max_int64; lia). f_equal. f_equal. lia. }
    split; [eauto|]. split; [done|]. split; [exact Hfin|].
    intros total Hc Hc'. pose proof (eq_trans (eq_sym Hs) Hc) as E.
    pose proof (eq_trans (eq_sym Hfin) Hc') as E'. cbn in E, E'.
    injection E as E1 E2. injection E' as E3 E4. lia.
  - intros Hbad. exfalso. cbn [app stmts_ok] in Hbad. rewrite !andb_true_iff in Hbad.
    destruct Hbad as (_ & Hbad & _). cbn [stmt_ok] in Hbad. rewrite !andb_true_iff in Hbad.
    destruct Hbad as [_ Hbad]. cbn in Hbad. by rewrite Hkey in Hbad.
Qed.

(** A Confirm that is repeated with the key of an order returns that order
    and changes nothing. *)
Theorem confirm_idempotent rid key o v :
  schema_ok (v_db v) -> key <> "" ->
  t_orders (v_db v) !! OrderID o = Some o -> IdempotencyKey o = key ->
  wp (Confirm rid key) v (fun out v' => out = Ok (inr o) /\ v' = v).
Proof. intros. by eapply wp_confirm_replay. Qed.

(** Release of a reserved row implements the ledger's release step and
    marks the row released; of a row in any other state, or of no row, it is an
    error and changes nothing. *)
Theorem release_refines svc rid l v :
  schema_ok (v_db v) ->
  (forall w, t_reservations (v_db v) !! rid = Some w ->
     implements (SaleID (row_res w)) l v /\ l_available l < max_int64) ->
  wp (Release svc rid) v (release_outcome rid l v).
Proof.
  intros Hok Hrow. unfold release_outcome, Release. apply wp_bind, wp_row; [no_drop|]. intros now.
  cbn [row_answer]. destruct (t_reservations (v_db v) !! rid) as [w|] eqn:Hw; cbn [fmap option_fmap option_map].
  2: { intros e. apply wp_ret. eauto. }
  cbn [then_wp]. destruct (decide (Status (row_res w) = ReservationStatusReserved)) as [Hns|Hns].
  2: { rewrite bool_decide_true by done. apply wp_ret. by rewrite bool_decide_false. }
  - rewrite bool_decide_false by (intros X; exact (X Hns)). rewrite bool_decide_true by done.
    destruct (Hrow w eq_refl) as [Hi Hmax].
    apply wp_bind. eapply wp_give_back; [exact Hi|exact Hw|done|done|]. cbn [then_wp].
    destruct (implements_released rid w ReservationStatusReleased l v) as (l' & Hl & Hi'); try done.
    apply wp_bind, wp_exec_ok; [by eapply status_update_ok|]. cbn [then_wp].
    set (v1 := set_db _ _) in *. pose proof (proj1 Hi') as Hs1. apply stock_counters in Hs1 as [Ea _].
    apply wp_bind. eapply wp_get_counter; [exact Ea|no_drop|]. cbn [then_wp].
    apply wp_bind, wp_announce. intros v2 Hd Hdb. cbn [then_wp].
    apply wp_bind, wp_audit; [done|done|no_drop|]. cbn [then_wp]. apply wp_ret. split; [done|].
    exists l'. split; [exact Hl|]. split.
    + eapply implements_ext; [| | |exact Hi']; cbn; rewrite ?Hdb; try done.
      by apply stock_same_data.
    + cbn. rewrite Hdb. unfold v1. cbn. by rewrite lookup_alter, decide_True, Hw.
Qed.
End Proofs.
