(* ===== verification/Discipline.v ===== *)
(** * The discipline of units in flight

    A handler that has run reserve.lua or waitlist_promote.lua successfully
    holds one unit until it inserts a reservation or gives the unit back.
    [safe n p] says that program [p], holding [n] units, never gives back or
    records a unit it does not hold, and holds none when it is done. The
    handlers of the shop other than confirm, release and expiry follow the
    discipline, whatever their calls answer. The second half of the file has
    the effect of every call on the counters of one sale. *)
From S2P Require Import Prelude GoStd Models Services Scripts World Keys Logic RedisClient.
From S2P Require Import Reservation Inventory Expiry Ledger.
Local Open Scope string_scope.
Local Open Scope Z_scope.

(** ** The discipline *)

(** What the theorem at hand knows about the members of the sale's waitlist,
    about the clock, and about the ids drawn while a sale is under way. *)
Class Promise := {
  promoted_ok : string -> Prop;
  time_ok : Z -> Prop;
  id_ok : uuid (* the sale *) -> uuid -> Prop
}.

Section Discipline.
Context `{UL : UuidLib} `{PR : Promise}.
Variable sale : uuid.

Definition avail : string := availableKey (uuid_String sale).
Definition resv : string := reservedKey (uuid_String sale).
Definition line : string := waitlistKey (uuid_String sale).

(** The keys a script may write. *)
Definition script_writes (sc : script) (keys : list string) : list string :=
  match sc, keys with
  | confirmSHA, k1 :: _ => [k1]
  | waitlistJoinSHA, [_; k2] => [k2]
  | _, _ => keys
  end.

Definition pipe_key (c : pipe_cmd) : string :=
  match c with PSet k _ _ => k | PHSet k _ => k end.

(** The keys a call may write. *)
Definition keys_written {X} (c : call X) : list string :=
  match c with
  | CEvalSha sc keys _ => script_writes sc keys
  | CSet k _ _ | CHSet k _ | CZRem k _ => [k]
  | CPipeline cmds => pipe_key <$> cmds
  | _ => []
  end.

Definition only_reads_db {X} (c : call X) : Prop :=
  match c with CExec _ | CCommit _ => False | _ => True end.

Definition avoids (ks : list string) : Prop := (avail ∉ ks) /\ (resv ∉ ks).
Definition far (ks : list string) : Prop := avoids ks /\ (line ∉ ks).

(** Statements that neither add a unit of the sale to the tables nor change a
    reservation or an order that is there. *)
Definition quiet_stmt (s : stmt) : Prop :=
  match s with
  | InsertReservation r _ => SaleID r <> sale
  | InsertSale _ | UpdateSaleStatusStmt _ _ | InsertAudit _ => True
  | _ => False
  end.

(** What a program that holds [n] units may call, and how many units it holds
    after each answer ([K x m]: it may go on with answer [x] and [m] units). *)
Definition call_safe {X} (c : call X) : nat -> (X -> nat -> Prop) -> Prop :=
  match c in call X return nat -> (X -> nat -> Prop) -> Prop with
  | CEvalSha sc keys argv => fun n K =>
      (sc = reserveSHA /\ keys = [avail; resv] /\ argv = [] /\
         (forall e, K (inl e) n) /\ K (inr (LInt (-1))) n /\ K (inr (LInt 1)) (S n)) \/
      (sc = releaseSHA /\ keys = [avail; resv] /\ argv = [] /\
         exists m, n = S m /\ forall x, K x m) \/
      (sc = waitlistPromoteSHA /\ argv = [] /\ keys = [line; avail; resv] /\
         (forall e, K (inl e) n) /\ K (inr (LStr "-1")) n /\
         forall u, u <> "-1" -> promoted_ok u -> K (inr (LStr u)) (S n)) \/
      (sc = waitlistJoinSHA /\
         (exists k1 k2 u t, keys = [k1; k2] /\ avoids [k2] /\ time_ok t /\
            argv = [uuid_String u; Itoa (InventoryService.Unix t)]) /\
         forall x, K x n) \/
      (far (script_writes sc keys) /\ forall x, K x n)
  | CSet k _ _ => fun n K => far [k] /\ forall x, K x n
  | CHSet k _ => fun n K => far [k] /\ forall x, K x n
  | CPipeline cmds => fun n K => far (pipe_key <$> cmds) /\ forall x, K x n
  | CZRem k _ => fun n K => avoids [k] /\ forall x, K x n
  | CNow => fun n K => forall t, time_ok t -> K t n
  | CNewUUID => fun n K => forall u, id_ok sale u -> K u n
  | CExec s => fun n K =>
      (quiet_stmt s /\ forall x, K x n) \/
      (exists r p m, s = InsertReservation r p /\ SaleID r = sale /\
         Status r = ReservationStatusReserved /\
         n = S m /\ K (inr tt) m /\ forall e, K (inl e) n)
  | CCommit _ => fun _ _ => False
  | _ => fun n K => forall x, K x n
  end.

Fixpoint safe_to {A} (Q : A -> nat -> Prop) (n : nat) (p : prog A) : Prop :=
  match p with
  | Ret a => Q a n
  | Panic _ => n = 0%nat
  | Vis c k => call_safe c n (fun x m => safe_to Q m (k x))
  end.

(** A promoted user whose name does not parse takes a unit away for good. *)
Definition settled (n : nat) : Prop :=
  (forall u, promoted_ok u -> exists x, uuid_Parse u = inr x) -> n = 0%nat.

Definition safe {A} (n : nat) (p : prog A) : Prop := safe_to (fun _ => settled) n p.

(** A program that takes up no unit, or gets rid of every unit it takes. *)
Definition tidy {A} (n : nat) (p : prog A) : Prop := safe_to (fun _ m => m = 0%nat) n p.
End Discipline.

(** ** Requests that run side by side *)

Inductive request :=
| ReqReserve (svc : ReservationService.Service) (user sale item : uuid) (key : string)
| ReqPromote (h : ExpiryHandler.ExpiryHandler) (sale : uuid)
| ReqJoin (sale user : uuid)
| ReqLeave (sale user : uuid)
| ReqPosition (sale user : uuid)
| ReqGetSale (sale : uuid)
| ReqUpdateStatus (sale : uuid) (status : SaleStatus).

Definition ignore {A} (p : prog A) : prog unit := pbind p (fun _ => Ret tt).

Definition serve `{UuidLib} (q : request) : prog unit :=
  match q with
  | ReqReserve svc user sale item key => ignore (ReservationService.Reserve svc user sale item key)
  | ReqPromote h sale => ExpiryHandler.promoteNextUser h sale
  | ReqJoin sale user => ignore (WaitlistService.Join sale user)
  | ReqLeave sale user => ignore (WaitlistService.Leave sale user)
  | ReqPosition sale user => ignore (WaitlistService.GetPosition sale user)
  | ReqGetSale sale => ignore (InventoryService.GetSale sale)
  | ReqUpdateStatus sale status => ignore (InventoryService.UpdateSaleStatus sale status)
  end.

(** ** Scripts touch only the keys they write *)

Section Frames.
Context {R : Type} `{RL : RedisLaws R} `{LN : LuaNum}.

(** Script [m] leaves the value at [k] alone. *)
Definition leaves {X} (k : string) (m : lua R X) : Prop :=
  forall r, dataset (snd (m r)) !! k = dataset r !! k.

Lemma leaves_bind {X Y} k (m : lua R X) (f : X -> lua R Y) :
  leaves k m -> (forall x, leaves k (f x)) -> leaves k (lua_bind m f).
Proof.
  intros Hm Hf r. unfold lua_bind. specialize (Hm r). destruct (m r) as [[e|x] r']; [done|].
  by rewrite Hf.
Qed.

Lemma leaves_ret {X} k (x : X) : leaves k (lua_ret x).
Proof. intros r. done. Qed.

Lemma leaves_fail {X} k e : leaves k (lua_fail (X := X) e).
Proof. intros r. done. Qed.

Lemma leaves_read {X} k (m : lua R X) : (forall r, dataset (snd (m r)) = dataset r) -> leaves k m.
Proof. intros H r. by rewrite H. Qed.

Lemma leaves_write {X} k k' (m : lua R X) :
  k <> k' -> (forall r, only_key k' r (snd (m r))) -> leaves k m.
Proof. intros Hne H r. by apply H. Qed.

Lemma leaves_get_number k k' : leaves k (get_number k').
Proof.
  apply leaves_bind; [apply leaves_read; intros; apply GET_read|]. intros x. apply leaves_ret.
Qed.

Lemma leaves_EXPIRE k k' n : leaves k (EXPIRE k' n).
Proof. intros r. by destruct (EXPIRE_spec r k' n) as (_ & -> & _). Qed.
End Frames.

Create HintDb frames.
#[export] Hint Resolve leaves_ret leaves_fail leaves_get_number leaves_EXPIRE : frames.
#[export] Hint Extern 2 (leaves _ (GET _)) => apply leaves_read; intros; apply GET_read : frames.
#[export] Hint Extern 2 (leaves _ (HMGET _ _)) => apply leaves_read; intros; apply HMGET_read : frames.
#[export] Hint Extern 2 (leaves _ (ZSCORE _ _)) => apply leaves_read; intros; apply ZSCORE_read : frames.
#[export] Hint Extern 2 (leaves _ (ZRANK _ _)) => apply leaves_read; intros; apply ZRANK_read : frames.
#[export] Hint Extern 2 (leaves _ (INCR _)) =>
  eapply leaves_write; [|intros; apply INCR_only]; eassumption : frames.
#[export] Hint Extern 2 (leaves _ (DECR _)) =>
  eapply leaves_write; [|intros; apply DECR_only]; eassumption : frames.
#[export] Hint Extern 2 (leaves _ (HSET _ _)) =>
  eapply leaves_write; [|intros; apply HSET_only]; eassumption : frames.
#[export] Hint Extern 2 (leaves _ (ZADD _ _ _)) =>
  eapply leaves_write; [|intros; apply ZADD_only]; eassumption : frames.
#[export] Hint Extern 2 (leaves _ (ZPOPMIN _)) =>
  eapply leaves_write; [|intros; apply ZPOPMIN_only]; eassumption : frames.

(** Show that a script leaves a key alone: follow its structure. *)
Ltac frame_script :=
  repeat first
    [ progress eauto 2 with frames
    | apply leaves_bind
    | progress intros
    | case_match ].

Section ScriptFrames.
Context {R : Type} `{RL : RedisLaws R} `{LN : LuaNum}.

Lemma script_frame k sc keys argv :
  k ∉ script_writes sc keys -> leaves (R := R) k (run_script sc keys argv).
Proof.
  intros Hk. unfold run_script. repeat case_match; subst; auto with frames; cbn in Hk;
    repeat (apply not_elem_of_cons in Hk as [? Hk]).
  - unfold reserve_lua. frame_script.
  - unfold release_lua. frame_script.
  - unfold confirm_lua. frame_script.
  - unfold waitlist_join_lua. frame_script.
  - unfold waitlist_promote_lua. frame_script.
  - unfold token_bucket_lua. frame_script.
Qed.
End ScriptFrames.

(** ** The effect of the calls on one sale *)

Lemma avoids_nil `{UuidLib} sale : avoids sale [].
Proof. split; apply not_elem_of_nil. Qed.
#[export] Hint Resolve avoids_nil : core.

(** Counts of rows of the sale: the discipline's other statements keep them. *)
Lemma count_quiet sale (f : reservation_row -> bool) s d :
  (forall w, f w = true -> SaleID (row_res w) = sale) ->
  quiet_stmt sale s -> stmt_ok s d = true ->
  count f (t_reservations (stmt_effect s d)) = count f (t_reservations d).
Proof.
  intros Hf Hq Hok. destruct s; cbn [quiet_stmt] in Hq; try done.
  cbn [stmt_ok] in Hok. rewrite !andb_true_iff, bool_decide_eq_true in Hok.
  cbn. rewrite count_insert_fresh by apply Hok.
  destruct (f _) eqn:E; [|lia]. by apply Hf in E.
Qed.

(** A quiet statement keeps every row of reservations and all orders. *)
Lemma quiet_rows sale s d :
  quiet_stmt sale s -> stmt_ok s d = true ->
  t_orders (stmt_effect s d) = t_orders d /\
  forall k w, t_reservations d !! k = Some w -> t_reservations (stmt_effect s d) !! k = Some w.
Proof.
  intros Hq Hok. destruct s; cbn [quiet_stmt] in Hq; try done.
  cbn [stmt_ok] in Hok. rewrite !andb_true_iff, bool_decide_eq_true in Hok.
  split; [done|]. intros k w Hk. cbn. rewrite lookup_insert_ne; [done|].
  intros <-. destruct Hok as [[[[Hn _] _] _] _]. congruence.
Qed.

Section Calls.
Context {R D : Type} `{RL : RedisLaws R} `{LL : LuaNumLaws} `{PL : PostgresLaws D} `{O : Oracle}
  `{UU : UuidLaws} `{NL : !NoLostReplies}.
#[local] Abbreviation wp := (wp (R := R) (D := D)).
Variable sale : uuid.

(** Both counters and the tables are as before. *)
Definition same_books (v v' : view) : Prop :=
  v_data v' !! avail sale = v_data v !! avail sale /\
  v_data v' !! resv sale = v_data v !! resv sale /\ v_db v' = v_db v.

Lemma same_books_refl v : same_books v v.
Proof. done. Qed.

Lemma same_books_stock v v' : same_books v v' -> stock v' sale = stock v sale.
Proof. intros (Ha & Hb & _). unfold stock, counter_at. unfold avail, resv in *. by rewrite Ha, Hb. Qed.

Lemma pipe_frame cmds k : k ∉ (pipe_key <$> cmds) ->
  forall r : R, dataset (snd (pipe_exec cmds r)) !! k = dataset r !! k.
Proof.
  induction cmds as [|c cs IH]; intros Hk r; cbn; [done|].
  rewrite fmap_cons in Hk. apply not_elem_of_cons in Hk as [Hk1 Hk2].
  assert (dataset (snd (pipe_run c r)) !! k = dataset r !! k) as E1.
  { destruct c as [k' v' px|k' fs]; cbn in *.
    - destruct (SET_spec r k' v' px) as (_ & -> & _). by rewrite lookup_insert_ne.
    - by apply HSET_only. }
  destruct (pipe_run c r) as [x r1]. specialize (IH Hk2 r1).
  destruct (pipe_exec cs r1) as [y r2]. cbn in *. by rewrite IH.
Qed.

(** A command leaves the keys alone that it does not write. *)
Lemma redis_frame {X} (c : call (error + X)) (op : R -> (error + X) * R) k v :
  (forall w : world R D, exec c w = on_redis op w) ->
  (forall r, dataset (snd (op r)) !! k = dataset r !! k) ->
  wp (invoke c) v (fun _ v' => v_data v' !! k = v_data v !! k).
Proof.
  intros Hc Hop. apply (wp_redis c op); [done|done|]. intros r Hd Hp. cbn. by rewrite Hop, Hd.
Qed.

Lemma pg_frame {X} (c : call (error + X)) (op : nat -> D -> (error + X) * D) (P : view -> Prop) v :
  (forall w : world R D, exec c w = on_pg (op (w_calls w)) w) ->
  (forall d, P (set_db d v)) -> wp (invoke c) v (fun _ v' => P v').
Proof.
  intros Hc HP. apply (wp_pg c op); [done| |intros; apply HP].
  intros _ e. specialize (HP (v_db v)). by destruct v.
Qed.

Lemma keys_frame {X} (c : call X) k v :
  k ∉ keys_written c -> wp (invoke c) v (fun _ v' => v_data v' !! k = v_data v !! k).
Proof.
  intros Hk. destruct c; cbn [keys_written] in Hk; try apply not_elem_of_cons in Hk as [Hk _].
  - apply (redis_frame _ (eval_script s keys argv)); [done|]. intros r. unfold eval_script.
    pose proof (script_frame k s keys argv Hk r) as E.
    destruct (run_script s keys argv r) as [[e|[z|z|]] r']; exact E.
  - apply (redis_frame _ (or_nil (GET k0))); [done|]. intros r. unfold or_nil.
    pose proof (GET_read r k0) as E. destruct (GET k0 r) as [[e|[x|]] r']; cbn in *; by rewrite E.
  - apply (redis_frame _ (SET k0 v0 px)); [done|]. intros r.
    destruct (SET_spec r k0 v0 px) as (_ & -> & _). by rewrite lookup_insert_ne by (by apply not_eq_sym).
  - apply (redis_frame _ (HSET k0 fields)); [done|]. intros r. by apply HSET_only.
  - apply (redis_frame _ (pipe_exec cmds)); [done|]. intros r. by apply pipe_frame.
  - apply (redis_frame _ (or_nil (ZRANK k0 m))); [done|]. intros r. unfold or_nil.
    pose proof (ZRANK_read r k0 m) as E. destruct (ZRANK k0 m r) as [[e|[x|]] r']; cbn in *; by rewrite E.
  - apply (redis_frame _ (ZCARD k0)); [done|]. intros r. by rewrite ZCARD_read.
  - apply (redis_frame _ (ZREM k0 m)); [done|]. intros r. by apply ZREM_only.
  - apply (redis_frame _ (PUBLISH channel payload)); [done|]. intros r.
    by destruct (PUBLISH_spec r channel payload) as (_ & -> & _).
  - by apply (redis_frame _ (fun r => (inr tt, r))).
  - by apply (pg_frame _ (fun _ => pg_exec s) (fun v' => v_data v' !! k = v_data v !! k)).
  - by apply (pg_frame _ (fun n d => (row_of (pg_row q (time_at n) d), d))
      (fun v' => v_data v' !! k = v_data v !! k)).
  - by apply (pg_frame _ (fun n d => (pg_rows q (time_at n) d, d))
      (fun v' => v_data v' !! k = v_data v !! k)).
  - by apply wp_rows_err.
  - by apply wp_begin.
  - by apply wp_tx_exec.
  - by apply (pg_frame _ (fun _ => pg_commit l) (fun v' => v_data v' !! k = v_data v !! k)).
  - by apply wp_rollback.
  - by apply wp_now.
  - by apply wp_new_uuid.
  - by apply wp_metric.
Qed.

Lemma db_frame {X} (c : call X) v :
  only_reads_db c -> wp (invoke c) v (fun _ v' => v_db v' = v_db v).
Proof.
  intros Hc. destruct c; cbn [only_reads_db] in Hc; try done;
    try (by eapply wp_redis; [intros; reflexivity|..]).
  - apply wp_row; [done|]. intros now. by case_match.
  - by apply wp_rows.
  - by apply wp_rows_err.
  - by apply wp_begin.
  - by apply wp_tx_exec.
  - by apply wp_rollback.
  - by apply wp_now.
  - by apply wp_new_uuid.
  - by apply wp_metric.
Qed.

Lemma neutral_call {X} (c : call X) v :
  avoids sale (keys_written c) -> only_reads_db c ->
  wp (invoke c) v (fun o v' => (exists x, o = Ok x) /\ same_books v v').
Proof.
  intros [H1 H2] Hdb. apply wp_and; [apply wp_invoke_ok|]. apply wp_and; [by apply keys_frame|].
  apply wp_and; [by apply keys_frame|by apply db_frame].
Qed.

(** *** The scripts that move units *)

Lemma call_take v a b (Phi : outcome (error + lua_value) -> view -> Prop) :
  stock v sale = Some (a, b) -> b < max_int64 ->
  (drops -> forall e, Phi (Ok (inl e)) v) ->
  (a <= 0 -> Phi (Ok (inr (LInt (-1)))) v) ->
  (0 < a -> forall v', stock v' sale = Some (a - 1, b + 1) -> v_db v' = v_db v ->
     Phi (Ok (inr (LInt 1))) v') ->
  wp (invoke (CEvalSha reserveSHA [avail sale; resv sale] [])) v Phi.
Proof.
  intros Hs Hmax He Hno Hyes. pose proof Hs as [Ha Hr]%stock_counters.
  destruct (stock_range _ _ _ _ Hs). destruct (Z.le_gt_cases a 0).
  - eapply (wp_eval _ _ _ (LInt (-1)) (v_data v) (v_pub v)); [done| |done|].
    + intros r Hd Hp. rewrite <- Hd, <- Hp. eapply reserve_lua_sold_out; [by rewrite Hd|done].
    + destruct v. by apply Hno.
  - eapply (wp_eval _ _ _ (LInt 1) _ (v_pub v)); [done| |done|].
    + intros r Hd Hp. rewrite <- Hp. pose proof (reserve_lua_ok r (avail sale) (resv sale) a b) as L.
      rewrite Hd in L. apply L; auto with keys. apply available_reserved.
    + apply Hyes; [lia| |done].
      rewrite (stock_same_data _ (set_stock sale (a - 1) (b + 1) v)) by done.
      unfold int64, min_int64, max_int64 in *.
      apply stock_set_stock; unfold int64, min_int64, max_int64; lia.
Qed.

Lemma call_give v a b (Phi : outcome (error + lua_value) -> view -> Prop) :
  stock v sale = Some (a, b) -> a < max_int64 -> min_int64 < b ->
  (drops -> forall e, Phi (Ok (inl e)) v) ->
  (forall v', stock v' sale = Some (a + 1, b - 1) -> v_db v' = v_db v -> Phi (Ok (inr (LInt 1))) v') ->
  wp (invoke (CEvalSha releaseSHA [avail sale; resv sale] [])) v Phi.
Proof.
  intros Hs Hmax Hmin He Hyes. pose proof Hs as [Ha Hr]%stock_counters.
  destruct (stock_range _ _ _ _ Hs).
  eapply (wp_eval _ _ _ (LInt 1) _ (v_pub v)); [done| |done|].
  - intros r Hd Hp. rewrite <- Hp. pose proof (release_lua_ok r (avail sale) (resv sale) a b) as L.
    rewrite Hd in L. apply L; auto. apply available_reserved.
  - apply Hyes; [|done].
    rewrite (stock_same_data _ (set_stock sale (a + 1) (b - 1) v)) by done.
    unfold int64, min_int64, max_int64 in *.
    apply stock_set_stock; unfold int64, min_int64, max_int64; lia.
Qed.

Lemma call_confirm v a b (Phi : outcome (error + lua_value) -> view -> Prop) :
  stock v sale = Some (a, b) ->
  (drops -> forall e, Phi (Ok (inl e)) v) ->
  (b <= 0 -> Phi (Ok (inr (LInt (-1)))) v) ->
  (0 < b -> forall v', stock v' sale = Some (a, b - 1) -> v_db v' = v_db v ->
     Phi (Ok (inr (LInt 1))) v') ->
  wp (invoke (CEvalSha confirmSHA [resv sale; avail sale; metaKey (uuid_String sale)] [])) v Phi.
Proof.
  intros Hs He Hno Hyes. pose proof Hs as [Ha Hb]%stock_counters.
  destruct (stock_range _ _ _ _ Hs). destruct (Z.le_gt_cases b 0) as [Hle|Hgt].
  - eapply (wp_eval _ _ _ (LInt (-1)) (v_data v) (v_pub v)); [done| |done|].
    + intros r Hd Hp. rewrite <- Hd, <- Hp. eapply confirm_lua_none; [by rewrite Hd|done].
    + destruct v. by apply Hno.
  - eapply (wp_eval _ _ _ (LInt 1) _ (v_pub v)); [done| |done|].
    + intros r Hd Hp. rewrite <- Hp. pose proof (confirm_lua_ok r (resv sale) b) as L.
      rewrite Hd in L. by apply L.
    + apply Hyes; [done| |done]. unfold int64, min_int64, max_int64 in *.
      apply stock_counters. cbn. split; [by skip_key|].
      apply counter_at_insert. unfold int64, min_int64, max_int64. lia.
Qed.

(** waitlist_promote.lua either leaves the counters alone or takes a unit for
    the user it names. *)
Lemma promote_lua_cases (r : R) k k2 k3 a b :
  k <> k2 -> k <> k3 -> k2 <> k3 ->
  counter_at (dataset r) k2 = Some a -> counter_at (dataset r) k3 = Some b -> b < max_int64 ->
  let res := waitlist_promote_lua k k2 k3 r in
  (((exists e, fst res = inl e) \/ fst res = inr (LStr "-1")) /\
     dataset (snd res) !! k2 = dataset r !! k2 /\ dataset (snd res) !! k3 = dataset r !! k3) \/
  (exists u, fst res = inr (LStr u) /\ 0 < a /\
     counter_at (dataset (snd res)) k2 = Some (a - 1) /\
     counter_at (dataset (snd res)) k3 = Some (b + 1)).
Proof.
  intros H2 H3 H23 Ha Hb Hmax res. remember res as y eqn:Hy. unfold res, waitlist_promote_lua in Hy.
  clear res. destruct (get_number_counter r k2 a Ha) as (q & (Hg & Hgd & _) & Hq).
  unfold lua_bind at 1 in Hy. destruct (get_number k2 r) as [x r1]. cbn in Hg, Hgd. subst x.
  cbn [nil_or_nonpos] in Hy. rewrite Hq in Hy. destruct (a <=? 0) eqn:E; bool_to_prop.
  { left. rewrite Hy. cbn. rewrite Hgd. auto. }
  unfold lua_bind at 1 in Hy. pose proof (ZPOPMIN_only r1 k) as Ho.
  destruct (ZPOPMIN k r1) as [x r2]. cbn in Ho.
  assert (dataset r2 !! k2 = dataset r !! k2 /\ dataset r2 !! k3 = dataset r !! k3) as [L2 L3].
  { by rewrite !Ho, Hgd. }
  destruct x as [e|[|u us]]; [left; rewrite Hy; cbn; eauto|left; rewrite Hy; cbn; eauto|].
  assert (counter_at (dataset r2) k2 = Some a) as Ha2 by (unfold counter_at in *; by rewrite L2).
  assert (counter_at (dataset r2) k3 = Some b) as Hb2 by (unfold counter_at in *; by rewrite L3).
  right. exists u. unfold lua_bind in Hy.
  apply counter_at_str in Ha as [_ Ra]. apply counter_at_str in Hb as [_ Rb].
  destruct (DECR_spec r2 k2 a (or_introl Ha2)) as (D1 & D2 & _); [unfold min_int64; lia|].
  destruct (DECR k2 r2) as [x r3]. cbn in D1, D2. subst x.
  destruct (INCR_spec r3 k3 b) as (I1 & I2 & _);
    [left; rewrite D2; by rewrite counter_at_insert_ne|done|].
  destruct (INCR k3 r3) as [x r4]. cbn in I1, I2. subst x. subst y. unfold lua_ret. cbn. rewrite I2, D2.
  unfold int64, min_int64, max_int64 in *. repeat split; [lia| |].
  - rewrite counter_at_insert_ne by done. apply counter_at_insert. unfold int64, min_int64, max_int64. lia.
  - apply counter_at_insert. unfold int64, min_int64, max_int64. lia.
Qed.

Lemma call_promote v a b (Phi : outcome (error + lua_value) -> view -> Prop) :
  stock v sale = Some (a, b) -> b < max_int64 ->
  (forall e v', same_books v v' -> Phi (Ok (inl e)) v') ->
  (forall v', same_books v v' -> Phi (Ok (inr (LStr "-1"))) v') ->
  (0 < a -> forall u v', stock v' sale = Some (a - 1, b + 1) -> v_db v' = v_db v ->
     Phi (Ok (inr (LStr u))) v') ->
  wp (invoke (CEvalSha waitlistPromoteSHA [line sale; avail sale; resv sale] [])) v Phi.
Proof.
  intros Hs Hmax He Hno Hyes. pose proof Hs as [Ha Hr]%stock_counters.
  apply (wp_redis _ (eval_script waitlistPromoteSHA [line sale; avail sale; resv sale] []));
    [done|eauto using same_books_refl|].
  intros r Hd Hp. unfold eval_script. cbn [run_script].
  pose proof (promote_lua_cases r (line sale) (avail sale) (resv sale) a b) as L. rewrite Hd in L.
  specialize (L (not_eq_sym (available_waitlist _ _)) (not_eq_sym (reserved_waitlist _ _))
    (available_reserved _ _) Ha Hr Hmax).
  destruct (waitlist_promote_lua (line sale) (avail sale) (resv sale) r) as [x r']. cbn zeta in L.
  cbn [fst snd] in L. destruct L as [(Hx & L2 & L3)|(u & -> & Hapos & L2 & L3)].
  - assert (same_books v (mkView (dataset r') (published r') (v_db v) (v_metrics v))) as Hb'
      by (unfold same_books; cbn; auto).
    destruct Hx as [[e ->] | ->]; cbn; auto.
  - cbn. apply Hyes; [done| |done]. by apply stock_counters.
Qed.
End Calls.

(** ** The handlers follow the discipline *)

Section Handlers.
Context `{UU : UuidLaws} `{PR : Promise}.
Variable sale : uuid.

Lemma settled_0 : settled 0.
Proof. intros _. done. Qed.
#[local] Hint Resolve settled_0 : core.

Lemma call_safe_mono {X} (c : call X) n (K K' : X -> nat -> Prop) :
  (forall x m, K x m -> K' x m) -> call_safe sale c n K -> call_safe sale c n K'.
Proof.
  intros HK H. destruct c; cbn [call_safe] in *; try (intros; apply HK; by apply H); try (destruct H; split; auto; fail).
  - destruct H as [(? & ? & ? & ? & ? & ?)|[(? & ? & ? & m & ? & ?)|[(? & ? & ? & ? & ? & ?)|[(? & ? & ?)|[? ?]]]]].
    + left. auto 10.
    + right; left. eauto 10.
    + right; right; left. auto 10.
    + do 3 right; left. auto.
    + do 4 right. auto.
  - destruct H as [[? ?]|(r & p & m & ? & ? & ? & ? & ? & ?)]; [left; auto|right].
    exists r, p, m. auto 10.
Qed.

Lemma safe_bind {A B} (Q : B -> nat -> Prop) n (p : prog A) (f : A -> prog B) :
  safe_to sale (fun a m => safe_to sale Q m (f a)) n p -> safe_to sale Q n (pbind p f).
Proof.
  revert n. induction p as [a|m|X c k IH]; intros n; cbn [safe_to pbind]; [done|done|].
  apply call_safe_mono. intros x m. apply IH.
Qed.

Lemma safe_mono {A} (Q Q' : A -> nat -> Prop) n (p : prog A) :
  (forall a m, Q a m -> Q' a m) -> safe_to sale Q n p -> safe_to sale Q' n p.
Proof.
  intros HQ. revert n. induction p as [a|m|X c k IH]; intros n; cbn; auto.
  apply call_safe_mono. intros x m. apply IH.
Qed.

Lemma safe_defer {A} (Q : A -> nat -> Prop) n d (p : prog A) :
  (forall m, safe_to sale (fun _ m' => m' = m) m d) ->
  safe_to sale Q n p -> safe_to sale Q n (defer d p).
Proof.
  intros Hd. revert n. induction p as [a|msg|X c k IH]; intros n; cbn.
  - intros HQ. apply safe_bind. eapply safe_mono; [|apply (Hd n)]. by intros [] m' ->.
  - intros ->. apply safe_bind. eapply safe_mono; [|apply (Hd 0%nat)]. by intros [] m' ->.
  - apply call_safe_mono. intros x m. apply IH.
Qed.

Lemma safe_call {X} Q n (c : call X) : call_safe sale c n Q -> safe_to sale Q n (invoke c).
Proof. intros H. exact H. Qed.

(** Keys of the program that are not counters of the sale. *)
Ltac avoid :=
  unfold far, avoids, avail, resv, line; cbn [script_writes];
  repeat split; repeat (apply not_elem_of_cons; split); try apply not_elem_of_nil;
  eauto using not_eq_sym with keys.

Lemma safe_client_reserve s (Q : error + Z -> nat -> Prop) n :
  (forall e, Q (inl e) n) ->
  (s = sale -> Q (inr (-1)) n /\ Q (inr 1) (S n)) ->
  (s <> sale -> n = 0%nat /\ forall z, Q (inr z) n) ->
  safe_to sale Q n (Client.Reserve (uuid_String s)).
Proof.
  intros He Hs Hne. unfold Client.Reserve. apply safe_bind, safe_call. cbn [call_safe].
  destruct (decide (s = sale)) as [->|Hd].
  - left. destruct (Hs eq_refl). cbn. auto 10.
  - do 4 right. split; [avoid|]. destruct (Hne Hd). intros [e|[z|z|]]; cbn; auto.
Qed.

Lemma safe_client_release s (Q : option error -> nat -> Prop) n :
  (s = sale -> exists m, n = S m /\ forall o, Q o m) ->
  (s <> sale -> forall o, Q o n) ->
  safe_to sale Q n (Client.Release (uuid_String s)).
Proof.
  intros Hs Hne. unfold Client.Release. apply safe_bind, safe_call. cbn [call_safe].
  destruct (decide (s = sale)) as [->|Hd].
  - right; left. destruct (Hs eq_refl) as (m & -> & HQ). repeat split. exists m. split; [done|].
    intros [e|x]; apply HQ.
  - do 4 right. split; [avoid|]. intros [e|x]; cbn; auto.
Qed.

Lemma safe_client_promote s (Q : error + string -> nat -> Prop) n :
  (s <> sale -> n = 0%nat) -> (forall e, Q (inl e) n) -> Q (inr "-1") n ->
  (forall u, u <> "-1" -> (s = sale -> promoted_ok u) -> Q (inr u) (if decide (s = sale) then S n else n)) ->
  safe_to sale Q n (Client.WaitlistPromote (uuid_String s)).
Proof.
  intros Hn He Hno Hyes. unfold Client.WaitlistPromote. apply safe_bind, safe_call. cbn [call_safe].
  destruct (decide (s = sale)) as [->|Hd].
  - right; right; left. repeat split; cbn; auto.
  - do 4 right. split; [avoid|]. intros [e|[z|u|]]; cbn; auto.
    destruct (decide (u = "-1")) as [->|Hu]; [done|]. apply Hyes; [done|]. by intros ->.
Qed.

Lemma safe_get k (Q : Z -> nat -> Prop) n :
  (forall z, Q z n) -> safe_to sale Q n (Client.get_int_ignoring_error k).
Proof. intros HQ. intros [e|x]; cbn; apply HQ. Qed.

Lemma safe_publish s m (Q : option error -> nat -> Prop) n :
  (forall o, Q o n) -> safe_to sale Q n (Publisher.Publish s m).
Proof. intros HQ [e|x]; cbn; apply HQ. Qed.

Lemma safe_publish_user s m (Q : option error -> nat -> Prop) n :
  (forall o, Q o n) -> safe_to sale Q n (Publisher.PublishToUser s m).
Proof. intros HQ [e|x]; cbn; apply HQ. Qed.

Lemma safe_audit ty id ev p (Q : option error -> nat -> Prop) n :
  (forall o, Q o n) -> safe_to sale Q n (Audit.Log ty id ev p).
Proof. intros HQ. left. split; [done|]. intros [e|x]; cbn; apply HQ. Qed.

(** The insertion of a reservation by a program that holds the unit. *)
Lemma safe_insert r p (Q : error + unit -> nat -> Prop) n :
  let m := if decide (SaleID r = sale) then S n else n in
  Status r = ReservationStatusReserved -> Q (inr tt) n -> (forall e, Q (inl e) m) ->
  safe_to sale Q m (invoke (CExec (InsertReservation r p))).
Proof.
  cbn zeta. intros Hst Hyes Hno. apply safe_call. cbn [call_safe].
  destruct (decide (SaleID r = sale)) as [E|E].
  - right. exists r, p, n. auto 10.
  - left. split; [exact E|]. intros [e|[]]; auto.
Qed.

Lemma safe_announce svc s a b (Q : unit -> nat -> Prop) n :
  Q tt n -> safe_to sale Q n (ReservationService.announce_stock svc s a b).
Proof.
  intros HQ. unfold ReservationService.announce_stock.
  destruct (ReservationService.publisher svc); [|exact HQ].
  apply safe_bind. intros [e|x]; cbn; destruct (b && (a =? 0)); cbn; auto.
Qed.

Lemma tidy_reserve_record svc user s item key :
  tidy sale (if decide (s = sale) then 1%nat else 0%nat)
    (ReservationService.reserve_record svc user s item key).
Proof.
  unfold ReservationService.reserve_record. intros id _ t1 _ t2 _. cbn [invoke pbind].
  apply (safe_bind (fun _ m => m = 0%nat) _ (invoke (CExec _))).
  apply (safe_insert (mkReservation _ _ s _ _ _ _ _)); [done| |].
  - unfold ReservationService.reserve_finish. split; [cbn; avoid|]. intros [e|x]; cbn; [done|].
    assert (tidy sale 0%nat
      (ReservationService.reserve_notify svc (mkReservation id user s item
         ReservationStatusReserved t1 None (t2 + seconds (ReservationService.reservationTTL svc)))))
      as Hn.
    { unfold ReservationService.reserve_notify. apply safe_bind, safe_get. intros z [] []. cbn [pbind].
      apply safe_bind, safe_announce. apply safe_bind, safe_audit. done. }
    destruct (String.eqb key ""); [apply Hn|]. split; [cbn; avoid|]. intros y. apply Hn.
  - intros e. apply safe_bind, safe_client_release.
    + cbn. intros ->. rewrite decide_True by done. exists 0%nat. split; [done|]. intros o. done.
    + cbn. intros Hne o. by rewrite decide_False.
Qed.

Lemma tidy_reserve svc user s item key :
  tidy sale 0 (ReservationService.Reserve svc user s item key).
Proof.
  unfold tidy. intros start _. cbn [invoke pbind]. apply safe_defer; [intros m finish _; by intros []|].
  unfold ReservationService.reserve_attempt. apply safe_bind.
  apply (safe_mono (fun _ m => m = 0%nat)).
  - intros [e|r] m ->; cbn beta iota; [|done]. apply safe_bind, safe_client_reserve.
    + intros err. done.
    + intros ->. split; [done|]. pose proof (tidy_reserve_record svc user sale item key) as Hr.
      rewrite decide_True in Hr by done. exact Hr.
    + intros Hne. split; [done|]. intros z. destruct (z =? -1); [done|].
      pose proof (tidy_reserve_record svc user s item key) as Hr. by rewrite decide_False in Hr.
  - destruct (String.eqb key ""); [done|]. unfold ReservationService.checkIdempotency.
    intros [e|x]; cbn; [done|]. destruct (uuid_Parse x); cbn; [done|]. intros [e|r]; done.
Qed.

Lemma safe_promote h s : safe sale 0 (ExpiryHandler.promoteNextUser h s).
Proof.
  unfold ExpiryHandler.promoteNextUser. apply safe_bind, safe_client_promote; [done|done|done|].
  intros u Hu Hp. cbn beta iota. rewrite (proj2 (String.eqb_neq _ _)) by done.
  destruct (uuid_Parse u) as [e|userID] eqn:Eu.
  { case_decide; [|done]. intros Hall. destruct (Hall u) as [x Hx]; [auto|congruence]. }
  intros id _ itemID _ t1 _ t2 _. cbn [invoke pbind].
  apply (safe_bind (fun _ => settled) _ (invoke (CExec _))).
  apply (safe_insert (mkReservation _ _ s _ _ _ _ _)); [done| |].
  - split; [cbn; avoid|]. intros x. cbn [pbind]. apply safe_bind.
    destruct (ExpiryHandler.publisher h); cbn beta iota.
    + apply safe_bind, safe_publish_user. intros o. apply safe_bind, safe_get. intros z.
      apply safe_bind, safe_publish. intros o'. apply safe_bind, safe_audit. done.
    + apply safe_bind, safe_audit. done.
  - intros e. apply safe_bind, safe_client_release; cbn.
    + intros ->. rewrite decide_True by done. by exists 0%nat.
    + intros Hne o. by rewrite decide_False.
Qed.

Lemma tidy_join s user : tidy sale 0 (WaitlistService.Join s user).
Proof.
  intros t Ht. do 3 right; left. split; [done|]. split.
  { do 4 eexists. split; [done|]. split; [avoid|]. split; [exact Ht|done]. }
  intros [e|[z|z|]]; cbn; repeat case_match; done.
Qed.

Lemma tidy_leave s user : tidy sale 0 (WaitlistService.Leave s user).
Proof. split; [cbn; avoid|]. intros [e|z]; cbn; [done|]. by destruct (z =? 0). Qed.

Lemma tidy_position s user : tidy sale 0 (WaitlistService.GetPosition s user).
Proof. intros [e|z]; cbn; [done|]. intros [e|y]; done. Qed.

Lemma tidy_get_sale s : tidy sale 0 (InventoryService.GetSale s).
Proof.
  intros [e|x]; cbn; [done|]. intros [e|y]; cbn; [done|]. repeat case_match; cbn; [done|].
  intros [e'|y']; cbn; [done|]. repeat case_match; done.
Qed.

Lemma tidy_update_status s st : tidy sale 0 (InventoryService.UpdateSaleStatus s st).
Proof.
  left. split; [done|]. intros [e|x]; cbn; [done|]. split; [cbn; avoid|]. intros [e|y]; done.
Qed.

(** A new sale has its own counters, under an id that is not the sale's. *)
Lemma tidy_create_sale (Hid : forall u, id_ok sale u -> u <> sale) s :
  tidy sale 0 (InventoryService.CreateSale s).
Proof.
  intros u Hu t _. cbn [pbind invoke]. left. split; [done|]. intros [e|[]]; cbn; [done|].
  apply Hid in Hu. split; [avoid|]. intros [e|[]]; done.
Qed.

Lemma tidy_safe {A} (p : prog A) n : tidy sale n p -> safe sale n p.
Proof. apply safe_mono. intros a m -> _. done. Qed.

Lemma safe_ignore {A} (p : prog A) : safe sale 0 p -> safe sale 0 (ignore p).
Proof. intros H. unfold ignore, safe. apply safe_bind. exact H. Qed.

Lemma safe_serve q : safe sale 0 (serve q).
Proof.
  destruct q; cbn [serve]; try apply safe_ignore; auto using tidy_safe, safe_promote,
    tidy_reserve, tidy_join, tidy_leave, tidy_position, tidy_get_sale, tidy_update_status.
Qed.
End Handlers.

