(* ===== verification/Concurrency.v ===== *)
(** * No overselling, whatever the interleaving

    A pool of programs that follow the discipline of Discipline.v keeps
    available plus recorded units within the stock, under every schedule and
    with calls failing anywhere. *)
From S2P Require Import Prelude GoStd Models Services Scripts World Keys Logic RedisClient.
From S2P Require Import Reservation Inventory Expiry Ledger Discipline.
Local Open Scope string_scope.
Local Open Scope Z_scope.

(** ** Units recorded in the tables *)

(** A reservation that stands for a unit: reserved or confirmed. *)
Definition takes_unit (sale : uuid) (w : reservation_row) : bool :=
  bool_decide (SaleID (row_res w) = sale)
  && (bool_decide (Status (row_res w) = ReservationStatusReserved)
      || bool_decide (Status (row_res w) = ReservationStatusConfirmed)).

Definition units (sale : uuid) (d : db) : Z := count (takes_unit sale) (t_reservations d).

Lemma takes_unit_sale sale w : takes_unit sale w = true -> SaleID (row_res w) = sale.
Proof. unfold takes_unit. by intros [?%bool_decide_eq_true _]%andb_true_iff. Qed.

Lemma units_insert sale d r p :
  t_reservations d !! ID r = None -> SaleID r = sale ->
  units sale (stmt_effect (InsertReservation r p) d) <= units sale d + 1.
Proof. intros Hf Hs. unfold units. cbn. rewrite count_insert_fresh by done. case_match; lia. Qed.

(** The units a list of programs holds. *)
Fixpoint tally (ns : list nat) : nat :=
  match ns with [] => 0 | n :: ns' => n + tally ns' end.

(** ** One call keeps the books *)

(** Nothing is known of waitlists and clocks here. *)
Definition no_promise : Promise := {| promoted_ok _ := True; time_ok _ := True; id_ok _ _ := True |}.
#[local] Existing Instance no_promise.

Section Step.
Context {R D : Type} `{RL : RedisLaws R} `{LL : LuaNumLaws} `{PL : PostgresLaws D} `{O : Oracle}
  `{UU : UuidLaws} `{NL : !NoLostReplies}.
#[local] Abbreviation wp := (wp (R := R) (D := D)).
Variable sale : uuid.
Variables C T : Z.
Hypothesis HT : T < max_int64.
Hypothesis HC : min_int64 + T < C < max_int64.

(** The counters are sound; available units, the [n] units in flight and the
    recorded units stay within [T]. *)
Definition books (n : Z) (v : view) : Prop :=
  exists a b, stock v sale = Some (a, b) /\ 0 <= a /\ a + b = C /\ a + n + units sale (v_db v) <= T.

Lemma books_same n v v' : same_books sale v v' -> books n v -> books n v'.
Proof.
  intros Hsame (a & b & Hs & Hpos & Hsum & Hle). exists a, b.
  rewrite (same_books_stock _ _ _ Hsame). destruct Hsame as (_ & _ & ->). done.
Qed.

Lemma books_db n v d : units sale d <= units sale (v_db v) -> books n v -> books n (set_db d v).
Proof.
  intros Hu (a & b & Hs & Hpos & Hsum & Hle). exists a, b. repeat split; try done. cbn. lia.
Qed.

Lemma books_fewer n m v : m <= n -> books n v -> books m v.
Proof. intros Hle (a & b & Hs & Hpos & Hsum & Hb). exists a, b. repeat split; auto. lia. Qed.

(** The answer [x] may be continued with [n'] units, and the books hold. *)
Definition next {X} (K : X -> nat -> Prop) (m : Z) : outcome X -> view -> Prop :=
  fun o v' => exists x n', o = Ok x /\ K x n' /\ books (Z.of_nat n' + m) v'.

Lemma next_intro {X} (K : X -> nat -> Prop) m x n v :
  K x n -> books (Z.of_nat n + m) v -> next K m (Ok x) v.
Proof. intros HK Hb. by exists x, n. Qed.

Lemma step_neutral {X} (c : call X) n (K : X -> nat -> Prop) m v :
  avoids sale (keys_written c) -> only_reads_db c -> (forall x, K x n) -> books (Z.of_nat n + m) v -> wp (invoke c) v (next K m).
Proof.
  intros Hc Hdb HK Hb. eapply wp_mono; [by apply (neutral_call sale)|].
  intros o v' [[x ->] Hsame]. eapply next_intro; [apply HK|]. by eapply books_same.
Qed.

(** Scripts that take a unit, or give one back. *)
Lemma books_moved n a b v v' k :
  books n v -> stock v sale = Some (a, b) -> stock v' sale = Some (a - k, b + k) ->
  v_db v' = v_db v -> 0 <= a - k -> books (n + k) v'.
Proof.
  intros (a0 & b0 & Hs & Hpos & Hsum & Hle) Hs1 Hs' Hdb Hk. rewrite Hs in Hs1. injection Hs1 as -> ->.
  exists (a - k), (b + k). rewrite Hs', Hdb. repeat split; lia.
Qed.

Lemma step_take n (K : error + lua_value -> nat -> Prop) m v :
  (forall e, K (inl e) n) -> K (inr (LInt (-1))) n -> K (inr (LInt 1)) (S n) ->
  0 <= m -> books (Z.of_nat n + m) v ->
  wp (invoke (CEvalSha reserveSHA [avail sale; resv sale] [])) v (next K m).
Proof.
  intros He Hno Hyes Hm Hb. pose proof Hb as (a & b & Hs & Hpos & Hsum & Hle).
  pose proof (count_nonneg (takes_unit sale) (t_reservations (v_db v))) as Hu. fold (units sale (v_db v)) in Hu.
  eapply call_take; [exact Hs|lia|intros; by eapply next_intro|intros; by eapply next_intro|].
  intros Ha v' Hs' Hdb. eapply next_intro; [exact Hyes|].
  replace (Z.of_nat (S n) + m) with (Z.of_nat n + m + 1) by lia.
  eapply books_moved; [exact Hb|exact Hs|exact Hs'|exact Hdb|lia].
Qed.

Lemma step_give n (K : error + lua_value -> nat -> Prop) m v :
  (forall x, K x n) -> 0 <= m ->
  books (Z.of_nat (S n) + m) v ->
  wp (invoke (CEvalSha releaseSHA [avail sale; resv sale] [])) v (next K m).
Proof.
  intros HK Hm Hb. pose proof Hb as (a & b & Hs & Hpos & Hsum & Hle).
  pose proof (count_nonneg (takes_unit sale) (t_reservations (v_db v))) as Hu. fold (units sale (v_db v)) in Hu.
  eapply call_give; [exact Hs|lia|lia| |].
  - intros _ e. eapply next_intro; [apply HK|]. eapply books_fewer; [|exact Hb]. lia.
  - intros v' Hs' Hdb. eapply next_intro; [apply HK|].
    replace (Z.of_nat n + m) with (Z.of_nat (S n) + m + -1) by lia.
    eapply books_moved; [exact Hb|exact Hs| |exact Hdb|lia]. by rewrite Hs'.
Qed.

Lemma step_promote n (K : error + lua_value -> nat -> Prop) m v :
  (forall e, K (inl e) n) -> K (inr (LStr "-1")) n -> (forall u, u <> "-1" -> K (inr (LStr u)) (S n)) ->
  0 <= m -> books (Z.of_nat n + m) v ->
  wp (invoke (CEvalSha waitlistPromoteSHA [line sale; avail sale; resv sale] [])) v (next K m).
Proof.
  intros He Hno Hyes Hm Hb. pose proof Hb as (a & b & Hs & Hpos & Hsum & Hle).
  pose proof (count_nonneg (takes_unit sale) (t_reservations (v_db v))) as Hu. fold (units sale (v_db v)) in Hu.
  eapply call_promote; [exact Hs|lia| | |].
  - intros e v' Hsame. eapply next_intro; [apply He|by eapply books_same].
  - intros v' Hsame. eapply next_intro; [exact Hno|by eapply books_same].
  - intros Ha u v' Hs' Hdb.
    assert (books (Z.of_nat (S n) + m) v') as Hb'.
    { replace (Z.of_nat (S n) + m) with (Z.of_nat n + m + 1) by lia.
      eapply books_moved; [exact Hb|exact Hs|exact Hs'|exact Hdb|lia]. }
    destruct (decide (u = "-1")) as [->|Hne].
    + eapply next_intro; [exact Hno|]. eapply books_fewer; [|exact Hb']. lia.
    + eapply next_intro; [by apply Hyes|exact Hb'].
Qed.

(** Any call that the discipline allows keeps the books. *)
Lemma call_step {X} (c : call X) n (K : X -> nat -> Prop) m v :
  call_safe sale c n K -> 0 <= m -> books (Z.of_nat n + m) v -> wp (invoke c) v (next K m).
Proof.
  intros Hsafe Hm Hb. destruct c; cbn [call_safe] in Hsafe;
    try (by apply (step_neutral _ n)); try (destruct Hsafe as [[??]?]; by apply (step_neutral _ n)).
  - destruct Hsafe as [(-> & -> & -> & H1 & H2 & H3) | [(-> & -> & -> & j & -> & H1) |
      [(-> & -> & -> & H1 & H2 & H3) | [(-> & (k1 & k2 & u & t & -> & Hk & _ & ->) & HK)|[[Hk _] HK]]]]].
    + by apply (step_take n).
    + by apply (step_give j).
    + apply (step_promote n); auto. intros u Hu. by apply H3.
    + by apply (step_neutral _ n).
    + by apply (step_neutral _ n).
  - destruct Hsafe as [[Hq HK]|(r & p & j & -> & Hsale & Hst & -> & Hyes & Hno)].
    + apply wp_exec; [intros; by eapply next_intro|]. intros Hok.
      eapply next_intro; [apply HK|]. apply books_db; [|done]. unfold units.
      rewrite (count_quiet sale); [lia|apply takes_unit_sale|done|done].
    + apply wp_exec; [intros; by eapply next_intro|]. intros Hok.
      eapply next_intro; [exact Hyes|]. destruct Hb as (a & b & Hs & Hpos & Hsum & Hle).
      exists a, b. split; [exact Hs|]. repeat split; try done. cbn [v_db set_db].
      pose proof (units_insert sale (v_db v) r p) as Hu.
      cbn [stmt_ok] in Hok. rewrite !andb_true_iff, bool_decide_eq_true in Hok.
      specialize (Hu (proj1 (proj1 (proj1 (proj1 Hok)))) Hsale). lia.
  - apply (step_neutral _ n); [done|done| |done]. intros x. by apply Hsafe.
  - apply (step_neutral _ n); [done|done| |done]. intros x. by apply Hsafe.
Qed.

(** ** Pools *)

(** Programs [ps] hold the units [ns], one number each. *)
Definition pool_inv {A} (s : pool (R := R) (D := D) A) : Prop :=
  exists ns, Forall2 (safe sale) ns (fst s) /\ books (Z.of_nat (tally ns)) (view_of (snd s)).

Lemma tally_app (l1 l2 : list nat) : tally (l1 ++ l2) = (tally l1 + tally l2)%nat.
Proof. induction l1 as [|x l1 IH]; cbn; [done|]. rewrite IH. lia. Qed.

Lemma pool_step_inv {A} (s s' : pool (R := R) (D := D) A) : pool_step s s' -> pool_inv s -> pool_inv s'.
Proof.
  intros [pre X c k post w] (ns & Hsafe & Hb). cbn [fst snd] in *.
  apply Forall2_app_inv_r in Hsafe as (n1 & n2 & H1 & H2 & ->).
  apply Forall2_cons_inv_r in H2 as (n & n3 & Hn & H3 & ->). cbn [safe safe_to] in Hn.
  rewrite tally_app in Hb. cbn [tally] in Hb.
  destruct (call_step c n _ (Z.of_nat (tally n1 + tally n3)) (view_of w) Hn) with (w := w)
    as (x & n' & Hx & HK & Hb').
  - lia.
  - eapply books_fewer; [|exact Hb]. lia.
  - done.
  - cbn [invoke run] in Hx, Hb'. destruct (exec c w) as [y w']. cbn in *. injection Hx as ->.
    exists (n1 ++ n' :: n3)%list. split; [by apply Forall2_app, Forall2_cons|].
    cbn [fst snd]. eapply books_fewer; [|exact Hb']. rewrite tally_app. cbn. lia.
Qed.

Lemma pool_steps_inv {A} (s s' : pool (R := R) (D := D) A) : pool_steps s s' -> pool_inv s -> pool_inv s'.
Proof. induction 1; [done|]. intros. eauto using pool_step_inv. Qed.
End Step.

(** ** The theorem *)

Section Oversell.
Context {R D : Type} `{RL : RedisLaws R} `{LL : LuaNumLaws} `{PL : PostgresLaws D} `{O : Oracle}
  `{UU : UuidLaws}.

(** From world [w], where the counters of the sale read [a] and [b], to [w'] no
    unit has been sold twice. *)
Definition sells_within (sale : uuid) (a b : Z) (w w' : world R D) : Prop :=
  exists a' b', stock (view_of w') sale = Some (a', b') /\ 0 <= a' /\ a' + b' = a + b /\
    a' + units sale (tables (w_pg w')) <= a + units sale (tables (w_pg w)).

(** Handlers that follow the discipline, side by side. *)
Lemma pool_never_oversells (NL : NoLostReplies) sale (ps : list (prog unit)) (w w' : world R D) ps' a b :
  Forall (safe sale 0) ps ->
  stock (view_of w) sale = Some (a, b) -> 0 <= a ->
  a + units sale (tables (w_pg w)) < max_int64 ->
  min_int64 + (a + units sale (tables (w_pg w))) < a + b < max_int64 ->
  pool_steps (ps, w) (ps', w') -> sells_within sale a b w w'.
Proof.
  intros Hsafe Hs Ha HT HC Hsteps.
  assert (pool_inv sale (a + b) (a + units sale (tables (w_pg w))) (ps, w)) as Hinv.
  { exists (replicate (length ps) 0%nat). split.
    - cbn [fst]. clear - Hsafe. induction Hsafe as [|p ps Hp _ IH]; cbn [length replicate];
        [constructor|apply Forall2_cons; split; [exact Hp|exact IH]].
    - assert (forall n, tally (replicate n 0%nat) = 0%nat) as -> by (induction n; done).
      exists a, b. repeat split; auto. cbn. lia. }
  pose proof (pool_steps_inv sale (a + b) (a + units sale (tables (w_pg w))) HT HC _ _ Hsteps Hinv)
    as (ns & _ & a' & b' & Hs' & Ha' & Hsum & Hle).
  exists a', b'. cbn in *. repeat split; auto. lia.
Qed.

(** C4. Any number of requests that reserve, promote from the waitlist, join or
    leave it, or read and update sales, for any sales and users, run side by
    side under any schedule, with calls failing anywhere (but no executed call
    reported as failed): the available counter never goes below zero, and
    available units plus recorded reservations never exceed what they were at
    the start. No sale is oversold. *)
Theorem no_oversell_concurrent (NL : NoLostReplies) sale (requests : list request)
    (w w' : world R D) ps' a b :
  stock (view_of w) sale = Some (a, b) -> 0 <= a ->
  a + units sale (tables (w_pg w)) < max_int64 ->
  min_int64 + (a + units sale (tables (w_pg w))) < a + b < max_int64 ->
  pool_steps (serve <$> requests, w) (ps', w') ->
  sells_within sale a b w w'.
Proof.
  intros Hs Ha HT HC. apply pool_never_oversells; [done| |done..].
  apply Forall_fmap, Forall_true. intros q. apply safe_serve.
Qed.
End Oversell.
