(* ===== verification/ExpirySpec.v ===== *)
(** * What the expiry handler promises *)
From S2P Require Import Prelude GoStd Models Schema Services Scripts World Keys Logic.
From S2P Require Import RedisClient Reservation Expiry Ledger ReserveSpec ConfirmSpec.
From Stdlib Require Import Ascii.
Local Open Scope string_scope.
Local Open Scope Z_scope.
Import ExpiryHandler.

(** ** Specification *)

(** The user a promotion takes: the first of the sorted set. *)
Definition first_waiting (z : gmap string Z) (m : string) : Prop :=
  exists sc, z !! m = Some sc /\
    forall m' sc', z !! m' = Some sc' -> zmember_before (m', sc') (m, sc) = false.

(** Every member of the waitlist is the text of a user id ([Join] adds no
    other). *)
Definition user_ids `{UuidLib} (z : gmap string Z) : Prop :=
  forall m, is_Some (z !! m) -> exists u, m = uuid_String u.

Section Spec.
Context `{UL : UuidLib}.

(** A promotion changes nothing in the ledger, or reserves a unit for the first
    waiting user. *)
Definition promote_post (sale : uuid) (z : gmap string Z) (l : ledger) (v v' : view) : Prop :=
  (implements sale l v' /\ t_reservations (v_db v') = t_reservations (v_db v)) \/
  (exists l' r, ledger_step LReserve l = Some l' /\ implements sale l' v' /\
     first_waiting z (uuid_String (UserID r)) /\ SaleID r = sale /\
     Status r = ReservationStatusReserved /\ t_reservations (v_db v) !! ID r = None /\
     t_reservations (v_db v') = <[ID r := mkRow r true]> (t_reservations (v_db v))).
End Spec.

(** ** Proofs *)

Section ScriptProofs.
Context {R : Type} `{RL : RedisLaws R} `{LL : LuaNumLaws}.

Lemma zset_at_insert d k k' x : k <> k' -> zset_at (<[k := x]> d) k' = zset_at d k'.
Proof. intros H. unfold zset_at. by rewrite lookup_insert_ne. Qed.

Lemma zset_at_put d k z : zset_at (put_zset k z d) k = Some z.
Proof.
  unfold zset_at, put_zset. case_decide; [by rewrite lookup_delete_eq; subst|by rewrite lookup_insert_eq].
Qed.

Lemma counter_at_put d k k' z : k <> k' -> counter_at (put_zset k z d) k' = counter_at d k'.
Proof.
  intros H. unfold counter_at, put_zset. case_decide; [by rewrite lookup_delete_ne|by rewrite lookup_insert_ne].
Qed.

(** Run the head of a script bind whose answer is known. *)
Lemma bind_answers {X Y} (m : lua R X) (f : X -> lua R Y) r x d p y d' p' :
  answers (m r) x d p ->
  (forall r', dataset r' = d -> published r' = p -> answers (f x r') y d' p') ->
  answers (lua_bind m f r) y d' p'.
Proof.
  intros (Hx & Hd & Hp) Hf. unfold lua_bind. destruct (m r) as [a r']. cbn in *. subst a. by apply Hf.
Qed.

Lemma promote_lua_first r k1 k2 k3 z a b :
  k1 <> k2 -> k1 <> k3 -> k2 <> k3 ->
  zset_at (dataset r) k1 = Some z -> z <> ∅ ->
  counter_at (dataset r) k2 = Some a -> counter_at (dataset r) k3 = Some b ->
  0 < a -> b < max_int64 ->
  exists m, first_waiting z m /\
    answers (waitlist_promote_lua k1 k2 k3 r) (LStr m)
      (<[k3 := RStr (Itoa (b + 1))]> (<[k2 := RStr (Itoa (a - 1))]>
         (put_zset k1 (delete m z) (dataset r)))) (published r).
Proof.
  intros H12 H13 H23 Hz Hne Ha Hb Hpos Hmax.
  destruct (get_number_counter r k2 a Ha) as (q & (Hg & Hgd & Hgp) & Hq).
  rewrite (proj2 (Z.leb_gt _ _) Hpos) in Hq. unfold waitlist_promote_lua. unfold lua_bind at 1.
  destruct (get_number k2 r) as [x r1]. cbn in Hg, Hgd, Hgp. subst x. cbn [nil_or_nonpos]. rewrite Hq.
  rewrite <- Hgd in Hz. destruct (ZPOPMIN_spec r1 k1 z Hz Hne) as (m & sc & s & Hm & Hmin & Hpop).
  exists m. split; [by exists sc|]. rewrite Hgd, Hgp in Hpop.
  apply counter_at_str in Ha as Ha'. apply counter_at_str in Hb as Hb'.
  destruct Ha' as [_ Ra], Hb' as [_ Rb]. unfold int64, min_int64, max_int64 in *.
  eapply bind_answers; [exact Hpop|]. intros r2 Hd2 Hp2.
  assert (counter_at (dataset r2) k2 = Some a) as Ha2 by (rewrite Hd2; by rewrite counter_at_put).
  eapply bind_answers; [apply (DECR_spec r2 k2 a (or_introl Ha2)); unfold min_int64; lia|].
  intros r3 Hd3 Hp3.
  assert (counter_at (dataset r3) k3 = Some b) as Hb3.
  { rewrite Hd3, counter_at_insert_ne, Hd2, counter_at_put; done. }
  eapply bind_answers; [apply (INCR_spec r3 k3 b (or_introl Hb3)); unfold max_int64; lia|].
  intros r4 Hd4 Hp4. unfold lua_ret, answers. cbn. rewrite Hd4, Hd3, Hd2, Hp4, Hp3, Hp2. done.
Qed.

Lemma promote_lua_none r k1 k2 k3 z a :
  zset_at (dataset r) k1 = Some z -> counter_at (dataset r) k2 = Some a -> a <= 0 \/ z = ∅ ->
  answers (waitlist_promote_lua k1 k2 k3 r) (LStr "-1") (dataset r) (published r).
Proof.
  intros Hz Ha Hor. destruct (get_number_counter r k2 a Ha) as (q & Hg & Hq).
  eapply bind_answers; [exact Hg|]. intros r1 Hd1 Hp1. cbn [nil_or_nonpos]. rewrite Hq.
  destruct (a <=? 0) eqn:E; bool_to_prop; [done|]. destruct Hor as [Hor | ->]; [lia|].
  pose proof (ZPOPMIN_empty r1 k1) as Hpop. rewrite Hd1, Hp1 in Hpop.
  eapply bind_answers; [by apply Hpop|]. intros r2 Hd2 Hp2. done.
Qed.
End ScriptProofs.

Section Proofs.
Context {R D : Type} `{RL : RedisLaws R} `{LL : LuaNumLaws} `{PL : PostgresLaws D} `{O : Oracle}
  `{UU : UuidLaws} `{NF : !NoFaults}.
#[local] Abbreviation wp := (wp (R := R) (D := D)).

(** The keyspace after a promotion script took a unit for [m]. *)
Definition after_promotion (sale : uuid) (a b : Z) (z : gmap string Z) (m : string) (v : view) : view :=
  set_stock sale (a - 1) (b + 1)
    (set_data (put_zset (waitlistKey (uuid_String sale)) (delete m z) (v_data v)) v).

Lemma wp_eval_promote s v a b z (Phi : outcome (error + lua_value) -> view -> Prop) :
  stock v s = Some (a, b) -> b < max_int64 ->
  zset_at (v_data v) (waitlistKey (uuid_String s)) = Some z ->
  (a <= 0 \/ z = ∅ -> Phi (Ok (inr (LStr "-1"))) v) ->
  (forall m, 0 < a -> first_waiting z m -> Phi (Ok (inr (LStr m))) (after_promotion s a b z m v)) ->
  wp (invoke (CEvalSha waitlistPromoteSHA [waitlistKey (uuid_String s);
    availableKey (uuid_String s); reservedKey (uuid_String s)] [])) v Phi.
Proof.
  intros [Ha Hb]%stock_counters Hmax Hz Hno Hok.
  destruct (decide (a <= 0 \/ z = ∅)) as [Hor|Hnor].
  - eapply (wp_eval _ _ _ (LStr "-1") (v_data v) (v_pub v)); [done| |no_drop|].
    + intros r Hd Hp. rewrite <- Hd in Ha, Hz. rewrite <- Hd, <- Hp. by eapply promote_lua_none.
    + destruct v. by apply Hno.
  - apply Decidable.not_or in Hnor as [Hpos Hne].
    apply (wp_redis _ (eval_script waitlistPromoteSHA [waitlistKey (uuid_String s);
      availableKey (uuid_String s); reservedKey (uuid_String s)] [])); [done|no_drop|].
    intros r Hd Hp. unfold eval_script. cbn [run_script]. rewrite <- Hd in Ha, Hb, Hz.
    destruct (promote_lua_first r (waitlistKey (uuid_String s)) (availableKey (uuid_String s))
      (reservedKey (uuid_String s)) z a b) as (m & Hm & H1 & H2 & H3);
      [apply not_eq_sym, available_waitlist|apply not_eq_sym, reserved_waitlist|
       apply available_reserved|done|done|done|done|lia|done|].
    destruct (waitlist_promote_lua _ _ _ r) as [x r']. cbn in H1, H2, H3. subst x. cbn.
    rewrite H2, H3, Hd, Hp. apply (Hok m); [lia|done].
Qed.

Lemma wp_client_promote s v a b z Phi :
  stock v s = Some (a, b) -> b < max_int64 ->
  zset_at (v_data v) (waitlistKey (uuid_String s)) = Some z ->
  (a <= 0 \/ z = ∅ -> Phi (Ok (inr "-1")) v) ->
  (forall m, 0 < a -> first_waiting z m -> Phi (Ok (inr m)) (after_promotion s a b z m v)) ->
  wp (Client.WaitlistPromote (uuid_String s)) v Phi.
Proof.
  intros Hs Hmax Hz Hno Hok. unfold Client.WaitlistPromote. apply wp_bind.
  eapply wp_eval_promote; [exact Hs|done|exact Hz|..]; intros; apply wp_ret; auto.
Qed.

Lemma stock_after_promotion s a b z m v s' :
  stock v s = Some (a, b) -> 0 < a -> b < max_int64 ->
  stock (after_promotion s a b z m v) s' = if decide (s' = s) then Some (a - 1, b + 1) else stock v s'.
Proof.
  intros Hs Hpos Hmax. destruct (stock_range _ _ _ _ Hs). unfold int64, min_int64, max_int64 in *.
  case_decide as Hd.
  - subst. apply stock_set_stock; unfold int64, min_int64, max_int64; lia.
  - unfold after_promotion. rewrite stock_set_stock_ne by done. unfold stock. cbn.
    rewrite !counter_at_put; [done| |]; apply not_eq_sym; [apply reserved_waitlist|apply available_waitlist].
Qed.
End Proofs.

Section PromoteProofs.
Context {R D : Type} `{RL : RedisLaws R} `{LL : LuaNumLaws} `{PL : PostgresLaws D} `{O : Oracle}
  `{UU : UuidLaws} `{NF : !NoFaults}.
#[local] Abbreviation wp := (wp (R := R) (D := D)).

(** The messages of a handler change neither keyspace nor tables. *)
Lemma wp_promote_events h sale user id a v (Phi : outcome unit -> view -> Prop) :
  counter_at (v_data v) (availableKey sale) = Some a ->
  (forall v', v_data v' = v_data v -> v_db v' = v_db v -> Phi (Ok tt) v') ->
  wp (if publisher h then
        pbind (Publisher.WaitlistPromoted user id) (fun _ =>
        pbind (Client.get_int_ignoring_error (availableKey sale)) (fun available =>
        pbind (Publisher.StockUpdate sale available) (fun _ => Ret tt)))
      else Ret tt) v Phi.
Proof.
  intros Ha HPhi. destruct (publisher h); [|apply wp_ret; by apply HPhi].
  apply wp_bind. unfold Publisher.WaitlistPromoted. apply wp_user_event; [no_drop|]. cbn [then_wp].
  apply wp_bind. eapply wp_get_counter; [exact Ha|no_drop|]. cbn [then_wp].
  apply wp_bind. unfold Publisher.StockUpdate. apply wp_event; [no_drop|]. cbn [then_wp].
  apply wp_ret. by apply HPhi.
Qed.

Lemma wp_promote h s z l v :
  implements s l v -> l_held l < max_int64 ->
  zset_at (v_data v) (waitlistKey (uuid_String s)) = Some z -> user_ids z ->
  wp (promoteNextUser h s) v (fun o v' => o = Ok tt /\ promote_post s z l v v').
Proof.
  intros Hi Hmax Hz Hu. pose proof Hi as (Hs & Hh & Ho). unfold promoteNextUser. apply wp_bind.
  eapply wp_client_promote; [exact Hs|done|exact Hz| |].
  { intros _. apply wp_ret. split; [done|by left]. }
  intros m Hpos Hfirst. cbn [then_wp]. destruct Hfirst as (sc & Hm & Hmin).
  destruct (Hu m (mk_is_Some _ _ Hm)) as [u ->].
  rewrite (proj2 (String.eqb_neq _ _)) by apply uuid_String_not_minus_one. rewrite Parse_String.
  set (v1 := after_promotion _ _ _ _ _ v).
  assert (forall s', stock v1 s' = if decide (s' = s) then Some (l_available l - 1, l_held l + 1)
    else stock v s') as Hs1 by (intros s'; by apply stock_after_promotion).
  assert (stock v1 s = Some (l_available l - 1, l_held l + 1)) as Hs1'
    by (rewrite Hs1; by rewrite decide_True).
  destruct (stock_range _ _ _ _ Hs). unfold int64, min_int64, max_int64 in *.
  apply wp_bind, wp_new_uuid. intros n1. apply wp_bind, wp_new_uuid. intros n2.
  apply wp_bind, wp_now. intros t1. apply wp_bind, wp_now. intros t2. cbn [then_wp].
  set (r := mkReservation _ _ _ _ _ _ _ _). apply wp_bind, wp_exec.
  - intros _ e. cbn [then_wp]. apply wp_bind.
    eapply wp_client_release; [exact Hs1'|unfold max_int64; lia|unfold min_int64; lia|no_drop|].
    cbn [then_wp]. apply wp_ret. split; [done|]. left. split; [|done].
    split; [|done]. rewrite stock_set_stock by (unfold int64, min_int64, max_int64; lia).
    f_equal. f_equal; lia.
  - intros Hok. cbn [then_wp]. apply wp_bind, wp_set; [no_drop|]. cbn [then_wp].
    set (v2 := set_data _ _).
    assert (stock v2 s = Some (l_available l - 1, l_held l + 1)) as Hs2.
    { rewrite <- Hs1'. apply (stock_other_key v1); auto with keys. }
    pose proof Hs2 as [Ea _]%stock_counters. apply wp_bind. eapply wp_promote_events; [exact Ea|].
    intros v3 Hd3 Hdb3. cbn [then_wp]. apply wp_bind, wp_audit; [done|done|no_drop|].
    cbn [then_wp]. apply wp_ret. split; [done|]. right.
    assert (t_reservations (v_db v) !! ID r = None) as Hfresh.
    { cbn [stmt_ok] in Hok. rewrite !andb_true_iff, bool_decide_eq_true in Hok. apply Hok. }
    exists (mkLedger (l_available l - 1) (l_held l + 1) (l_sold l)), r.
    assert (ledger_step LReserve l = Some (mkLedger (l_available l - 1) (l_held l + 1) (l_sold l)))
      as Hstep by (unfold ledger_step; by rewrite (proj2 (Z.ltb_lt 0 _))).
    split; [exact Hstep|]. split; [|split; [by exists sc|]].
    + apply (implements_reserved s l _ v _ r true); try done; [|cbn; by rewrite Hdb3|cbn; by rewrite Hdb3].
      cbn [l_available l_held]. rewrite <- Hs2. by apply stock_same_data.
    + split; [done|]. split; [done|]. split; [done|]. cbn. by rewrite Hdb3.
Qed.

(** C24. A promotion from the waitlist cannot succeed against the schema of
    migrations/: the reservation it inserts has a fresh random item id, and
    item_id references sale_items. The stock is as before, nothing is recorded
    or published, and the first waiting user is gone from the waitlist. *)
Theorem promotion_loses_the_user h s z a b v :
  (forall n, uuid_at n ∉ t_sale_items (v_db v)) ->
  stock v s = Some (a, b) -> 0 < a -> b < max_int64 ->
  zset_at (v_data v) (waitlistKey (uuid_String s)) = Some z -> user_ids z ->
  wp (promoteNextUser h s) v (fun o v' =>
    o = Ok tt /\ stock v' s = Some (a, b) /\ v_db v' = v_db v /\ v_pub v' = v_pub v /\
    (z <> ∅ -> exists m, first_waiting z m /\
       zset_at (v_data v') (waitlistKey (uuid_String s)) = Some (delete m z))).
Proof.
  intros Hitem Hs Hpos Hmax Hz Hu. unfold promoteNextUser. apply wp_bind.
  eapply wp_client_promote; [exact Hs|done|exact Hz| |].
  { intros [Hle|He]; [lia|]. apply wp_ret. repeat split; try done. }
  intros m _ Hfirst. pose proof Hfirst as (sc & Hm & Hmin). cbn [then_wp].
  destruct (Hu m (mk_is_Some _ _ Hm)) as [u ->].
  rewrite (proj2 (String.eqb_neq _ _)) by apply uuid_String_not_minus_one. rewrite Parse_String.
  set (v1 := after_promotion _ _ _ _ _ v).
  assert (stock v1 s = Some (a - 1, b + 1)) as Hs1.
  { unfold v1. rewrite stock_after_promotion by done. by rewrite decide_True. }
  destruct (stock_range _ _ _ _ Hs). unfold int64, min_int64, max_int64 in *.
  apply wp_bind, wp_new_uuid. intros n1. apply wp_bind, wp_new_uuid. intros n2.
  apply wp_bind, wp_now. intros t1. apply wp_bind, wp_now. intros t2. cbn [then_wp].
  apply wp_bind, wp_exec.
  2: { intros Hok. exfalso. cbn [stmt_ok] in Hok. rewrite !andb_true_iff, !bool_decide_eq_true in Hok.
       destruct Hok as [[_ Hin] _]. exact (Hitem n2 Hin). }
  intros _ e. cbn [then_wp]. apply wp_bind.
  eapply wp_client_release; [exact Hs1|unfold max_int64; lia|unfold min_int64; lia|no_drop|].
  cbn [then_wp]. apply wp_ret. split; [done|]. split; [|split; [done|split; [done|]]].
  - rewrite stock_set_stock by (unfold int64, min_int64, max_int64; lia). f_equal. f_equal; lia.
  - intros _. exists (uuid_String u). split; [done|]. cbn.
    rewrite !zset_at_insert by (apply available_waitlist || apply reserved_waitlist).
    apply zset_at_put.
Qed.

(** The key of the notification names the reservation. *)
Lemma handle_key h rid :
  handleExpiredReservation h (ttlKey (uuid_String rid)) =
  pbind (invoke (CRow (SelectReservation rid))) (fun row =>
    match row with
    | inl _ => Ret tt
    | inr r =>
        if bool_decide (Status r <> ReservationStatusReserved) then Ret tt
        else
          pbind (Client.Release (uuid_String (SaleID r))) (fun err =>
          match err with
          | Some _ => Ret tt
          | None =>
              pbind (invoke (CExec (UpdateReservationStatus ReservationStatusExpired rid))) (fun upd =>
              match upd with
              | inl _ => Ret tt
              | inr _ =>
                  pbind (Client.get_int_ignoring_error (availableKey (uuid_String (SaleID r)))) (fun available =>
                  pbind (if publisher h then
                           pbind (Publisher.StockUpdate (uuid_String (SaleID r)) available) (fun _ => Ret tt)
                         else Ret tt) (fun _ =>
                  pbind (Audit.Log "reservation" rid "expired"
                    (Audit.GoMap [("sale_id", uuid_String (SaleID r))])) (fun _ =>
                  promoteNextUser h (SaleID r))))
              end)
          end)
    end).
Proof. unfold handleExpiredReservation, Split. by rewrite ttlKey_split, Parse_String. Qed.

(** C6. An expired TTL key of a reserved row marks the row expired and gives its
    unit back, and the unit goes to the first waiting user or stays available. *)
Theorem expire_refines h rid w z l v :
  schema_ok (v_db v) -> implements (SaleID (row_res w)) l v ->
  l_available l < max_int64 -> l_held l < max_int64 ->
  t_reservations (v_db v) !! rid = Some w ->
  Status (row_res w) = ReservationStatusReserved ->
  zset_at (v_data v) (waitlistKey (uuid_String (SaleID (row_res w)))) = Some z -> user_ids z ->
  wp (on_expired_message h (ttlKey (uuid_String rid))) v (fun o v' =>
    o = Ok tt /\
    t_reservations (v_db v') !! rid = Some (on_row (with_status ReservationStatusExpired) w) /\
    exists l1, ledger_step LRelease l = Some l1 /\
      (implements (SaleID (row_res w)) l1 v' \/
       exists l2 r, ledger_step LReserve l1 = Some l2 /\ implements (SaleID (row_res w)) l2 v' /\
         first_waiting z (uuid_String (UserID r)) /\
         t_reservations (v_db v') !! ID r = Some (mkRow r true))).
Proof.
  intros Hok Hi Hmax Hmax' Hw Hst Hz Hu. unfold on_expired_message.
  assert (HasPrefix (ttlKey (uuid_String rid)) "reservation:" = true) as -> by apply HasPrefix_app.
  assert (HasSuffix (ttlKey (uuid_String rid)) ":ttl" = true) as ->.
  { unfold ttlKey. rewrite <- append_assoc. apply HasSuffix_app. }
  cbn [andb]. rewrite handle_key. apply wp_bind, wp_row; [no_drop|]. intros now.
  cbn [row_answer]. rewrite Hw. cbn [fmap option_fmap option_map then_wp].
  rewrite bool_decide_false by (intros X; exact (X Hst)).
  set (s := SaleID (row_res w)) in *. apply wp_bind.
  eapply wp_give_back; [exact Hi|exact Hw|done|done|]. cbn [then_wp].
  destruct (implements_released rid w ReservationStatusExpired l v) as (l1 & Hl & Hi1); try done.
  apply wp_bind, wp_exec_ok; [by eapply status_update_ok|]. cbn [then_wp].
  set (v1 := set_db _ _) in *. pose proof (proj1 Hi1) as Hs1. apply stock_counters in Hs1 as [Ea _].
  apply wp_bind. eapply wp_get_counter; [exact Ea|no_drop|]. cbn [then_wp]. apply wp_bind.
  assert (forall (Phi : outcome unit -> view -> Prop),
    (forall v', v_data v' = v_data v1 -> v_db v' = v_db v1 -> Phi (Ok tt) v') ->
    wp (if publisher h then
          pbind (Publisher.StockUpdate (uuid_String s) (l_available l1)) (fun _ => Ret tt)
        else Ret tt) v1 Phi) as Hev.
  { intros Phi HPhi. destruct (publisher h); [|apply wp_ret; by apply HPhi].
    apply wp_bind. unfold Publisher.StockUpdate. apply wp_event; [no_drop|]. apply wp_ret. by apply HPhi. }
  apply Hev. intros v2 Hd2 Hdb2. cbn [then_wp]. apply wp_bind, wp_audit; [done|done|no_drop|].
  cbn [then_wp]. set (v3 := set_db _ v2).
  assert (t_reservations (v_db v3) !! rid = Some (on_row (with_status ReservationStatusExpired) w)) as Hrow.
  { cbn. rewrite Hdb2. cbn. by rewrite lookup_alter, decide_True, Hw. }
  eapply wp_mono; [apply (wp_promote h s z l1)|].
  - eapply implements_ext; [| | |exact Hi1]; cbn; rewrite ?Hdb2; try done. by apply stock_same_data.
  - unfold ledger_step in Hl. destruct (0 <? l_held l); [|discriminate Hl]. injection Hl as <-. cbn. lia.
  - cbn. rewrite Hd2. cbn. by rewrite !zset_at_insert by (apply available_waitlist || apply reserved_waitlist).
  - done.
  - intros o v4 (-> & [(Hi4 & Hr4)|(l2 & r & Hl2 & Hi4 & Hf & _ & _ & Hfresh & Hr4)]).
    + split; [done|]. split; [by rewrite Hr4|]. exists l1. auto.
    + split; [done|]. split.
      * rewrite Hr4, lookup_insert_ne; [done|]. intros E. rewrite E, Hrow in Hfresh. done.
      * exists l1. split; [done|]. right. exists l2, r. rewrite Hr4, lookup_insert_eq. auto.
Qed.

(** The expiry handler does nothing for a key that is not a reservation's
    TTL key, for an unknown reservation, and for one that is no longer
    reserved: a second notification of the same expiry has no effect. *)
Theorem expire_ignores h key v :
  (forall p0 id p2, Split key ":" = [p0; id; p2] -> forall rid, uuid_Parse id = inr rid ->
     forall w, t_reservations (v_db v) !! rid = Some w ->
     Status (row_res w) <> ReservationStatusReserved) ->
  wp (on_expired_message h key) v (fun o v' => o = Ok tt /\ v' = v).
Proof.
  intros Hkey. unfold on_expired_message.
  destruct (HasPrefix key "reservation:" && HasSuffix key ":ttl"); [|by apply wp_ret].
  unfold handleExpiredReservation.
  destruct (Split key ":") as [|p0 [|id [|p2 [|? ?]]]]; try (by apply wp_ret).
  destruct (uuid_Parse id) as [e|rid] eqn:Hp; [by apply wp_ret|].
  apply wp_bind, wp_row; [no_drop|]. intros now. cbn [row_answer].
  destruct (t_reservations (v_db v) !! rid) as [w|] eqn:Hw; cbn [fmap option_fmap option_map then_wp].
  - rewrite bool_decide_true by eauto. by apply wp_ret.
  - intros e. by apply wp_ret.
Qed.

(** One warning per row, told the seconds that some reading of the clock left. *)
Definition warns `{UuidLib} `{Oracle} (row : uuid * uuid * Z) (m : string * json) : Prop :=
  exists n, m = (userChannel (uuid_String (snd (fst row))),
    Publisher.Event "reservation_expiring"
      [("expires_in_seconds", JNum (seconds_left (time_at n) (snd row)))]).

Lemma wp_notify_rows rows : forall v (Phi : outcome unit -> view -> Prop),
  (forall v' ms, Forall2 warns rows ms -> v_data v' = v_data v -> v_db v' = v_db v ->
     v_pub v' = (v_pub v ++ ms)%list -> Phi (Ok tt) v') ->
  wp (notify_rows (inr <$> rows)) v Phi.
Proof.
  induction rows as [|[[id user] expires] rest IH]; intros v Phi HPhi;
    cbn [notify_rows fmap list_fmap].
  - apply wp_ret. apply (HPhi v []); [constructor|done|done|by rewrite app_nil_r].
  - apply wp_bind, wp_now_at. intros n. cbn [then_wp]. apply wp_bind. unfold Publisher.ReservationExpiring.
    apply wp_user_event; [no_drop|]. cbn [then_wp]. apply IH. intros v' ms Hms Hd Hdb Hp.
    eapply HPhi; [|exact Hd|exact Hdb|].
    + constructor; [|exact Hms]. exists n. reflexivity.
    + rewrite Hp. cbn. by rewrite <- app_assoc.
Qed.

(** Each tick of the warning loop publishes, to the channel of its user, one
    warning for every reserved row that expires 55 to 90 seconds after the
    query's clock, and no other message; the seconds told are never negative.
    Nothing is written. *)
Theorem warnings_match_rows h v :
  publisher h = true ->
  wp (notifyExpiringReservations h) v (fun o v' => exists now rows ms,
    o = Ok tt /\ v_data v' = v_data v /\ v_db v' = v_db v /\ v_pub v' = (v_pub v ++ ms)%list /\
    Forall2 warns rows ms /\
    (forall id user expires, (id, user, expires) ∈ rows <->
       exists w, t_reservations (v_db v) !! id = Some w /\ UserID (row_res w) = user /\
         ExpiresAt (row_res w) = expires /\ Status (row_res w) = ReservationStatusReserved /\
         now + 55000000000 <= expires <= now + 90000000000) /\
    forall n expires, 0 <= seconds_left n expires).
Proof.
  intros Hp. unfold notifyExpiringReservations. rewrite Hp. apply wp_bind, wp_rows; [no_drop|].
  intros now rows Hrows. cbn [then_wp]. apply wp_notify_rows. intros v' ms Hms Hd Hdb Hpub.
  exists now, rows, ms. repeat (split; [done|]). split.
  - intros id user expires. rewrite Hrows. cbn. rewrite list_elem_of_fmap. split.
    + intros ([k w] & [= -> -> ->] & [He Hin]%list_elem_of_filter). exists w.
      apply elem_of_map_to_list in Hin. unfold expiring_soon in He. cbn in *. bool_to_prop.
      apply bool_decide_eq_true in H. auto 10.
    + intros (w & Hw & <- & <- & Hs & Hlo & Hhi). exists (id, w). split; [done|].
      apply list_elem_of_filter. split; [|by apply elem_of_map_to_list].
      unfold expiring_soon. cbn [snd]. rewrite bool_decide_true by done.
      by rewrite (proj2 (Z.leb_le _ _)), (proj2 (Z.leb_le _ _)).
  - intros n expires. unfold seconds_left. destruct (_ <? 0) eqn:E; bool_to_prop; lia.
Qed.
End PromoteProofs.
