(* ===== verification/WaitlistSpec.v ===== *)
(** * What the waitlist promises

    Positions, joining, leaving, and the order in which users are promoted. *)
From S2P Require Import Prelude GoStd Models Services Scripts World Keys Logic RedisClient.
From S2P Require Import Inventory Ledger ExpirySpec.
From Stdlib Require Import Ascii.
Local Open Scope string_scope.
Local Open Scope Z_scope.
Import WaitlistService.

(** ** Positions *)

(** The 1-based place of a user in the queue. *)
Definition place (z : gmap string Z) (m : string) : option Z :=
  (fun sc => zrank z m sc + 1) <$> z !! m.

(** The members that stand before an entry. *)
Definition ahead (z : gmap string Z) (m : string) (sc : Z) : gmap string Z :=
  filter (fun p => zmember_before p (m, sc) = true) z.

Section Spec.
Context `{UL : UuidLib}.

Definition queue (v : view) (sale : uuid) : option (gmap string Z) :=
  zset_at (v_data v) (waitlistKey (uuid_String sale)).

Definition in_stock (v : view) (sale : uuid) : Prop :=
  exists a, counter_at (v_data v) (availableKey (uuid_String sale)) = Some a /\ 0 < a.

Definition sold_out (v : view) (sale : uuid) : Prop :=
  v_data v !! availableKey (uuid_String sale) = None \/
  exists a, counter_at (v_data v) (availableKey (uuid_String sale)) = Some a /\ a <= 0.

(** A user enters with the second of the clock as score. *)
Definition enqueue (sale user : uuid) (t : Z) (z : gmap string Z) (v : view) : view :=
  set_data (<[waitlistKey (uuid_String sale) := RZset (<[uuid_String user := t]> z)]> (v_data v)) v.
End Spec.

Lemma in_stock_sold_out `{UuidLib} v sale : in_stock v sale -> sold_out v sale -> False.
Proof.
  intros (a & Ha & Hpos) [E|(a' & Ha' & Hle)].
  - apply counter_at_str in Ha as [Ha _]. congruence.
  - rewrite Ha in Ha'. injection Ha' as ->. lia.
Qed.

(** The clock, in seconds, fits the integers a Redis score holds exactly. *)
Definition clock_ok `{Oracle} : Prop :=
  forall n, -9007199254740992 <= InventoryService.Unix (time_at n) <= 9007199254740992.

(** ** Lemmas on ranks *)

Lemma zrank_size z m sc : zrank z m sc = Z.of_nat (size (ahead z m sc)).
Proof.
  unfold zrank, ahead. f_equal. rewrite <- length_map_to_list. apply Permutation_length.
  apply NoDup_Permutation; [apply NoDup_filter, NoDup_map_to_list|apply NoDup_map_to_list|].
  intros [k x]. rewrite list_elem_of_filter, !elem_of_map_to_list, map_lookup_filter_Some. tauto.
Qed.

Lemma ahead_insert_after z m sc m' sc' :
  z !! m' = None -> zmember_before (m', sc') (m, sc) = false ->
  ahead (<[m' := sc']> z) m sc = ahead z m sc.
Proof.
  intros Hf Hb. unfold ahead. rewrite map_filter_insert_False by (rewrite Hb; done).
  by rewrite delete_id.
Qed.

Lemma zrank_insert z m sc m' sc' :
  z !! m' = None ->
  zrank (<[m' := sc']> z) m sc = zrank z m sc + (if zmember_before (m', sc') (m, sc) then 1 else 0).
Proof.
  intros Hf. rewrite !zrank_size. destruct (zmember_before (m', sc') (m, sc)) eqn:E.
  - unfold ahead. rewrite map_filter_insert_True by done.
    rewrite map_size_insert_None; [lia|]. apply map_lookup_filter_None. by left.
  - rewrite ahead_insert_after by done. lia.
Qed.

Lemma zrank_delete z m sc m' sc' :
  z !! m' = Some sc' ->
  zrank (delete m' z) m sc = zrank z m sc - (if zmember_before (m', sc') (m, sc) then 1 else 0).
Proof.
  intros Hm. rewrite <- (insert_delete_id z m' sc' Hm) at 2.
  rewrite zrank_insert by apply lookup_delete_eq. lia.
Qed.

Lemma zrank_bounds z m sc : z !! m = Some sc -> 0 <= zrank z m sc < Z.of_nat (size z).
Proof.
  intros Hm. pose proof (zrank_delete z m sc m sc Hm) as E. rewrite zmember_before_irrefl in E.
  replace (zrank z m sc) with (zrank (delete m z) m sc) by lia. rewrite zrank_size.
  assert (size (ahead (delete m z) m sc) <= size (delete m z))%nat by apply map_size_filter.
  assert (size z = S (size (delete m z))).
  { rewrite <- (insert_delete_id z m sc Hm) at 1. apply map_size_insert_None, lookup_delete_eq. }
  lia.
Qed.

(** The first of the queue has nobody before it. *)
Lemma first_waiting_place z m : first_waiting z m -> place z m = Some 1.
Proof.
  intros (sc & Hm & Hmin). unfold place. rewrite Hm. cbn. f_equal. rewrite zrank_size.
  enough (ahead z m sc = ∅) as -> by done. apply map_eq. intros k. rewrite lookup_empty.
  apply map_lookup_filter_None. right. intros x Hk. by rewrite (Hmin k x Hk).
Qed.

(** When the first leaves, everybody moves one place up. *)
Lemma first_waiting_next z m m' :
  first_waiting z m -> m' <> m -> place (delete m z) m' = Z.pred <$> place z m'.
Proof.
  intros (sc & Hm & Hmin) Hne. unfold place. rewrite lookup_delete_ne by done.
  destruct (z !! m') as [sc'|] eqn:E; [|done]. cbn. f_equal. rewrite (zrank_delete _ _ _ _ _ Hm).
  destruct (zmember_before (m, sc) (m', sc')) eqn:B; [lia|].
  exfalso. pose proof (zmember_before_total _ _ (Hmin m' sc' E) B). congruence.
Qed.

(** ** The script *)

Section JoinScript.
Context {R : Type} `{RL : RedisLaws R} `{LL : LuaNumLaws}.

Lemma join_lua_in_stock r k1 k2 u t a :
  counter_at (dataset r) k1 = Some a -> 0 < a ->
  answers (waitlist_join_lua k1 k2 u t r) (LInt (-1)) (dataset r) (published r).
Proof.
  intros Ha Hpos. destruct (get_number_counter r k1 a Ha) as (q & Hg & Hq).
  eapply bind_answers; [exact Hg|]. intros r1 Hd Hp. cbn [nil_or_nonpos].
  by rewrite Hq, (proj2 (Z.leb_gt _ _) Hpos).
Qed.

(** No unit left, or no counter at all. *)
Lemma join_lua_sold_out r k1 k2 u n z :
  dataset r !! k1 = None \/ (exists a, counter_at (dataset r) k1 = Some a /\ a <= 0) ->
  zset_at (dataset r) k2 = Some z -> -9007199254740992 <= n <= 9007199254740992 ->
  match z !! u with
  | Some _ => answers (waitlist_join_lua k1 k2 u (Itoa n) r) (LInt (-2)) (dataset r) (published r)
  | None =>
      answers (waitlist_join_lua k1 k2 u (Itoa n) r) (LInt (zrank (<[u := n]> z) u n))
        (<[k2 := RZset (<[u := n]> z)]> (dataset r)) (published r)
  end.
Proof.
  intros Hno Hz Hn.
  assert (exists v, answers (get_number k1 r) v (dataset r) (published r) /\
    nil_or_nonpos v = true) as (v & Hg & Hnp).
  { destruct Hno as [Hno|(a & Ha & Hle)].
    - exists None. split; [by apply get_number_missing|done].
    - destruct (get_number_counter r k1 a Ha) as (q & Hg & Hq). exists (Some q). split; [done|].
      cbn. rewrite Hq. by apply Z.leb_le. }
  assert (forall x d, (forall r1, dataset r1 = dataset r -> published r1 = published r ->
      answers (lua_bind (ZSCORE k2 u) (fun existing =>
        match existing with
        | Some _ => lua_ret (LInt (-2))
        | None => lua_bind (ZADD k2 (Itoa n) u) (fun _ => lua_bind (ZRANK k2 u) (fun rank =>
            lua_ret (match rank with Some n => LInt n | None => LNil end)))
        end) r1) x d (published r)) ->
    answers (waitlist_join_lua k1 k2 u (Itoa n) r) x d (published r)) as Hscore.
  { intros x d H. eapply bind_answers; [exact Hg|]. intros r1 Hd Hp. rewrite Hnp. by apply H. }
  destruct (z !! u) as [sc|] eqn:Hu; apply Hscore; intros r1 Hd Hp; rewrite <- Hd in Hz;
    destruct (ZSCORE_spec r1 k2 z u Hz) as (o & Ho & Hsome); rewrite Hd, Hp in Ho;
    (eapply bind_answers; [exact Ho|]); intros r2 Hd2 Hp2; rewrite Hu in Hsome.
  - destruct o; [done|]. by destruct (proj2 Hsome (mk_is_Some _ _ eq_refl)).
  - destruct o as [s|]; [by destruct (proj1 Hsome (mk_is_Some _ _ eq_refl))|].
    rewrite Hd, <- Hd2 in Hz.
    destruct (ZADD_spec r2 k2 z (Itoa n) n u Hz eq_refl Hn) as (a & Ha). rewrite Hd2, Hp2 in Ha.
    eapply bind_answers; [exact Ha|]. intros r3 Hd3 Hp3.
    assert (zset_at (dataset r3) k2 = Some (<[u := n]> z)) as Hz3
      by (rewrite Hd3; unfold zset_at; by rewrite lookup_insert_eq).
    pose proof (ZRANK_spec r3 k2 _ u Hz3) as Hr. rewrite lookup_insert_eq, Hd3, Hp3 in Hr.
    eapply bind_answers; [exact Hr|]. intros r4 Hd4 Hp4. done.
Qed.
End JoinScript.

(** ** The service *)

Section Proofs.
Context {R D : Type} `{RL : RedisLaws R} `{LL : LuaNumLaws} `{PL : PostgresLaws D} `{O : Oracle}
  `{UU : UuidLaws} `{NF : !NoFaults}.
#[local] Abbreviation wp := (wp (R := R) (D := D)).

Lemma wp_client_join sale user n z v (Phi : outcome (error + Z) -> view -> Prop) :
  queue v sale = Some z -> -9007199254740992 <= n <= 9007199254740992 ->
  in_stock v sale \/ sold_out v sale ->
  (in_stock v sale -> Phi (Ok (inr (-1))) v) ->
  (sold_out v sale -> is_Some (z !! uuid_String user) -> Phi (Ok (inr (-2))) v) ->
  (sold_out v sale -> z !! uuid_String user = None ->
     Phi (Ok (inr (zrank (<[uuid_String user := n]> z) (uuid_String user) n))) (enqueue sale user n z v)) ->
  wp (Client.WaitlistJoin (uuid_String sale) (uuid_String user) n) v Phi.
Proof.
  intros Hz Hn Hstock H1 H2 H3. unfold Client.WaitlistJoin. apply wp_bind.
  destruct Hstock as [Hin|Hout].
  - pose proof Hin as (a & Ha & Hpos).
    apply (wp_eval _ _ _ (LInt (-1)) (v_data v) (v_pub v)); [done| |no_drop|].
    + intros r Hd Hp. rewrite <- Hd, <- Hp in *. by eapply join_lua_in_stock.
    + apply wp_ret. destruct v. by apply H1.
  - assert (forall r : R, dataset r = v_data v -> published r = v_pub v ->
      match z !! uuid_String user with
      | Some _ => answers (run_script waitlistJoinSHA [availableKey (uuid_String sale);
          waitlistKey (uuid_String sale)] [uuid_String user; Itoa n] r) (LInt (-2)) (v_data v) (v_pub v)
      | None => answers (run_script waitlistJoinSHA [availableKey (uuid_String sale);
          waitlistKey (uuid_String sale)] [uuid_String user; Itoa n] r)
          (LInt (zrank (<[uuid_String user := n]> z) (uuid_String user) n))
          (<[waitlistKey (uuid_String sale) := RZset (<[uuid_String user := n]> z)]> (v_data v)) (v_pub v)
      end) as Hs.
    { intros r Hd Hp. unfold queue, sold_out in *. rewrite <- Hd, <- Hp in *.
      by apply join_lua_sold_out. }
    destruct (z !! uuid_String user) as [sc|] eqn:Hu.
    + eapply (wp_eval _ _ _ (LInt (-2))); [done|exact Hs|no_drop|].
      apply wp_ret. destruct v. apply H2; eauto.
    + eapply (wp_eval _ _ _ (LInt _)); [done|exact Hs|no_drop|]. apply wp_ret. by apply H3.
Qed.

(** A place fits Go's int. *)
Lemma place_int z m sc :
  z !! m = Some sc -> Z.of_nat (size z) <= max_int64 ->
  place z m = Some (wrap64 (zrank z m sc + 1)) /\ 1 <= zrank z m sc + 1 <= Z.of_nat (size z).
Proof.
  intros Hm Hmax. pose proof (zrank_bounds z m sc Hm). unfold place. rewrite Hm. cbn.
  rewrite wrap64_id by (unfold int64, min_int64, max_int64 in *; lia). split; [done|lia].
Qed.

Lemma wp_join sale user z v (Phi : outcome (error + JoinResponse) -> view -> Prop) :
  queue v sale = Some z -> Z.of_nat (size z) < max_int64 -> clock_ok ->
  in_stock v sale \/ sold_out v sale ->
  (in_stock v sale -> Phi (Ok (inl "stock available")) v) ->
  (sold_out v sale -> is_Some (z !! uuid_String user) -> Phi (Ok (inl "already in waitlist")) v) ->
  (forall n p, sold_out v sale -> z !! uuid_String user = None ->
     let t := InventoryService.Unix (time_at n) in
     place (<[uuid_String user := t]> z) (uuid_String user) = Some p ->
     1 <= p <= Z.of_nat (size z) + 1 ->
     Phi (Ok (inr (mkJoinResponse p (t * 1000000000)))) (enqueue sale user t z v)) ->
  wp (Join sale user) v Phi.
Proof.
  intros Hz Hsize Hclock Hstock H1 H2 H3. unfold Join. apply wp_bind, wp_now_at. intros n.
  cbn [then_wp]. set (t := InventoryService.Unix (time_at n)). apply wp_bind.
  eapply wp_client_join; [exact Hz|apply Hclock|done| | |].
  - intros Hin. apply wp_ret. auto.
  - intros Hout Hu. apply wp_ret. auto.
  - intros Hout Hu. cbn [then_wp].
    destruct (place_int (<[uuid_String user := t]> z) (uuid_String user) t) as [Hp Hb].
    + apply lookup_insert_eq.
    + rewrite map_size_insert_None by done. lia.
    + rewrite map_size_insert_None in Hb by done. rewrite !(proj2 (Z.eqb_neq _ _)) by lia.
      apply wp_ret. apply (H3 n _ Hout Hu); [exact Hp|]. fold t.
      rewrite wrap64_id by (unfold int64, min_int64, max_int64 in *; lia). lia.
Qed.

(** Join while the counter shows a unit is refused ("stock available"),
    a second Join of a waiting user too ("already in waitlist"), both without
    effect; otherwise the user enters the queue with the second of the clock
    as score and is told the 1-based place that gives. *)
Theorem join_enqueues sale user z v :
  queue v sale = Some z -> Z.of_nat (size z) < max_int64 -> clock_ok ->
  in_stock v sale \/ sold_out v sale ->
  wp (Join sale user) v (fun o v' =>
    (in_stock v sale /\ o = Ok (inl "stock available") /\ v' = v) \/
    (sold_out v sale /\ is_Some (z !! uuid_String user) /\ o = Ok (inl "already in waitlist") /\ v' = v) \/
    (sold_out v sale /\ z !! uuid_String user = None /\
     exists n p, let t := InventoryService.Unix (time_at n) in
       v' = enqueue sale user t z v /\
       place (<[uuid_String user := t]> z) (uuid_String user) = Some p /\
       o = Ok (inr (mkJoinResponse p (t * 1000000000))))).
Proof.
  intros Hz Hsize Hclock Hstock. eapply wp_join; [exact Hz|done|done|done| | |].
  - intros Hin. by left.
  - intros Hout Hu. right. by left.
  - intros n p Hout Hu t Hp _. right. right. split; [done|]. split; [done|]. by exists n, p.
Qed.

(** C27. The queue is first come, first served between seconds: a user who joins
    when everybody waiting came in an earlier second is told the last place,
    and nobody's place changes. *)
Theorem join_is_fifo sale user z v :
  queue v sale = Some z -> Z.of_nat (size z) < max_int64 -> clock_ok ->
  sold_out v sale -> z !! uuid_String user = None ->
  (forall n m sc, z !! m = Some sc -> sc < InventoryService.Unix (time_at n)) ->
  wp (Join sale user) v (fun o v' =>
    exists z' at_, queue v' sale = Some z' /\
      o = Ok (inr (mkJoinResponse (Z.of_nat (size z) + 1) at_)) /\
      place z' (uuid_String user) = Some (Z.of_nat (size z) + 1) /\
      forall m, m <> uuid_String user -> place z' m = place z m).
Proof.
  intros Hz Hsize Hclock Hout Hnew Hold.
  eapply wp_join; [exact Hz|done|done|by right| | |].
  - intros Hin. by destruct (in_stock_sold_out v sale).
  - intros _ [x Hx]. congruence.
  - intros n p _ _ t Hp Hb.
    assert (forall m sc, z !! m = Some sc -> zmember_before (m, sc) (uuid_String user, t) = true /\
      zmember_before (uuid_String user, t) (m, sc) = false) as Hbefore.
    { intros m sc Hm. specialize (Hold n m sc Hm). fold t in Hold. unfold zmember_before. cbn [fst snd].
      rewrite (proj2 (Z.ltb_lt sc t)), (proj2 (Z.ltb_ge t sc)), (proj2 (Z.eqb_neq t sc)) by lia. done. }
    assert (place (<[uuid_String user := t]> z) (uuid_String user) = Some (Z.of_nat (size z) + 1)) as Hlast.
    { unfold place. rewrite lookup_insert_eq. cbn. rewrite zrank_insert by done.
      rewrite zmember_before_irrefl, zrank_size. do 3 f_equal.
      replace (ahead z (uuid_String user) t) with z; [lia|].
      symmetry. apply map_filter_id. intros m sc Hm. by apply Hbefore. }
    exists (<[uuid_String user := t]> z), (t * 1000000000). split.
    { unfold queue, enqueue, zset_at. cbn. by rewrite lookup_insert_eq. }
    split; [congruence|]. split; [done|]. intros m Hne. unfold place.
    rewrite lookup_insert_ne by done. destruct (z !! m) as [sc|] eqn:E; [|done]. cbn.
    rewrite zrank_insert by done. rewrite (proj2 (Hbefore m sc E)). do 2 f_equal. lia.
Qed.

(** Within one second the queue is not first come, first served: a user
    whose id sorts before that of one who joined earlier in the same second
    takes the earlier place, and pushes the other back. *)
Theorem join_same_second_overtakes sale user z m t v :
  queue v sale = Some z -> Z.of_nat (size z) < max_int64 -> clock_ok ->
  sold_out v sale -> z !! uuid_String user = None ->
  (forall n, InventoryService.Unix (time_at n) = t) ->
  z !! m = Some t -> (uuid_String user <? m)%string = true ->
  wp (Join sale user) v (fun o v' =>
    exists z' p q, queue v' sale = Some z' /\ place z' (uuid_String user) = Some p /\
      place z m = Some q /\ place z' m = Some (q + 1) /\ p <= q).
Proof.
  intros Hz Hsize Hclock Hout Hnew Ht Hm Hlt.
  eapply wp_join; [exact Hz|done|done|by right| | |].
  - intros Hin. by destruct (in_stock_sold_out v sale).
  - intros _ [x Hx]. congruence.
  - intros n p _ _ t' Hp _. unfold t' in *. clear t'. rewrite Ht in *.
    assert (zmember_before (uuid_String user, t) (m, t) = true) as Hbefore.
    { unfold zmember_before. cbn [fst snd]. by rewrite Z.eqb_refl, Hlt, orb_true_r. }
    assert (m <> uuid_String user) as Hne by (intros ->; congruence).
    exists (<[uuid_String user := t]> z), (zrank z (uuid_String user) t + 1), (zrank z m t + 1).
    split; [unfold queue, enqueue, zset_at; cbn; by rewrite lookup_insert_eq|].
    unfold place. rewrite lookup_insert_eq, lookup_insert_ne, Hm by done. cbn.
    rewrite !zrank_insert, zmember_before_irrefl, Hbefore by done.
    split; [f_equal; lia|]. split; [done|]. split; [f_equal; lia|].
    rewrite !zrank_size. enough (size (ahead z (uuid_String user) t) <= size (ahead z m t))%nat by lia.
    apply map_subseteq_size, map_filter_subseteq_ext. intros i x _ Hi.
    by eapply zmember_before_trans.
Qed.

(** GetPosition answers the place and the length of the queue, and
    "user not in waitlist" for anyone else; it changes nothing. *)
Theorem position_reads_place sale user z v :
  queue v sale = Some z -> Z.of_nat (size z) <= max_int64 ->
  wp (GetPosition sale user) v (fun o v' => v' = v /\
    o = Ok (match place z (uuid_String user) with
            | Some p => inr (mkPositionResponse p (Z.of_nat (size z)))
            | None => inl "user not in waitlist"
            end)).
Proof.
  intros Hz Hsize. unfold GetPosition. apply wp_bind. eapply wp_zrank; [exact Hz| |].
  - intros [Hd|Hu] e; [exfalso; exact (no_drops Hd)|]. apply wp_ret. unfold place. by rewrite Hu.
  - intros sc Hu. cbn [then_wp]. apply wp_bind. eapply wp_zcard; [exact Hz|no_drop|].
    apply wp_ret. split; [done|]. by rewrite (proj1 (place_int z _ sc Hu Hsize)).
Qed.

(** Leave removes the user: those behind move one place up, those ahead
    stay; leaving twice is the error "user not in waitlist". Nothing but the
    queue changes. *)
Theorem leave_closes_the_gap sale user z v :
  queue v sale = Some z ->
  wp (Leave sale user) v (fun o v' =>
    queue v' sale = Some (delete (uuid_String user) z) /\ v_db v' = v_db v /\ v_pub v' = v_pub v /\
    (forall s, stock v' s = stock v s) /\
    match z !! uuid_String user with
    | None => o = Ok (Some "user not in waitlist")
    | Some sc =>
        o = Ok None /\ place (delete (uuid_String user) z) (uuid_String user) = None /\
        forall m sc', m <> uuid_String user -> z !! m = Some sc' ->
          place (delete (uuid_String user) z) m =
          (if zmember_before (uuid_String user, sc) (m, sc') then Z.pred <$> place z m else place z m)
    end).
Proof.
  intros Hz. unfold Leave. apply wp_bind. eapply wp_zrem; [exact Hz|no_drop|].
  apply wp_mono with (fun o v' => o = Ok (if decide (is_Some (z !! uuid_String user)) then None
      else Some "user not in waitlist") /\
    v' = set_data (put_zset (waitlistKey (uuid_String sale)) (delete (uuid_String user) z) (v_data v)) v).
  { cbn [then_wp]. case_decide; by apply wp_ret. }
  intros o v' [-> ->]. split; [apply zset_at_put|]. split; [done|]. split; [done|]. split.
  - intros s. unfold stock. cbn. rewrite !counter_at_put by auto with keys. done.
  - destruct (z !! uuid_String user) as [sc|] eqn:Hu.
    + rewrite decide_True by eauto. split; [done|]. split; [unfold place; by rewrite lookup_delete_eq|].
      intros m sc' Hne Hm. unfold place. rewrite lookup_delete_ne, Hm by done. cbn.
      rewrite (zrank_delete _ _ _ _ _ Hu). destruct (zmember_before _ _); f_equal; lia.
    + rewrite decide_False; [done|]. by intros [? ?].
Qed.

(** The promotion script serves the head of the queue: with a unit
    available and somebody waiting it moves one unit from available to
    reserved, removes the user in place 1 and moves everybody else one place
    up; with none of either it answers "-1" and changes nothing. *)
Theorem promotion_serves_the_head sale a b z v :
  stock v sale = Some (a, b) -> b < max_int64 -> queue v sale = Some z ->
  wp (Client.WaitlistPromote (uuid_String sale)) v (fun o v' =>
    (a <= 0 \/ z = ∅) /\ o = Ok (inr "-1") /\ v' = v \/
    0 < a /\ exists m, o = Ok (inr m) /\ place z m = Some 1 /\
      stock v' sale = Some (a - 1, b + 1) /\ queue v' sale = Some (delete m z) /\
      forall m', m' <> m -> place (delete m z) m' = Z.pred <$> place z m').
Proof.
  intros Hs Hmax Hz. eapply wp_client_promote; [exact Hs|done|exact Hz| |].
  - intros Hor. left. auto.
  - intros m Hpos Hm. right. split; [done|]. exists m. split; [done|].
    split; [by apply first_waiting_place|].
    split; [rewrite (stock_after_promotion sale a b) by done; by rewrite decide_True|].
    split; [|intros m' Hne; by apply first_waiting_next].
    unfold queue, after_promotion. cbn. rewrite !zset_at_insert by auto with keys. apply zset_at_put.
Qed.
End Proofs.
