(* ===== verification/InventorySpec.v ===== *)
(** * What the inventory service promises

    A created sale starts a ledger with all its units available; reading a sale
    gives the counters; the status goes to the table and to Redis. *)
From S2P Require Import Prelude GoStd Models Schema Services Scripts World Keys Logic.
From S2P Require Import RedisClient Inventory Ledger.
Local Open Scope string_scope.
Local Open Scope Z_scope.
Import InventoryService.

(** ** Lemmas *)

Lemma count_zero {A} (f : A -> bool) m : (forall k x, m !! k = Some x -> f x = false) -> count f m = 0.
Proof.
  intros H. unfold count. assert (filter (fun p => f (snd p) = true) m = ∅) as ->; [|done].
  apply map_eq. intros k. rewrite lookup_empty. apply map_lookup_filter_None. right.
  intros x Hx. cbn. by rewrite (H k x Hx).
Qed.

(** A sale that is not in the table has neither reservations nor orders. *)
Lemma unknown_sale_empty d s :
  schema_ok d -> t_sales d !! s = None -> held s d = 0 /\ sold s d = 0.
Proof.
  intros Hok Hs. split; apply count_zero; intros k x Hx.
  - unfold holds_unit. destruct (so_reservation_sale d Hok k x Hx) as [y Hy].
    rewrite bool_decide_false; [done|]. intros E. congruence.
  - unfold counted_order. destruct (so_order_sale d Hok k x Hx) as [y Hy].
    rewrite bool_decide_false; [done|]. intros E. congruence.
Qed.

Section Pipeline.
Context {R D : Type} `{RL : RedisLaws R} `{LN : LuaNum} `{PL : PostgresLaws D} `{O : Oracle}
  `{NL : !NoLostReplies}.
#[local] Abbreviation wp := (wp (R := R) (D := D)).

(** What a pipeline of writes does to the keyspace, when every key has the
    right type. *)
Fixpoint pipe_data (cmds : list pipe_cmd) (d : gmap string rval) : option (gmap string rval) :=
  match cmds with
  | [] => Some d
  | PSet k x _ :: cs => pipe_data cs (<[k := RStr x]> d)
  | PHSet k fs :: cs =>
      match hash_at d k with
      | Some h => pipe_data cs (<[k := RHash (fold_left (fun h p => <[fst p := snd p]> h) fs h)]> d)
      | None => None
      end
  end.

Lemma pipe_exec_data cmds : forall (r : R) d,
  pipe_data cmds (dataset r) = Some d -> answers (pipe_exec cmds r) tt d (published r).
Proof.
  induction cmds as [|[k x px|k fs] cs IH]; intros r d; cbn [pipe_data pipe_exec pipe_run].
  - by intros [= <-].
  - intros Hd. destruct (SET_spec r k x px) as (H1 & H2 & H3).
    destruct (SET k x px r) as [a r1]. cbn in *. subst a. rewrite <- H2 in Hd.
    destruct (IH r1 d Hd) as (H4 & H5 & H6). destruct (pipe_exec cs r1) as [b r2].
    cbn in *. subst b. unfold answers. cbn. by rewrite H5, H6, H3.
  - destruct (hash_at (dataset r) k) as [h|] eqn:Hh; [|done]. intros Hd.
    destruct (HSET_spec r k h fs Hh) as (H1 & H2 & H3).
    destruct (HSET k fs r) as [a r1]. cbn in *. subst a. rewrite <- H2 in Hd.
    destruct (IH r1 d Hd) as (H4 & H5 & H6). destruct (pipe_exec cs r1) as [b r2].
    cbn in *. subst b. unfold answers. cbn. by rewrite H5, H6, H3.
Qed.

Lemma wp_pipeline cmds d v Phi :
  pipe_data cmds (v_data v) = Some d ->
  (drops -> forall e, Phi (Ok (inl e)) v) ->
  Phi (Ok (inr tt)) (set_data d v) ->
  wp (invoke (CPipeline cmds)) v Phi.
Proof.
  intros Hd Hf Hok. apply (wp_redis _ (pipe_exec cmds)); [done|done|].
  intros r Hr Hp. rewrite <- Hr in Hd. destruct (pipe_exec_data cmds r d Hd) as (H1 & H2 & H3).
  destruct (pipe_exec cmds r) as [x r']. cbn in *. subst x. by rewrite H2, H3, Hp.
Qed.
End Pipeline.

(** ** The service *)

Section Spec.
Context `{UL : UuidLib}.

(** The hash that the API and the workers see of a sale. *)
Definition meta_fields (s : Sale) : list (string * string) :=
  [("total", Itoa (TotalStock s)); ("start_time", Itoa (Unix (StartTime s)));
   ("end_time", Itoa (Unix (EndTime s))); ("status", SaleStatusField s)].

Definition meta_ok (v : view) (sale : uuid) : Prop :=
  is_Some (hash_at (v_data v) (metaKey (uuid_String sale))).

Definition sale_created (sale0 sale : Sale) (v v' : view) : Prop :=
  let id := SaleRowID sale in
  Name sale = Name sale0 /\ TotalStock sale = TotalStock sale0 /\
  StartTime sale = StartTime sale0 /\ EndTime sale = EndTime sale0 /\
  SaleStatusField sale = SaleStatusPending /\
  t_sales (v_db v) !! id = None /\ v_db v' = stmt_effect (InsertSale sale) (v_db v) /\
  implements id (mkLedger (TotalStock sale0) 0 0) v' /\
  (forall s, s <> id -> stock v' s = stock v s) /\
  exists h, hash_at (v_data v') (metaKey (uuid_String id)) = Some h /\
    forall f x, (f, x) ∈ meta_fields sale -> h !! f = Some x.
End Spec.

Section Proofs.
Context {R D : Type} `{RL : RedisLaws R} `{LL : LuaNumLaws} `{PL : PostgresLaws D} `{O : Oracle}
  `{UU : UuidLaws} `{NF : !NoFaults}.
#[local] Abbreviation wp := (wp (R := R) (D := D)).

Lemma meta_fields_stored sale (h : gmap string string) f x :
  (f, x) ∈ meta_fields sale ->
  fold_left (fun h p => <[fst p := snd p]> h) (meta_fields sale) h !! f = Some x.
Proof.
  unfold meta_fields. rewrite !elem_of_cons, elem_of_nil. cbn [fold_left fst snd].
  intros [[= -> ->]|[[= -> ->]|[[= -> ->]|[[= -> ->]|[]]]]];
    repeat (rewrite lookup_insert_ne by done); apply lookup_insert_eq.
Qed.

Lemma wp_create_sale sale0 v (Phi : outcome (Sale * option error) -> view -> Prop) :
  schema_ok (v_db v) -> (forall n, meta_ok v (uuid_at n)) ->
  (forall sale v', sale_created sale0 sale v v' -> Phi (Ok (sale, None)) v') ->
  (forall sale e, stmt_ok (InsertSale sale) (v_db v) = false ->
     Phi (Ok (sale, Some (Errorf_w "failed to create sale" e))) v) ->
  wp (CreateSale sale0) v Phi.
Proof.
  intros Hok Hmeta Hyes Hno. unfold CreateSale. apply wp_bind, wp_new_uuid. intros n. cbn [then_wp].
  destruct (Hmeta n) as [h Hh]. set (id := uuid_at n) in *. clearbody id.
  apply wp_bind, wp_now. intros t. cbn [then_wp]. set (sale := mkSale id _ _ _ _ _ _).
  apply wp_bind, wp_exec.
  { intros [Hd|Hbad] e; [exfalso; exact (no_drops Hd)|]. apply wp_ret. by apply Hno. }
  intros Hins. cbn [then_wp]. apply wp_bind.
  set (d1 := <[reservedKey (uuid_String id) := RStr (Itoa 0)]>
    (<[availableKey (uuid_String id) := RStr (Itoa (TotalStock sale))]> (v_data v))).
  assert (hash_at d1 (metaKey (uuid_String id)) = Some h) as Hh1.
  { unfold d1, hash_at. rewrite !lookup_insert_ne by auto with keys. exact Hh. }
  eapply wp_pipeline; [cbn [pipe_data v_data set_db]; fold d1; by rewrite Hh1|no_drop|].
  cbn [then_wp]. apply wp_ret. apply Hyes.
  cbn [stmt_ok] in Hins. rewrite !andb_true_iff, bool_decide_eq_true in Hins.
  destruct Hins as [[[Hfresh _] Hint] _]. unfold int4b in Hint. bool_to_prop.
  destruct (unknown_sale_empty _ id Hok Hfresh) as [Hheld Hsold].
  repeat (split; [done|]). split.
  - split; [|by split]. apply stock_counters. cbn [v_data set_data]. unfold d1. split.
    + skip_key. skip_key. apply counter_at_insert. unfold int64, min_int64, max_int64. cbn [l_available]. change (TotalStock sale) with (TotalStock sale0) in *. lia.
    + skip_key. apply counter_at_insert. done.
  - split.
    + intros s Hne. unfold stock. cbn [v_data set_data]. unfold d1. repeat skip_key. done.
    + eexists. split; [unfold hash_at; cbn [v_data set_data]; by rewrite lookup_insert_eq|].
      apply meta_fields_stored.
Qed.

(** C25. CreateSale starts the ledger of a fresh sale: the row is stored as
    pending, every unit is available, none held or sold, the Redis hash holds
    the sale's fields, and the other sales' counters are as before; a sale the
    schema refuses (a name over 255 bytes, a stock beyond INTEGER) is an error
    without effect. *)
Theorem create_sale_starts_ledger sale0 v :
  schema_ok (v_db v) -> (forall n, meta_ok v (uuid_at n)) ->
  wp (CreateSale sale0) v (fun o v' => exists sale,
    (o = Ok (sale, None) /\ sale_created sale0 sale v v') \/
    (exists e, o = Ok (sale, Some (Errorf_w "failed to create sale" e)) /\ v' = v /\
       stmt_ok (InsertSale sale) (v_db v) = false)).
Proof. intros Hok Hmeta. apply wp_create_sale; eauto 8. Qed.

Lemma wp_get_sale id sale a b v (Phi : outcome (error + Sale * SaleStats) -> view -> Prop) :
  t_sales (v_db v) !! id = Some sale -> stock v id = Some (a, b) ->
  Phi (Ok (inr (sale, mkSaleStats a b (TotalStock sale)))) v ->
  wp (GetSale id) v Phi.
Proof.
  intros Hsale [Ha Hb]%stock_counters HPhi. unfold GetSale.
  apply wp_bind, wp_row; [no_drop|]. intros now. cbn [row_answer]. rewrite Hsale. cbn [then_wp].
  apply wp_bind. eapply wp_get_int; [exact Ha|no_drop|]. cbn [then_wp].
  apply wp_bind. eapply wp_get_int; [exact Hb|no_drop|]. cbn [then_wp]. by apply wp_ret.
Qed.

(** A sale that was just created reads back: the row itself, all units
    available, none reserved. *)
Theorem create_then_get sale0 v :
  schema_ok (v_db v) -> (forall n, meta_ok v (uuid_at n)) ->
  wp (pbind (CreateSale sale0) (fun r =>
      match r with
      | (_, Some e) => Ret (inl e)
      | (sale, None) => pbind (GetSale (SaleRowID sale)) (fun g => Ret (inr (sale, g)))
      end)) v (fun o _ =>
    match o with
    | Ok (inr (sale, g)) =>
        g = inr (sale, mkSaleStats (TotalStock sale0) 0 (TotalStock sale0)) /\ Name sale = Name sale0
    | Ok (inl e) => exists e', e = Errorf_w "failed to create sale" e'
    | Panicked _ => False
    end).
Proof.
  intros Hok Hmeta. apply wp_bind, wp_create_sale; [done|done| |].
  - intros sale v' (Hn & Ht & _ & _ & _ & _ & Hdb & (Hs & _) & _). cbn [then_wp]. apply wp_bind.
    eapply wp_get_sale; [rewrite Hdb; apply lookup_insert_eq|exact Hs|]. cbn [then_wp].
    apply wp_ret. by rewrite Ht.
  - intros sale e _. apply wp_ret. eauto.
Qed.

(** UpdateSaleStatus stores any status of up to 50 bytes in the row, when
    there is one, and in the Redis hash, whether there is a row or not; the
    counters keep their values. A longer status is refused. *)
Theorem update_sale_status_writes_both id status v :
  meta_ok v id ->
  wp (UpdateSaleStatus id status) v (fun o v' =>
    (forall s, stock v' s = stock v s) /\
    if varchar 50 status then
      o = Ok None /\ v_db v' = stmt_effect (UpdateSaleStatusStmt status id) (v_db v) /\
      exists h, hash_at (v_data v') (metaKey (uuid_String id)) = Some h /\ h !! "status" = Some status
    else (exists e, o = Ok (Some (Errorf_w "failed to update sale status" e))) /\ v' = v).
Proof.
  intros [h Hh]. unfold UpdateSaleStatus. apply wp_bind, wp_exec.
  - intros [Hd|Hbad] e; [exfalso; exact (no_drops Hd)|]. apply wp_ret. split; [done|].
    cbn [stmt_ok] in Hbad. rewrite Hbad. eauto.
  - intros Hok. cbn [stmt_ok] in Hok. rewrite Hok. cbn [then_wp]. apply wp_bind.
    eapply wp_hset; [exact Hh|no_drop|]. cbn [then_wp]. apply wp_ret. split.
    + intros s. unfold stock. cbn [v_data set_data set_db]. repeat skip_key. done.
    + split; [done|]. split; [done|]. eexists. unfold hash_at. cbn [v_data set_data].
      rewrite lookup_insert_eq. split; [done|]. cbn. apply lookup_insert_eq.
Qed.
End Proofs.
