(* ===== verification/ReconcileSpec.v ===== *)
(** * What reconciliation promises

    The startup recovery and the periodic worker recompute the counters of a
    sale from the tables. *)
From S2P Require Import Prelude GoStd Models Schema Services Scripts World Keys Logic.
From S2P Require Import RedisClient Expiry Reconcile Ledger.
Local Open Scope string_scope.
Local Open Scope Z_scope.

(** ** Specification *)

(** What [rdb.Get(ctx, key).Int()] makes of a key when its error is dropped. *)
Definition reading (d : gmap string rval) (k : string) : option Z :=
  match d !! k with
  | None => Some 0
  | Some (RStr s) => Some (fst (Atoi s))
  | _ => None
  end.

Definition live (sale : uuid) (now : Z) (d : db) : Z :=
  count (live_reservation sale now) (t_reservations d).

(** No row in state reserved is past its expiry, at any reading of the clock. *)
Definition none_overdue `{O : Oracle} (d : db) : Prop :=
  forall k w n, t_reservations d !! k = Some w ->
    Status (row_res w) = ReservationStatusReserved -> time_at n < ExpiresAt (row_res w).

(** The tables are far from the bounds of int64. *)
Definition small_tables (d : db) : Prop :=
  Z.of_nat (size (t_reservations d)) + Z.of_nat (size (t_orders d)) < 4611686018427387904.

Section Spec.
Context `{UL : UuidLib}.

(** The counters as the code reads them: a missing key counts as 0. *)
Definition readings (v : view) (sale : uuid) : option (Z * Z) :=
  match reading (v_data v) (availableKey (uuid_String sale)),
        reading (v_data v) (reservedKey (uuid_String sale)) with
  | Some a, Some b => Some (a, b)
  | _, _ => None
  end.

(** Reconciling one sale: the counters become [expected] and [held], with one
    audit row, unless they read so already. *)
Definition reconciled (sale : uuid) (expected live : Z) (corrected : bool) (v v' : view) : Prop :=
  corrected = negb (bool_decide (readings v sale = Some (expected, live))) /\
  if corrected
  then exists a, v' = set_db (stmt_effect (InsertAudit a) (v_db v)) (set_stock sale expected live v) /\
    EntityID a = sale
  else v' = v.

(** The counter keys of the sale hold what they held. *)
Definition same_counters (sale : uuid) (v v' : view) : Prop :=
  v_data v' !! availableKey (uuid_String sale) = v_data v !! availableKey (uuid_String sale) /\
  v_data v' !! reservedKey (uuid_String sale) = v_data v !! reservedKey (uuid_String sale).

(** A sale after a pass: at some instant of the pass the units that its counters
    account for, those of the live reservations and those of the orders made up
    the total. Counters that were there are there, with these values. *)
Definition healed `{O : Oracle} (sale : uuid) (total : Z) (v v' : view) : Prop :=
  exists n, let lv := live sale (time_at n) (v_db v) in
    readings v' sale = Some (total - lv - sold sale (v_db v), lv) /\
    (is_Some (stock v sale) -> stock v' sale = readings v' sale).
End Spec.

(** ** Lemmas *)

Lemma count_le_size {A} (f : A -> bool) m : 0 <= count f m <= Z.of_nat (size m).
Proof.
  unfold count. pose proof (map_size_filter (fun p : uuid * A => f (snd p) = true) m). lia.
Qed.

Lemma count_ext {A} (f g : A -> bool) m :
  (forall k x, m !! k = Some x -> f x = g x) -> count f m = count g m.
Proof.
  intros H. unfold count. do 2 f_equal. apply map_filter_ext. intros k x Hk. cbn. by rewrite (H k x Hk).
Qed.

(** Without overdue rows the live reservations are the held units. *)
Lemma live_held `{Oracle} sale n d : none_overdue d -> live sale (time_at n) d = held sale d.
Proof.
  intros Hno. apply count_ext. intros k w Hw. unfold live_reservation, holds_unit.
  destruct (decide (Status (row_res w) = ReservationStatusReserved)) as [Hs|Hs].
  - specialize (Hno k w n Hw Hs). rewrite (proj2 (Z.ltb_lt _ _)) by done. by rewrite andb_true_r.
  - by rewrite (bool_decide_false (Status _ = _)), andb_false_r.
Qed.

Lemma reading_counter d k n : counter_at d k = Some n -> reading d k = Some n.
Proof. intros [Hk Hn]%counter_at_str. unfold reading. by rewrite Hk, Atoi_Itoa_eq. Qed.

Lemma readings_stock `{UuidLib} v s a b : stock v s = Some (a, b) -> readings v s = Some (a, b).
Proof.
  intros [Ha Hb]%stock_counters. unfold readings.
  by rewrite (reading_counter _ _ _ Ha), (reading_counter _ _ _ Hb).
Qed.

Lemma readings_inv `{UuidLib} v s a b :
  readings v s = Some (a, b) ->
  reading (v_data v) (availableKey (uuid_String s)) = Some a /\
  reading (v_data v) (reservedKey (uuid_String s)) = Some b.
Proof.
  unfold readings. destruct (reading _ _), (reading _ _); try done. by intros [= <- <-].
Qed.

Lemma same_counters_trans `{UuidLib} s v1 v2 v3 :
  same_counters s v1 v2 -> same_counters s v2 v3 -> same_counters s v1 v3.
Proof. unfold same_counters. intros [-> ->] [-> ->]. done. Qed.

Lemma same_counters_stock `{UuidLib} s v v' : same_counters s v v' -> stock v' s = stock v s.
Proof. intros [Ha Hb]. unfold stock, counter_at. by rewrite Ha, Hb. Qed.

Lemma same_counters_readings `{UuidLib} s v v' : same_counters s v v' -> readings v' s = readings v s.
Proof. intros [Ha Hb]. unfold readings, reading. by rewrite Ha, Hb. Qed.

Lemma same_counters_set_stock `{UuidLaws} s s' a b v :
  s <> s' -> same_counters s' v (set_stock s a b v).
Proof. intros Hne. split; cbn; rewrite !lookup_insert_ne by auto with keys; done. Qed.

(** Without overdue rows, a healed sale whose counters were there is consistent. *)
Lemma healed_consistent `{UuidLib, Oracle} id total v v' :
  healed id total v v' -> t_reservations (v_db v') = t_reservations (v_db v) ->
  t_orders (v_db v') = t_orders (v_db v) -> none_overdue (v_db v) -> is_Some (stock v id) ->
  consistent id total v'.
Proof.
  intros (n & Hr & Hs) E1 E2 Hno Hc. unfold consistent, held, sold. rewrite E1, E2, (Hs Hc), Hr.
  by rewrite live_held.
Qed.

Section Proofs.
Context {R D : Type} `{RL : RedisLaws R} `{LL : LuaNumLaws} `{PL : PostgresLaws D} `{O : Oracle}
  `{UU : UuidLaws} `{NF : !NoFaults}.
#[local] Abbreviation wp := (wp (R := R) (D := D)).

Lemma wp_reading k n v Phi :
  reading (v_data v) k = Some n -> Phi (Ok n) v -> wp (Client.get_int_ignoring_error k) v Phi.
Proof.
  unfold reading, Client.get_int_ignoring_error. intros Hr HPhi. apply wp_bind.
  destruct (v_data v !! k) as [[s| |]|] eqn:E; try done; injection Hr as <-.
  - eapply wp_get_str; [exact E|no_drop|]. by apply wp_ret.
  - apply wp_get_none; [done|]. intros e. by apply wp_ret.
Qed.

Lemma drift_decide (a b e l : Z) :
  negb (a =? e) || negb (b =? l) = negb (bool_decide (Some (a, b) = Some (e, l))).
Proof.
  destruct (Z.eqb_spec a e), (Z.eqb_spec b l); case_bool_decide; cbn; congruence.
Qed.

(** The worker, on one sale. *)
Lemma wp_reconcile_single id total a b v (Phi : outcome (error + bool) -> view -> Prop) :
  readings v id = Some (a, b) ->
  (forall n c v', reconciled id (total - live id (time_at n) (v_db v) - sold id (v_db v))
      (live id (time_at n) (v_db v)) c v v' -> Phi (Ok (inr c)) v') ->
  wp (Worker.reconcileSingleSale id total) v Phi.
Proof.
  intros Hr HPhi. pose proof (readings_inv _ _ _ _ Hr) as [Ha Hb].
  unfold Worker.reconcileSingleSale. apply wp_bind, wp_row_at; [no_drop|]. intros n.
  cbn [row_answer then_wp]. fold (live id (time_at n) (v_db v)). set (lv := live _ _ _) in *.
  apply wp_bind, wp_row_at; [no_drop|]. intros n'. cbn [row_answer then_wp].
  fold (sold id (v_db v)). set (e := total - lv - sold id (v_db v)).
  apply wp_bind. eapply wp_reading; [exact Ha|]. cbn [then_wp].
  apply wp_bind. eapply wp_reading; [exact Hb|]. cbn [then_wp]. rewrite drift_decide.
  destruct (bool_decide (Some (a, b) = Some (e, lv))) eqn:Hd; cbn [negb].
  - apply wp_ret. apply (HPhi n). split; [rewrite Hr; fold lv; fold e; by rewrite Hd|done].
  - apply wp_bind, wp_set; [no_drop|]. cbn [then_wp]. apply wp_bind, wp_set; [no_drop|].
    cbn [then_wp]. apply wp_bind, wp_audit; [done|done|no_drop|]. cbn [then_wp]. apply wp_ret.
    apply (HPhi n). split; [rewrite Hr; fold lv; fold e; by rewrite Hd|]. eexists. by split.
Qed.

(** Startup, on one sale and with the audit entry its loop writes. *)
Definition startup_sale (id : uuid) (total : Z) : prog (error + bool) :=
  pbind (Recovery.reconcileSale id total) (fun r =>
  match r with
  | inl e => Ret (inl e)
  | inr result =>
      if Recovery.Corrected result then
        pbind (Audit.Log "sale" id "startup_reconciliation" (Audit.GoBytes (Recovery.marshal_result result)))
          (fun _ => Ret (inr true))
      else Ret (inr false)
  end).

Lemma wp_startup_sale id total a b v (Phi : outcome (error + bool) -> view -> Prop) :
  readings v id = Some (a, b) ->
  (forall n c v', reconciled id (total - live id (time_at n) (v_db v) - sold id (v_db v))
      (live id (time_at n) (v_db v)) c v v' -> Phi (Ok (inr c)) v') ->
  wp (startup_sale id total) v Phi.
Proof.
  intros Hr HPhi. pose proof (readings_inv _ _ _ _ Hr) as [Ha Hb].
  unfold startup_sale, Recovery.reconcileSale.
  apply wp_bind, wp_bind, wp_row_at; [no_drop|]. intros n.
  cbn [row_answer then_wp]. fold (live id (time_at n) (v_db v)). set (lv := live _ _ _) in *.
  apply wp_bind, wp_row_at; [no_drop|]. intros n'. cbn [row_answer then_wp].
  fold (sold id (v_db v)). set (e := total - lv - sold id (v_db v)).
  apply wp_bind. eapply wp_reading; [exact Ha|]. cbn [then_wp].
  apply wp_bind. eapply wp_reading; [exact Hb|]. cbn [then_wp]. rewrite drift_decide.
  destruct (bool_decide (Some (a, b) = Some (e, lv))) eqn:Hd; cbn [negb].
  - apply wp_ret, wp_ret. apply (HPhi n). split; [rewrite Hr; fold lv; fold e; by rewrite Hd|done].
  - apply wp_bind, wp_set; [no_drop|]. cbn [then_wp]. apply wp_bind, wp_set; [no_drop|].
    apply wp_ret. cbn [then_wp Recovery.Corrected]. apply wp_bind, wp_audit; [done|done|no_drop|].
    apply wp_ret. apply (HPhi n). split; [rewrite Hr; fold lv; fold e; by rewrite Hd|]. eexists. by split.
Qed.

(** ** One sale *)

Lemma expected_int64 sale total n d :
  int4 total -> small_tables d ->
  int64 (total - live sale n d - sold sale d) /\ int64 (live sale n d).
Proof.
  intros Ht Hs. unfold small_tables, int4, int64, min_int64, max_int64 in *.
  pose proof (count_le_size (live_reservation sale n) (t_reservations d)).
  pose proof (count_le_size (counted_order sale) (t_orders d)). unfold live, sold. lia.
Qed.

(** Reconciling leaves the tables the counters are computed from, and the
    counters of the other sales. *)
Definition only_counters (sale : uuid) (v v' : view) : Prop :=
  t_sales (v_db v') = t_sales (v_db v) /\ t_reservations (v_db v') = t_reservations (v_db v) /\
  t_orders (v_db v') = t_orders (v_db v) /\ forall s, s <> sale -> same_counters s v v'.

Lemma reconciled_only_counters id e lv c v v' : reconciled id e lv c v v' -> only_counters id v v'.
Proof.
  intros [_ Hc]. destruct c; [|by subst]. destruct Hc as (a & -> & _). do 3 (split; [done|]).
  intros s Hne. apply (same_counters_set_stock id s e lv v). congruence.
Qed.

Lemma reconciled_healed id total n c v v' :
  int4 total -> small_tables (v_db v) ->
  reconciled id (total - live id (time_at n) (v_db v) - sold id (v_db v))
    (live id (time_at n) (v_db v)) c v v' ->
  healed id total v v'.
Proof.
  intros Ht Hsmall [Hc Hv]. pose proof (expected_int64 id total (time_at n) _ Ht Hsmall) as [He Hl].
  set (lv := live id (time_at n) (v_db v)) in *. exists n. fold lv. cbn zeta. destruct c.
  - destruct Hv as (x & -> & _).
    assert (stock (set_db (stmt_effect (InsertAudit x) (v_db v))
      (set_stock id (total - lv - sold id (v_db v)) lv v)) id
      = Some (total - lv - sold id (v_db v), lv)) as Hs.
    { rewrite (stock_same_data _ (set_stock id (total - lv - sold id (v_db v)) lv v)) by done.
      by apply stock_set_stock. }
    pose proof (readings_stock _ _ _ _ Hs) as Hr. split; [exact Hr|]. intros _. by rewrite Hr, Hs.
  - subst v'. symmetry in Hc. apply negb_false_iff, bool_decide_eq_true in Hc. split; [exact Hc|].
    intros [[a b] Hs]. by rewrite Hs, (readings_stock _ _ _ _ Hs).
Qed.

(** ** The loop over the sales, for the worker and the startup alike *)

Fixpoint reconcile_loop (one : uuid -> Z -> prog (error + bool)) (rows : list (uuid * Z)) (n : Z)
  : prog Z :=
  match rows with
  | [] => Ret n
  | (id, total) :: rest =>
      pbind (one id total) (fun r =>
        reconcile_loop one rest (match r with inr true => n + 1 | _ => n end))
  end.

Lemma worker_loop rows : forall n (w : world R D),
  run (Worker.worker_rows (inr <$> rows) n) w = run (reconcile_loop Worker.reconcileSingleSale rows n) w.
Proof.
  induction rows as [|[id total] rest IH]; intros n w; [done|].
  cbn [Worker.worker_rows reconcile_loop fmap list_fmap]. rewrite !run_pbind.
  destruct (run (Worker.reconcileSingleSale id total) w) as [[[e|[]]|m] w1]; [apply IH..|done].
Qed.

Lemma startup_loop rows : forall n (w : world R D),
  run (Recovery.startup_rows (inr <$> rows) n) w
  = run (pbind (reconcile_loop startup_sale rows n) (fun m => Ret (inr m))) w.
Proof.
  induction rows as [|[id total] rest IH]; intros n w; [done|].
  cbn [Recovery.startup_rows reconcile_loop fmap list_fmap]. unfold startup_sale. rewrite !run_pbind.
  destruct (run (Recovery.reconcileSale id total) w) as [[[e|res]|m] w1];
    [by rewrite IH, run_pbind| |done].
  destruct (Recovery.Corrected res); [|by rewrite IH, run_pbind]. rewrite !run_pbind.
  destruct (run (Audit.Log _ _ _ _) w1) as [[o|m] w2]; [by rewrite IH, run_pbind|done].
Qed.

Definition reconciles (one : uuid -> Z -> prog (error + bool)) : Prop :=
  forall id total a b v (Phi : outcome (error + bool) -> view -> Prop),
    readings v id = Some (a, b) ->
    (forall n c v', reconciled id (total - live id (time_at n) (v_db v) - sold id (v_db v))
        (live id (time_at n) (v_db v)) c v v' -> Phi (Ok (inr c)) v') ->
    wp (one id total) v Phi.

(** Sales whose counters can be read. *)
Definition counted (rows : list (uuid * Z)) (v : view) : Prop :=
  forall id total, (id, total) ∈ rows -> int4 total /\ is_Some (readings v id).

Definition restored (rows : list (uuid * Z)) (v v' : view) : Prop :=
  t_sales (v_db v') = t_sales (v_db v) /\ t_reservations (v_db v') = t_reservations (v_db v) /\
  t_orders (v_db v') = t_orders (v_db v) /\
  (forall id total, (id, total) ∈ rows -> healed id total v v') /\
  (forall s, s ∉ rows.*1 -> same_counters s v v').

Lemma healed_after id total v v1 v2 :
  healed id total v v1 -> same_counters id v1 v2 -> healed id total v v2.
Proof.
  intros (n & Hr & Hs) Hsame. exists n. cbn zeta in *.
  rewrite (same_counters_readings _ _ _ Hsame), (same_counters_stock _ _ _ Hsame). done.
Qed.

Lemma healed_before id total v v1 v2 :
  t_reservations (v_db v1) = t_reservations (v_db v) -> t_orders (v_db v1) = t_orders (v_db v) ->
  same_counters id v v1 -> healed id total v1 v2 -> healed id total v v2.
Proof.
  intros E1 E2 Hsame (n & Hr & Hs). exists n. cbn zeta in *. unfold live, sold in *.
  rewrite <- E1, <- E2, <- (same_counters_stock _ _ _ Hsame). done.
Qed.

Lemma wp_reconcile_loop one (Hone : reconciles one) rows : forall n v,
  NoDup rows.*1 -> counted rows v -> small_tables (v_db v) ->
  wp (reconcile_loop one rows n) v (fun o v' => exists m, o = Ok m /\ restored rows v v').
Proof.
  induction rows as [|[id total] rest IH]; intros n v Hnd Hc Hsmall; cbn [reconcile_loop].
  - apply wp_ret. exists n. split; [done|]. repeat split; try done. by intros id total ?%elem_of_nil.
  - apply NoDup_cons in Hnd as [Hnew Hnd]. cbn [fst] in Hnew.
    destruct (Hc id total) as (Ht & [a b] & Hr); [apply elem_of_cons; by left|].
    apply wp_bind. eapply Hone; [exact Hr|]. intros k c v1 Hrec. cbn [then_wp].
    pose proof (reconciled_healed id total k c v v1 Ht Hsmall Hrec) as Hid.
    apply reconciled_only_counters in Hrec as (E1 & E2 & E3 & E4).
    assert (forall id' total', (id', total') ∈ rest -> id' <> id) as Hother.
    { intros id' total' Hin ->. apply Hnew, list_elem_of_fmap. by exists (id, total'). }
    eapply wp_mono; [apply IH; [done| |]|].
    + intros id' total' Hin. destruct (Hc id' total') as [Ht' Hr'];
        [apply elem_of_cons; by right|]. split; [done|].
      by rewrite (same_counters_readings _ _ _ (E4 id' (Hother _ _ Hin))).
    + unfold small_tables in *. by rewrite E2, E3.
    + intros o v2 (m & -> & F1 & F2 & F3 & F4 & F5). exists m. split; [done|].
      split; [congruence|]. split; [congruence|]. split; [congruence|]. split.
      * intros id' total' [[= -> ->]|Hin]%elem_of_cons.
        -- eapply healed_after; [exact Hid|by apply F5].
        -- eapply healed_before; [done|done|apply E4; by eapply Hother|by apply F4].
      * intros s. cbn [fmap list_fmap fst]. intros [Hs1 Hs2]%not_elem_of_cons.
        eapply same_counters_trans; [by apply E4|by apply F5].
Qed.

(** The rows the query returns: each active sale once. *)
Lemma active_rows d now rows :
  rows ≡ₚ rows_answer SelectActiveSales now d ->
  NoDup rows.*1 /\
  forall id total, (id, total) ∈ rows <->
    exists s, t_sales d !! id = Some s /\ SaleStatusField s = SaleStatusActive /\ TotalStock s = total.
Proof.
  intros Hp. split.
  - rewrite Hp. cbn. rewrite <- list_fmap_compose.
    apply (NoDup_fst_filter (fun p : uuid * Sale => SaleStatusField (snd p) = SaleStatusActive)).
    apply NoDup_fst_map_to_list.
  - intros id total. rewrite Hp. cbn. rewrite list_elem_of_fmap. split.
    + intros ([k s] & [= -> ->] & [Ha Hin]%list_elem_of_filter). exists s.
      apply elem_of_map_to_list in Hin. auto.
    + intros (s & Hs & Ha & <-). exists (id, s). split; [done|]. apply list_elem_of_filter.
      split; [done|]. by apply elem_of_map_to_list.
Qed.

(** The active sales whose counters a reconciliation can restore. *)
Definition active_counted (v : view) : Prop :=
  forall id s, t_sales (v_db v) !! id = Some s -> SaleStatusField s = SaleStatusActive ->
    int4 (TotalStock s) /\ is_Some (readings v id).

(** What a pass makes of the counters of all sales, and that it leaves the
    tables they are computed from. *)
Definition active_healed (v v' : view) : Prop :=
  (forall id s, t_sales (v_db v) !! id = Some s ->
    if bool_decide (SaleStatusField s = SaleStatusActive)
    then healed id (TotalStock s) v v' else same_counters id v v') /\
  t_sales (v_db v') = t_sales (v_db v) /\ t_reservations (v_db v') = t_reservations (v_db v) /\
  t_orders (v_db v') = t_orders (v_db v).

(** The active sales that had counters are consistent. *)
Definition active_consistent (v v' : view) : Prop :=
  forall id s, t_sales (v_db v) !! id = Some s -> SaleStatusField s = SaleStatusActive ->
    is_Some (stock v id) -> consistent id (TotalStock s) v'.

Lemma active_healed_consistent v v' :
  active_healed v v' -> none_overdue (v_db v) -> active_consistent v v'.
Proof.
  intros (H & _ & E1 & E2) Hno id s Hs Ha Hc. specialize (H id s Hs).
  rewrite bool_decide_true in H by done. by eapply healed_consistent.
Qed.

Lemma restored_active rows v v' now :
  rows ≡ₚ rows_answer SelectActiveSales now (v_db v) -> restored rows v v' -> active_healed v v'.
Proof.
  intros Hp (E1 & E2 & E3 & H1 & H2). split; [|done]. intros id s Hs.
  destruct (active_rows _ _ _ Hp) as [_ Hin]. case_bool_decide as Ha.
  - apply H1, Hin. eauto.
  - apply H2. intros ([k total] & -> & Hk)%list_elem_of_fmap. apply Hin in Hk as (s' & Hs' & Ha' & _).
    cbn in *. congruence.
Qed.

Lemma active_counted_rows rows v now :
  rows ≡ₚ rows_answer SelectActiveSales now (v_db v) -> active_counted v -> counted rows v.
Proof.
  intros Hp Hv id total Hin. apply (active_rows _ _ _ Hp) in Hin as (s & Hs & Ha & <-). eauto.
Qed.

Lemma wp_worker v :
  active_counted v -> small_tables (v_db v) ->
  wp Worker.reconcileAllSales v (fun o v' => o = Ok None /\ active_healed v v').
Proof.
  intros Hc Hsmall. unfold Worker.reconcileAllSales. apply wp_bind, wp_rows; [no_drop|].
  intros now rows Hrows. cbn [then_wp]. apply wp_bind.
  destruct (active_rows _ _ _ Hrows) as [Hnd _].
  eapply wp_run_eq; [intros w; apply worker_loop|].
  eapply wp_mono; [apply (wp_reconcile_loop _ wp_reconcile_single);
    [done|by eapply active_counted_rows|done]|].
  intros o v1 (m & -> & Hres). cbn [then_wp]. pose proof (restored_active _ _ _ _ Hrows Hres) as Hact.
  apply wp_bind. destruct (0 <? m).
  - apply wp_metric. cbn [then_wp]. apply wp_bind, wp_rows_err; [no_drop|]. by apply wp_ret.
  - apply wp_ret. cbn [then_wp]. apply wp_bind, wp_rows_err; [no_drop|]. by apply wp_ret.
Qed.

Lemma wp_startup v :
  active_counted v -> small_tables (v_db v) ->
  wp Recovery.ReconcileOnStartup v (fun o v' => o = Ok None /\ active_healed v v').
Proof.
  intros Hc Hsmall. unfold Recovery.ReconcileOnStartup. apply wp_bind, wp_rows; [no_drop|].
  intros now rows Hrows. cbn [then_wp]. apply wp_bind.
  destruct (active_rows _ _ _ Hrows) as [Hnd _].
  eapply wp_run_eq; [intros w; apply startup_loop|]. apply wp_bind.
  eapply wp_mono; [apply (wp_reconcile_loop _ wp_startup_sale);
    [done|by eapply active_counted_rows|done]|].
  intros o v1 (m & -> & Hres). cbn [then_wp]. pose proof (restored_active _ _ _ _ Hrows Hres) as Hact.
  apply wp_ret. cbn [then_wp]. apply wp_bind, wp_rows_err; [no_drop|]. cbn [then_wp].
  apply wp_bind, wp_metric, wp_ret. done.
Qed.

(** C10. One pass of the worker repairs every active sale: whatever integers its
    counters held, and where they are missing too, afterwards they read as the
    total stock less the live reservations and the orders, and as the live
    reservations. Without overdue rows every active sale that had its counters
    is consistent: available + held + sold = total stock. Inactive sales keep
    their counters; sales, reservations and orders are not touched. *)
Theorem worker_restores_ledgers v :
  active_counted v -> small_tables (v_db v) ->
  wp Worker.reconcileAllSales v (fun o v' =>
    o = Ok None /\ active_healed v v' /\ (none_overdue (v_db v) -> active_consistent v v')).
Proof.
  intros Hc Hsmall. eapply wp_mono; [by apply wp_worker|]. intros o v' [-> H].
  split; [done|]. split; [exact H|]. by apply active_healed_consistent.
Qed.

(** Startup recovery repairs every active sale in the same way, before the
    server accepts its first request. *)
Theorem startup_restores_ledgers v :
  active_counted v -> small_tables (v_db v) ->
  wp Recovery.ReconcileOnStartup v (fun o v' =>
    o = Ok None /\ active_healed v v' /\ (none_overdue (v_db v) -> active_consistent v v')).
Proof.
  intros Hc Hsmall. eapply wp_mono; [by apply wp_startup|]. intros o v' [-> H].
  split; [done|]. split; [exact H|]. by apply active_healed_consistent.
Qed.

(** Reconciling one sale is idempotent: a second run, with the clock on
    the same side of every expiry, finds nothing to correct and changes
    nothing. *)
Theorem reconcile_idempotent id total v :
  int4 total -> small_tables (v_db v) -> none_overdue (v_db v) -> is_Some (stock v id) ->
  wp (pbind (Worker.reconcileSingleSale id total) (fun r1 =>
      pbind (Worker.reconcileSingleSale id total) (fun r2 => Ret (r1, r2)))) v (fun o v' =>
    exists c, o = Ok (inr c, inr false) /\
      (c = false -> v' = v) /\ consistent id total v').
Proof.
  intros Ht Hsmall Hno [[a b] Hs]. apply wp_bind.
  eapply wp_reconcile_single; [by apply readings_stock|]. intros n c v1 Hrec. cbn [then_wp].
  pose proof (reconciled_healed id total n c v v1 Ht Hsmall Hrec) as Hid.
  pose proof (reconciled_only_counters _ _ _ _ _ _ Hrec) as (_ & E2 & E3 & _).
  assert (consistent id total v1) as Hcon by (eapply healed_consistent; eauto).
  apply wp_bind. eapply wp_reconcile_single; [apply readings_stock; exact Hcon|].
  intros n' c' v2 [Hc' Hv2]. cbn [then_wp]. apply wp_ret. exists c.
  rewrite live_held, (readings_stock _ _ _ _ Hcon), bool_decide_true in Hc'
    by (done || (unfold none_overdue; by rewrite E2)).
  cbn in Hc'. subst c'. subst v2. split; [done|]. split; [|done].
  intros ->. by destruct Hrec.
Qed.
End Proofs.

(** ** Startup and worker agree *)

Section Agree.
Context {R D : Type} `{RS : RedisServer R} `{LN : LuaNum} `{PG : Postgres D} `{O : Oracle} `{UL : UuidLib}.

(** One more call of both programs: its answer and the world after it. *)
Ltac step :=
  cbn [run pbind invoke];
  match goal with
  | |- context [let '(_, _) := exec ?c ?w in _] =>
      let x := fresh "x" in let w' := fresh "w" in
      destruct (exec c w) as [x w']; destruct x
  end; cbn [run pbind invoke fst snd]; try done.

(** C26. On one sale the startup code and the worker, two copies of one
    algorithm, do the same: from the same world, under the same clock and the
    same failures, they leave the same Redis state and both correct, both
    leave alone or both fail with the same error. *)
Theorem startup_and_worker_agree id total (w : world R D) :
  let r1 := run (Recovery.reconcileSale id total) w in
  let r2 := run (Worker.reconcileSingleSale id total) w in
  w_redis (snd r1) = w_redis (snd r2) /\
  match fst r1, fst r2 with
  | Ok (inl e1), Ok (inl e2) => e1 = e2
  | Ok (inr x), Ok (inr c) => Recovery.Corrected x = c
  | _, _ => False
  end.
Proof.
  unfold Recovery.reconcileSale, Worker.reconcileSingleSale, Client.get_int_ignoring_error.
  cbn [run pbind invoke].
  step. step.
  step; step; (destruct (negb _ || negb _); cbn [run]; [|done]); step; step;
    unfold Audit.Log, Audit.LogWithConn; cbn [run pbind invoke exec]; unfold on_pg;
    destruct (faulty _ _ _) as [[e|[]] d]; done.
Qed.
End Agree.
