(* ===== verification/Races.v ===== *)
(** * Schedules and failures that break the ledger

    Runs of the handlers on the reference services of RefServices.v: what the
    code does when the guards that the theorems of the other files assume are
    missing. *)
From S2P Require Import Prelude GoStd Models Services Scripts World Keys Logic RedisClient.
From S2P Require Import Reservation Inventory Expiry Reconcile Ledger Discipline Concurrency RefServices.
Local Open Scope string_scope.
Local Open Scope Z_scope.

Definition service : ReservationService.Service := ReservationService.mkService 600 true.

(** The sale of [sample_world], its counters, its orders. *)
Definition sale7_stock (w : world ref_state db) : option (Z * Z) := stock (view_of w) 7%N.
Definition sale7_sold (w : world ref_state db) : Z := sold 7%N (w_pg w).
Definition sale7_held (w : world ref_state db) : Z := held 7%N (w_pg w).

(** ** Two releases of one reservation *)

(** The schedule that lets both requests read the row before either updates it. *)
Definition both_read : list nat := [0; 1; 0; 1; 0; 1]%nat.

Definition finish (i n : nat) : list nat := repeat i n.

Definition double_release : pool (R := ref_state) (D := db) (option error) :=
  pool_run (both_read ++ finish 0 10 ++ finish 1 10)%list
    ([ReservationService.Release service 50%N; ReservationService.Release service 50%N], sample_world).

(** C22. The guard of Release is a read in its own statement, and the UPDATE does
    not repeat it: two requests that release the same reservation at the same
    time both succeed, and the sale of two units ends with three available and
    minus one reserved. *)
Theorem double_release_invents_a_unit :
  exists ps w', pool_steps
    ([ReservationService.Release service 50%N; ReservationService.Release service 50%N], sample_world)
    (ps, w') /\
  ps = [Ret None; Ret None] /\
  sale7_stock sample_world = Some (1, 1) /\ sale7_stock w' = Some (3, -1) /\ sale7_held w' = 0.
Proof.
  exists (fst double_release), (snd double_release). split.
  - unfold double_release. rewrite <- surjective_pairing. apply pool_run_steps.
  - repeat split; vm_compute; reflexivity.
Qed.

(** ** A reconciliation pass beside a Reserve *)

(** The worker makes its whole pass between the script of the first Reserve,
    its second call, and its INSERT; a second user reserves afterwards. *)
Definition pass_in_between : list nat := ([0; 0] ++ finish 1 12 ++ finish 0 20 ++ finish 2 20)%nat%list.

Definition beside_the_worker : list (prog unit) :=
  [ignore (ReservationService.Reserve service 2%N 7%N 3%N "");
   ignore Worker.reconcileAllSales;
   ignore (ReservationService.Reserve service 1%N 7%N 3%N "")].

Definition reconciled_too_early : pool (R := ref_state) (D := db) unit :=
  pool_run pass_in_between (beside_the_worker, sample_world).

(** C21. The worker takes a reservation whose unit has left Redis and whose row is
    not in the table yet for drift, and puts the unit back: with a pass between
    the two steps of one Reserve, a sale of two units ends with three held. No
    call fails and nothing was inconsistent before. *)
Theorem reconciliation_beside_reserve_oversells :
  exists ps w', pool_steps (beside_the_worker, sample_world) (ps, w') /\
  forallb finished ps = true /\
  sale7_stock sample_world = Some (1, 1) /\ sale7_held sample_world = 1 /\
  (TotalStock <$> t_sales (w_pg w') !! 7%N) = Some 2 /\
  sale7_stock w' = Some (0, 2) /\ sale7_held w' = 3.
Proof.
  exists (fst reconciled_too_early), (snd reconciled_too_early). split.
  - unfold reconciled_too_early. rewrite <- surjective_pairing. apply pool_run_steps.
  - repeat split; vm_compute; reflexivity.
Qed.

(** ** An INSERT whose answer is lost *)

(** The insertion is the sixth call of a Reserve without idempotency key. *)
Definition lost_insert : Oracle :=
  plan (fun n => if Nat.eqb n 5 then LostReply "unexpected EOF" else NoFault).

Definition reserve_lost : outcome (error + Reservation) * world ref_state db :=
  run (O := lost_insert) (ReservationService.Reserve service 2%N 7%N 3%N "") sample_world.

(** When the connection breaks after PostgreSQL has committed the INSERT of
    Reserve, the compensation gives the unit back although the row stands: the
    sale of two units has one available and two held. *)
Theorem lost_insert_reply_oversells :
  (exists e, fst reserve_lost = Ok (inl (Errorf_w "failed to create reservation" e))) /\
  sale7_stock (snd reserve_lost) = Some (1, 1) /\ sale7_held (snd reserve_lost) = 2.
Proof. split; [by eexists; vm_compute|]. split; vm_compute; reflexivity. Qed.

(** ** A reservation that is overdue but was never expired *)

(** The clock is past the expiry of reservation 50, whose notification was
    lost (a restart while its TTL key expired). *)
Definition late : Oracle := {|
  fault_at _ := NoFault;
  time_at n := 700000000000 + Z.of_nat n;
  uuid_at n := (1000 + N.of_nat n)%N
|}.

(** [let*]: go on with the value of a call that succeeded. *)
Definition or_stop {X A} (p : prog (error + X)) (k : X -> prog (error + A)) : prog (error + A) :=
  pbind p (fun r => match r with inl e => Ret (inl e) | inr x => k x end).

Definition overdue_session : prog (error + list Order) :=
  pbind Worker.reconcileAllSales (fun _ =>
  or_stop (ReservationService.Reserve service 2%N 7%N 3%N "k1") (fun r1 =>
  or_stop (ReservationService.Reserve service 2%N 7%N 3%N "k2") (fun r2 =>
  or_stop (ReservationService.Confirm 50%N "a") (fun o1 =>
  or_stop (ReservationService.Confirm (ID r1) "b") (fun o2 =>
  pbind Worker.reconcileAllSales (fun _ =>
  or_stop (ReservationService.Confirm (ID r2) "c") (fun o3 => Ret (inr [o1; o2; o3])))))))).

Definition overdue_result : outcome (error + list Order) * world ref_state db :=
  run (O := late) overdue_session sample_world.

(** C20. Reconciliation counts only reservations that have not expired, Confirm
    looks only at the status: a sale of two units sells three when a
    reservation whose expiry was never handled is confirmed after its unit was
    handed out again. No call fails and no two requests overlap. *)
Theorem overdue_reservation_oversells :
  (exists o1 o2 o3, fst overdue_result = Ok (inr [o1; o2; o3]) /\ NoDup (OrderID <$> [o1; o2; o3])) /\
  (TotalStock <$> t_sales sample_db !! 7%N) = Some 2 /\ sale7_sold (snd overdue_result) = 3.
Proof.
  split; [|split; vm_compute; reflexivity].
  do 3 eexists. split; [vm_compute; reflexivity|]. apply (bool_decide_unpack (NoDup _)). vm_compute. done.
Qed.
