(* ===== verification/Hub.v ===== *)
(** * internal/websocket: the hub, its clients, and the Pub/Sub fan-out of main

    The hub's goroutine, the pumps of the clients, the goroutines the hub
    spawns and the fan-out loops of cmd/server/main.go share the hub through
    channels and maps. Each event below is one indivisible step of one of
    them; a step that panics takes the whole process down. *)
From S2P Require Import Prelude GoStd Models Services Keys.
Local Open Scope string_scope.
Local Open Scope Z_scope.

Module Hub.

(** A [*Client] is its address. *)
Definition cid : Type := nat.

(** [send] is the buffered channel of the client, [frames] what its write pump
    has written to the connection so far, a list of messages per frame. *)
Record Client := mkClient {
  send : list json;
  closed : bool;
  saleID : string;
  userID : string;
  frames : list (list json)
}.

Record registration := mkReg { reg_client : cid; reg_saleID : string; reg_userID : string }.

Record BroadcastMsg := mkMsg { SaleID : string; Payload : json }.

(** [spawned] are the goroutines [go h.Unregister(client)] still waiting;
    [picked] is the client the loop of PublishToUser has just been given. *)
Record Hub := mkHub {
  rooms : gmap string (gset cid);
  userRooms : gmap string (gset cid);
  register : list registration;
  unregister : list cid;
  broadcast : list BroadcastMsg;
  clients : gmap cid Client;
  spawned : list cid;
  picked : option (cid * json);
  connections : Z
}.

Definition send_capacity : nat := 256.
Definition register_capacity : nat := 256.
Definition broadcast_capacity : nat := 1024.

Definition NewHub : Hub := mkHub ∅ ∅ [] [] [] ∅ [] None 0.

Definition NewClient : Client := mkClient [] false "" "" [].

(** ** Setters *)

Definition set_rooms (r u : gmap string (gset cid)) (h : Hub) : Hub :=
  mkHub r u (register h) (unregister h) (broadcast h) (clients h) (spawned h) (picked h) (connections h).
Definition set_register (l : list registration) (h : Hub) : Hub :=
  mkHub (rooms h) (userRooms h) l (unregister h) (broadcast h) (clients h) (spawned h) (picked h) (connections h).
Definition set_unregister (l : list cid) (h : Hub) : Hub :=
  mkHub (rooms h) (userRooms h) (register h) l (broadcast h) (clients h) (spawned h) (picked h) (connections h).
Definition set_broadcast (l : list BroadcastMsg) (h : Hub) : Hub :=
  mkHub (rooms h) (userRooms h) (register h) (unregister h) l (clients h) (spawned h) (picked h) (connections h).
Definition set_clients (m : gmap cid Client) (h : Hub) : Hub :=
  mkHub (rooms h) (userRooms h) (register h) (unregister h) (broadcast h) m (spawned h) (picked h) (connections h).
Definition set_spawned (l : list cid) (h : Hub) : Hub :=
  mkHub (rooms h) (userRooms h) (register h) (unregister h) (broadcast h) (clients h) l (picked h) (connections h).
Definition set_picked (p : option (cid * json)) (h : Hub) : Hub :=
  mkHub (rooms h) (userRooms h) (register h) (unregister h) (broadcast h) (clients h) (spawned h) p (connections h).
Definition add_connections (n : Z) (h : Hub) : Hub :=
  mkHub (rooms h) (userRooms h) (register h) (unregister h) (broadcast h) (clients h) (spawned h) (picked h)
    (connections h + n).

Definition with_send (q : list json) (c : Client) : Client :=
  mkClient q (closed c) (saleID c) (userID c) (frames c).
Definition with_closed (c : Client) : Client :=
  mkClient (send c) true (saleID c) (userID c) (frames c).
Definition with_ids (s u : string) (c : Client) : Client :=
  mkClient (send c) (closed c) s u (frames c).
Definition with_frame (c : Client) : Client :=
  mkClient [] (closed c) (saleID c) (userID c) (frames c ++ [send c])%list.

(** ** The operations *)

(** What a step leaves: a crashed process (the message of the panic) or a hub. *)
Definition result (X : Type) : Type := string + X.

Definition bind {X Y} (r : result X) (f : X -> result Y) : result Y :=
  match r with inl e => inl e | inr x => f x end.

Definition deref (c : cid) (h : Hub) : result Client :=
  match clients h !! c with
  | Some x => inr x
  | None => inl "invalid memory address or nil pointer dereference"
  end.

(** [select { case client.send <- payload: default: ... }]: whether the message
    was accepted. A send on a closed channel panics. *)
Definition try_send (c : cid) (p : json) (h : Hub) : result (bool * Hub) :=
  bind (deref c h) (fun x =>
    if closed x then inl "send on closed channel"
    else if Nat.ltb (length (send x)) send_capacity
    then inr (true, set_clients (<[c := with_send (send x ++ [p])%list x]> (clients h)) h)
    else inr (false, h)).

(** One turn of the loops over the clients of a room. *)
Definition send_or_drop (c : cid) (p : json) (h : Hub) : result Hub :=
  bind (try_send c p h) (fun r =>
    match r with
    | (true, h') => inr h'
    | (false, h') => inr (set_spawned (spawned h' ++ [c])%list h')
    end).

(** [for client := range clients], in the order [order] Go happens to take. *)
Fixpoint deliver (p : json) (order : list cid) (h : Hub) : result Hub :=
  match order with
  | [] => inr h
  | c :: rest => bind (send_or_drop c p h) (deliver p rest)
  end.

Definition room (key : string) (m : gmap string (gset cid)) : gset cid := default ∅ (m !! key).

Definition join (key : string) (c : cid) (m : gmap string (gset cid)) : gmap string (gset cid) :=
  if String.eqb key "" then m else <[key := {[c]} ∪ room key m]> m.

Definition leave (key : string) (c : cid) (m : gmap string (gset cid)) : gmap string (gset cid) :=
  if String.eqb key "" then m
  else match m !! key with
       | None => m
       | Some s =>
           if decide (s ∖ {[c]} = ∅) then delete key m else <[key := s ∖ {[c]}]> m
       end.

(** The three cases of [Run]. *)
Definition run_register (reg : registration) (h : Hub) : Hub :=
  add_connections 1
    (set_rooms (join (reg_saleID reg) (reg_client reg) (rooms h))
       (join (reg_userID reg) (reg_client reg) (userRooms h)) h).

Definition run_unregister (c : cid) (h : Hub) : result Hub :=
  bind (deref c h) (fun x =>
    let h1 := set_rooms (leave (saleID x) c (rooms h)) (leave (userID x) c (userRooms h)) h in
    if closed x then inl "close of closed channel"
    else inr (add_connections (-1) (set_clients (<[c := with_closed x]> (clients h)) h1))).

Definition run_broadcast (msg : BroadcastMsg) (order : list cid) (h : Hub) : result Hub :=
  deliver (Payload msg) order h.

Definition Subscribe (saleID userID : string) (c : cid) (h : Hub) : result Hub :=
  bind (deref c h) (fun x =>
    inr (set_register (register h ++ [mkReg c saleID userID])%list
           (set_clients (<[c := with_ids saleID userID x]> (clients h)) h))).

Definition Unregister (c : cid) (h : Hub) : Hub := set_unregister (unregister h ++ [c])%list h.

Definition Publish (saleID : string) (p : json) (h : Hub) : Hub :=
  set_broadcast (broadcast h ++ [mkMsg saleID p])%list h.

(** PublishToUser when no other goroutine moves during its loop. *)
Definition PublishToUser (p : json) (order : list cid) (h : Hub) : result Hub := deliver p order h.

Definition DirectSend (c : cid) (p : json) (h : Hub) : result Hub :=
  bind (try_send c p h) (fun r => inr (snd r)).

(** [client.send <- msg] outside of a select: it waits while the buffer is full. *)
Definition plain_send (c : cid) (p : json) (h : Hub) : option (result Hub) :=
  match try_send c p h with
  | inl m => Some (inl m)
  | inr (true, h') => Some (inr h')
  | inr (false, _) => None
  end.

(** The write pump takes the first message and all that are queued behind it
    and writes them as one frame. *)
Definition write_frame (c : cid) (h : Hub) : result Hub :=
  bind (deref c h) (fun x =>
    match send x with
    | [] => inr h
    | _ => inr (set_clients (<[c := with_frame x]> (clients h)) h)
    end).

(** ** Steps *)

Inductive event :=
| EvConnect (c : cid)
| EvSubscribe (c : cid) (saleID userID : string)
| EvUnregister (c : cid)
| EvSpawned (i : nat)
| EvPublish (saleID : string) (p : json)
| EvRunRegister
| EvRunUnregister
| EvRunBroadcast (order : list cid)
| EvUserPick (userID : string) (p : json) (c : cid)
| EvUserSend
| EvDirectSend (c : cid) (p : json)
| EvSend (c : cid) (p : json)
| EvWrite (c : cid).

(** [None]: the step is not possible (a channel is full or empty, or [order]
    does not list the room). *)
Definition step (e : event) (h : Hub) : option (result Hub) :=
  match e with
  | EvConnect c =>
      match clients h !! c with
      | None => Some (inr (set_clients (<[c := NewClient]> (clients h)) h))
      | Some _ => None
      end
  | EvSubscribe c s u =>
      if Nat.ltb (length (register h)) register_capacity then Some (Subscribe s u c h) else None
  | EvUnregister c =>
      if Nat.ltb (length (unregister h)) register_capacity then Some (inr (Unregister c h)) else None
  | EvSpawned i =>
      match spawned h !! i with
      | Some c =>
          if Nat.ltb (length (unregister h)) register_capacity
          then Some (inr (Unregister c (set_spawned (delete i (spawned h)) h)))
          else None
      | None => None
      end
  | EvPublish s p =>
      if Nat.ltb (length (broadcast h)) broadcast_capacity then Some (inr (Publish s p h)) else None
  | EvRunRegister =>
      match register h with
      | reg :: rest => Some (inr (run_register reg (set_register rest h)))
      | [] => None
      end
  | EvRunUnregister =>
      match unregister h with
      | c :: rest => Some (run_unregister c (set_unregister rest h))
      | [] => None
      end
  | EvRunBroadcast order =>
      match broadcast h with
      | msg :: rest =>
          if bool_decide (order ≡ₚ elements (room (SaleID msg) (rooms h)))
          then Some (run_broadcast msg order (set_broadcast rest h)) else None
      | [] => None
      end
  | EvUserPick u p c =>
      match picked h with
      | None =>
          if bool_decide (c ∈ room u (userRooms h)) then Some (inr (set_picked (Some (c, p)) h)) else None
      | Some _ => None
      end
  | EvUserSend =>
      match picked h with
      | Some (c, p) => Some (send_or_drop c p (set_picked None h))
      | None => None
      end
  | EvDirectSend c p => Some (DirectSend c p h)
  | EvSend c p => plain_send c p h
  | EvWrite c => Some (write_frame c h)
  end.

(** A run: the events in order; [None] when one of them was not possible. *)
Fixpoint steps (es : list event) (h : Hub) : option (result Hub) :=
  match es with
  | [] => Some (inr h)
  | e :: rest =>
      match step e h with
      | Some (inr h') => steps rest h'
      | other => other
      end
  end.

Inductive reach (h : Hub) : Hub -> Prop :=
| reach_refl : reach h h
| reach_step h1 h2 e : reach h h1 -> step e h1 = Some (inr h2) -> reach h h2.

(** ** The edges: the WebSocket handler and the fan-out of main *)

Section Edges.
Context `{UL : UuidLib}.

(** What [HandleWebSocket] subscribes a request to, from the path and the query:
    [None] is 400 "Invalid sale ID". *)
Definition subscription (saleIDStr userIDStr : string) : option (string * string) :=
  match uuid_Parse saleIDStr with
  | inl _ => None
  | inr saleID =>
      Some (uuid_String saleID,
        if String.eqb userIDStr "" then ""
        else match uuid_Parse userIDStr with inl _ => "" | inr _ => userIDStr end)
  end.

(** The two loops of main: the room a Pub/Sub message goes to. *)
Definition fan_out (channel : string) : option string :=
  match splitChannel channel with
  | [_; part; _] => Some part
  | _ => None
  end.
End Edges.
End Hub.
