(* ===== verification/HubSpec.v ===== *)
(** * What the WebSocket hub promises, and when it breaks its promise *)
From S2P Require Import Prelude GoStd Models Services Keys Hub.
From Stdlib Require Import Ascii.
Local Open Scope string_scope.
Local Open Scope Z_scope.
Import Hub.
#[local] Set Warnings "-clear-no-such-hyp".

(** ** Lemmas on rooms *)

Lemma room_join key c m k :
  room k (join key c m) =
  if bool_decide (k = key) && negb (String.eqb key "") then {[c]} ∪ room k m else room k m.
Proof.
  unfold join, room. destruct (String.eqb_spec key "") as [->|Hne]; [by rewrite andb_false_r|].
  rewrite andb_true_r. case_bool_decide as Hk; subst; [by rewrite lookup_insert_eq|].
  by rewrite lookup_insert_ne.
Qed.

Lemma elem_of_room_join d key c m k :
  d ∈ room k (join key c m) <-> d ∈ room k m \/ d = c /\ k = key /\ key <> "".
Proof.
  rewrite room_join. case_bool_decide as Hk; destruct (String.eqb_spec key "") as [E|E]; cbn; set_solver.
Qed.

Lemma room_leave key c m k :
  room k (leave key c m) =
  if bool_decide (k = key) && negb (String.eqb key "") then room k m ∖ {[c]} else room k m.
Proof.
  unfold leave, room. destruct (String.eqb_spec key "") as [->|Hne]; [by rewrite andb_false_r|].
  rewrite andb_true_r. destruct (m !! key) as [s|] eqn:E.
  - case_decide as Hs; case_bool_decide as Hk; subst; rewrite ?lookup_delete_eq, ?lookup_insert_eq;
      rewrite ?lookup_delete_ne, ?lookup_insert_ne by done; rewrite ?E; cbn; [|done|done|done].
    by rewrite Hs.
  - case_bool_decide as Hk; subst; [|done]. rewrite E. cbn. set_solver.
Qed.

Lemma elem_of_room_leave d key c m k :
  d ∈ room k (leave key c m) <-> d ∈ room k m /\ (d = c -> k = key -> key = "").
Proof.
  rewrite room_leave. case_bool_decide as Hk; destruct (String.eqb_spec key "") as [E|E]; cbn; set_solver.
Qed.

(** No room is left empty. *)
Definition no_empty_room (m : gmap string (gset cid)) : Prop := forall k, m !! k <> Some ∅.

Lemma no_empty_room_join key c m : no_empty_room m -> no_empty_room (join key c m).
Proof.
  intros H k. unfold join. destruct (String.eqb key ""); [apply H|].
  destruct (decide (k = key)) as [->|Hne]; [|rewrite lookup_insert_ne by done; apply H].
  rewrite lookup_insert_eq. intros [= E]. set_solver.
Qed.

Lemma no_empty_room_leave key c m : no_empty_room m -> no_empty_room (leave key c m).
Proof.
  intros H k. unfold leave. destruct (String.eqb key ""); [apply H|].
  destruct (m !! key) as [s|] eqn:E; [|apply H]. case_decide as Hs.
  - destruct (decide (k = key)) as [->|Hne]; [by rewrite lookup_delete_eq|].
    rewrite lookup_delete_ne by done. apply H.
  - destruct (decide (k = key)) as [->|Hne]; [|rewrite lookup_insert_ne by done; apply H].
    rewrite lookup_insert_eq. congruence.
Qed.

(** ** Delivery *)

Definition full (h : Hub) (c : cid) : Prop :=
  exists x, clients h !! c = Some x /\ (send_capacity <= length (send x))%nat.
#[global] Instance full_dec h c : Decision (full h c).
Proof.
  unfold full. destruct (clients h !! c) as [x|] eqn:E.
  - destruct (decide (send_capacity <= length (send x))%nat) as [H|H]; [left; eauto|].
    right. intros (y & [= <-] & Hy). done.
  - right. by intros (y & ? & _).
Defined.

Definition open (h : Hub) (c : cid) : Prop := exists x, clients h !! c = Some x /\ closed x = false.

(** The client after a delivery that was offered to it. *)
Definition offered (h : Hub) (p : json) (c : cid) (x : Client) : Client :=
  if decide (full h c) then x else with_send (send x ++ [p])%list x.

(** Everything but the clients and the spawned goroutines. *)
Definition same_frame (h h' : Hub) : Prop :=
  rooms h' = rooms h /\ userRooms h' = userRooms h /\ register h' = register h /\
  unregister h' = unregister h /\ broadcast h' = broadcast h /\ picked h' = picked h /\
  connections h' = connections h.

Lemma send_or_drop_spec c p h x :
  clients h !! c = Some x -> closed x = false ->
  exists h', send_or_drop c p h = inr h' /\ same_frame h h' /\
    clients h' = <[c := offered h p c x]> (clients h) /\
    spawned h' = (spawned h ++ if decide (full h c) then [c] else [])%list.
Proof.
  intros Hx Hopen. unfold send_or_drop, try_send, deref, offered. rewrite Hx. cbn [bind]. rewrite Hopen.
  assert (full h c <-> (send_capacity <= length (send x))%nat) as Hfull.
  { split; [|by exists x]. intros (y & Hy & Hl). congruence. }
  destruct (Nat.ltb_spec (length (send x)) send_capacity) as [Hlt|Hge]; cbn [bind].
  - rewrite !decide_False by (rewrite Hfull; lia). eexists. split; [done|]. cbn. by rewrite app_nil_r.
  - rewrite !decide_True by (by apply Hfull). eexists. split; [done|]. cbn. by rewrite insert_id.
Qed.

Lemma full_insert_ne h h' c d x :
  clients h' = <[c := x]> (clients h) -> c <> d -> full h' d <-> full h d.
Proof. intros E Hne. unfold full. rewrite E, lookup_insert_ne by done. done. Qed.

Lemma deliver_spec p order : forall h,
  NoDup order -> Forall (open h) order ->
  exists h', deliver p order h = inr h' /\ same_frame h h' /\
    (forall c, clients h' !! c =
       if decide (c ∈ order) then offered h p c <$> clients h !! c else clients h !! c) /\
    spawned h' = (spawned h ++ base.filter (full h) order)%list.
Proof.
  induction order as [|c rest IH]; intros h Hnd Hopen; cbn [deliver].
  - exists h. split; [done|]. split; [done|]. rewrite app_nil_r. split; [|done]. intros c.
    rewrite decide_False; [done|]. set_solver.
  - apply NoDup_cons in Hnd as [Hc Hnd]. apply Forall_cons in Hopen as [(x & Hx & Hcl) Hopen].
    destruct (send_or_drop_spec c p h x Hx Hcl) as (h1 & -> & Hf1 & Hc1 & Hs1). cbn [bind].
    assert (forall d, d ∈ rest -> clients h1 !! d = clients h !! d) as Hsame.
    { intros d Hd. rewrite Hc1, lookup_insert_ne; [done|]. by intros ->. }
    destruct (IH h1) as (h2 & Hdel & Hf2 & Hc2 & Hs2); [done| |].
    { apply Forall_forall. intros d Hd. rewrite Forall_forall in Hopen. unfold open.
      rewrite Hsame by done. by apply Hopen. }
    exists h2. split; [exact Hdel|]. split; [unfold same_frame in *; intuition congruence|]. split.
    + intros d. rewrite Hc2. destruct (decide (d = c)) as [->|Hne].
      * rewrite decide_False by done. rewrite decide_True by set_solver.
        by rewrite Hc1, lookup_insert_eq, Hx.
      * rewrite Hc1, lookup_insert_ne by done. destruct (decide (d ∈ rest)) as [Hd|Hd].
        -- rewrite decide_True by set_solver. unfold offered.
           destruct (clients h !! d) as [y|]; [|done]. cbn. f_equal.
           destruct (decide (full h1 d)) as [F|F], (decide (full h d)) as [G|G]; try done;
             exfalso; rewrite (full_insert_ne h h1 c d _ Hc1) in F by done; done.
        -- rewrite decide_False; [done|]. set_solver.
    + rewrite Hs2, Hs1, <- app_assoc. f_equal. rewrite filter_cons.
      assert (base.filter (full h1) rest = base.filter (full h) rest) as ->.
      { apply filter_ext_in. intros d Hd. apply (full_insert_ne h h1 c d _ Hc1). by intros ->. }
      by case_decide.
Qed.

(** ** The invariant of an orderly hub *)

(** The client is in the room of its sale: its registration has been served. *)
Definition joined (h : Hub) (c : cid) : Prop :=
  exists x, clients h !! c = Some x /\ c ∈ room (saleID x) (rooms h).

(** What the gauge of connections should show: the clients that are in a room. *)
Definition gauge_right (h : Hub) : Prop :=
  exists s : gset cid, (forall c, c ∈ s <-> exists k, c ∈ room k (rooms h)) /\
    connections h = Z.of_nat (size s).

Record hub_inv (h : Hub) : Prop := {
  hi_rooms : forall s c, c ∈ room s (rooms h) ->
    exists x, clients h !! c = Some x /\ closed x = false /\ saleID x = s /\ s <> "";
  hi_users : forall u c, c ∈ room u (userRooms h) ->
    exists x, clients h !! c = Some x /\ closed x = false /\ userID x = u /\ u <> "" /\
      c ∈ room (saleID x) (rooms h);
  hi_register : forall r, r ∈ register h ->
    exists x, clients h !! reg_client r = Some x /\ closed x = false /\
      saleID x = reg_saleID r /\ userID x = reg_userID r /\ reg_saleID r <> "" /\
      ~ joined h (reg_client r);
  hi_register_once : NoDup (reg_client <$> register h);
  hi_unregister : forall c, c ∈ unregister h -> joined h c;
  hi_unregister_once : NoDup (unregister h);
  hi_spawned : spawned h = [];
  hi_picked : forall c p, picked h = Some (c, p) -> open h c;
  hi_empty : no_empty_room (rooms h) /\ no_empty_room (userRooms h);
  hi_buffers : forall c x, clients h !! c = Some x -> (length (send x) <= send_capacity)%nat;
  hi_connections : gauge_right h
}.

(** What the rest of the program has to respect for the hub to be safe: a
    client is subscribed once, to a sale, and its Unregister is called once and
    only after the hub has served its registration; no buffer is full when a
    message is offered; the loop of PublishToUser does not hold a client that
    the hub is closing. *)
Definition orderly (e : event) (h : Hub) : Prop :=
  match e with
  | EvConnect _ | EvPublish _ _ | EvRunRegister | EvUserPick _ _ _ => True
  | EvSubscribe c s _ =>
      s <> "" /\ open h c /\ (~ joined h c) /\ (c ∉ (reg_client <$> register h)) /\
      (forall x, clients h !! c = Some x -> saleID x = "")
  | EvUnregister c => joined h c /\ (c ∉ unregister h)
  | EvSpawned _ => False
  | EvRunUnregister =>
      forall c p, picked h = Some (c, p) -> head (unregister h) <> Some c
  | EvRunBroadcast order => forall c, c ∈ order -> ~ full h c
  | EvUserSend => forall c p, picked h = Some (c, p) -> ~ full h c
  | EvDirectSend c _ | EvSend c _ => open h c
  | EvWrite c => is_Some (clients h !! c)
  end.

Lemma hub_inv_new : hub_inv NewHub.
Proof.
  split; try done; try (by intros ? ? ?%elem_of_empty); try constructor; try done;
    try (intros c ?%elem_of_nil; done).
  exists ∅. split; [|done]. intros c. split; [set_solver|]. intros [k Hk]. by apply elem_of_empty in Hk.
Qed.

(** One registration more, one client more. *)
Lemma gauge_register r h :
  reg_saleID r <> "" -> (forall k, reg_client r ∉ room k (rooms h)) -> gauge_right h ->
  gauge_right (run_register r h).
Proof.
  intros Hne Hout (s & Hs & Hn). exists ({[reg_client r]} ∪ s). cbn. split.
  - intros c. rewrite elem_of_union, elem_of_singleton, Hs. split.
    + intros [->|[k Hk]]; [exists (reg_saleID r)|exists k]; apply elem_of_room_join; auto.
    + intros (k & [Hk|(-> & _)]%elem_of_room_join); eauto.
  - rewrite size_union, size_singleton by (apply disjoint_singleton_l; rewrite Hs; naive_solver). lia.
Qed.

(** And one less when a client of one room leaves it. *)
Lemma gauge_unregister c x h h' :
  (forall k, c ∈ room k (rooms h) <-> k = saleID x) -> saleID x <> "" ->
  rooms h' = leave (saleID x) c (rooms h) -> connections h' = connections h + -1 ->
  gauge_right h -> gauge_right h'.
Proof.
  intros Hc Hne Hr Hn (s & Hs & Hsize). assert (c ∈ s) as Hin by (apply Hs; exists (saleID x); by apply Hc).
  exists (s ∖ {[c]}). split.
  - intros d. rewrite elem_of_difference, elem_of_singleton, Hs, Hr. split.
    + intros [[k Hk] Hd]. exists k. apply elem_of_room_leave. by split; [|intros ->].
    + intros (k & [Hk Hl]%elem_of_room_leave). split; [by exists k|]. intros ->.
      apply Hne, Hl; [done|]. by apply Hc.
  - assert (0 < size s)%nat.
    { destruct (size s) eqn:E; [|lia]. apply size_empty_inv in E. set_solver. }
    rewrite Hn, Hsize, size_difference, size_singleton by set_solver. lia.
Qed.

(** Changing the clients' buffers only. *)
Lemma hub_inv_clients h m :
  hub_inv h ->
  (forall c, clients h !! c = None -> m !! c = None) ->
  (forall c x, clients h !! c = Some x -> exists y, m !! c = Some y /\ closed y = closed x /\
     saleID y = saleID x /\ userID y = userID x) ->
  (forall c y, m !! c = Some y -> (length (send y) <= send_capacity)%nat) ->
  hub_inv (set_clients m h).
Proof.
  intros [H1 H2 H3 H4 H5 H6 H7 H8 H9 H10 H11] Hnone Hsome Hlen.
  assert (forall c, joined (set_clients m h) c <-> joined h c) as Hj.
  { intros c. unfold joined. cbn. split; intros (x & Hx & Hin).
    - destruct (clients h !! c) as [y|] eqn:E; [|by rewrite Hnone in Hx].
      destruct (Hsome c y E) as (z & Hz & _ & Hs & _). exists y. split; [done|].
      rewrite <- Hs. congruence.
    - destruct (Hsome c x Hx) as (z & Hz & _ & Hs & _). exists z. by rewrite Hs. }
  split; cbn; try done.
  - intros s c Hin. destruct (H1 s c Hin) as (x & Hx & Hc & Hs & Hne).
    destruct (Hsome c x Hx) as (y & Hy & E1 & E2 & E3). exists y. by rewrite E1, E2.
  - intros u c Hin. destruct (H2 u c Hin) as (x & Hx & Hc & Hs & Hne & Hr).
    destruct (Hsome c x Hx) as (y & Hy & E1 & E2 & E3). exists y. by rewrite E1, E2, E3.
  - intros r Hr. destruct (H3 r Hr) as (x & Hx & Hc & Hs & Hu & Hne & Hnj).
    destruct (Hsome _ x Hx) as (y & Hy & E1 & E2 & E3). exists y. rewrite E1, E2, E3.
    repeat (split; [done|]). by rewrite Hj.
  - intros c Hc. by apply Hj, H5.
  - intros c p Hp. destruct (H8 c p Hp) as (x & Hx & Hc). destruct (Hsome c x Hx) as (y & Hy & E1 & _).
    exists y. by rewrite E1.
Qed.

Lemma offered_fields h p c x :
  closed (offered h p c x) = closed x /\ saleID (offered h p c x) = saleID x /\
  userID (offered h p c x) = userID x.
Proof. unfold offered. by case_decide. Qed.

Lemma offered_length h p c x :
  clients h !! c = Some x -> (length (send x) <= send_capacity)%nat ->
  (length (send (offered h p c x)) <= send_capacity)%nat.
Proof.
  intros Hx Hl. unfold offered. case_decide as Hf; [done|]. cbn. rewrite length_app. cbn.
  destruct (decide (send_capacity <= length (send x))%nat) as [Hge|]; [|lia].
  exfalso. apply Hf. by exists x.
Qed.

(** Offering a message to one open client with room in its buffer. *)
Lemma hub_inv_offer h h' p c x :
  hub_inv h -> clients h !! c = Some x -> same_frame h h' ->
  clients h' = <[c := offered h p c x]> (clients h) -> spawned h' = [] -> hub_inv h'.
Proof.
  intros Hi Hx (E1 & E2 & E3 & E4 & E5 & E6 & E7) Hc Hs.
  assert (hub_inv (set_clients (<[c := offered h p c x]> (clients h)) h)) as Hi'.
  { apply hub_inv_clients; [done| | |].
    - intros d Hd. rewrite lookup_insert_ne; [done|]. intros ->. congruence.
    - intros d y Hy. destruct (decide (c = d)) as [<-|Hne].
      + rewrite lookup_insert_eq. eexists. split; [done|]. rewrite Hx in Hy. injection Hy as <-.
        apply offered_fields.
      + rewrite lookup_insert_ne by done. by exists y.
    - intros d y. destruct (decide (c = d)) as [<-|Hne].
      + rewrite lookup_insert_eq. intros [= <-]. apply offered_length; [done|]. by eapply hi_buffers.
      + rewrite lookup_insert_ne by done. by apply hi_buffers. }
  destruct h' as [r u rg ur b cl sp pk cn], h as [r0 u0 rg0 ur0 b0 cl0 sp0 pk0 cn0].
  cbn in *. subst. pose proof (hi_spawned _ Hi') as Hsp. cbn in Hsp. by subst sp0.
Qed.

(** The same hub after a step that touches neither rooms, registrations nor
    clients' identities. *)
Lemma hub_inv_broadcast h l : hub_inv h -> hub_inv (set_broadcast l h).
Proof. intros []. split; done. Qed.

Lemma hub_inv_picked h o : hub_inv h -> (forall c p, o = Some (c, p) -> open h c) -> hub_inv (set_picked o h).
Proof. intros [] Ho. split; done. Qed.

Lemma safe_send c p h :
  hub_inv h -> open h c -> ~ full h c -> exists h', send_or_drop c p h = inr h' /\ hub_inv h'.
Proof.
  intros Hi (x & Hx & Ho) Hf. destruct (send_or_drop_spec c p h x Hx Ho) as (h' & Hs & Hfr & Hc & Hsp).
  exists h'. split; [done|]. eapply hub_inv_offer; [exact Hi|exact Hx|exact Hfr|exact Hc|].
  rewrite Hsp, decide_False, (hi_spawned _ Hi) by done. done.
Qed.

Lemma send_keeps c p h h' d :
  open h c -> send_or_drop c p h = inr h' -> c <> d ->
  (open h d -> open h' d) /\ (~ full h d -> ~ full h' d).
Proof.
  intros (x & Hx & Ho) Hs Hne. destruct (send_or_drop_spec c p h x Hx Ho) as (h1 & Hs1 & _ & Hc & _).
  rewrite Hs in Hs1. injection Hs1 as <-. split.
  - intros (y & Hy & Hoy). exists y. by rewrite Hc, lookup_insert_ne.
  - intros Hf. by rewrite (full_insert_ne h h' c d _ Hc).
Qed.

Lemma safe_deliver p order : forall h,
  hub_inv h -> NoDup order -> Forall (open h) order -> (forall c, c ∈ order -> ~ full h c) ->
  exists h', deliver p order h = inr h' /\ hub_inv h'.
Proof.
  induction order as [|c rest IH]; intros h Hi Hnd Hopen Hfull; cbn [deliver]; [eauto|].
  apply NoDup_cons in Hnd as [Hc Hnd]. apply Forall_cons in Hopen as [Ho Hopen].
  destruct (safe_send c p h Hi Ho) as (h1 & Hs & Hi1); [apply Hfull; set_solver|].
  rewrite Hs. cbn [bind].
  assert (forall d, d ∈ rest -> c <> d) as Hne by (intros d Hd ->; done).
  apply IH; [done|done| |].
  - rewrite Forall_forall in *. intros d Hd. eapply send_keeps; eauto.
  - intros d Hd. eapply send_keeps; eauto. apply Hfull. set_solver.
Qed.

Lemma room_open h s : hub_inv h -> Forall (open h) (elements (room s (rooms h))).
Proof.
  intros Hi. apply Forall_forall. intros c Hc%elem_of_elements.
  destruct (hi_rooms h Hi s c Hc) as (x & Hx & Ho & _). by exists x.
Qed.

Lemma safe_subscribe c s u h :
  hub_inv h -> orderly (EvSubscribe c s u) h ->
  exists h', Subscribe s u c h = inr h' /\ hub_inv h'.
Proof.
  intros Hi (Hs & (x & Hx & Ho) & Hnj & Hnr & Hempty). unfold Subscribe, deref. rewrite Hx. cbn [bind].
  eexists. split; [done|]. specialize (Hempty x Hx).
  assert (forall k, c ∉ room k (rooms h)) as Hout.
  { intros k Hin. destruct (hi_rooms h Hi k c Hin) as (y & Hy & _ & Hk & _).
    apply Hnj. exists y. split; [done|]. by rewrite Hk. }
  assert (forall k, c ∉ room k (userRooms h)) as Hout'.
  { intros k Hin. destruct (hi_users h Hi k c Hin) as (y & Hy & _ & _ & _ & Hk). by eapply Hout. }
  set (m := <[c := with_ids s u x]> (clients h)).
  assert (forall d, d <> c -> joined (set_clients m h) d <-> joined h d) as Hj.
  { intros d Hne. unfold joined. cbn. unfold m. by rewrite lookup_insert_ne. }
  assert (forall d, ~ joined h d -> ~ joined (set_clients m h) d) as Hnj'.
  { intros d Hd. destruct (decide (d = c)) as [->|Hne]; [|by rewrite Hj].
    intros (y & _ & Hin). by eapply Hout. }
  destruct Hi as [H1 H2 H3 H4 H5 H6 H7 H8 H9 H10 H11]. split; cbn; try done.
  - intros k d Hin. unfold m. rewrite lookup_insert_ne by (intros ->; by eapply Hout). by apply H1.
  - intros k d Hin. unfold m. rewrite lookup_insert_ne by (intros ->; by eapply Hout'). by apply H2.
  - intros r [Hr|Hr]%elem_of_app.
    + assert (reg_client r <> c) as Hne.
      { intros <-. apply Hnr. apply list_elem_of_fmap. eauto. }
      unfold m. rewrite lookup_insert_ne by done. destruct (H3 r Hr) as (y & Hy & A & B & C & E & F).
      exists y. repeat (split; [done|]). by apply Hnj'.
    + apply list_elem_of_singleton in Hr as ->. cbn. exists (with_ids s u x).
      unfold m at 1. rewrite lookup_insert_eq. repeat (split; [done|]). by apply Hnj'.
  - rewrite fmap_app. apply NoDup_app. split; [done|]. split; [|apply NoDup_singleton].
    intros d Hd ->%list_elem_of_singleton. done.
  - intros d Hd. specialize (H5 d Hd). destruct (decide (d = c)) as [->|Hne]; [done|]. by apply Hj.
  - intros d p Hp. destruct (H8 d p Hp) as (y & Hy & Hoy). unfold open. cbn. unfold m.
    destruct (decide (d = c)) as [->|Hne].
    + rewrite lookup_insert_eq. eexists. split; [done|]. done.
    + rewrite lookup_insert_ne by done. eauto.
  - intros d y. unfold m. destruct (decide (d = c)) as [->|Hne].
    + rewrite lookup_insert_eq. intros [= <-]. cbn. by eapply H10.
    + rewrite lookup_insert_ne by done. apply H10.
Qed.

Lemma safe_register r rest h :
  hub_inv h -> register h = r :: rest -> hub_inv (run_register r (set_register rest h)).
Proof.
  intros [H1 H2 H3 H4 H5 H6 H7 H8 H9 H10 H11] Hr.
  destruct (H3 r) as (x & Hx & Ho & Hs & Hu & Hne & Hnj); [rewrite Hr; set_solver|].
  rewrite Hr in H4. cbn in H4. apply NoDup_cons in H4 as [Hnew H4].
  assert (forall d, joined h d -> joined (run_register r (set_register rest h)) d) as Hj.
  { intros d (y & Hy & Hin). exists y. split; [done|]. cbn. apply elem_of_room_join. by left. }
  split; cbn; try done.
  - intros s c [Hin|(-> & -> & _)]%elem_of_room_join; [by apply H1|]. exists x. auto.
  - intros u c [Hin|(-> & -> & Hu')]%elem_of_room_join.
    + destruct (H2 u c Hin) as (y & A & B & C & E & F). exists y. repeat (split; [done|]).
      apply elem_of_room_join. by left.
    + exists x. repeat (split; [done|]). apply elem_of_room_join. right. by rewrite Hs.
  - intros r' Hr'. destruct (H3 r') as (y & Hy & A & B & C & E & F); [rewrite Hr; set_solver|].
    exists y. repeat (split; [done|]). intros (z & Hz & [Hin|(Heq & _)]%elem_of_room_join).
    + apply F. by exists z.
    + apply Hnew, list_elem_of_fmap. by exists r'.
  - intros c Hc. by apply Hj, H5.
  - split; apply no_empty_room_join; apply H9.
  - apply (gauge_register r (set_register rest h)); [done| |exact H11]. intros k Hin.
    destruct (H1 _ _ Hin) as (y & Hy & _ & Ey & _). apply Hnj. exists y. by rewrite Ey.
Qed.

Lemma safe_unregister c rest h :
  hub_inv h -> unregister h = c :: rest -> (forall p, picked h <> Some (c, p)) ->
  exists h', run_unregister c (set_unregister rest h) = inr h' /\ hub_inv h'.
Proof.
  intros Hi Hun Hpick. pose proof Hi as [H1 H2 H3 H4 H5 H6 H7 H8 H9 H10 H11].
  destruct (H5 c) as (x & Hx & Hin); [rewrite Hun; set_solver|].
  destruct (H1 _ _ Hin) as (x' & Hx' & Ho & _ & Hne). rewrite Hx in Hx'. injection Hx' as <-.
  unfold run_unregister, deref. cbn [clients set_unregister]. rewrite Hx. cbn [bind]. rewrite Ho.
  eexists. split; [done|]. rewrite Hun in H6. apply NoDup_cons in H6 as [Hnew H6].
  assert (forall s, c ∉ room s (leave (saleID x) c (rooms h))) as Hout.
  { intros s [Hr Hs]%elem_of_room_leave. destruct (H1 s c Hr) as (y & Hy & _ & Es & _).
    apply Hne, Hs; [done|]. congruence. }
  assert (forall u, c ∉ room u (leave (userID x) c (userRooms h))) as Hout'.
  { intros u [Hr Hs]%elem_of_room_leave. destruct (H2 u c Hr) as (y & Hy & _ & Eu & Hu & _).
    assert (u = userID x) as -> by congruence. by apply Hu, Hs. }
  split; cbn; try done.
  - intros s d Hd. assert (c <> d) by (intros ->; by eapply Hout). rewrite lookup_insert_ne by done.
    apply elem_of_room_leave in Hd as [Hd _]. by apply H1.
  - intros u d Hd. assert (c <> d) by (intros ->; by eapply Hout'). rewrite lookup_insert_ne by done.
    apply elem_of_room_leave in Hd as [Hd _]. destruct (H2 u d Hd) as (y & A & B & C & E & F).
    exists y. repeat (split; [done|]). apply elem_of_room_leave. by split; [|intros ->].
  - intros r Hr. destruct (H3 r Hr) as (y & Hy & A & B & C & E & F).
    assert (c <> reg_client r) as Hc by (intros ->; apply F; by exists x).
    rewrite lookup_insert_ne by done. exists y. repeat (split; [done|]).
    intros (z & Hz & [Hr' _]%elem_of_room_leave). cbn in Hz. rewrite lookup_insert_ne in Hz by done.
    apply F. by exists z.
  - intros d Hd. destruct (H5 d) as (y & Hy & Hr); [rewrite Hun; set_solver|].
    assert (c <> d) as Hcd by (by intros ->). exists y. cbn. rewrite lookup_insert_ne by done.
    split; [done|]. apply elem_of_room_leave. by split; [|intros ->].
  - intros d p Hp. destruct (H8 d p Hp) as (y & Hy & Hoy). unfold open. cbn.
    assert (c <> d) as Hcd by (intros ->; by eapply Hpick). rewrite lookup_insert_ne by done. eauto.
  - split; apply no_empty_room_leave; apply H9.
  - intros d y. destruct (decide (c = d)) as [<-|Hcd].
    + rewrite lookup_insert_eq. intros [= <-]. cbn. by eapply H10.
    + rewrite lookup_insert_ne by done. apply H10.
  - apply (gauge_unregister c x h); [|done|done|done|exact H11]. intros k. split; [|by intros ->].
    intros Hk. destruct (H1 k c Hk) as (y & Hy & _ & Ey & _). congruence.
Qed.

Lemma safe_enqueue_unregister c h :
  hub_inv h -> joined h c -> c ∉ unregister h -> hub_inv (Unregister c h).
Proof.
  intros [] Hj Hc. split; try done.
  - cbn. intros d [Hd|Hd]%elem_of_app; [by apply hi_unregister0|].
    by apply list_elem_of_singleton in Hd as ->.
  - cbn. apply NoDup_app. split; [done|]. split; [|apply NoDup_singleton].
    intros d Hd ->%list_elem_of_singleton. done.
Qed.

(** Where a plain send does not wait, it does what the send of [DirectSend] does. *)
Lemma plain_send_direct c p h r : plain_send c p h = Some r -> DirectSend c p h = r.
Proof.
  unfold plain_send, DirectSend. destruct (try_send c p h) as [m|[[] h']]; cbn [bind snd]; congruence.
Qed.

Lemma safe_direct h c p :
  hub_inv h -> open h c -> exists h', DirectSend c p h = inr h' /\ hub_inv h'.
Proof.
  intros Hi (x & Hx & Hc). unfold DirectSend, try_send, deref.
  rewrite Hx. cbn [bind]. rewrite Hc.
  destruct (Nat.ltb_spec (length (send x)) send_capacity) as [Hlt|Hge]; cbn [bind snd]; [|eauto].
  eexists. split; [done|]. apply (hub_inv_offer h _ p c x); [done|done|done| |apply Hi].
  cbn. unfold offered. rewrite decide_False; [done|]. intros (y & Hy & Hl).
  rewrite Hx in Hy. injection Hy as <-. lia.
Qed.

Lemma step_orderly e h r :
  hub_inv h -> orderly e h -> step e h = Some r -> exists h', r = inr h' /\ hub_inv h'.
Proof.
  intros Hi Ho Hs. destruct e; cbn [step orderly] in *.
  - destruct (clients h !! c) eqn:E; [done|]. injection Hs as <-. eexists. split; [done|].
    destruct Hi as [H1 H2 H3 H4 H5 H6 H7 H8 H9 H10 H11].
    assert (forall d x, clients h !! d = Some x -> <[c := NewClient]> (clients h) !! d = Some x) as Hk.
    { intros d x Hd. rewrite lookup_insert_ne; [done|]. intros ->. congruence. }
    assert (forall d, joined (set_clients (<[c := NewClient]> (clients h)) h) d -> joined h d) as Hj.
    { intros d (x & Hx & Hin). cbn in *. destruct (H1 _ d Hin) as (y & Hy & _ & Es & _).
      rewrite (Hk d y Hy) in Hx. exists y. split; [done|]. injection Hx as <-. done. }
    split; cbn; try done.
    + intros s d Hin. destruct (H1 s d Hin) as (x & Hx & A). exists x. eauto.
    + intros s d Hin. destruct (H2 s d Hin) as (x & Hx & A). exists x. eauto.
    + intros r Hr. destruct (H3 r Hr) as (x & Hx & A & B & C & E' & F). exists x.
      split; [by apply Hk|]. repeat (split; [done|]). intros X. by apply F, Hj.
    + intros d Hd. destruct (H5 d Hd) as (x & Hx & Hin). exists x. split; [by apply Hk|done].
    + intros d p Hp. destruct (H8 d p Hp) as (x & Hx & A). exists x. split; [by apply Hk|done].
    + intros d x. destruct (decide (c = d)) as [<-|Hne].
      * rewrite lookup_insert_eq. intros [= <-]. cbn. lia.
      * rewrite lookup_insert_ne by done. apply H10.
  - destruct (_ <? _)%nat; [|done]. injection Hs as <-. by apply safe_subscribe.
  - destruct (_ <? _)%nat; [|done]. injection Hs as <-. eexists. split; [done|].
    destruct Ho as [Hj Hn]. by apply safe_enqueue_unregister.
  - done.
  - destruct (_ <? _)%nat; [|done]. injection Hs as <-. eexists. split; [done|]. by apply hub_inv_broadcast.
  - destruct (register h) as [|reg rest] eqn:E; [done|]. injection Hs as <-. eexists. split; [done|].
    by apply safe_register.
  - destruct (unregister h) as [|c rest] eqn:E; [done|]. injection Hs as <-.
    apply safe_unregister; [done|done|]. intros p Hp. by eapply Ho.
  - destruct (broadcast h) as [|msg rest] eqn:E; [done|].
    destruct (bool_decide _) eqn:Hb; [|done]. apply bool_decide_eq_true in Hb. injection Hs as <-.
    apply safe_deliver.
    + by apply hub_inv_broadcast.
    + rewrite Hb. apply NoDup_elements.
    + rewrite Hb. exact (room_open h _ Hi).
    + exact Ho.
  - destruct (picked h) eqn:E; [done|]. destruct (bool_decide _) eqn:Hb; [|done].
    apply bool_decide_eq_true in Hb. injection Hs as <-. eexists. split; [done|].
    apply hub_inv_picked; [done|]. intros d q [= <- <-].
    destruct (hi_users h Hi _ _ Hb) as (x & Hx & Hc & _). by exists x.
  - destruct (picked h) as [[c p]|] eqn:E; [|done]. injection Hs as <-.
    apply safe_send; [apply hub_inv_picked; [done|by intros]|exact (hi_picked h Hi c p E)|exact (Ho c p eq_refl)].
  - injection Hs as <-. by apply safe_direct.
  - apply plain_send_direct in Hs as <-. by apply safe_direct.
  - injection Hs as <-. destruct Ho as [x Hx]. unfold write_frame, deref. rewrite Hx. cbn [bind].
    destruct (send x) as [|m l] eqn:E; [eauto|]. eexists. split; [done|]. apply hub_inv_clients; [done| | |].
    + intros d Hd. rewrite lookup_insert_ne; [done|]. intros ->. congruence.
    + intros d y Hy. destruct (decide (c = d)) as [<-|Hne].
      * rewrite lookup_insert_eq. eexists. split; [done|]. cbn. by replace y with x by congruence.
      * rewrite lookup_insert_ne by done. by exists y.
    + intros d y. destruct (decide (c = d)) as [<-|Hne].
      * rewrite lookup_insert_eq. intros [= <-]. cbn. lia.
      * rewrite lookup_insert_ne by done. by apply hi_buffers.
Qed.

(** The hubs that orderly events lead to. *)
Inductive orderly_reach : Hub -> Prop :=
| orderly_new : orderly_reach NewHub
| orderly_next h h' e : orderly_reach h -> orderly e h -> step e h = Some (inr h') -> orderly_reach h'.

Lemma orderly_inv h : orderly_reach h -> hub_inv h.
Proof.
  induction 1 as [|h h' e Hr IH Ho Hs]; [apply hub_inv_new|].
  destruct (step_orderly e h _ IH Ho Hs) as (h1 & [= <-] & Hi). done.
Qed.

(** C11. Used in the orderly way, the hub never panics: whatever hub such events
    have led to, no further orderly event crashes the process; every member of
    a room is an open client subscribed to that room, buffers stay within 256
    messages, no empty room is kept, and the gauge of connections shows the number
    of clients that are in a room. *)
Theorem hub_never_panics h e r :
  orderly_reach h -> orderly e h -> step e h = Some r ->
  exists h', r = inr h' /\ no_empty_room (rooms h') /\ no_empty_room (userRooms h') /\
    (forall s c, c ∈ room s (rooms h') ->
       exists x, clients h' !! c = Some x /\ closed x = false /\ saleID x = s) /\
    (forall u c, c ∈ room u (userRooms h') ->
       exists x, clients h' !! c = Some x /\ closed x = false /\ userID x = u) /\
    (forall c x, clients h' !! c = Some x -> (length (send x) <= send_capacity)%nat) /\
    gauge_right h'.
Proof.
  intros Hr Ho Hs. destruct (step_orderly e h r (orderly_inv h Hr) Ho Hs) as (h' & -> & Hi).
  exists h'. split; [done|]. split; [apply Hi|]. split; [apply Hi|]. split; [|split].
  - intros s c Hc. destruct (hi_rooms h' Hi s c Hc) as (x & A & B & C & _). eauto.
  - intros u c Hc. destruct (hi_users h' Hi u c Hc) as (x & A & B & C & _). eauto.
  - split; apply Hi.
Qed.

(** C15. A broadcast reaches exactly the open clients of its sale, one copy each,
    behind what is already queued, in whatever order Go walks the map: a client
    of another sale is not touched, a client whose buffer is full misses the
    message and is unregistered once by a goroutine of its own. *)
Theorem broadcast_reaches_the_room h msg rest order :
  broadcast h = msg :: rest -> order ≡ₚ elements (room (SaleID msg) (rooms h)) ->
  (forall c, c ∈ room (SaleID msg) (rooms h) -> open h c) ->
  exists h', step (EvRunBroadcast order) h = Some (inr h') /\
    broadcast h' = rest /\ rooms h' = rooms h /\ userRooms h' = userRooms h /\
    (forall c, clients h' !! c =
       if decide (c ∈ room (SaleID msg) (rooms h) /\ ~ full h c)
       then (fun x => with_send (send x ++ [Payload msg])%list x) <$> clients h !! c
       else clients h !! c) /\
    spawned h' ≡ₚ (spawned h ++ base.filter (full h) (elements (room (SaleID msg) (rooms h))))%list.
Proof.
  intros Hb Hp Hopen. cbn [step]. rewrite Hb, bool_decide_true by done.
  destruct (deliver_spec (Payload msg) order (set_broadcast rest h)) as (h' & Hd & Hf & Hc & Hs).
  - rewrite Hp. apply NoDup_elements.
  - apply Forall_forall. intros c Hc. rewrite Hp in Hc. apply elem_of_elements in Hc. by apply Hopen.
  - exists h'. unfold run_broadcast. rewrite Hd. split; [done|].
    destruct Hf as (E1 & E2 & E3 & E4 & E5 & E6 & E7). cbn in *. repeat (split; [done|]). split.
    + intros c. rewrite Hc.
      assert (c ∈ order <-> c ∈ room (SaleID msg) (rooms h)) as Hin
        by (rewrite Hp; apply elem_of_elements).
      unfold offered.
      destruct (decide (c ∈ order)) as [Ho|Ho].
      * destruct (decide (full (set_broadcast rest h) c)) as [F|F].
        -- rewrite decide_False by (intros [_ N]; exact (N F)). by destruct (clients h !! c).
        -- rewrite decide_True by (split; [by apply Hin|exact F]). done.
      * rewrite decide_False; [done|]. intros [N _]. by apply Ho, Hin.
    + rewrite Hs. apply Permutation_app_head.
      change (base.filter (full h) order ≡ₚ base.filter (full h) (elements (room (SaleID msg) (rooms h)))).
      by rewrite Hp.
Qed.

(** ** Order of the messages *)

(** All the messages a client has accepted: written, then still queued. *)
Definition history (x : Client) : list json := (concat (frames x) ++ send x)%list.

(** A step offers a client at most one message. *)
Definition grows (p : option json) (x x' : Client) : Prop :=
  exists l, history x' = (history x ++ l)%list /\ (l = [] \/ exists q, p = Some q /\ l = [q]).

Lemma grows_refl p x : grows p x x.
Proof. exists []. rewrite app_nil_r. auto. Qed.

Lemma grows_send p x : grows (Some p) x (with_send (send x ++ [p])%list x).
Proof. exists [p]. unfold history. cbn. rewrite app_assoc. split; [done|right; eauto]. Qed.

Lemma grows_same p x x' : history x' = history x -> grows p x x'.
Proof. intros E. exists []. rewrite app_nil_r. auto. Qed.

Lemma send_or_drop_clients c p h h' d x :
  send_or_drop c p h = inr h' -> clients h !! d = Some x ->
  exists x', clients h' !! d = Some x' /\ (x' = x \/ d = c /\ x' = with_send (send x ++ [p])%list x).
Proof.
  intros Hs Hd. unfold send_or_drop, try_send, deref in Hs.
  destruct (clients h !! c) as [y|] eqn:Hc; [|done]. cbn [bind] in Hs.
  destruct (closed y); [done|]. destruct (_ <? _)%nat; cbn [bind] in Hs; injection Hs as <-; cbn.
  - destruct (decide (c = d)) as [<-|Hne].
    + rewrite lookup_insert_eq. eexists. split; [done|]. right. split; [done|]. congruence.
    + rewrite lookup_insert_ne by done. eauto.
  - eauto.
Qed.

Lemma deliver_clients p order : forall h h' d x,
  NoDup order -> deliver p order h = inr h' -> clients h !! d = Some x ->
  exists x', clients h' !! d = Some x' /\
    (x' = x \/ d ∈ order /\ x' = with_send (send x ++ [p])%list x).
Proof.
  induction order as [|c rest IH]; intros h h' d x Hnd Hdel Hd; cbn [deliver] in Hdel.
  - injection Hdel as <-. eauto.
  - apply NoDup_cons in Hnd as [Hc Hnd]. destruct (send_or_drop c p h) as [e|h1] eqn:E; [done|].
    cbn [bind] in Hdel. destruct (send_or_drop_clients c p h h1 d x E Hd) as (x1 & Hd1 & Hx1).
    destruct (IH h1 h' d x1 Hnd Hdel Hd1) as (x2 & Hd2 & Hx2). exists x2. split; [done|].
    destruct Hx1 as [->|[-> ->]].
    + destruct Hx2 as [->|[Hin ->]]; [by left|]. right. split; [set_solver|done].
    + destruct Hx2 as [->|[Hin _]]; [|done]. right. split; [set_solver|done].
Qed.

Lemma insert_grows p (m : gmap cid Client) c y d x :
  m !! d = Some x -> (c = d -> grows p x y) ->
  exists x', <[c := y]> m !! d = Some x' /\ grows p x x'.
Proof.
  intros Hd Hy. destruct (decide (c = d)) as [->|Hne].
  - rewrite lookup_insert_eq. eauto.
  - rewrite lookup_insert_ne by done. eexists. split; [exact Hd|apply grows_refl].
Qed.

Lemma direct_send_grows d p h h' c x :
  DirectSend d p h = inr h' -> clients h !! c = Some x ->
  exists x', clients h' !! c = Some x' /\ grows (Some p) x x'.
Proof.
  intros Hs Hc. unfold DirectSend, try_send, deref in Hs.
  destruct (clients h !! d) as [y|] eqn:E; cbn [bind] in Hs; [|done]. destruct (closed y); [done|].
  destruct (_ <? _)%nat; cbn in Hs; injection Hs as <-; cbn; [|eauto using grows_refl].
  apply insert_grows; [done|]. intros ->. replace y with x by congruence. apply grows_send.
Qed.

(** The message a step carries. *)
Definition event_message (e : event) (h : Hub) : option json :=
  match e with
  | EvRunBroadcast _ => Payload <$> head (broadcast h)
  | EvUserSend => snd <$> picked h
  | EvDirectSend _ p | EvSend _ p => Some p
  | _ => None
  end.

(** The write pump neither loses, repeats nor reorders what was queued: with
    every step, what a client has been written plus what waits in its buffer
    grows at the end only, by at most the one message of the step. *)
Theorem messages_stay_in_order e h h' c x :
  step e h = Some (inr h') -> clients h !! c = Some x ->
  exists x', clients h' !! c = Some x' /\ grows (event_message e h) x x'.
Proof.
  intros Hs Hc. destruct e; cbn [step event_message] in *.
  - destruct (clients h !! c0) eqn:E; [done|]. injection Hs as <-. cbn.
    apply insert_grows; [done|]. intros ->. congruence.
  - destruct (_ <? _)%nat; [|done]. unfold Subscribe, deref in Hs.
    destruct (clients h !! c0) as [y|] eqn:E; cbn in Hs; [|done]. injection Hs as <-. cbn.
    apply insert_grows; [done|]. intros ->. replace y with x by congruence. by apply grows_same.
  - destruct (_ <? _)%nat; [|done]. injection Hs as <-. cbn. eauto using grows_refl.
  - destruct (spawned h !! i); [|done]. destruct (_ <? _)%nat; [|done]. injection Hs as <-. cbn.
    eauto using grows_refl.
  - destruct (_ <? _)%nat; [|done]. injection Hs as <-. cbn. eauto using grows_refl.
  - destruct (register h); [done|]. injection Hs as <-. cbn. eauto using grows_refl.
  - destruct (unregister h) as [|d rest]; [done|]. injection Hs as Hs. unfold run_unregister, deref in Hs.
    cbn [clients set_unregister] in Hs. destruct (clients h !! d) as [y|] eqn:E; cbn [bind] in Hs; [|done].
    destruct (closed y); [done|]. injection Hs as <-. cbn. apply insert_grows; [done|]. intros ->.
    replace y with x by congruence. by apply grows_same.
  - destruct (broadcast h) as [|msg rest]; [done|]. destruct (bool_decide _) eqn:Hb; [|done].
    apply bool_decide_eq_true in Hb. injection Hs as Hs.
    destruct (deliver_clients (Payload msg) order (set_broadcast rest h) h' c x) as (x' & Hx' & Hor);
      [rewrite Hb; apply NoDup_elements|done|done|]. exists x'. split; [done|].
    destruct Hor as [->|[_ ->]]; [apply grows_refl|apply grows_send].
  - destruct (picked h); [done|]. destruct (bool_decide _); [|done]. injection Hs as <-. cbn.
    eauto using grows_refl.
  - destruct (picked h) as [[d p]|]; [|done]. injection Hs as Hs.
    destruct (send_or_drop_clients d p _ h' c x Hs Hc) as (x' & Hx' & Hor). exists x'. split; [done|].
    destruct Hor as [->|[_ ->]]; [apply grows_refl|apply grows_send].
  - injection Hs as Hs. by eapply direct_send_grows.
  - apply plain_send_direct in Hs. by eapply direct_send_grows.
  - injection Hs as Hs. unfold write_frame, deref in Hs.
    destruct (clients h !! c0) as [y|] eqn:E; cbn [bind] in Hs; [|done].
    destruct (send y) as [|m l] eqn:Hq; injection Hs as <-; cbn; [eauto using grows_refl|].
    apply insert_grows; [done|]. intros ->. replace y with x by congruence. apply grows_same.
    unfold history. cbn. rewrite concat_app. cbn. by rewrite !app_nil_r.
Qed.

(** ** Crashes *)

Definition hello : json := JStr "hello".

(** A client subscribed to sale "s" as user "u", its registration served. *)
Definition one_client : list event := [EvConnect 0%nat; EvSubscribe 0%nat "s" "u"; EvRunRegister].

(** 257 messages while the client reads none: the last one finds the buffer
    full. Then the client disconnects. *)
Definition slow_client : list event :=
  (one_client ++ concat (repeat [EvPublish "s" hello; EvRunBroadcast [0%nat]] 257) ++
   [EvSpawned 0; EvUnregister 0%nat; EvRunUnregister; EvRunUnregister])%list.

(** The client disconnects before the hub has served its registration, and the
    select of Run takes the unregister channel first. *)
Definition quick_client : list event :=
  [EvConnect 0%nat; EvSubscribe 0%nat "s" "u"; EvUnregister 0%nat; EvRunUnregister; EvRunRegister;
   EvPublish "s" hello; EvRunBroadcast [0%nat]].

(** The client disconnects while the loop of PublishToUser is about to send. *)
Definition user_race : list event :=
  (one_client ++ [EvUserPick "u" hello 0%nat; EvUnregister 0%nat; EvRunUnregister; EvUserSend])%list.

(** C40. Three runs of an ordinary client that end the server process: a client
    that is slow once and then disconnects is unregistered twice and its
    channel closed twice; a client that disconnects at once is registered
    after its channel was closed, so that the next broadcast panics; a
    disconnect in the middle of PublishToUser makes it send on a closed
    channel. *)
Theorem ordinary_clients_crash_the_hub :
  steps slow_client NewHub = Some (inl "close of closed channel") /\
  steps quick_client NewHub = Some (inl "send on closed channel") /\
  steps user_race NewHub = Some (inl "send on closed channel").
Proof. split; [|split]; vm_compute; reflexivity. Qed.

(** ** The edges *)

Section Edges.
Context `{UuidLaws}.

(** C39. Publisher and subscriber meet: the channel the publisher uses for a sale
    is fanned out to the very room HandleWebSocket subscribes a client of that
    sale to, however the request spelled the id; for a user's channel this
    holds only for a client that spelled its user_id the way uuid.String does,
    since the handler keeps the text of the query. *)
Theorem fan_out_meets_subscription sale user saleIDStr userIDStr room_of user_of :
  uuid_Parse saleIDStr = inr sale -> uuid_Parse userIDStr = inr user -> userIDStr <> "" ->
  subscription saleIDStr userIDStr = Some (room_of, user_of) ->
  fan_out (saleChannel (uuid_String sale)) = Some room_of /\
  (fan_out (userChannel (uuid_String user)) = Some user_of <-> userIDStr = uuid_String user).
Proof.
  intros Hs Hu Hne. unfold subscription. rewrite Hs, Hu.
  rewrite (proj2 (String.eqb_neq _ _)) by done. intros [= <- <-]. unfold fan_out.
  assert (forall a b c, no_char ":"%char a = true -> no_char ":"%char b = true ->
    splitChannel (a ++ ":" ++ b ++ ":" ++ c) = [a; b; c]) as Hsplit.
  { intros a b c Ha Hb. by apply splitChannel_two. }
  split.
  - unfold saleChannel, sale_key. change ("sale:" ++ uuid_String sale ++ ":" ++ "pubsub")
      with ("sale" ++ ":" ++ uuid_String sale ++ ":" ++ "pubsub").
    rewrite Hsplit; [done|done|apply String_no_colon].
  - unfold userChannel. change ("user:" ++ uuid_String user ++ ":events")
      with ("user" ++ ":" ++ uuid_String user ++ ":" ++ "events").
    rewrite Hsplit; [|done|apply String_no_colon]. split; congruence.
Qed.
End Edges.

(** splitChannel only cuts: joined again with colons the parts give the
    channel back, there are one to three of them, and a name of the form
    kind:id:suffix, where kind and id hold no colon, is cut into these three
    whatever the suffix holds. *)
Theorem splitChannel_roundtrip channel :
  Join (splitChannel channel) = channel /\ (length (splitChannel channel) <= 3)%nat /\
  forall kind id suffix, no_char ":"%char kind = true -> no_char ":"%char id = true ->
    channel = kind ++ ":" ++ id ++ ":" ++ suffix -> splitChannel channel = [kind; id; suffix].
Proof.
  destruct (splitChannel_loop_join channel [] "") as [H1 H2]; [cbn; lia|]. split; [exact H1|].
  split; [exact H2|]. intros kind id suffix Hk Hi ->. by apply splitChannel_two.
Qed.
