(* ===== verification/RateLimit.v ===== *)
(** * internal/ratelimit/limiter.go: the token bucket limiter *)
From S2P Require Import Prelude GoStd Models Services Scripts World Keys RedisClient.
From Stdlib Require Import QArith.
Local Open Scope string_scope.
Local Open Scope Z_scope.
Local Open Scope prog_scope.

Module Limiter.

(** The float64 fields, by their value. *)
Record Limiter := mkLimiter { capacity : Q; ratePerSec : Q }.

Section Limiter.
Context `{FA : FloatArg}.

(** [time.Time.UnixMilli]. *)
Definition UnixMilli (t : Z) : Z := t / 1000000.

(** [Allow]: whether the request may pass, the tokens left, and the error. *)
Definition Allow (l : Limiter) (userID : string) : prog (error + bool * Z) :=
  let! t := invoke CNow in
  let! result := invoke (CEvalSha tokenBucketSHA [ratelimitKey userID]
    [format_float (capacity l); format_float (ratePerSec l); Itoa (UnixMilli t)]) in
  match result with
  | inl err => Ret (inl (Errorf_w "token bucket script failed" err))
  | inr x =>
      let! remaining := Client.as_int64 x in
      if remaining =? -1 then Ret (inr (false, 0)) else Ret (inr (true, remaining))
  end.
End Limiter.
End Limiter.
