(* ===== verification/RateLimitSpec.v ===== *)
(** * What the token bucket promises *)
From S2P Require Import Prelude GoStd Models Services Scripts World Keys Logic RedisClient.
From S2P Require Import RateLimit Ledger ExpirySpec.
From Stdlib Require Import QArith Qround.
Local Open Scope string_scope.
Local Open Scope Z_scope.
Import Limiter.

Section Bucket.
Context {R : Type} `{RL : RedisLaws R} `{LL : LuaNumLaws} `{FA : !FloatArg} `{FL : !FloatArgLaws}.

(** Integers of this size are exact floats. *)
Definition exact (n : Z) : Prop := -9007199254740992 <= n <= 9007199254740992.

Lemma lua_round_eq p q : (p == q)%Q -> (lua_round p == lua_round q)%Q.
Proof.
  intros E. apply Qle_antisym; apply lua_round_mono; rewrite E; apply Qle_refl.
Qed.

Lemma lua_round_exact q n : (q == inject_Z n)%Q -> exact n -> (lua_round q == inject_Z n)%Q.
Proof. intros E Hn. rewrite (lua_round_eq _ _ E). by apply lua_round_int. Qed.

(** A bucket is a value that two of its fields give, or nothing. *)
Inductive bucket := Fresh | Tokens (tokens last : Z).

(** The hash stored at [k] stands for the bucket. *)
Definition holds (d : gmap string rval) (k : string) (b : bucket) : Prop :=
  exists h, hash_at d k = Some h /\
  match b with
  | Fresh => h !! "tokens" = None
  | Tokens n t => exists s1 s2 q1 q2, h !! "tokens" = Some s1 /\ h !! "last_refill" = Some s2 /\
      lua_tonumber s1 = Some q1 /\ lua_tonumber s2 = Some q2 /\
      (q1 == inject_Z n)%Q /\ (q2 == inject_Z t)%Q
  end.

(** Tokens on arrival at the very instant of the last refill. *)
Definition level (capacity : Z) (b : bucket) : Z :=
  match b with Fresh => capacity | Tokens n _ => n end.

Definition at_time (now : Z) (b : bucket) : Prop :=
  match b with Fresh => True | Tokens _ t => t = now end.

(** No time has passed: nothing is added, and the level is cut at capacity. *)
Lemma bucket_refill_now capacity rate now tokens last c n t :
  (capacity == inject_Z c)%Q -> (now == inject_Z t)%Q -> (last == inject_Z t)%Q ->
  (tokens == inject_Z n)%Q -> exact n -> exact c -> n <= c ->
  (bucket_refill capacity rate now tokens last == inject_Z n)%Q.
Proof.
  intros Hc Hnow Hlast Ht Hn Hec Hle. unfold bucket_refill.
  assert (exact 0) as H0 by (unfold exact; lia).
  assert (lua_round (now - last) == 0)%Q as E1.
  { apply (lua_round_exact _ 0); [|done]. rewrite Hnow, Hlast. unfold Qminus. apply Qplus_opp_r. }
  assert (lua_round (lua_round (now - last) / 1000) == 0)%Q as E2.
  { apply (lua_round_exact _ 0); [|done]. rewrite E1. reflexivity. }
  assert (lua_round (lua_round (lua_round (now - last) / 1000) * rate) == 0)%Q as E3.
  { apply (lua_round_exact _ 0); [|done]. rewrite E2. apply Qmult_0_l. }
  assert (lua_round (tokens + lua_round (lua_round (lua_round (now - last) / 1000) * rate)) == inject_Z n)%Q
    as E4.
  { apply lua_round_exact; [|done]. rewrite E3, Ht. apply Qplus_0_r. }
  destruct (Qle_bool capacity _) eqn:E; [|exact E4].
  apply Qle_bool_iff in E. rewrite E4, Hc, <- Zle_Qle in E. assert (n = c) as -> by lia. exact Hc.
Qed.

Lemma Qle_bool_1 q n : (q == inject_Z n)%Q -> Qle_bool 1 q = (1 <=? n).
Proof.
  intros E. apply eq_true_iff_eq. rewrite Qle_bool_iff, E, Z.leb_le. change 1%Q with (inject_Z 1).
  by rewrite <- Zle_Qle.
Qed.

Lemma HMGET_bucket r k h f1 f2 : hash_at (dataset r) k = Some h ->
  answers (HMGET k [f1; f2] r) [h !! f1; h !! f2] (dataset r) (published r).
Proof. intros Hh. by apply (HMGET_spec r k h [f1; f2]). Qed.

(** The three arguments of the script. *)
Definition args_ok (l : Limiter) (c : Z) : Prop :=
  (capacity l == inject_Z c)%Q /\ exact c /\ 1 <= c /\ (lua_round (ratePerSec l) == ratePerSec l)%Q.

Lemma capacity_arg l c : args_ok l c ->
  exists q, lua_tonumber (format_float (capacity l)) = Some q /\ (q == inject_Z c)%Q.
Proof.
  intros (Hc & He & _ & _). destruct (tonumber_format_float (capacity l)) as (q & Hq & E).
  - rewrite (lua_round_eq _ _ Hc), Hc. by apply lua_round_int.
  - exists q. split; [exact Hq|]. rewrite E. exact Hc.
Qed.

Lemma rate_arg l c : args_ok l c -> exists q, lua_tonumber (format_float (ratePerSec l)) = Some q.
Proof.
  intros (_ & _ & _ & Hr). destruct (tonumber_format_float (ratePerSec l) Hr) as (q & Hq & _). eauto.
Qed.

Lemma now_arg t : exact t -> exists q, lua_tonumber (Itoa t) = Some q /\ (q == inject_Z t)%Q.
Proof.
  intros Ht. exists (lua_round (inject_Z t)). split; [|by apply lua_round_int].
  apply lua_tonumber_Itoa. unfold exact, int64, min_int64, max_int64 in *. lia.
Qed.

(** What an allowed request leaves in the hash. *)
Definition stored (h : gmap string string) (tokens now : Q) : gmap string string :=
  <["last_refill" := lua_tostring now]> (<["tokens" := lua_tostring tokens]> h).

Lemma stored_holds d k h tokens now n t :
  (tokens == inject_Z n)%Q -> (now == inject_Z t)%Q -> exact n -> exact t ->
  (exists q, tokens = lua_round q) -> (exists q, now = lua_round q) ->
  holds (<[k := RHash (stored h tokens now)]> d) k (Tokens n t).
Proof.
  intros Hn Ht _ _ [qn ->] [qt ->]. exists (stored h (lua_round qn) (lua_round qt)).
  split; [unfold hash_at; by rewrite lookup_insert_eq|].
  destruct (lua_tonumber_tostring qn) as (q1 & E1 & F1).
  destruct (lua_tonumber_tostring qt) as (q2 & E2 & F2).
  exists (lua_tostring (lua_round qn)), (lua_tostring (lua_round qt)), q1, q2. unfold stored.
  rewrite lookup_insert_ne, !lookup_insert_eq by done. repeat (split; [done|]).
  rewrite F1, F2. done.
Qed.

(** A request at the instant of the last refill takes one token, or is
    refused when none is left. *)
Lemma token_bucket_now r k l c t b :
  args_ok l c -> exact t -> holds (dataset r) k b -> at_time t b -> 0 <= level c b <= c ->
  exists x d, answers (token_bucket_lua k (format_float (capacity l)) (format_float (ratePerSec l)) (Itoa t) r)
    x d (published r) /\
    (forall k', k' <> k -> d !! k' = dataset r !! k') /\
    if 1 <=? level c b
    then x = LInt (level c b - 1) /\ holds d k (Tokens (level c b - 1) t)
    else x = LInt (-1) /\ d = dataset r.
Proof.
  intros Hargs Ht Hb Hat Hlev. pose proof Hargs as (_ & Hec & _ & _).
  destruct (capacity_arg l c Hargs) as (qc & Ec & Fc). destruct (rate_arg l c Hargs) as (qr & Er).
  destruct (now_arg t Ht) as (qt & Et & Ft). destruct Hb as (h & Hh & Hb).
  assert (exact (level c b)) as Hel by (unfold exact in *; lia).
  set (refill := match (h !! "tokens") ≫= lua_tonumber, (h !! "last_refill") ≫= lua_tonumber with
    | None, _ => Some (bucket_refill qc qr qt qc qt)
    | Some tokens, Some last => Some (bucket_refill qc qr qt tokens last)
    | Some _, None => None end).
  assert (exists tokens, refill = Some tokens /\ (tokens == inject_Z (level c b))%Q) as (tokens & Hr & Etok).
  { unfold refill. destruct b as [|n last]; cbn [level at_time] in *.
    - rewrite Hb. cbn. eexists. split; [done|]. by eapply bucket_refill_now.
    - destruct Hb as (s1 & s2 & q1 & q2 & -> & -> & H1 & H2 & F1 & F2). subst last. cbn.
      rewrite H1, H2. eexists. split; [done|]. eapply bucket_refill_now; eauto. lia. }
  assert (forall x d, (forall r1, dataset r1 = dataset r -> published r1 = published r ->
      answers ((if Qle_bool 1 tokens then
        lua_bind (HSET k [("tokens", lua_tostring (lua_round (tokens - 1))); ("last_refill", lua_tostring qt)])
          (fun _ => lua_bind (EXPIRE k 60) (fun _ => lua_ret (LInt (Qfloor (lua_round (tokens - 1))))))
       else lua_ret (LInt (-1))) r1) x d (published r)) ->
    answers (token_bucket_lua k (format_float (capacity l)) (format_float (ratePerSec l)) (Itoa t) r)
      x d (published r)) as Hrun.
  { intros x d H. unfold token_bucket_lua. eapply bind_answers; [by apply HMGET_bucket|].
    intros r1 Hd Hp. rewrite Ec, Er, Et. fold refill. rewrite Hr. by apply H. }
  rewrite (Qle_bool_1 _ _ Etok) in Hrun. destruct (1 <=? level c b) eqn:E; bool_to_prop.
  - assert (lua_round (tokens - 1) == inject_Z (level c b - 1))%Q as E1.
    { apply lua_round_exact; [|unfold exact in *; lia]. rewrite Etok.
      change (inject_Z (level c b) + inject_Z (-1) == inject_Z (level c b - 1))%Q.
      rewrite <- inject_Z_plus. reflexivity. }
    exists (LInt (level c b - 1)), (<[k := RHash (stored h (lua_round (tokens - 1)) qt)]> (dataset r)).
    split; [|split; [intros k' Hne; by rewrite lookup_insert_ne|split; [done|]]].
    + apply Hrun. intros r1 Hd Hp. rewrite <- Hd in Hh.
      pose proof (HSET_spec r1 k h [("tokens", lua_tostring (lua_round (tokens - 1)));
        ("last_refill", lua_tostring qt)] Hh) as Hs. cbn [fold_left fst snd] in Hs. rewrite Hd, Hp in Hs.
      eapply bind_answers; [exact Hs|]. intros r2 Hd2 Hp2.
      pose proof (EXPIRE_spec r2 k 60) as Hx. rewrite Hd2, Hp2 in Hx.
      eapply bind_answers; [exact Hx|]. intros r3 Hd3 Hp3. unfold lua_ret, answers. cbn.
      rewrite Hd3, Hp3. split; [|done]. do 2 f_equal. rewrite E1. apply Qfloor_Z.
    + apply stored_holds; [exact E1|exact Ft|unfold exact in *; lia|done|eauto|].
      exists (inject_Z t). rewrite lua_tonumber_Itoa in Et
        by (unfold exact, int64, min_int64, max_int64 in *; lia). congruence.
  - exists (LInt (-1)), (dataset r). split; [|done]. apply Hrun. intros r1 Hd Hp. done.
Qed.

Lemma bucket_refill_cap capacity rate now tokens last :
  (bucket_refill capacity rate now tokens last <= capacity)%Q.
Proof.
  unfold bucket_refill. destruct (Qle_bool capacity _) eqn:E; [apply Qle_refl|].
  apply Qnot_lt_le. intros Hlt. apply Qlt_le_weak, Qle_bool_iff in Hlt. congruence.
Qed.

Lemma remaining_range tokens qc c :
  (qc == inject_Z c)%Q -> exact c -> 1 <= c -> (tokens <= qc)%Q -> (1 <= tokens)%Q ->
  0 <= Qfloor (lua_round (tokens - 1)) <= c - 1.
Proof.
  intros Hc He H1 Hle Hge. split.
  - change 0 with (Qfloor 0). apply Qfloor_resp_le. rewrite <- (lua_round_int 0) by lia.
    apply lua_round_mono. change (inject_Z 0) with 0%Q. rewrite <- (Qplus_opp_r 1).
    apply Qplus_le_l. exact Hge.
  - rewrite <- (Qfloor_Z (c - 1)). apply Qfloor_resp_le.
    rewrite <- (lua_round_int (c - 1)) by (unfold exact in He; lia). apply lua_round_mono.
    change (c - 1) with (c + -1). rewrite inject_Z_plus. apply Qplus_le_l. by rewrite <- Hc.
Qed.

(** Whatever the bucket holds: the reply is an error, -1 or 0 to capacity - 1,
    and only the bucket is written. *)
Lemma token_bucket_any r k l c a3 :
  args_ok l c ->
  let res := token_bucket_lua k (format_float (capacity l)) (format_float (ratePerSec l)) a3 r in
  only_key k r (snd res) /\
  match fst res with
  | inl _ => True
  | inr (LInt z) => z = -1 \/ 0 <= z <= c - 1
  | inr _ => False
  end.
Proof.
  intros Hargs. pose proof Hargs as (_ & Hec & H1 & _).
  destruct (capacity_arg l c Hargs) as (qc & Ec & Fc). destruct (rate_arg l c Hargs) as (qr & Er).
  cbn zeta. unfold token_bucket_lua, lua_bind.
  pose proof (HMGET_read r k ["tokens"; "last_refill"]) as Hread.
  destruct (HMGET k _ r) as [[e|bk] r1]; cbn [snd] in Hread.
  { split; [|exact I]. intros k' _. cbn. by rewrite Hread. }
  assert (forall x, only_key k r (snd (lua_fail (X := lua_value) x r1)) /\ True) as Hfail.
  { intros x. split; [|done]. intros k' _. cbn. by rewrite Hread. }
  destruct bk as [|b1 [|b2 [|? ?]]]; try apply Hfail. rewrite Ec, Er.
  destruct (lua_tonumber a3) as [qt|]; [|apply Hfail].
  assert (forall tokens, match b1 ≫= lua_tonumber, b2 ≫= lua_tonumber with
    | None, _ => Some (bucket_refill qc qr qt qc qt)
    | Some tokens, Some last => Some (bucket_refill qc qr qt tokens last)
    | Some _, None => None end = Some tokens -> (tokens <= qc)%Q) as Hcap.
  { intros tokens. destruct (b1 ≫= lua_tonumber), (b2 ≫= lua_tonumber); try done;
      intros [= <-]; apply bucket_refill_cap. }
  destruct (match b1 ≫= lua_tonumber with Some _ => _ | None => _ end) as [tokens|]; [|apply Hfail].
  specialize (Hcap tokens eq_refl) as Hle.
  destruct (Qle_bool 1 tokens) eqn:Eq.
  - apply Qle_bool_iff in Eq.
    pose proof (HSET_only r1 k [("tokens", lua_tostring (lua_round (tokens - 1)));
      ("last_refill", lua_tostring qt)]) as Hset.
    destruct (HSET k _ r1) as [[e|[]] r2]; cbn [snd] in Hset.
    { split; [|done]. intros k' Hne. cbn. by rewrite Hset, Hread by done. }
    destruct (EXPIRE_spec r2 k 60) as (X1 & X2 & X3).
    destruct (EXPIRE k 60 r2) as [x r3]. cbn in X1, X2. subst x. split.
    + intros k' Hne. cbn. by rewrite X2, Hset, Hread by done.
    + cbn. right. by eapply remaining_range.
  - split; [|by left]. intros k' _. cbn. by rewrite Hread.
Qed.
End Bucket.

(** ** The limiter *)

Section Limiter.
Context {R D : Type} `{RL : RedisLaws R} `{LL : LuaNumLaws} `{FA : !FloatArg} `{FL : !FloatArgLaws}
  `{PL : PostgresLaws D} `{O : Oracle}.
#[local] Abbreviation wp := (wp (R := R) (D := D)).

(** Nothing but one key of Redis differs. *)
Definition only_bucket (userID : string) (v v' : view) : Prop :=
  v_db v' = v_db v /\ v_metrics v' = v_metrics v /\
  forall k, k <> ratelimitKey userID -> v_data v' !! k = v_data v !! k.

Lemma wp_allow_any `{NL : !NoLostReplies} l c userID v :
  args_ok l c ->
  wp (Allow l userID) v (fun o v' => only_bucket userID v v' /\
    exists res, o = Ok res /\
      forall ok n, res = inr (ok, n) -> if (ok : bool) then 0 <= n <= c - 1 else n = 0).
Proof.
  intros Hargs. unfold Allow. apply wp_bind, wp_now. intros t. cbn [then_wp]. apply wp_bind.
  apply (wp_redis _ (eval_script tokenBucketSHA [ratelimitKey userID]
    [format_float (capacity l); format_float (ratePerSec l); Itoa (UnixMilli t)])); [done| |].
  { intros _ e. apply wp_ret. split; [done|]. eexists. by split. }
  intros r Hd Hp. unfold eval_script. cbn [run_script].
  destruct (token_bucket_any r (ratelimitKey userID) l c (Itoa (UnixMilli t)) Hargs) as [Honly Hres].
  destruct (token_bucket_lua _ _ _ _ r) as [x r']. cbn [fst snd] in *.
  assert (only_bucket userID v (mkView (dataset r') (published r') (v_db v) (v_metrics v))) as Hb.
  { split; [done|]. split; [done|]. intros k Hk. cbn. by rewrite Honly, Hd. }
  destruct x as [e|[z|z|]]; cbn [fst snd then_wp]; try done.
  - apply wp_ret. split; [exact Hb|]. eexists. by split.
  - cbn [Client.as_int64 pbind]. destruct (Z.eqb_spec z (-1)) as [->|Hne]; apply wp_ret;
      (split; [exact Hb|]); eexists; (split; [done|]); intros ok n [= <- <-]; [done|lia].
Qed.

(** C29. Whatever the bucket of a user holds and whatever the clock reads, Allow
    does not panic; an allowed request is told 0 to capacity - 1 remaining
    tokens, a refused one 0; and nothing but the user's bucket is written. *)
Theorem allow_in_range `{NL : !NoLostReplies} l c userID v :
  args_ok l c ->
  wp (Allow l userID) v (fun o v' => only_bucket userID v v' /\
    exists res, o = Ok res /\
      forall ok n, res = inr (ok, n) -> if (ok : bool) then 0 <= n <= c - 1 else n = 0).
Proof. apply wp_allow_any. Qed.

Fixpoint burst (l : Limiter) (userID : string) (n : nat) : prog (list (error + bool * Z)) :=
  match n with
  | 0%nat => Ret []
  | S m => pbind (Allow l userID) (fun x => pbind (burst l userID m) (fun xs => Ret (x :: xs)))
  end.

(** The answers when [m] tokens are left. *)
Fixpoint burst_answers (m : Z) (n : nat) : list (error + bool * Z) :=
  match n with
  | 0%nat => []
  | S n' =>
      if 1 <=? m then inr (true, m - 1) :: burst_answers (m - 1) n'
      else inr (false, 0) :: burst_answers m n'
  end.

Lemma wp_burst `{NF : !NoFaults} l c userID t n : forall b v,
  args_ok l c -> exact t -> (forall k, UnixMilli (time_at k) = t) ->
  holds (v_data v) (ratelimitKey userID) b -> at_time t b -> 0 <= level c b <= c ->
  wp (burst l userID n) v (fun o _ => o = Ok (burst_answers (level c b) n)).
Proof.
  induction n as [|n IH]; intros b v Hargs Ht Hclock Hb Hat Hlev; cbn [burst burst_answers].
  { by apply wp_ret. }
  apply wp_bind. unfold Allow. apply wp_bind, wp_now_at. intros k. cbn [then_wp].
  rewrite Hclock. apply wp_bind.
  apply (wp_redis _ (eval_script tokenBucketSHA [ratelimitKey userID]
    [format_float (capacity l); format_float (ratePerSec l); Itoa t])); [done|no_drop|].
  intros r Hd Hp. unfold eval_script. cbn [run_script]. rewrite <- Hd in Hb.
  destruct (token_bucket_now r (ratelimitKey userID) l c t b Hargs Ht Hb Hat Hlev)
    as (x & d & (Hx & Hdx & Hpx) & _ & Hcase).
  destruct (token_bucket_lua _ _ _ _ r) as [y r']. cbn [fst snd] in *. subst y.
  destruct (1 <=? level c b) eqn:E; bool_to_prop.
  - destruct Hcase as [-> Hd']. cbn [fst snd then_wp Client.as_int64 pbind].
    rewrite (proj2 (Z.eqb_neq _ _)) by lia. apply wp_ret. cbn [then_wp]. apply wp_bind.
    eapply wp_mono; [apply (IH (Tokens (level c b - 1) t)); try done|].
    + cbn. by rewrite Hdx.
    + cbn [level]. lia.
    + intros o v' ->. by apply wp_ret.
  - destruct Hcase as [-> ->]. cbn [fst snd then_wp Client.as_int64 pbind].
    apply wp_ret. cbn [then_wp]. apply wp_bind.
    eapply wp_mono; [apply (IH b); try done; cbn; by rewrite Hdx|].
    intros o v' ->. by apply wp_ret.
Qed.

Lemma burst_answers_length n : forall m, length (burst_answers m n) = n.
Proof. induction n as [|n IH]; intros m; cbn; [done|]. case_match; cbn; by rewrite IH. Qed.

Lemma burst_answers_lookup n : forall m i, (i < n)%nat -> 0 <= m ->
  burst_answers m n !! i =
  Some (inr (if Z.of_nat i <? m then (true, m - 1 - Z.of_nat i) else (false, 0))).
Proof.
  induction n as [|n IH]; intros m i Hi Hm; [lia|]. cbn [burst_answers].
  destruct (Z.leb_spec 1 m) as [Hle|Hgt], i as [|i]; cbn [lookup list_lookup]; try rewrite IH by lia.
  - rewrite (proj2 (Z.ltb_lt _ _)) by lia. do 3 f_equal. lia.
  - destruct (Z.ltb_spec (Z.of_nat i) (m - 1)), (Z.ltb_spec (Z.of_nat (S i)) m); try lia; [|done].
    do 3 f_equal. lia.
  - by rewrite (proj2 (Z.ltb_ge _ _)) by lia.
  - rewrite !(proj2 (Z.ltb_ge _ _)) by lia. done.
Qed.

(** C28. A user who was away for a minute, and so has no bucket, and then sends [n]
    requests within one millisecond gets exactly the first [capacity] of them
    through, told capacity - 1, capacity - 2, ..., 0 remaining tokens. *)
Theorem burst_allows_capacity `{NF : !NoFaults} l c userID t n v :
  args_ok l c -> exact t -> (forall k, UnixMilli (time_at k) = t) ->
  v_data v !! ratelimitKey userID = None ->
  wp (burst l userID n) v (fun o _ => exists xs, o = Ok xs /\ length xs = n /\
    forall i, (i < n)%nat -> xs !! i =
      Some (inr (if Z.of_nat i <? c then (true, c - 1 - Z.of_nat i) else (false, 0)))).
Proof.
  intros Hargs Ht Hclock Hnone. pose proof Hargs as (_ & _ & H1 & _).
  eapply wp_mono; [apply (wp_burst l c userID t n Fresh); try done; [|cbn; lia]|].
  - exists ∅. unfold hash_at. by rewrite Hnone.
  - intros o v' ->. eexists. split; [done|]. split; [apply burst_answers_length|].
    intros i Hi. apply burst_answers_lookup; cbn; lia.
Qed.
End Limiter.
