(* ===== verification/Metrics.v ===== *)
(** * internal/metrics and internal/slo

    The collectors the program registers, the series each metric call updates,
    and the budgets of the service level objectives. The counting itself is
    Prometheus's; the order of the updates is in [w_metrics] of World.v. *)
From S2P Require Import Prelude GoStd Models Services Scripts World.
From Stdlib Require Import QArith.
Local Open Scope string_scope.
Local Open Scope Q_scope.

(** ** internal/metrics/metrics.go *)

Module Metrics.

Inductive kind := CounterVec | HistogramVec | GaugeVec | Counter | Gauge.

Record collector := mkCollector {
  type : kind;
  Name : string;
  Help : string;
  Buckets : list Q;
  variableLabels : list string
}.

Definition ReservationTotal : collector :=
  mkCollector CounterVec "reservation_total" "Total reservation attempts" [] ["sale_id"; "result"].
Definition ReservationDuration : collector :=
  mkCollector HistogramVec "reservation_duration_seconds" "Reservation request duration"
    [5 # 1000; 10 # 1000; 25 # 1000; 50 # 1000; 100 # 1000; 250 # 1000; 500 # 1000; 1] ["sale_id"].
Definition StockLevel : collector :=
  mkCollector GaugeVec "stock_available" "Current available stock" [] ["sale_id"].
Definition WaitlistDepth : collector :=
  mkCollector GaugeVec "waitlist_depth" "Current waitlist size" [] ["sale_id"].
Definition RateLimitedTotal : collector :=
  mkCollector CounterVec "rate_limited_total" "Requests rejected by rate limiter" [] ["user_id"].
Definition ReconciliationCorrections : collector :=
  mkCollector Counter "reconciliation_corrections_total" "Redis/Postgres drift corrections" [] [].
Definition WebSocketConnections : collector :=
  mkCollector Gauge "websocket_connections_active" "Active WebSocket connections" [] [].
Definition HTTPRequestsTotal : collector :=
  mkCollector CounterVec "http_requests_total" "Total HTTP requests" [] ["route"; "method"; "status"].

(** What promauto registers when the package is loaded. *)
Definition registered : list collector :=
  [ReservationTotal; ReservationDuration; StockLevel; WaitlistDepth; RateLimitedTotal;
   ReconciliationCorrections; WebSocketConnections; HTTPRequestsTotal].

(** ** The series of an update *)

Definition collector_of (m : metric) : collector :=
  match m with
  | World.ReservationTotal _ _ => ReservationTotal
  | World.ReservationDuration _ _ => ReservationDuration
  | World.StockLevel _ _ => StockLevel
  | World.ReconciliationCorrections _ => ReconciliationCorrections
  | World.RateLimitedTotal _ => RateLimitedTotal
  | World.HTTPRequestsTotal _ _ _ => HTTPRequestsTotal
  end.

(** The arguments of [WithLabelValues]. *)
Definition label_values (m : metric) : list string :=
  match m with
  | World.ReservationTotal s r => [s; r]
  | World.ReservationDuration s _ => [s]
  | World.StockLevel s _ => [s]
  | World.ReconciliationCorrections _ => []
  | World.RateLimitedTotal u => [u]
  | World.HTTPRequestsTotal route meth status => [route; meth; status]
  end.

(** [vec.WithLabelValues(labels...).Inc()]: client_golang panics when a label is
    not UTF-8. The labels that are sale ids or fixed words need no such test. *)
Definition IncWithLabelValues (m : metric) : prog unit :=
  if forallb utf8_ValidString (label_values m) then invoke (CMetric m)
  else Panic "label value is not valid UTF-8".
End Metrics.

(** ** internal/slo/budgets.go *)

Module Slo.
Definition AvailabilitySLO : Q := 999 # 1000.
Definition LatencyP99TargetSeconds : Q := 1 # 10.
Definition LatencyErrorBudget : Q := 1 # 100.
Definition CorrectnessTarget : Q := 1.

(** The requests that may fail in [seconds] at [rate] requests a second. *)
Definition error_budget (rate seconds : Q) : Q := (1 - AvailabilitySLO) * rate * seconds.
End Slo.
