(* ===== verification/Http.v ===== *)
(** * internal/api: handlers, middleware and routes

    A request is what net/http and chi hand to a handler; its body is given by
    what encoding/json makes of it for each request type. A handler is a
    program that ends with a response. *)
From S2P Require Import Prelude GoStd Models Services Scripts World Keys RedisClient Reservation.
From S2P Require Import Inventory RateLimit Metrics.
From Stdlib Require Import Ascii.
Local Open Scope string_scope.
Local Open Scope Z_scope.
Local Open Scope prog_scope.

Module Http.

Inductive Method := MethodGet | MethodPost | MethodPatch | MethodDelete | MethodOther (name : string).

Definition method_name (m : Method) : string :=
  match m with
  | MethodGet => "GET" | MethodPost => "POST" | MethodPatch => "PATCH" | MethodDelete => "DELETE"
  | MethodOther s => s
  end.

(** internal/api/handlers: the request types. *)
Record ReserveRequest := mkReserveRequest { ReqUserID : uuid; ReqItemID : uuid }.
Record JoinWaitlistRequest := mkJoinRequest { JoinUserID : uuid }.
Record UpdateStatusRequest := mkStatusRequest { ReqStatus : SaleStatus }.
Record CreateSaleRequest := mkCreateRequest {
  ReqName : string; ReqTotalStock : Z; ReqStartTime : Z; ReqEndTime : Z
}.

(** [json.NewDecoder(r.Body).Decode(&req)], by the type of [req]: [None] is an
    error. *)
Record Body := mkBody {
  as_reserve : option ReserveRequest;
  as_join : option JoinWaitlistRequest;
  as_status : option UpdateStatusRequest;
  as_create : option CreateSaleRequest
}.

(** [path] is the URL path cut at its slashes; an absent header or query
    parameter is the empty string, as [Get] returns it. *)
Record Request := mkRequest {
  method : Method;
  path : list string;
  query_user_id : string;
  header_user_id : string;
  header_idempotency_key : string;
  RemoteAddr : string;
  body : Body
}.

Inductive Payload :=
| NoBody
| Text (s : string)
| ReservationJSON (r : Reservation)
| OrderJSON (o : Order)
| SaleResponse (s : Sale) (stats : option SaleStats)
| JoinJSON (r : WaitlistService.JoinResponse)
| PositionJSON (r : WaitlistService.PositionResponse).

Record Response := mkResponse {
  statusCode : Z;
  headers : list (string * string);
  payload : Payload
}.

(** [http.Error]: the text and a newline. *)
Definition Error (msg : string) (code : Z) : Response :=
  mkResponse code [("Content-Type", "text/plain; charset=utf-8"); ("X-Content-Type-Options", "nosniff")]
    (Text (msg ++ String "010"%char "")).

Definition JSON (code : Z) (p : Payload) : Response :=
  mkResponse code [("Content-Type", "application/json")] p.

Definition NoContent : Response := mkResponse 204 [] NoBody.

Section Handlers.
Context `{UL : UuidLib} `{FA : FloatArg}.

(** [uuid.Parse(chi.URLParam(r, name))] and the early return on its error. *)
Definition with_uuid (s msg : string) (k : uuid -> prog Response) : prog Response :=
  match uuid_Parse s with
  | inl _ => Ret (Error msg 400)
  | inr id => k id
  end.

(** Decode the body, or answer 400. *)
Definition with_body {T} (req : option T) (k : T -> prog Response) : prog Response :=
  match req with
  | None => Ret (Error "Invalid request body" 400)
  | Some x => k x
  end.

(** ** handlers/reservations.go *)

Definition Reserve (svc : ReservationService.Service) (idStr : string) (r : Request) : prog Response :=
  with_uuid idStr "Invalid sale ID" (fun saleID =>
  with_body (as_reserve (body r)) (fun req =>
    let! res := ReservationService.Reserve svc (ReqUserID req) saleID (ReqItemID req)
      (header_idempotency_key r) in
    match res with
    | inl err =>
        if String.eqb err "sold out" then Ret (Error "Sold out" 409) else Ret (Error err 500)
    | inr reservation => Ret (JSON 201 (ReservationJSON reservation))
    end)).

Definition Confirm (idStr : string) (r : Request) : prog Response :=
  with_uuid idStr "Invalid reservation ID" (fun reservationID =>
    let! res := ReservationService.Confirm reservationID (header_idempotency_key r) in
    match res with
    | inl err => Ret (Error err 500)
    | inr order => Ret (JSON 200 (OrderJSON order))
    end).

Definition Release (svc : ReservationService.Service) (idStr : string) : prog Response :=
  with_uuid idStr "Invalid reservation ID" (fun reservationID =>
    let! res := ReservationService.Release svc reservationID in
    match res with
    | Some err => Ret (Error err 500)
    | None => Ret NoContent
    end).

(** ** handlers/sales.go *)

Definition CreateSale (r : Request) : prog Response :=
  with_body (as_create (body r)) (fun req =>
    let! res := InventoryService.CreateSale
      (mkSale 0%N (ReqName req) (ReqTotalStock req) (ReqStartTime req) (ReqEndTime req) "" 0) in
    match res with
    | (_, Some err) => Ret (Error err 500)
    | (sale, None) => Ret (JSON 201 (SaleResponse sale None))
    end).

Definition GetSale (idStr : string) : prog Response :=
  with_uuid idStr "Invalid sale ID" (fun saleID =>
    let! res := InventoryService.GetSale saleID in
    match res with
    | inl err => Ret (Error err 404)
    | inr (sale, stats) => Ret (JSON 200 (SaleResponse sale (Some stats)))
    end).

Definition UpdateSaleStatus (idStr : string) (r : Request) : prog Response :=
  with_uuid idStr "Invalid sale ID" (fun saleID =>
  with_body (as_status (body r)) (fun req =>
    let! res := InventoryService.UpdateSaleStatus saleID (ReqStatus req) in
    match res with
    | Some err => Ret (Error err 500)
    | None => Ret NoContent
    end)).

(** ** handlers/waitlist.go *)

Definition Join (idStr : string) (r : Request) : prog Response :=
  with_uuid idStr "Invalid sale ID" (fun saleID =>
  with_body (as_join (body r)) (fun req =>
    let! res := WaitlistService.Join saleID (JoinUserID req) in
    match res with
    | inl err =>
        if String.eqb err "stock available" then
          Ret (Error "Stock available, please reserve directly" 409)
        else if String.eqb err "already in waitlist" then Ret (Error "Already in waitlist" 409)
        else Ret (Error err 500)
    | inr response => Ret (JSON 201 (JoinJSON response))
    end)).

Definition GetPosition (idStr : string) (r : Request) : prog Response :=
  with_uuid idStr "Invalid sale ID" (fun saleID =>
    if String.eqb (query_user_id r) "" then Ret (Error "user_id query parameter required" 400)
    else with_uuid (query_user_id r) "Invalid user ID" (fun userID =>
      let! res := WaitlistService.GetPosition saleID userID in
      match res with
      | inl _ => Ret (Error "User not in waitlist" 404)
      | inr response => Ret (JSON 200 (PositionJSON response))
      end)).

Definition Leave (idStr : string) (r : Request) : prog Response :=
  with_uuid idStr "Invalid sale ID" (fun saleID =>
  with_body (as_join (body r)) (fun req =>
    let! res := WaitlistService.Leave saleID (JoinUserID req) in
    match res with
    | Some err => Ret (Error err 500)
    | None => Ret NoContent
    end)).

(** ** handlers/orders.go *)

Definition GetOrder (idStr : string) : prog Response :=
  with_uuid idStr "Invalid order ID" (fun orderID =>
    let! row := invoke (CRow (SelectOrder orderID)) in
    match row with
    | inl _ => Ret (Error "Order not found" 404)
    | inr order => Ret (JSON 200 (OrderJSON order))
    end).

(** ** healthz.go *)

Definition HealthzHandler (reconciliationComplete : bool) : Response :=
  if reconciliationComplete then mkResponse 200 [] (Text "OK")
  else mkResponse 503 [] (Text "Reconciliation in progress").

(** ** ratelimit_middleware.go *)

Definition limited_user (r : Request) : string :=
  if String.eqb (header_user_id r) "" then RemoteAddr r else header_user_id r.

Definition RateLimitMiddleware (limiter : Limiter.Limiter) (r : Request) (next : prog Response)
  : prog Response :=
  let userID := limited_user r in
  let! res := Limiter.Allow limiter userID in
  match res with
  | inl _ => Ret (Error "Rate limiter error" 500)
  | inr (false, _) =>
      let! _ := Metrics.IncWithLabelValues (RateLimitedTotal userID) in
      let e := Error "Rate limit exceeded" 429 in
      Ret (mkResponse (statusCode e)
        ([("Retry-After", "1"); ("X-RateLimit-Remaining", "0")] ++ headers e)%list (payload e))
  | inr (true, remaining) =>
      let! resp := next in
      Ret (mkResponse (statusCode resp)
        (("X-RateLimit-Remaining", Itoa remaining) :: headers resp) (payload resp))
  end.

(** ** middleware.go and metrics_middleware.go *)

(** [defer recover()]: how a program ended, as a value. *)
Fixpoint catch {A} (p : prog A) : prog (outcome A) :=
  match p with
  | Ret a => Ret (Ok a)
  | Panic m => Ret (Panicked m)
  | Vis c k => Vis c (fun x => catch (k x))
  end.

Definition RecoveryMiddleware (next : prog Response) : prog Response :=
  let! o := catch next in
  match o with
  | Ok resp => Ret resp
  | Panicked _ => Ret (Error "Internal server error" 500)
  end.

(** [r.URL.Path] *)
Definition URLPath (r : Request) : string := String.concat "" (map (fun s => "/" ++ s) (path r)).

(** The response has been written when the counter is incremented. *)
Definition MetricsMiddleware (pattern : string) (r : Request) (next : prog Response) : prog Response :=
  let! resp := next in
  let routePattern := if String.eqb pattern "" then URLPath r else pattern in
  let! _ := Metrics.IncWithLabelValues (HTTPRequestsTotal routePattern (method_name (method r))
    (Itoa (statusCode resp))) in
  Ret resp.

(** ** router.go *)

Record Server := mkServer {
  service : ReservationService.Service;
  rateLimiter : Limiter.Limiter;
  reconciliationComplete : bool
}.

(** The route of a request: its pattern and its handler. *)
Definition route (s : Server) (r : Request) : option (string * prog Response) :=
  match method r, path r with
  | MethodGet, ["healthz"] => Some ("/healthz", Ret (HealthzHandler (reconciliationComplete s)))
  | MethodPost, ["api"; "sales"] => Some ("/api/sales", CreateSale r)
  | MethodGet, ["api"; "sales"; id] => Some ("/api/sales/{id}", GetSale id)
  | MethodPatch, ["api"; "sales"; id; "status"] =>
      Some ("/api/sales/{id}/status", UpdateSaleStatus id r)
  | MethodPost, ["api"; "sales"; id; "reserve"] =>
      Some ("/api/sales/{id}/reserve", RateLimitMiddleware (rateLimiter s) r (Reserve (service s) id r))
  | MethodPost, ["api"; "sales"; id; "waitlist"] =>
      Some ("/api/sales/{id}/waitlist", RateLimitMiddleware (rateLimiter s) r (Join id r))
  | MethodGet, ["api"; "sales"; id; "waitlist"; "position"] =>
      Some ("/api/sales/{id}/waitlist/position", GetPosition id r)
  | MethodDelete, ["api"; "sales"; id; "waitlist"] => Some ("/api/sales/{id}/waitlist", Leave id r)
  | MethodPost, ["api"; "reservations"; id; "confirm"] =>
      Some ("/api/reservations/{id}/confirm", Confirm id r)
  | MethodDelete, ["api"; "reservations"; id] => Some ("/api/reservations/{id}", Release (service s) id)
  | MethodGet, ["api"; "orders"; id] => Some ("/api/orders/{id}", GetOrder id)
  | _, _ => None
  end.

(** A routed request through the middleware of NewRouter; [None] is a request
    none of these routes takes (chi's 404 and 405, and the /metrics and /ws
    routes, whose handlers are promhttp's and that of Sessions.v). *)
Definition ServeHTTP (s : Server) (r : Request) : option (prog Response) :=
  match route s r with
  | None => None
  | Some (pattern, handler) => Some (MetricsMiddleware pattern r (RecoveryMiddleware handler))
  end.

(** What chi names a route, and the methods of the routes, are plain words. *)
Lemma route_words (s : Server) (r : Request) pattern h :
  route s r = Some (pattern, h) ->
  pattern <> "" /\ utf8_ValidString pattern = true /\ utf8_ValidString (method_name (method r)) = true.
Proof.
  unfold route. destruct (method r) eqn:Hm; repeat (match goal with
    | |- match ?x with _ => _ end = _ -> _ => destruct x
    end; try discriminate); by intros [= <- <-].
Qed.

(** The counter of a routed request takes its labels. *)
Lemma request_counted s r pattern h code : route s r = Some (pattern, h) ->
  Metrics.IncWithLabelValues (HTTPRequestsTotal (if String.eqb pattern "" then URLPath r else pattern)
    (method_name (method r)) (Itoa code)) =
  invoke (CMetric (HTTPRequestsTotal pattern (method_name (method r)) (Itoa code))).
Proof.
  intros (Hne & Hp & Hm)%route_words. apply String.eqb_neq in Hne. rewrite Hne.
  unfold Metrics.IncWithLabelValues. cbn [forallb Metrics.label_values]. by rewrite Hp, Hm, Itoa_utf8.
Qed.

(** A property of every handler is a property of what a request is routed to. *)
Lemma route_handlers (P : prog Response -> Prop) (s : Server) (r : Request) :
  P (Ret (HealthzHandler (reconciliationComplete s))) ->
  (method r = MethodPost -> path r = ["api"; "sales"] -> P (CreateSale r)) ->
  (forall id, P (GetSale id)) -> (forall id, P (UpdateSaleStatus id r)) ->
  (forall id, P (RateLimitMiddleware (rateLimiter s) r (Reserve (service s) id r))) ->
  (forall id, P (RateLimitMiddleware (rateLimiter s) r (Join id r))) ->
  (forall id, P (GetPosition id r)) -> (forall id, P (Leave id r)) ->
  (forall id, method r = MethodPost -> path r = ["api"; "reservations"; id; "confirm"] -> P (Confirm id r)) ->
  (forall id, method r = MethodDelete -> path r = ["api"; "reservations"; id] -> P (Release (service s) id)) ->
  (forall id, P (GetOrder id)) ->
  forall pattern h, route s r = Some (pattern, h) -> P h.
Proof.
  intros H1 H2 H3 H4 H5 H6 H7 H8 H9 H10 H11 pattern h. unfold route.
  remember (path r) as l eqn:Hl. symmetry in Hl.
  destruct (method r) eqn:Hm; repeat (match goal with
    | |- match ?x with _ => _ end = _ -> _ => destruct x
    end; try discriminate); intros [= <- <-]; auto.
Qed.
End Handlers.
End Http.
