(* ===== verification/Sessions.v ===== *)
(** * internal/websocket/handler.go: the handler that uses the hub

    The other handlers make calls to Redis and PostgreSQL and return; this one
    also sends on the channels of the hub, where it can wait, and can panic on a
    channel the hub has closed. It is a [session]: its calls and its sends, one
    by one, with the other goroutines of the hub moving in between. *)
From S2P Require Import Prelude GoStd Models Services Scripts World Keys RedisClient.
From S2P Require Import Inventory Hub Metrics Http.
Local Open Scope string_scope.
Local Open Scope Z_scope.

Module Session.
Import Http.

(** ** Programs that use the hub *)

(** [SHub e k]: the operation [e] of this goroutine on the hub. It waits until
    [e] is possible; [k] is told the panic of [e], if it panics. *)
Inductive session (A : Type) : Type :=
| SRet (a : A)
| SPanic (msg : string)
| SCall {X : Type} (c : call X) (k : X -> session A)
| SHub (e : Hub.event) (k : option string -> session A).
Arguments SRet {A}. Arguments SPanic {A}. Arguments SCall {A X}. Arguments SHub {A}.

Fixpoint sbind {A B} (s : session A) (f : A -> session B) : session B :=
  match s with
  | SRet a => f a
  | SPanic m => SPanic m
  | SCall c k => SCall c (fun x => sbind (k x) f)
  | SHub e k => SHub e (fun r => sbind (k r) f)
  end.

Declare Scope session_scope.
Delimit Scope session_scope with session.
Bind Scope session_scope with session.
Notation "'let*' x ':=' p 'in' k" := (sbind p (fun x => k))
  (at level 10, x binder, p at level 200, k at level 200) : session_scope.
Local Open Scope session_scope.

Fixpoint of_prog {A} (p : prog A) : session A :=
  match p with
  | Ret a => SRet a
  | Panic m => SPanic m
  | Vis c k => SCall c (fun x => of_prog (k x))
  end.

Definition hub_op (e : Hub.event) : session unit :=
  SHub e (fun r => match r with None => SRet tt | Some m => SPanic m end).

(** The calls a session makes to Redis and PostgreSQL while nothing on the hub
    goes wrong. A goroutine that waits on the hub makes no further call, like
    one that is not scheduled again. *)
Fixpoint calls_of {A} (s : session A) : prog A :=
  match s with
  | SRet a => Ret a
  | SPanic m => Panic m
  | SCall c k => Vis c (fun x => calls_of (k x))
  | SHub _ k => calls_of (k None)
  end.

(** ** Response writers *)

(** Whether [w.(http.Hijacker)] succeeds. *)
Record ResponseWriter := mkWriter { Hijacker : bool }.

(** metrics_middleware.go: the struct embeds the interface http.ResponseWriter,
    whose methods are Header, Write and WriteHeader; it has no method Hijack and
    no Unwrap, whatever it wraps. *)
Definition newResponseWriter (w : ResponseWriter) : ResponseWriter := mkWriter false.

(** ** The handler *)

(** A refused request, one gorilla could not take over (it answers itself), or
    the room and the user of a connection. *)
Inductive Upgraded :=
| Refused (r : Response)
| NotUpgraded (r : Response)
| Connected (sale user : string).

Section Handler.
Context `{UL : UuidLib}.

Definition snapshot (stats : SaleStats) : json :=
  Publisher.Event "stock_update" [("remaining", JNum (Available stats))].

(** The first message is sent before the pumps are started, so nothing takes it
    out of the buffer. *)
Definition send_snapshot (c : Hub.cid) (res : error + Sale * SaleStats) : session unit :=
  match res with
  | inl _ => SRet tt
  | inr (_, stats) => hub_op (Hub.EvSend c (snapshot stats))
  end.

(** [upgrade] is [upgrader.Upgrade]: [None], or the response of its error; [c] is
    the address [NewClient] allocates. *)
Definition HandleWebSocket (upgrade : ResponseWriter -> option Response) (w : ResponseWriter)
    (c : Hub.cid) (saleIDStr userIDStr : string) : session Upgraded :=
  match uuid_Parse saleIDStr, Hub.subscription saleIDStr userIDStr with
  | inr saleID, Some (sale, user) =>
      match upgrade w with
      | Some err => SRet (NotUpgraded err)
      | None =>
          let* _ := hub_op (Hub.EvConnect c) in
          let* _ := hub_op (Hub.EvSubscribe c sale user) in
          let* res := of_prog (InventoryService.GetSale saleID) in
          let* _ := send_snapshot c res in
          SRet (Connected sale user)
      end
  | _, _ => SRet (Refused (Error "Invalid sale ID" 400))
  end.

(** ** Its route *)

(** [defer recover()] *)
Fixpoint scatch {A} (s : session A) : session (outcome A) :=
  match s with
  | SRet a => SRet (Ok a)
  | SPanic m => SRet (Panicked m)
  | SCall c k => SCall c (fun x => scatch (k x))
  | SHub e k => SHub e (fun r => scatch (k r))
  end.

(** What the writer of the metrics middleware records: nothing writes a header
    to a connection that was taken over, but the recovery middleware tries to. *)
Definition recorded_status (o : outcome Upgraded) : Z :=
  match o with
  | Ok (Refused r) | Ok (NotUpgraded r) => statusCode r
  | Ok (Connected _ _) => 200
  | Panicked _ => 500
  end.

(** [r.Get("/ws/sales/{id}", wsHandler.HandleWebSocket)] behind the middleware of
    NewRouter. *)
Definition ServeWebSocket (upgrade : ResponseWriter -> option Response) (w : ResponseWriter)
    (c : Hub.cid) (r : Request) : option (session (outcome Upgraded)) :=
  match method r, path r with
  | MethodGet, ["ws"; "sales"; id] => Some (
      let* o := scatch (HandleWebSocket upgrade (newResponseWriter w) c id (query_user_id r)) in
      let* _ := of_prog (Metrics.IncWithLabelValues (HTTPRequestsTotal "/ws/sales/{id}"
        (method_name (method r)) (Itoa (recorded_status o)))) in
      SRet o)
  | _, _ => None
  end.
End Handler.

(** ** Running a session beside the hub *)

Inductive move := Own | Other (e : Hub.event).

Section Play.
Context {R D : Type} `{RS : RedisServer R} `{LN : LuaNum} `{PG : Postgres D} `{O : Oracle} {A : Type}.

Definition state : Type := session A * Hub.Hub * world R D.

(** One move of the session, or one of the other goroutines of the hub. [None]:
    the session waits or is over, the other move is not possible, or it takes the
    process down. *)
Definition play1 (m : move) (s : state) : option state :=
  let '(p, h, w) := s in
  match m with
  | Own =>
      match p with
      | SRet _ | SPanic _ => None
      | SCall c k => let '(x, w') := exec c w in Some (k x, h, w')
      | SHub e k =>
          match Hub.step e h with
          | None => None
          | Some (inl m) => Some (k (Some m), h, w)
          | Some (inr h') => Some (k None, h', w)
          end
      end
  | Other e =>
      match Hub.step e h with
      | Some (inr h') => Some (p, h', w)
      | _ => None
      end
  end.

Fixpoint play (ms : list move) (s : state) : option state :=
  match ms with
  | [] => Some s
  | m :: rest => match play1 m s with Some s' => play rest s' | None => None end
  end.
End Play.
End Session.
