(* ===== verification/HttpSpec.v ===== *)
(** * What the HTTP layer promises *)
From S2P Require Import Prelude GoStd Models Services Scripts World Keys Logic Schema RedisClient.
From S2P Require Import Reservation Inventory RateLimit Hub Metrics Http Ledger ReserveSpec RateLimitSpec InventorySpec ConfirmSpec.
From Stdlib Require Import QArith.
Local Open Scope string_scope.
Local Open Scope Z_scope.
Import Http.

(** The status codes the API answers with. *)
Definition api_codes : list Z := [200; 201; 204; 400; 404; 409; 429; 500; 503].

(** ** Every request is answered *)

Section Total.
Context {R D : Type} `{RS : RedisServer R} `{LN : LuaNum} `{PG : Postgres D} `{O : Oracle}
  `{UL : UuidLib} `{FA : FloatArg}.

Lemma run_catch {A} (p : prog A) : forall w : world R D,
  run (catch p) w = (Ok (fst (run p w)), snd (run p w)).
Proof.
  induction p as [a|m|X c k IH]; intros w; cbn; [done|done|].
  destruct (exec c w) as [x w']. apply IH.
Qed.

(** Every response the program ends with has one of the codes. *)
Definition answers_with_code (p : prog Response) : Prop :=
  forall (w : world R D) resp, fst (run p w) = Ok resp -> statusCode resp ∈ api_codes.

Lemma code_ret resp : statusCode resp ∈ api_codes -> answers_with_code (Ret resp).
Proof. intros H w r [= <-]. done. Qed.

Lemma code_bind {A} (p : prog A) k : (forall x, answers_with_code (k x)) -> answers_with_code (pbind p k).
Proof.
  intros H w resp. rewrite run_pbind. destruct (run p w) as [[x|m] w']; [apply H|done].
Qed.

Lemma code_with_uuid s msg k : (forall id, answers_with_code (k id)) -> answers_with_code (with_uuid s msg k).
Proof.
  intros H. unfold with_uuid. destruct (uuid_Parse s); [|apply H]. apply code_ret. cbn. set_solver.
Qed.

Lemma code_with_body {T} (req : option T) k :
  (forall x, answers_with_code (k x)) -> answers_with_code (with_body req k).
Proof. intros H. destruct req; [apply H|]. apply code_ret. cbn. set_solver. Qed.

Lemma code_rate_limit l r next : answers_with_code next -> answers_with_code (RateLimitMiddleware l r next).
Proof.
  intros H. apply code_bind. intros [e|[[] n]].
  - apply code_ret. cbn. set_solver.
  - intros w resp. rewrite run_pbind. specialize (H w). destruct (run next w) as [[x|m] w']; [|done].
    intros [= <-]. cbn. by apply H.
  - apply code_bind. intros _. apply code_ret. cbn. set_solver.
Qed.

(** The handlers, by the rules above. *)
Ltac codes :=
  repeat first
    [ apply code_with_uuid; intros ?
    | apply code_with_body; intros ?
    | apply code_rate_limit
    | apply code_bind; intros ?
    | match goal with |- answers_with_code (match ?x with _ => _ end) => destruct x end
    | apply code_ret; repeat case_match; cbn; set_solver ].

Lemma route_codes s r pattern p : route s r = Some (pattern, p) -> answers_with_code p.
Proof.
  apply (route_handlers answers_with_code); intros;
    unfold HealthzHandler, CreateSale, GetSale, UpdateSaleStatus, Reserve, Join, GetPosition, Leave,
      Confirm, Release, GetOrder; codes.
Qed.

(** C30. Every routed request is answered, whatever fails behind it: no panic of
    a handler gets past the recovery middleware, the response has one of the
    API's nine codes, and exactly this code is what the request counter is
    incremented with. *)
Theorem every_request_is_answered s r p (w : world R D) :
  ServeHTTP s r = Some p ->
  exists resp w' pattern, run p w = (Ok resp, w') /\ statusCode resp ∈ api_codes /\
    w_metrics w' = (w_metrics (snd (run (RecoveryMiddleware
       match route s r with Some (_, h) => h | None => Ret resp end) w)) ++
      [HTTPRequestsTotal pattern (method_name (method r)) (Itoa (statusCode resp))])%list.
Proof.
  unfold ServeHTTP. destruct (route s r) as [[pattern h]|] eqn:E; [|done]. intros [= <-].
  unfold MetricsMiddleware. rewrite run_pbind.
  assert (exists resp w1, run (RecoveryMiddleware h) w = (Ok resp, w1) /\ statusCode resp ∈ api_codes)
    as (resp & w1 & Hrun & Hcode).
  { unfold RecoveryMiddleware. rewrite run_pbind, run_catch. cbn [fst snd].
    destruct (fst (run h w)) as [resp|m] eqn:Ho; cbn [run].
    - eexists _, _. split; [done|]. exact (route_codes s r pattern h E w resp Ho).
    - eexists _, _. split; [done|]. cbn. set_solver. }
  rewrite Hrun, (request_counted _ _ _ _ _ E). cbn [run pbind invoke exec fst snd]. exists resp. eexists. exists pattern. done.
Qed.
End Total.

(** ** Reserving over HTTP *)

Section EndToEnd.
Context {R D : Type} `{RL : RedisLaws R} `{LL : LuaNumLaws} `{FA : !FloatArg} `{FL : !FloatArgLaws}
  `{PL : PostgresLaws D} `{O : Oracle} `{UU : UuidLaws} `{NF : !NoFaults}.
#[local] Abbreviation wp := (wp (R := R) (D := D)).

Lemma ratelimit_sale_key u s suffix : sale_key s suffix <> ratelimitKey u.
Proof. done. Qed.

Lemma only_bucket_implements u s l v v' : only_bucket u v v' -> implements s l v -> implements s l v'.
Proof.
  intros (Hdb & _ & Hk). apply implements_ext; [|by rewrite Hdb..].
  unfold stock, counter_at. by rewrite !Hk by apply ratelimit_sale_key.
Qed.

Lemma wp_catch {A} (p : prog A) v (Phi : outcome (outcome A) -> view -> Prop) :
  wp p v (fun o v' => Phi (Ok o) v') -> wp (catch p) v Phi.
Proof. intros H w Hw. rewrite run_catch. exact (H w Hw). Qed.

(** What the answer to POST /api/sales/{id}/reserve says about the ledger. *)
Definition reserve_answer (sale user item : uuid) (l : ledger) (v : view) (resp : Response) (v' : view)
  : Prop :=
  if bool_decide (statusCode resp = 201) then
    exists r l', payload resp = ReservationJSON r /\ UserID r = user /\ SaleID r = sale /\
      ItemID r = item /\ ledger_step LReserve l = Some l' /\ implements sale l' v' /\
      t_reservations (v_db v') = <[ID r := mkRow r false]> (t_reservations (v_db v))
  else
    implements sale l v' /\ v_db v' = v_db v /\
    (statusCode resp = 409 -> ledger_step LReserve l = None).

Lemma refused_answer sale user item l v resp v' :
  statusCode resp <> 201 -> statusCode resp <> 409 -> implements sale l v' -> v_db v' = v_db v ->
  reserve_answer sale user item l v resp v'.
Proof. intros H1 H2 Hi Hdb. unfold reserve_answer. rewrite bool_decide_false by done. done. Qed.

Lemma wp_http_reserve svc idStr r sale req l v (Phi : outcome Response -> view -> Prop) :
  uuid_Parse idStr = inr sale -> as_reserve (body r) = Some req ->
  implements sale l v -> l_held l < max_int64 ->
  (header_idempotency_key r = "" \/
   v_data v !! idempotencyKeyOf (uuid_String sale) (header_idempotency_key r) = None) ->
  (forall resp v', reserve_answer sale (ReqUserID req) (ReqItemID req) l v resp v' ->
     Phi (Ok resp) v') ->
  wp (Reserve svc idStr r) v Phi.
Proof.
  intros Hid Hbody Hi Hmax Hkey HPhi. unfold Reserve, with_uuid, with_body. rewrite Hid, Hbody.
  apply wp_bind. eapply wp_mono;
    [apply (wp_reserve_new svc (ReqUserID req) sale (ReqItemID req) (header_idempotency_key r) v l Hi Hmax Hkey)|].
  intros [[e|rsv]|m] v' [Hpost _]; cbn [then_wp reserve_post] in *; [| |done].
  - destruct Hpost as (Hi' & Hdb & He). destruct (String.eqb_spec e "sold out") as [->|Hne];
      apply wp_ret, HPhi; unfold reserve_answer; cbn; (split; [done|]; split; [done|]).
    + intros _. by apply He.
    + done.
  - destruct Hpost as (l' & Hl & Hi' & _ & Hrows & _ & Hu & Hs & Hit & _).
    apply wp_ret, HPhi. unfold reserve_answer. cbn. exists rsv, l'. auto 10.
Qed.

(** What the recovery middleware makes of the end of a handler. *)
Definition recovered (o : outcome Response) : Response :=
  match o with Ok resp => resp | Panicked _ => Error "Internal server error" 500 end.

(** The middleware around every handler adds one count and nothing else. *)
Lemma wp_serve s r pattern h p v (Phi : Response -> view -> Prop) :
  ServeHTTP s r = Some p -> route s r = Some (pattern, h) ->
  wp h v (fun o v' => forall m, Phi (recovered o) (measure m v')) ->
  wp p v (fun o v' => exists resp, o = Ok resp /\ Phi resp v').
Proof.
  unfold ServeHTTP. intros Hs E. rewrite E in Hs. injection Hs as <-. intros H.
  unfold MetricsMiddleware, RecoveryMiddleware. apply wp_bind, wp_bind, wp_catch.
  eapply wp_mono; [exact H|]. intros o v' HPhi. cbn [then_wp].
  destruct o as [resp|msg]; apply wp_ret; cbn [then_wp];
    rewrite (request_counted _ _ _ _ _ E); apply wp_bind, wp_metric, wp_ret; eexists; (split; [done|]);
    apply HPhi.
Qed.

(** The route of a request, by its method and path. *)
Ltac routed Hm Hp := unfold route; rewrite Hm, Hp; reflexivity.

(** C7. POST /api/sales/{id}/reserve, end to end, while no call fails and the
    request carries no idempotency key or one that is not in use: 201 comes with
    the reservation the request asked for and exactly one unit moved from
    available to held; 409 says that no unit was available; under 409, 429 and
    every other answer ledger and tables are as before (a refused row and a user
    id that is no label among them). The whole path from the router through
    rate limiter, handler, Lua script and INSERT is in between. *)
Theorem http_reserve_refines s r idStr sale req l c p v :
  method r = MethodPost -> path r = ["api"; "sales"; idStr; "reserve"] ->
  uuid_Parse idStr = inr sale -> as_reserve (body r) = Some req ->
  args_ok (rateLimiter s) c -> implements sale l v -> l_held l < max_int64 ->
  (header_idempotency_key r = "" \/
   v_data v !! idempotencyKeyOf (uuid_String sale) (header_idempotency_key r) = None) ->
  ServeHTTP s r = Some p ->
  wp p v (fun o v' => exists resp, o = Ok resp /\
    reserve_answer sale (ReqUserID req) (ReqItemID req) l v resp v').
Proof.
  intros Hm Hp Hid Hbody Hargs Hi Hmax Hkey Hs. eapply (wp_serve _ _ _ _ _ _ _ Hs); [routed Hm Hp|].
  unfold RateLimitMiddleware. apply wp_bind.
  eapply wp_mono; [apply (wp_allow_any (rateLimiter s) c); exact Hargs|].
  intros o v1 (Hb & res & -> & _). cbn [then_wp].
  assert (implements sale l v1) as Hi1 by (by eapply only_bucket_implements).
  destruct Hb as (Hdb & _ & Hk). destruct res as [e|[[] n]].
  - apply wp_ret. intros m. by apply refused_answer.
  - apply wp_bind. eapply (wp_http_reserve _ _ _ sale req l v1); [done|done|done|done| |].
    + destruct Hkey as [->|Hnone]; [by left|]. right. by rewrite Hk by apply ratelimit_sale_key.
    + intros resp v2 Ha. cbn [then_wp]. apply wp_ret. intros m.
      unfold reserve_answer in *. by rewrite Hdb in Ha.
  - apply wp_bind. unfold Metrics.IncWithLabelValues. case_match.
    + apply wp_metric. cbn [then_wp]. apply wp_ret. intros m. by apply refused_answer.
    + apply wp_panic. cbn [then_wp]. intros m. by apply refused_answer.
Qed.

(** ** Confirming and releasing over HTTP *)

(** What the answer to POST /api/reservations/{id}/confirm says. *)
Definition confirm_answer (rid : uuid) (key : string) (l : ledger) (v : view) (resp : Response) (v' : view)
  : Prop :=
  if idempotency_key_used key (t_orders (v_db v)) then
    exists o, resp = JSON 200 (OrderJSON o) /\ t_orders (v_db v) !! OrderID o = Some o /\
      IdempotencyKey o = key /\ v_db v' = v_db v /\ v_data v' = v_data v
  else
    match t_reservations (v_db v) !! rid with
    | Some w =>
        if bool_decide (Status (row_res w) = ReservationStatusReserved)
        then exists o, resp = JSON 200 (OrderJSON o) /\ confirm_post rid w key l v (Ok (inr o)) v'
        else statusCode resp = 500 /\ v_db v' = v_db v /\ v_data v' = v_data v
    | None => statusCode resp = 500 /\ v_db v' = v_db v /\ v_data v' = v_data v
    end.

(** C8. POST /api/reservations/{id}/confirm, end to end, while no call fails, with an
    idempotency key that is not empty and has at most 255 bytes: 200 comes with an order of that key, which is the earlier order, and nothing
    changes, or the one just inserted, and one unit has moved from held to sold;
    500 changes nothing. *)
Theorem http_confirm_refines s r idStr rid l p v :
  method r = MethodPost -> path r = ["api"; "reservations"; idStr; "confirm"] ->
  uuid_Parse idStr = inr rid ->
  header_idempotency_key r <> "" -> varchar 255 (header_idempotency_key r) = true ->
  schema_ok (v_db v) ->
  (forall w, t_reservations (v_db v) !! rid = Some w -> implements (SaleID (row_res w)) l v) ->
  (forall n, t_orders (v_db v) !! uuid_at n = None) ->
  ServeHTTP s r = Some p ->
  wp p v (fun o v' => exists resp, o = Ok resp /\
    confirm_answer rid (header_idempotency_key r) l v resp v').
Proof.
  intros Hm Hp Hid Hne Hlen Hok Hi Hfresh Hs. eapply (wp_serve _ _ _ _ _ _ _ Hs); [routed Hm Hp|].
  unfold Confirm, with_uuid. rewrite Hid. apply wp_bind. unfold confirm_answer.
  destruct (idempotency_key_used (header_idempotency_key r) (t_orders (v_db v))) eqn:Hkey.
  - apply idempotency_key_used_spec in Hkey as (k & o & Ho & Hk).
    pose proof (so_order_key _ Hok _ _ Ho) as E. subst k.
    eapply wp_confirm_replay; [done|done|exact Ho|exact Hk|]. cbn [then_wp]. apply wp_ret.
    intros m. exists o. done.
  - destruct (t_reservations (v_db v) !! rid) as [w|] eqn:Hw; [case_bool_decide as Hst|].
    + eapply wp_mono; [apply (wp_confirm_new rid _ w l); auto|].
      intros [[e|o]|m] v' Hpost; [done| |done]. cbn [then_wp]. apply wp_ret.
      intros m. exists o. done.
    + apply wp_confirm_refused; [done|naive_solver|]. intros e. cbn [then_wp]. apply wp_ret. eauto.
    + apply wp_confirm_refused; [done|naive_solver|]. intros e. cbn [then_wp]. apply wp_ret. eauto.
Qed.

(** What the answer to DELETE /api/reservations/{id} says. *)
Definition release_answer (rid : uuid) (l : ledger) (v : view) (resp : Response) (v' : view) : Prop :=
  match t_reservations (v_db v) !! rid with
  | Some w =>
      if bool_decide (Status (row_res w) = ReservationStatusReserved)
      then resp = NoContent /\ release_post rid w ReservationStatusReleased l v'
      else statusCode resp = 500 /\ v_db v' = v_db v /\ v_data v' = v_data v
  | None => statusCode resp = 500 /\ v_db v' = v_db v /\ v_data v' = v_data v
  end.

(** C9. DELETE /api/reservations/{id}, end to end, while no call fails: 204 exactly
    when the row was reserved, and then its unit is back and the row is released;
    otherwise the answer is 500, for an absent row too, and nothing changes. *)
Theorem http_release_refines s r idStr rid l p v :
  method r = MethodDelete -> path r = ["api"; "reservations"; idStr] -> uuid_Parse idStr = inr rid ->
  schema_ok (v_db v) ->
  (forall w, t_reservations (v_db v) !! rid = Some w ->
     implements (SaleID (row_res w)) l v /\ l_available l < max_int64) ->
  ServeHTTP s r = Some p ->
  wp p v (fun o v' => exists resp, o = Ok resp /\ release_answer rid l v resp v').
Proof.
  intros Hm Hp Hid Hok Hrow Hs. eapply (wp_serve _ _ _ _ _ _ _ Hs); [routed Hm Hp|].
  unfold Release, with_uuid. rewrite Hid. apply wp_bind.
  eapply wp_mono; [by apply (release_refines (service s) rid l)|].
  intros o v'. unfold release_outcome, release_answer.
  destruct (t_reservations (v_db v) !! rid) as [w|]; [case_bool_decide|];
    [intros [-> Hpost]|intros [-> ->]|intros [[e ->] ->]];
    cbn [then_wp]; apply wp_ret; intros m; done.
Qed.
End EndToEnd.
