(* ===== verification/Pipeline.v ===== *)
(** * From the publisher to the browser

    A sale event travels over the Redis channel of its sale, the fan-out loop of
    main, the broadcast channel of the hub, the buffer of each client in the
    room, and a frame of its write pump. A client that keeps up sees every event
    of its sale, once and in the order of publication, and no other. *)
From S2P Require Import Prelude GoStd Models Services Keys Hub HubSpec.
From Stdlib Require Import Ascii.
Local Open Scope string_scope.
Local Open Scope Z_scope.
Import Hub.
#[local] Set Warnings "-clear-no-such-hyp".

(** ** The streams of messages *)

(** What waits in the broadcast channel for a room. *)
Definition queued (s : string) (h : Hub) : list json :=
  Payload <$> base.filter (fun m => SaleID m = s) (broadcast h).

(** What the fan-out loop hands to the hub, in a run of the hub. *)
Definition handed_over (es : list event) : list (string * json) :=
  omap (fun e => match e with EvPublish s p => Some (s, p) | _ => None end) es.

Definition handed_to (s : string) (es : list event) : list json :=
  snd <$> base.filter (fun m => fst m = s) (handed_over es).

(** The loop of main over the messages of the subscription [sale:*:pubsub]. *)
Definition fan_outs (msgs : list (string * json)) : list (string * json) :=
  omap (fun m => (fun room => (room, snd m)) <$> fan_out (fst m)) msgs.

(** The events of one sale among the messages. *)
Definition events_of `{UuidLib} (sale : uuid) (msgs : list (string * json)) : list json :=
  snd <$> base.filter (fun m => fst m = saleChannel (uuid_String sale)) msgs.

(** ** A client that keeps up *)

(** The client is in the room [s] and in no other. *)
Definition only_in (c : cid) (s : string) (h : Hub) : Prop := forall k, c ∈ room k (rooms h) <-> k = s.

(** The step does not meet the client's buffer full, does not register or
    unregister it, and sends it nothing but broadcasts: the snapshot comes before. *)
Definition attentive_step (c : cid) (s : string) (e : event) (h : Hub) : Prop :=
  match e with
  | EvRunBroadcast _ =>
      match broadcast h with msg :: _ => SaleID msg = s -> ~ full h c | [] => True end
  | EvRunRegister => match register h with reg :: _ => reg_client reg <> c | [] => True end
  | EvRunUnregister => match unregister h with d :: _ => d <> c | [] => True end
  | EvUserSend => match picked h with Some (d, _) => d <> c | None => True end
  | EvDirectSend d _ | EvSend d _ => d <> c
  | _ => True
  end.

Fixpoint attentive (c : cid) (s : string) (es : list event) (h : Hub) : Prop :=
  match es with
  | [] => True
  | e :: rest =>
      attentive_step c s e h /\
      match step e h with Some (inr h') => attentive c s rest h' | _ => True end
  end.

(** ** One step *)

(** Messages the client has been given, then messages on their way to it. *)
Definition stream (s : string) (x : Client) (h : Hub) : list json := (history x ++ queued s h)%list.

Lemma send_or_drop_frame c p h h' : send_or_drop c p h = inr h' -> rooms h' = rooms h /\ broadcast h' = broadcast h.
Proof.
  unfold send_or_drop, try_send, deref. destruct (clients h !! c) as [y|]; [|done]. cbn [bind].
  destruct (closed y); [done|]. destruct (_ <? _)%nat; cbn [bind]; by intros [= <-].
Qed.

Lemma deliver_frame p order : forall h h', deliver p order h = inr h' -> rooms h' = rooms h /\ broadcast h' = broadcast h.
Proof.
  induction order as [|c rest IH]; intros h h' H; cbn [deliver] in H; [by injection H as <-|].
  destruct (send_or_drop c p h) as [e|h1] eqn:E; [done|]. cbn [bind] in H.
  apply send_or_drop_frame in E as [E1 E2]. apply IH in H as [H1 H2]. by rewrite H1, H2.
Qed.

Lemma send_or_drop_ne c p h h' d : send_or_drop c p h = inr h' -> c <> d -> clients h' !! d = clients h !! d.
Proof.
  unfold send_or_drop, try_send, deref. destruct (clients h !! c) as [y|]; [|done]. cbn [bind].
  destruct (closed y); [done|]. destruct (_ <? _)%nat; cbn [bind]; intros [= <-] Hne; cbn; [|done].
  by rewrite lookup_insert_ne.
Qed.

(** A client the loop does not name keeps what it has. *)
Lemma deliver_other p order : forall h h' d,
  deliver p order h = inr h' -> d ∉ order -> clients h' !! d = clients h !! d.
Proof.
  induction order as [|c rest IH]; intros h h' d H Hd; cbn [deliver] in H; [by injection H as <-|].
  apply not_elem_of_cons in Hd as [Hne Hd].
  destruct (send_or_drop c p h) as [e|h1] eqn:E; [done|]. cbn [bind] in H.
  rewrite (IH h1 h' d H Hd). by apply (send_or_drop_ne c p).
Qed.

(** A client the loop names gets one copy when its buffer has room. *)
Lemma deliver_member p order : forall h h' d x,
  NoDup order -> deliver p order h = inr h' -> d ∈ order -> clients h !! d = Some x -> ~ full h d ->
  clients h' !! d = Some (with_send (send x ++ [p])%list x).
Proof.
  induction order as [|c rest IH]; intros h h' d x Hnd H Hd Hx Hroom; [by apply not_elem_of_nil in Hd|].
  cbn [deliver] in H. apply NoDup_cons in Hnd as [Hc Hnd].
  destruct (send_or_drop c p h) as [e|h1] eqn:E; [done|]. cbn [bind] in H.
  destruct (decide (c = d)) as [->|Hne].
  - rewrite (deliver_other p rest h1 h' d H Hc). revert E. unfold send_or_drop, try_send, deref.
    rewrite Hx. cbn [bind]. destruct (closed x); [done|].
    destruct (Nat.ltb_spec (length (send x)) send_capacity) as [Hlt|Hge].
    + cbn [bind]. intros [= <-]. cbn. by rewrite lookup_insert_eq.
    + exfalso. apply Hroom. by exists x.
  - apply elem_of_cons in Hd as [->|Hd]; [done|].
    pose proof (send_or_drop_ne c p h h1 d E Hne) as Hsame.
    apply (IH h1 h' d x); [done|done|done|by rewrite Hsame|].
    intros (y & Hy & Hl). apply Hroom. exists y. by rewrite <- Hsame.
Qed.

Lemma stream_same s x x' h h' :
  history x' = history x -> broadcast h' = broadcast h -> stream s x' h' = stream s x h.
Proof. intros Hh Hb. unfold stream, queued. by rewrite Hh, Hb. Qed.

Lemma elem_of_room_leave_ne d key c m k : d <> c -> d ∈ room k (leave key c m) <-> d ∈ room k m.
Proof. intros Hne. rewrite elem_of_room_leave. naive_solver. Qed.

(** A step that changes one client, keeps its history and touches no room. *)
Lemma quiet_insert c s h h' d x y :
  clients h !! c = Some x -> only_in c s h -> rooms h' = rooms h -> broadcast h' = broadcast h ->
  clients h' = <[d := y]> (clients h) -> (d = c -> history y = history x) ->
  exists x', clients h' !! c = Some x' /\ only_in c s h' /\ stream s x' h' = stream s x h.
Proof.
  intros Hc Hin Hr Hb Hcl Hy. destruct (decide (d = c)) as [->|Hne].
  - exists y. rewrite Hcl, lookup_insert_eq. split; [done|]. split; [unfold only_in; by rewrite Hr|].
    apply stream_same; auto.
  - exists x. rewrite Hcl, lookup_insert_ne by done. split; [done|]. split; [unfold only_in; by rewrite Hr|].
    by apply stream_same.
Qed.

Lemma quiet_step_stream c s h h' x :
  clients h !! c = Some x -> only_in c s h -> rooms h' = rooms h -> broadcast h' = broadcast h ->
  clients h' !! c = clients h !! c ->
  exists x', clients h' !! c = Some x' /\ only_in c s h' /\ stream s x' h' = stream s x h.
Proof.
  intros Hc Hin Hr Hb Hcl. exists x. rewrite Hcl. split; [done|]. split; [unfold only_in; by rewrite Hr|].
  by apply stream_same.
Qed.

(** A snapshot or another direct message to somebody else. *)
Lemma direct_send_stream d p c s h h' x :
  DirectSend d p h = inr h' -> d <> c -> clients h !! c = Some x -> only_in c s h ->
  exists x', clients h' !! c = Some x' /\ only_in c s h' /\ stream s x' h' = stream s x h.
Proof.
  intros Hs Hne Hc Hin. unfold DirectSend, try_send, deref in Hs.
  destruct (clients h !! d) as [y|] eqn:E; cbn [bind] in Hs; [|done]. destruct (closed y); [done|].
  destruct (_ <? _)%nat; cbn in Hs; injection Hs as <-; [|by apply (quiet_step_stream c s h)].
  eapply quiet_insert; done.
Qed.

Lemma broadcast_stream c s h h' x order :
  clients h !! c = Some x -> only_in c s h -> attentive_step c s (EvRunBroadcast order) h ->
  step (EvRunBroadcast order) h = Some (inr h') ->
  exists x', clients h' !! c = Some x' /\ only_in c s h' /\ stream s x' h' = stream s x h.
Proof.
  intros Hc Hin Hatt Hs. cbn [step attentive_step] in *.
  destruct (broadcast h) as [|msg rest] eqn:Hb; [done|]. destruct (bool_decide _) eqn:Ho; [|done].
  apply bool_decide_eq_true in Ho. injection Hs as Hs. unfold run_broadcast in Hs.
  assert (NoDup order) as Hnd by (rewrite Ho; apply NoDup_elements).
  assert (c ∈ order <-> SaleID msg = s) as Hmem by (rewrite Ho, elem_of_elements; apply Hin).
  apply deliver_frame in Hs as Hf. destruct Hf as [Hr Hb']. cbn in Hr, Hb'.
  assert (only_in c s h') as Hin' by (unfold only_in; by rewrite Hr).
  unfold stream, queued. rewrite Hb, Hb', filter_cons.
  destruct (decide (SaleID msg = s)) as [E|E].
  - eexists. split.
    + apply (deliver_member (Payload msg) order (set_broadcast rest h) h' c x); [done|done|by apply Hmem|done|].
      exact (Hatt E).
    + split; [done|]. unfold history. cbn. by rewrite <- !app_assoc.
  - exists x. rewrite (deliver_other (Payload msg) order (set_broadcast rest h) h' c Hs); [done|]. by rewrite Hmem.
Qed.

(** Nothing is lost, repeated or reordered by a step; a publication joins at the end. *)
Lemma step_stream c s e h h' x :
  step e h = Some (inr h') -> clients h !! c = Some x -> only_in c s h -> attentive_step c s e h ->
  exists x', clients h' !! c = Some x' /\ only_in c s h' /\
    stream s x' h' = (stream s x h ++ handed_to s [e])%list.
Proof.
  intros Hs Hc Hin Hatt.
  assert (handed_to s [e] = [] ->
    (exists x', clients h' !! c = Some x' /\ only_in c s h' /\ stream s x' h' = stream s x h) ->
    exists x', clients h' !! c = Some x' /\ only_in c s h' /\
      stream s x' h' = (stream s x h ++ handed_to s [e])%list) as Hquiet.
  { intros -> H. by rewrite app_nil_r. }
  destruct e; cbn [step attentive_step] in *; try (apply Hquiet; [done|]).
  - destruct (clients h !! c0) eqn:E; [done|]. injection Hs as <-. eapply quiet_insert; try done.
    intros ->. congruence.
  - destruct (_ <? _)%nat; [|done]. unfold Subscribe, deref in Hs.
    destruct (clients h !! c0) as [y|] eqn:E; cbn in Hs; [|done]. injection Hs as <-.
    eapply quiet_insert; try done. intros ->. by replace y with x by congruence.
  - destruct (_ <? _)%nat; [|done]. injection Hs as <-. by apply (quiet_step_stream c s h).
  - destruct (spawned h !! i); [|done]. destruct (_ <? _)%nat; [|done]. injection Hs as <-.
    by apply (quiet_step_stream c s h).
  - destruct (_ <? _)%nat; [|done]. injection Hs as <-. exists x. split; [done|]. split; [done|].
    unfold stream, queued, handed_to, handed_over. cbn. rewrite filter_app, fmap_app, app_assoc. f_equal.
    rewrite !filter_cons, !filter_nil. cbn. by case_decide.
  - destruct (register h) as [|reg rest]; [done|]. injection Hs as <-.
    exists x. split; [done|]. split; [|done]. intros k. cbn. rewrite elem_of_room_join, <- (Hin k). naive_solver.
  - destruct (unregister h) as [|d rest]; [done|]. injection Hs as Hs. unfold run_unregister, deref in Hs.
    cbn [clients set_unregister] in Hs. destruct (clients h !! d) as [y|] eqn:E; cbn [bind] in Hs; [|done].
    destruct (closed y); [done|]. injection Hs as <-. exists x. cbn. rewrite lookup_insert_ne by done.
    split; [done|]. split; [|done]. intros k. cbn. rewrite elem_of_room_leave_ne by done. apply Hin.
  - by eapply broadcast_stream.
  - destruct (picked h); [done|]. destruct (bool_decide _); [|done]. injection Hs as <-.
    by apply (quiet_step_stream c s h).
  - destruct (picked h) as [[d p]|]; [|done]. injection Hs as Hs.
    pose proof (send_or_drop_frame _ _ _ _ Hs) as [Hr Hb]. apply (quiet_step_stream c s h); try done.
    by rewrite (send_or_drop_ne d p _ h' c Hs).
  - injection Hs as Hs. by eapply direct_send_stream.
  - apply plain_send_direct in Hs. by eapply direct_send_stream.
  - injection Hs as Hs. unfold write_frame, deref in Hs.
    destruct (clients h !! c0) as [y|] eqn:E; cbn [bind] in Hs; [|done].
    destruct (send y) as [|m l] eqn:Hq; injection Hs as <-; [by apply (quiet_step_stream c s h)|].
    eapply quiet_insert; try done. intros ->. replace y with x by congruence.
    unfold history. cbn. rewrite concat_app. cbn. by rewrite !app_nil_r.
Qed.

Lemma handed_to_cons s e es : handed_to s (e :: es) = (handed_to s [e] ++ handed_to s es)%list.
Proof.
  unfold handed_to. change (e :: es) with ([e] ++ es)%list. unfold handed_over.
  by rewrite omap_app, filter_app, fmap_app.
Qed.

Lemma steps_stream c s es : forall h h' x,
  steps es h = Some (inr h') -> clients h !! c = Some x -> only_in c s h -> attentive c s es h ->
  exists x', clients h' !! c = Some x' /\ only_in c s h' /\
    stream s x' h' = (stream s x h ++ handed_to s es)%list.
Proof.
  induction es as [|e es IH]; intros h h' x Hs Hc Hin Hatt; cbn [steps attentive] in *.
  - injection Hs as <-. exists x. by rewrite app_nil_r.
  - destruct Hatt as [He Hes]. destruct (step e h) as [[m|h1]|] eqn:E; [done| |done].
    destruct (step_stream c s e h h1 x E Hc Hin He) as (x1 & Hc1 & Hin1 & Hst1).
    destruct (IH h1 h' x1 Hs Hc1 Hin1 Hes) as (x2 & Hc2 & Hin2 & Hst2).
    exists x2. split; [done|]. split; [done|]. by rewrite Hst2, Hst1, (handed_to_cons s e es), app_assoc.
Qed.

(** ** The fan-out loop *)

Section Fanout.
Context `{UuidLaws}.

Lemma fan_out_sale sale : fan_out (saleChannel (uuid_String sale)) = Some (uuid_String sale).
Proof.
  unfold fan_out, saleChannel, sale_key.
  change ("sale:" ++ uuid_String sale ++ ":" ++ "pubsub")
    with ("sale" ++ String ":" (uuid_String sale ++ String ":" "pubsub")).
  rewrite splitChannel_two; [done|done|apply String_no_colon].
Qed.

Lemma saleChannel_inj s t : saleChannel (uuid_String s) = saleChannel (uuid_String t) -> s = t.
Proof. intros E. by apply sale_key_inj in E as [-> _]. Qed.

(** The messages handed over for the room of a sale are the events of the sale. *)
Lemma fan_outs_sale sale msgs :
  Forall (fun m => exists s, fst m = saleChannel (uuid_String s)) msgs ->
  snd <$> base.filter (fun m => fst m = uuid_String sale) (fan_outs msgs) = events_of sale msgs.
Proof.
  unfold fan_outs, events_of. induction 1 as [|[ch p] msgs [s E] _ IH]; [done|]. cbn in E. subst ch.
  cbn [omap list_omap fst snd]. rewrite fan_out_sale. cbn [fmap option_fmap option_map].
  rewrite !filter_cons. cbn [fst]. destruct (decide (s = sale)) as [->|Hne].
  - rewrite !decide_True by done. cbn [fmap list_fmap snd]. f_equal. exact IH.
  - rewrite decide_False by (intros Heq; by apply Hne, uuid_String_inj).
    rewrite decide_False by (intros Heq; by apply Hne, saleChannel_inj). exact IH.
Qed.

(** C16. Publication to browser: let main's fan-out loop hand the messages [msgs] of
    the sale channels to the hub during a run [es] in which client [c], in the
    room of [sale] only, keeps up (its buffer is never full when its sale is
    broadcast, it neither leaves nor is registered again, and it is sent no user
    event; its snapshot has been sent before). Then what the client has been given, followed by what the hub still
    holds for its room, is what it was at the start followed by the events of
    its sale, in the order of publication: none lost, repeated or reordered, and
    none of another sale. Once hub and buffer are empty, the frames written to
    the connection hold exactly that. *)
Theorem subscriber_sees_every_event sale msgs es h h' c x :
  Forall (fun m => exists s, fst m = saleChannel (uuid_String s)) msgs ->
  handed_over es = fan_outs msgs ->
  steps es h = Some (inr h') -> clients h !! c = Some x ->
  only_in c (uuid_String sale) h -> attentive c (uuid_String sale) es h ->
  exists x', clients h' !! c = Some x' /\
    stream (uuid_String sale) x' h' = (stream (uuid_String sale) x h ++ events_of sale msgs)%list /\
    (broadcast h' = [] -> send x' = [] ->
       concat (frames x') = (stream (uuid_String sale) x h ++ events_of sale msgs)%list).
Proof.
  intros Hmsgs Hes Hs Hc Hin Hatt.
  destruct (steps_stream c _ es h h' x Hs Hc Hin Hatt) as (x' & Hc' & _ & Hst).
  assert (handed_to (uuid_String sale) es = events_of sale msgs) as E
    by (unfold handed_to; rewrite Hes; by apply fan_outs_sale).
  rewrite E in Hst. exists x'. split; [done|]. split; [done|]. intros Hb Hsend. rewrite <- Hst.
  unfold stream, queued, history. by rewrite Hb, Hsend, !app_nil_r.
Qed.
End Fanout.
