(* ===== verification/Wiring.v ===== *)
(** * The objects main builds

    The structs behind the services, their constructors, and the router that
    NewRouter puts together, with the connections each of them holds. The models
    of the handlers keep of an object only what a handler reads of it: [service_of],
    [handler_of] and [server_of]. *)
From S2P Require Import Prelude GoStd Models Services World RedisClient.
From S2P Require Import Reservation Inventory Expiry RateLimit Hub Http.
Local Open Scope string_scope.
Local Open Scope Z_scope.

(** ** Connections *)

(** A connection pool of go-redis, by the field of the client it is kept in. *)
Inductive role := Primary | Replica.
Record rconn := mkConn { conn_role : role; conn_url : string }.

(** A [*pgxpool.Pool]. *)
Record pgpool := mkPool { pool_url : string }.

(** The one hub of the process. *)
Inductive hub_pointer := MainHub.

Module RedisObject.

Record Client := mkClient {
  rdb : rconn;
  replica : option rconn;
  reserveSHA : string;
  releaseSHA : string;
  confirmSHA : string;
  waitlistJoinSHA : string;
  waitlistPromoteSHA : string
}.

Definition ReadClient (c : Client) : rconn :=
  match replica c with Some r => r | None => rdb c end.

Definition GetClient (c : Client) : rconn := rdb c.
End RedisObject.

(** ** Services *)

Module PublisherObject.
Record Publisher := mkPublisher { rdb : rconn }.
Definition NewPublisher (rdb : rconn) : Publisher := mkPublisher rdb.
End PublisherObject.

Module LimiterObject.
Record Limiter := mkLimiter { rdb : rconn; tokenBucketSHA : string; bucket : Limiter.Limiter }.
End LimiterObject.

Module InventoryObject.
Record Service := mkService { redis : RedisObject.Client; db : pgpool }.
Definition NewService (redis : RedisObject.Client) (db : pgpool) : Service := mkService redis db.
End InventoryObject.

Module ReservationObject.
Record Service := mkService {
  redis : RedisObject.Client;
  db : pgpool;
  reservationTTL : Z;
  publisher : option PublisherObject.Publisher
}.
Definition NewService (redis : RedisObject.Client) (db : pgpool) (reservationTTL : Z)
  (publisher : option PublisherObject.Publisher) : Service := mkService redis db reservationTTL publisher.
End ReservationObject.

Module WaitlistObject.
Record Service := mkService { redis : RedisObject.Client }.
Definition NewService (redis : RedisObject.Client) : Service := mkService redis.
End WaitlistObject.

Module QueueObject.
Record ExpiryHandler := mkExpiryHandler {
  redis : RedisObject.Client;
  db : pgpool;
  reservationTTL : Z;
  publisher : option PublisherObject.Publisher
}.
Definition NewExpiryHandler (redis : RedisObject.Client) (db : pgpool) (reservationTTL : Z)
  (publisher : option PublisherObject.Publisher) : ExpiryHandler :=
  mkExpiryHandler redis db reservationTTL publisher.
End QueueObject.

Module WebsocketObject.
Record Handler := mkHandler { hub : hub_pointer; inventoryService : InventoryObject.Service }.
Definition NewHandler (hub : hub_pointer) (inventoryService : InventoryObject.Service) : Handler :=
  mkHandler hub inventoryService.
End WebsocketObject.

(** ** HTTP *)

Module HandlersObject.
Record SalesHandler := NewSalesHandler { inventoryService : InventoryObject.Service }.
Record ReservationsHandler := NewReservationsHandler { reservationService : ReservationObject.Service }.
Record WaitlistHandler := NewWaitlistHandler { waitlistService : WaitlistObject.Service }.
Record OrdersHandler := NewOrdersHandler { db : pgpool }.
End HandlersObject.

(** What NewRouter closes over. *)
Record Mux := mkMux {
  salesHandler : HandlersObject.SalesHandler;
  reservationsHandler : HandlersObject.ReservationsHandler;
  waitlistHandler : HandlersObject.WaitlistHandler;
  ordersHandler : HandlersObject.OrdersHandler;
  wsHandler : WebsocketObject.Handler;
  limiter : LimiterObject.Limiter
}.

Definition NewRouter (inventoryService : InventoryObject.Service)
    (reservationService : ReservationObject.Service) (waitlistService : WaitlistObject.Service)
    (wsHandler : WebsocketObject.Handler) (db : pgpool) (rateLimiter : LimiterObject.Limiter) : Mux :=
  mkMux (HandlersObject.NewSalesHandler inventoryService)
    (HandlersObject.NewReservationsHandler reservationService)
    (HandlersObject.NewWaitlistHandler waitlistService)
    (HandlersObject.NewOrdersHandler db) wsHandler rateLimiter.

(** ** What the handlers see of an object *)

Definition service_of (s : ReservationObject.Service) : ReservationService.Service :=
  ReservationService.mkService (ReservationObject.reservationTTL s)
    (match ReservationObject.publisher s with Some _ => true | None => false end).

Definition handler_of (h : QueueObject.ExpiryHandler) : ExpiryHandler.ExpiryHandler :=
  ExpiryHandler.mkExpiryHandler (QueueObject.reservationTTL h)
    (match QueueObject.publisher h with Some _ => true | None => false end).

Definition server_of (m : Mux) (reconciled : bool) : Http.Server :=
  Http.mkServer (service_of (HandlersObject.reservationService (reservationsHandler m)))
    (LimiterObject.bucket (limiter m)) reconciled.

(** The Redis connections and the PostgreSQL pools the handlers of a router use:
    no handler calls [ReadClient]. *)
Definition publisher_conns (p : option PublisherObject.Publisher) : list rconn :=
  match p with Some p => [PublisherObject.rdb p] | None => [] end.

Definition redis_conns (m : Mux) : list rconn :=
  let inventory := HandlersObject.inventoryService (salesHandler m) in
  let reservations := HandlersObject.reservationService (reservationsHandler m) in
  [RedisObject.GetClient (InventoryObject.redis inventory);
   RedisObject.GetClient (InventoryObject.redis (WebsocketObject.inventoryService (wsHandler m)));
   RedisObject.GetClient (ReservationObject.redis reservations);
   RedisObject.GetClient (WaitlistObject.redis (HandlersObject.waitlistService (waitlistHandler m)));
   LimiterObject.rdb (limiter m)] ++ publisher_conns (ReservationObject.publisher reservations).

Definition pg_pools (m : Mux) : list pgpool :=
  [InventoryObject.db (HandlersObject.inventoryService (salesHandler m));
   InventoryObject.db (WebsocketObject.inventoryService (wsHandler m));
   ReservationObject.db (HandlersObject.reservationService (reservationsHandler m));
   HandlersObject.db (ordersHandler m)].
