(* ===== verification/Boot.v ===== *)
(** * cmd/server/main.go and the constructors it calls

    Startup and shutdown as a tree of calls to the operating system, to the
    libraries that open connections, and of the program's own handlers that run
    before the server listens. [log.Fatalf] ends the process at once; a deferred
    call runs when [main] returns or panics. *)
From S2P Require Import Prelude GoStd Models Services Scripts World Keys RedisClient.
From S2P Require Import Expiry Reconcile RateLimit Config Wiring.
From Stdlib Require Import QArith.
Local Open Scope string_scope.
Local Open Scope Z_scope.

(** ** Calls *)

(** What main opens and has to close. *)
Inductive resource :=
| Exporter | TracerProvider | RedisConn (c : rconn) | PgPool | ShutdownContext | TracerContext.

(** What each goroutine holds: the fan-out loops their connection and the hub. *)
Inductive goroutine :=
| ReconciliationWorker (db : pgpool) (rdb : rconn) (interval : Z)
| HubRun (hub : hub_pointer)
| ExpiryListener (h : QueueObject.ExpiryHandler)
| ExpiryTicker (h : QueueObject.ExpiryHandler)
| SaleFanOut (rdb : rconn) (hub : hub_pointer)
| UserFanOut (rdb : rconn) (hub : hub_pointer)
| ListenAndServe (addr : string) (router : Mux).

Inductive bcall : Type -> Type :=
| Getenv (key : string) : bcall string
| ReadFile (path : string) : bcall (error + string)
| OtlpExporter (endpoint : string) : bcall (option error)
| OtelResource (service version environment : string) : bcall (option error)
| RedisParseURL (url : string) : bcall (option error)
| RedisPing (c : rconn) : bcall (option error)
| ScriptLoad (c : rconn) (text : string) : bcall (error + string)
| PgxpoolNew (url : string) : bcall (option error)
| Open (r : resource) : bcall unit
| Close (r : resource) : bcall unit
| Handler {A} (p : prog A) : bcall A
| SetReconciliationComplete : bcall unit
| Go (g : goroutine) : bcall unit
| WaitQuit : bcall (option error)
| ServerShutdown : bcall (option error)
| Println (line : string) : bcall unit.

(** ** Startup code *)

Inductive boot (A : Type) : Type :=
| BRet (a : A)
| Fatalf (msg : string)
| BCall {X : Type} (c : bcall X) (k : X -> boot A)
| Defer (cleanup : list (bcall unit)) (p : boot A).
Arguments BRet {A}. Arguments Fatalf {A}. Arguments BCall {A X}. Arguments Defer {A}.

Fixpoint bbind {A B} (p : boot A) (f : A -> boot B) : boot B :=
  match p with
  | BRet a => f a
  | Fatalf m => Fatalf m
  | BCall c k => BCall c (fun x => bbind (k x) f)
  | Defer d p => Defer d (bbind p f)
  end.

Definition bdo {X} (c : bcall X) : boot X := BCall c BRet.

Declare Scope boot_scope.
Delimit Scope boot_scope with boot.
Bind Scope boot_scope with boot.
Notation "'let^' x ':=' p 'in' k" := (bbind p (fun x => k))
  (at level 10, x binder, p at level 200, k at level 200) : boot_scope.
Notation "'do^' c 'in' k" := (bbind (bdo c) (fun _ => k))
  (at level 10, c at level 200, k at level 200) : boot_scope.
Local Open Scope boot_scope.

(** ** internal/redis/client.go *)

Module RedisConnection.
Import RedisObject.

Definition scriptsDir : string := "internal/redis/scripts".

(** [os.ReadFile(filepath.Join(scriptsDir, name))] and the return on its error. *)
Definition read_script {A} (name : string) (k : string -> boot (error + A)) : boot (error + A) :=
  let^ script := bdo (ReadFile (scriptsDir ++ "/" ++ name)) in
  match script with
  | inl err => BRet (inl (Errorf_w ("failed to read " ++ name) err))
  | inr text => k text
  end.

(** [c.rdb.ScriptLoad(ctx, script).Result()] and the return on its error. *)
Definition load_script {A} (c : rconn) (what text : string) (k : string -> boot (error + A))
  : boot (error + A) :=
  let^ sha := bdo (ScriptLoad c text) in
  match sha with
  | inl err => BRet (inl (Errorf_w ("failed to load " ++ what) err))
  | inr sha => k sha
  end.

Definition loadScripts (c : rconn) (replica : option rconn) : boot (error + Client) :=
  read_script "reserve.lua" (fun reserveScript =>
  read_script "release.lua" (fun releaseScript =>
  read_script "confirm.lua" (fun confirmScript =>
  read_script "waitlist_join.lua" (fun waitlistJoinScript =>
  read_script "waitlist_promote.lua" (fun waitlistPromoteScript =>
  load_script c "reserve script" reserveScript (fun reserveSHA =>
  load_script c "release script" releaseScript (fun releaseSHA =>
  load_script c "confirm script" confirmScript (fun confirmSHA =>
  load_script c "waitlist_join script" waitlistJoinScript (fun waitlistJoinSHA =>
  load_script c "waitlist_promote script" waitlistPromoteScript (fun waitlistPromoteSHA =>
  BRet (inr (mkClient c replica reserveSHA releaseSHA confirmSHA waitlistJoinSHA
    waitlistPromoteSHA)))))))))))).

(** The replica is used when its URL is given, parses and answers. *)
Definition connect_replica (replicaURL : string) : boot (option rconn) :=
  if String.eqb replicaURL "" then BRet None
  else
    let^ bad := bdo (RedisParseURL replicaURL) in
    match bad with
    | Some _ => BRet None
    | None =>
        let c := mkConn Replica replicaURL in
        do^ Open (RedisConn c) in
        let^ down := bdo (RedisPing c) in
        BRet (match down with None => Some c | Some _ => None end)
    end.

Definition NewClient (redisURL replicaURL : string) : boot (error + Client) :=
  let^ bad := bdo (RedisParseURL redisURL) in
  match bad with
  | Some err => BRet (inl (Errorf_w "failed to parse redis URL" err))
  | None =>
      let rdb := mkConn Primary redisURL in
      do^ Open (RedisConn rdb) in
      let^ down := bdo (RedisPing rdb) in
      match down with
      | Some err => BRet (inl (Errorf_w "failed to connect to redis" err))
      | None =>
          let^ replica := connect_replica replicaURL in
          let^ client := loadScripts rdb replica in
          match client with
          | inl err => BRet (inl (Errorf_w "failed to load lua scripts" err))
          | inr c => BRet (inr c)
          end
      end
  end.

(** The calls of [Close]. *)
Definition CloseClient (c : Client) : list (bcall unit) :=
  (match replica c with Some r => [Close (RedisConn r)] | None => [] end ++ [Close (RedisConn (rdb c))])%list.
End RedisConnection.

(** ** internal/ratelimit/limiter.go *)

Module RateLimiter.

Definition scriptPath : string := "internal/redis/scripts/token_bucket.lua".

Definition loadScript (c : rconn) : boot (error + string) :=
  let^ script := bdo (ReadFile scriptPath) in
  match script with
  | inl err => BRet (inl (Errorf_w "failed to read token_bucket.lua" err))
  | inr text =>
      let^ sha := bdo (ScriptLoad c text) in
      match sha with
      | inl err => BRet (inl (Errorf_w "failed to load script" err))
      | inr sha => BRet (inr sha)
      end
  end.

Definition NewLimiter (c : rconn) (capacity ratePerSec : Q) : boot (error + LimiterObject.Limiter) :=
  let^ sha := loadScript c in
  match sha with
  | inl err => BRet (inl (Errorf_w "failed to load token bucket script" err))
  | inr sha => BRet (inr (LimiterObject.mkLimiter c sha (Limiter.mkLimiter capacity ratePerSec)))
  end.
End RateLimiter.

(** ** internal/telemetry/tracer.go *)

Module Telemetry.

(** The provider is installed globally as the last step. An exporter that was
    made stays open when the resource cannot be. *)
Definition InitTracer (serviceName otlpEndpoint version environment : string) : boot (option error) :=
  let^ exporter := bdo (OtlpExporter otlpEndpoint) in
  match exporter with
  | Some err => BRet (Some (Errorf_w "failed to create OTLP exporter" err))
  | None =>
      do^ Open Exporter in
      let^ res := bdo (OtelResource serviceName version environment) in
      match res with
      | Some err => BRet (Some (Errorf_w "failed to create resource" err))
      | None => do^ Open TracerProvider in BRet None
      end
  end.
End Telemetry.

(** ** cmd/server/main.go *)

Module Main.

Definition getEnvOrDefault (key def : string) : boot string :=
  let^ v := bdo (Getenv key) in
  BRet (if String.eqb v "" then def else v).

(** The calls behind the two goroutines [Start] leaves running. *)
Definition start_expiry (h : QueueObject.ExpiryHandler) : boot (option error) :=
  let^ err := bdo (Handler ExpiryHandler.Start) in
  match err with
  | Some e => BRet (Some e)
  | None => do^ Go (ExpiryListener h) in do^ Go (ExpiryTicker h) in BRet None
  end.

(** [quit] and the end of main. [WaitQuit] answers an error when
    [ListenAndServe] returned one while main waits. *)
Definition shutdown : boot unit :=
  let^ stop := bdo WaitQuit in
  match stop with
  | Some err => Fatalf (Errorf_w "Server failed" err)
  | None =>
      do^ Println "Shutting down server..." in
      do^ Open ShutdownContext in
      Defer [Close ShutdownContext] (
        let^ forced := bdo ServerShutdown in
        match forced with
        | Some err => Fatalf (Errorf_w "Server forced to shutdown" err)
        | None => do^ Println "Server exited" in BRet tt
        end)
  end.

Section Main.
Context `{UL : UuidLib}.

(** From the limiter on: everything that can serve is connected and reconciled. *)
Definition serve (cfg : Config.Config) (redisClient : RedisObject.Client) (db : pgpool) : boot unit :=
  let rdb := RedisObject.GetClient redisClient in
  let^ limiter := RateLimiter.NewLimiter rdb (Config.RateLimitCapacity cfg) (Config.RateLimitRatePerSec cfg) in
  match limiter with
  | inl err => Fatalf (Errorf_w "Failed to create rate limiter" err)
  | inr rateLimiter =>
      do^ Go (ReconciliationWorker db rdb (seconds (Config.ReconciliationIntervalSeconds cfg))) in
      let publisher := PublisherObject.NewPublisher rdb in
      let inventoryService := InventoryObject.NewService redisClient db in
      let reservationService := ReservationObject.NewService redisClient db
        (Config.ReservationTTLSeconds cfg) (Some publisher) in
      let waitlistService := WaitlistObject.NewService redisClient in
      let hub := MainHub in
      do^ Go (HubRun hub) in
      let expiryHandler := QueueObject.NewExpiryHandler redisClient db
        (Config.ReservationTTLSeconds cfg) (Some publisher) in
      let^ err := start_expiry expiryHandler in
      match err with
      | Some err => Fatalf (Errorf_w "Failed to start expiry handler" err)
      | None =>
          do^ Go (SaleFanOut rdb hub) in
          do^ Go (UserFanOut rdb hub) in
          let wsHandler := WebsocketObject.NewHandler hub inventoryService in
          let router := NewRouter inventoryService reservationService waitlistService wsHandler db rateLimiter in
          do^ Go (ListenAndServe (":" ++ Config.ServerPort cfg) router) in
          shutdown
      end
  end.

(** From the Redis connection on. *)
Definition connect (cfg : Config.Config) : boot unit :=
  let^ redisClient := RedisConnection.NewClient (Config.RedisURL cfg) (Config.RedisReplicaURL cfg) in
  match redisClient with
  | inl err => Fatalf (Errorf_w "Failed to connect to Redis" err)
  | inr client => Defer (RedisConnection.CloseClient client) (
      let^ db := bdo (PgxpoolNew (Config.DatabaseURL cfg)) in
      match db with
      | Some err => Fatalf (Errorf_w "Failed to connect to database" err)
      | None =>
          do^ Open PgPool in
          Defer [Close PgPool] (
            do^ Println "Running startup reconciliation..." in
            let^ err := bdo (Handler Recovery.ReconcileOnStartup) in
            match err with
            | Some err => Fatalf (Errorf_w "Startup reconciliation failed" err)
            | None => do^ SetReconciliationComplete in serve cfg client (mkPool (Config.DatabaseURL cfg))
            end)
      end)
  end.

Definition main {V} `{VI : Viper V} (v : V) : boot unit :=
  match fst (Config.Load v) with
  | inl err => Fatalf (Errorf_w "Failed to load config" err)
  | inr cfg =>
      let^ otlpEndpoint := getEnvOrDefault "OTLP_ENDPOINT" "localhost:4317" in
      let^ environment := getEnvOrDefault "APP_ENV" "development" in
      let^ err := Telemetry.InitTracer "flash-sale" otlpEndpoint "1.0.0" environment in
      match err with
      | Some err =>
          do^ Println (Errorf_w "Warning: failed to initialize tracer" err ++
                       " — continuing without tracing") in
          connect cfg
      | None =>
          (* [tp.Shutdown] shuts the exporter down with the provider *)
          Defer [Open TracerContext; Close Exporter; Close TracerProvider; Close TracerContext] (connect cfg)
      end
  end.

(** The goroutine of [StartReconciliationWorker]: [time.NewTicker] panics when
    the interval is not positive. *)
Definition worker_goroutine (interval : Z) (wakes : list ExpiryHandler.wake) : prog unit :=
  if interval <=? 0 then Panic "non-positive interval for NewTicker"
  else Worker.StartReconciliationWorker wakes.
End Main.
End Main.

(** ** The machine that runs it *)

(** The answers of the operating system and the network to the [n]-th call. *)
Class Host := {
  os_getenv : string -> string;
  os_read_file : nat -> string -> error + string;
  otlp_new : nat -> string -> option error;
  resource_new : nat -> option error;
  redis_parse_url : string -> option error;
  redis_ping : nat -> rconn -> option error;
  script_load : nat -> rconn -> string -> error + string;
  pgxpool_new : nat -> string -> option error;
  wait_quit : nat -> option error;
  server_shutdown : nat -> option error
}.

#[global] Instance role_eq_dec : EqDecision role.
Proof. solve_decision. Defined.
#[global] Instance rconn_eq_dec : EqDecision rconn.
Proof. solve_decision. Defined.
#[global] Instance resource_eq_dec : EqDecision resource.
Proof. solve_decision. Defined.

Record process (R D : Type) := mkProcess {
  p_world : world R D;
  p_calls : nat;
  p_open : list resource;
  p_closed : list resource;
  p_scripts : list (rconn * string);
  p_ready : bool;
  p_goroutines : list goroutine;
  p_log : list string
}.
Arguments mkProcess {R D}. Arguments p_world {R D}. Arguments p_calls {R D}. Arguments p_open {R D}.
Arguments p_closed {R D}. Arguments p_scripts {R D}. Arguments p_ready {R D}.
Arguments p_goroutines {R D}. Arguments p_log {R D}.

Inductive exit (A : Type) := Returned (a : A) | Exited (msg : string) | Crashed (msg : string).
Arguments Returned {A}. Arguments Exited {A}. Arguments Crashed {A}.

(** The last opened of the resources equal to [r] goes. *)
Fixpoint remove_one (r : resource) (l : list resource) : list resource :=
  match l with
  | [] => []
  | x :: rest => if decide (x = r) then rest else x :: remove_one r rest
  end.

Section Machine.
Context {R D : Type} `{RS : RedisServer R} `{LN : LuaNum} `{PG : Postgres D} `{O : Oracle} `{HO : Host}.
#[local] Abbreviation process := (process R D).

Definition pcall (p : process) : process :=
  mkProcess (p_world p) (S (p_calls p)) (p_open p) (p_closed p) (p_scripts p) (p_ready p)
    (p_goroutines p) (p_log p).
Definition set_world (w : world R D) (p : process) : process :=
  mkProcess w (p_calls p) (p_open p) (p_closed p) (p_scripts p) (p_ready p) (p_goroutines p) (p_log p).
Definition set_open (o c : list resource) (p : process) : process :=
  mkProcess (p_world p) (p_calls p) o c (p_scripts p) (p_ready p) (p_goroutines p) (p_log p).
Definition set_scripts (s : list (rconn * string)) (p : process) : process :=
  mkProcess (p_world p) (p_calls p) (p_open p) (p_closed p) s (p_ready p) (p_goroutines p) (p_log p).
Definition set_ready (p : process) : process :=
  mkProcess (p_world p) (p_calls p) (p_open p) (p_closed p) (p_scripts p) true (p_goroutines p) (p_log p).
Definition add_goroutine (g : goroutine) (p : process) : process :=
  mkProcess (p_world p) (p_calls p) (p_open p) (p_closed p) (p_scripts p) (p_ready p)
    (p_goroutines p ++ [g])%list (p_log p).
Definition add_log (s : string) (p : process) : process :=
  mkProcess (p_world p) (p_calls p) (p_open p) (p_closed p) (p_scripts p) (p_ready p)
    (p_goroutines p) (p_log p ++ [s])%list.

(** One call; a handler that panics takes the process with it. *)
Definition perform_call {X} (c : bcall X) (p : process) : (string + X) * process :=
  match c in bcall X return (string + X) * process with
  | Getenv key => (inr (os_getenv key), pcall p)
  | ReadFile path => (inr (os_read_file (p_calls p) path), pcall p)
  | OtlpExporter endpoint => (inr (otlp_new (p_calls p) endpoint), pcall p)
  | OtelResource _ _ _ => (inr (resource_new (p_calls p)), pcall p)
  | RedisParseURL url => (inr (redis_parse_url url), pcall p)
  | RedisPing c => (inr (redis_ping (p_calls p) c), pcall p)
  | ScriptLoad c text =>
      match script_load (p_calls p) c text with
      | inl e => (inr (inl e), pcall p)
      | inr sha => (inr (inr sha), pcall (set_scripts (p_scripts p ++ [(c, text)])%list p))
      end
  | PgxpoolNew url => (inr (pgxpool_new (p_calls p) url), pcall p)
  | Open r => (inr tt, pcall (set_open (r :: p_open p) (p_closed p) p))
  | Close r => (inr tt, pcall (set_open (remove_one r (p_open p)) (p_closed p ++ [r])%list p))
  | Handler h =>
      match run h (p_world p) with
      | (Ok a, w) => (inr a, pcall (set_world w p))
      | (Panicked m, w) => (inl m, pcall (set_world w p))
      end
  | SetReconciliationComplete => (inr tt, pcall (set_ready p))
  | Go g => (inr tt, pcall (add_goroutine g p))
  | WaitQuit => (inr (wait_quit (p_calls p)), pcall p)
  | ServerShutdown => (inr (server_shutdown (p_calls p)), pcall p)
  | Println line => (inr tt, pcall (add_log line p))
  end.

Definition run_cleanup (d : list (bcall unit)) (p : process) : process :=
  fold_left (fun p c => snd (perform_call c p)) d p.

Fixpoint boot_run {A} (b : boot A) (p : process) : exit A * process :=
  match b with
  | BRet a => (Returned a, p)
  | Fatalf msg => (Exited msg, p)
  | BCall c k =>
      match perform_call c p with
      | (inr x, p') => boot_run (k x) p'
      | (inl msg, p') => (Crashed msg, p')
      end
  | Defer d b =>
      match boot_run b p with
      | (Exited msg, p') => (Exited msg, p')
      | (o, p') => (o, run_cleanup d p')
      end
  end.

(** A process that has just been started beside [w]. *)
Definition fresh_process (w : world R D) : process := mkProcess w 0 [] [] [] false [] [].
End Machine.
