(* ===== verification/Claims.v ===== *)
(** * Claims: what each of many interleaved handlers knows and owes

    Handlers of all kinds run interleaved, call by call. Each declares the
    reservation it alone confirms, releases or expires and the idempotency key
    it alone uses ([orderly]). Then the counters and the tables agree whenever
    every handler is done, and no more orders than the stock are ever written,
    at any moment. A [claim] is what one handler knows and owes: units taken
    and not recorded yet, a row it has read and nobody else changes, a unit it
    has moved in Redis and not yet in the tables, a free key, a fresh order id. *)
From S2P Require Import Prelude GoStd Models Schema Services Scripts World Keys Logic.
From S2P Require Import RedisClient Reservation Inventory Expiry Ledger.
From S2P Require Import Discipline ReserveSpec ConfirmSpec ExpirySpec WaitlistSpec.
Local Open Scope Z_scope.

(** ** Operations *)

Inductive operation :=
| OpRequest (q : request)
| OpConfirm (reservationID : uuid) (key : string)
| OpRelease (svc : ReservationService.Service) (reservationID : uuid)
| OpExpire (h : ExpiryHandler.ExpiryHandler) (reservationID : uuid).

Definition perform `{UuidLib} (o : operation) : prog unit :=
  match o with
  | OpRequest q => serve q
  | OpConfirm rid key => ignore (ReservationService.Confirm rid key)
  | OpRelease svc rid => ignore (ReservationService.Release svc rid)
  | OpExpire h rid => ExpiryHandler.on_expired_message h (ttlKey (uuid_String rid))
  end.

(** The reservation an operation may change, the key it may give an order. *)
Definition op_row (o : operation) : option uuid :=
  match o with
  | OpRequest _ => None
  | OpConfirm rid _ | OpRelease _ rid | OpExpire _ rid => Some rid
  end.

Definition op_key (o : operation) : option string :=
  match o with OpConfirm _ key => Some key | _ => None end.

Definition valid_key (key : string) : Prop := key <> ""%string /\ varchar 255 key = true.

(** No reservation and no key is used by two of the handlers at a time, and
    every confirmation comes with a key. *)
Record orderly_by {T} (row : T -> option uuid) (key : T -> option string) (l : list T) : Prop := {
  or_rows : NoDup (omap row l);
  or_keys : NoDup (omap key l);
  or_valid : Forall valid_key (omap key l)
}.

Definition orderly : list operation -> Prop := orderly_by op_row op_key.

(** Random ids do not repeat. *)
Definition distinct_uuids `{Oracle} : Prop := forall n m, uuid_at n = uuid_at m -> n = m.

(** ** Claims *)

Inductive phase := Idle | Returned | Confirming.
#[global] Instance phase_eq_dec : EqDecision phase.
Proof. solve_decision. Defined.

Record claim := mkClaim {
  c_units : nat;
  c_phase : phase;
  c_row : option uuid;
  c_res : option Reservation;
  c_key : option string;
  c_free : bool;
  c_order : option uuid
}.

Definition with_units (n : nat) (c : claim) : claim :=
  mkClaim n (c_phase c) (c_row c) (c_res c) (c_key c) (c_free c) (c_order c).
Definition with_phase (p : phase) (c : claim) : claim :=
  mkClaim (c_units c) p (c_row c) (c_res c) (c_key c) (c_free c) (c_order c).
Definition with_res (r : option Reservation) (c : claim) : claim :=
  mkClaim (c_units c) (c_phase c) (c_row c) r (c_key c) (c_free c) (c_order c).
Definition with_free (b : bool) (c : claim) : claim :=
  mkClaim (c_units c) (c_phase c) (c_row c) (c_res c) (c_key c) b (c_order c).
Definition with_order (u : option uuid) (c : claim) : claim :=
  mkClaim (c_units c) (c_phase c) (c_row c) (c_res c) (c_key c) (c_free c) u.

(** The claim of a handler that has not begun. *)
Definition start_claim (row : option uuid) (key : option string) : claim :=
  mkClaim 0 Idle row None key false None.

Definition new_claim (o : operation) : claim := start_claim (op_row o) (op_key o).

Definition units_of (c : claim) : Z := Z.of_nat (c_units c).
Definition returned (c : claim) : Z := match c_phase c with Returned => 1 | _ => 0 end.
Definition working (c : claim) : Z := match c_phase c with Idle => 0 | _ => 1 end.

Fixpoint total_of (f : claim -> Z) (cs : list claim) : Z :=
  match cs with [] => 0 | c :: rest => f c + total_of f rest end.

Section Claims.
Context `{UL : UuidLib}.
Variable sale : uuid.

(** What a claim says of the tables. *)
Definition row_fact (c : claim) (d : db) : Prop :=
  match c_res c with
  | None => c_phase c = Idle
  | Some r => exists rid w, c_row c = Some rid /\ t_reservations d !! rid = Some w /\
      row_res w = r /\ Status r = ReservationStatusReserved /\
      (c_phase c <> Idle -> SaleID r = sale)
  end.

Definition key_fact (c : claim) (d : db) : Prop :=
  c_free c = true -> exists key, c_key c = Some key /\ idempotency_key_used key (t_orders d) = false.

Definition order_fact (c : claim) (d : db) : Prop :=
  c_free c = true -> forall u, c_order c = Some u -> t_orders d !! u = None.

Record facts (c : claim) (d : db) : Prop := {
  f_row : row_fact c d;
  f_key : key_fact c d;
  f_order : order_fact c d
}.

(** The members of the waitlist are users. *)
Definition queue_ok (v : view) : Prop :=
  exists z, queue v sale = Some z /\ forall m, is_Some (z !! m) -> exists u, m = uuid_String u.

(** What a handler with claim [c] may do to the tables: change its own row,
    add rows, add an order under its own key and id. *)
Definition touches (c : claim) (d d' : db) : Prop :=
  (forall k w, t_reservations d !! k = Some w -> c_row c <> Some k ->
     t_reservations d' !! k = Some w) /\
  (forall k o, t_orders d' !! k = Some o -> t_orders d !! k = Some o \/
     (c_order c = Some k /\ c_key c = Some (IdempotencyKey o))).
End Claims.

(** ** Sums over claims *)

Lemma total_of_app f l1 l2 : total_of f (l1 ++ l2) = total_of f l1 + total_of f l2.
Proof. induction l1 as [|c l IH]; cbn; [done|]. rewrite IH. lia. Qed.

Lemma total_of_middle f pre c post :
  total_of f (pre ++ c :: post) = total_of f (pre ++ post) + f c.
Proof. rewrite !total_of_app. cbn. lia. Qed.

Lemma total_of_nonneg f l : (forall c, 0 <= f c) -> 0 <= total_of f l.
Proof. intros H. induction l as [|c l IH]; cbn; [done|]. specialize (H c). lia. Qed.

Lemma total_of_le f g l : (forall c, f c <= g c) -> total_of f l <= total_of g l.
Proof. intros H. induction l as [|c l IH]; cbn; [done|]. specialize (H c). lia. Qed.

Lemma returned_working c : 0 <= returned c <= working c.
Proof. unfold returned, working. destruct (c_phase c); lia. Qed.

Lemma working_busy c : c_phase c <> Idle -> working c = 1.
Proof. unfold working. by destruct (c_phase c). Qed.

(** A unit that is moved in Redis only belongs to a row that still holds it. *)
Lemma working_held sale d (cs : list claim) :
  Forall (fun c => facts sale c d) cs -> NoDup (omap c_row cs) ->
  total_of working cs <= held sale d.
Proof.
  intros Hf Hnd.
  assert (exists l : list uuid, total_of working cs = Z.of_nat (length l) /\ NoDup l /\
    (forall k, k ∈ l -> k ∈ omap c_row cs) /\
    (forall k, k ∈ l -> exists w, t_reservations d !! k = Some w /\ holds_unit sale w = true))
    as (l & -> & Hl & _ & Hrows).
  { induction cs as [|c cs IH]; [exists []; split; [done|]; split; [constructor|]; set_solver|].
    apply Forall_cons in Hf as [Hc Hf].
    assert (NoDup (omap c_row cs)) as Hnd'.
    { cbn in Hnd. revert Hnd. destruct (c_row c); [by intros [_ ?]%NoDup_cons|done]. }
    destruct (IH Hf Hnd') as (l & Hlen & Hl & Hin & Hrow). cbn [total_of].
    rewrite Hlen. destruct (decide (c_phase c = Idle)) as [Hp|Hp].
    { unfold working at 1. rewrite Hp. exists l. split; [lia|]. repeat split; [done| |done]. intros k Hk%Hin. cbn.
      destruct (c_row c); [by right|done]. }
    destruct Hc as [Hr _ _]. unfold row_fact in Hr. destruct (c_res c) as [r|]; [|done].
    destruct Hr as (rid & w & Hrid & Hw & Hwr & Hst & Hsale).
    rewrite (working_busy _ Hp). exists (rid :: l). cbn in Hnd |- *. rewrite Hrid in Hnd |- *. apply NoDup_cons in Hnd as [Hno _].
    repeat split; [cbn; lia| | |].
    - constructor; [|done]. intros Hx%Hin. done.
    - intros k [->|Hk]%elem_of_cons; [by left|right; by apply Hin].
    - intros k [->|Hk]%elem_of_cons; [|by apply Hrow]. exists w. split; [done|].
      unfold holds_unit. rewrite Hwr, (Hsale Hp), Hst. by rewrite !bool_decide_true. }
  unfold held, count. apply Nat2Z.inj_le.
  rewrite <- (size_list_to_set (C := gset uuid) l Hl), <- size_dom.
  apply subseteq_size. intros k Hk%elem_of_list_to_set. destruct (Hrows k Hk) as (w & Hw & Hh).
  apply elem_of_dom. exists w. by apply map_lookup_filter_Some.
Qed.

(** ** Lists of claims *)

Lemma omap_middle {B} (f : claim -> option B) pre c c' post :
  f c' = f c -> omap f (pre ++ c' :: post) = omap f (pre ++ c :: post).
Proof. intros E. rewrite !omap_app. cbn. by rewrite E. Qed.

Lemma elem_of_omap_middle {B} (f : claim -> option B) pre c post x :
  x ∈ omap f (pre ++ c :: post) <-> x ∈ omap f (pre ++ post) \/ f c = Some x.
Proof.
  rewrite !omap_app, !elem_of_app. cbn. destruct (f c) as [y|].
  - rewrite elem_of_cons. split; [intros [?|[->|?]]; auto|intros [[?|?]|[= ->]]; auto].
  - split; [intros [?|?]; auto|intros [[?|?]|?]; auto; done].
Qed.

Lemma NoDup_omap_middle {B} (f : claim -> option B) pre c post :
  NoDup (omap f (pre ++ c :: post)) <->
  NoDup (omap f (pre ++ post)) /\ forall x, f c = Some x -> x ∉ omap f (pre ++ post).
Proof.
  assert (omap f (pre ++ c :: post) ≡ₚ match f c with Some x => [x] | None => [] end ++ omap f (pre ++ post)) as E.
  { rewrite !omap_app. cbn. destruct (f c) as [x|]; cbn; [|done]. by rewrite Permutation_middle. }
  rewrite E. destruct (f c) as [x|]; cbn; [|split; [by intros|by intros [? _]]].
  rewrite NoDup_cons. split; [intros [? ?]; split; [done|by intros ? [= <-]]|intros [? ?]; auto].
Qed.

Lemma nodup_other {B} (f : claim -> option B) pre c post h k :
  NoDup (omap f (pre ++ c :: post)) -> h ∈ pre ++ post -> f h = Some k -> f c <> Some k.
Proof.
  intros [_ Hno]%NoDup_omap_middle Hh Hk Hc. apply (Hno k Hc). apply list_elem_of_omap. by exists h.
Qed.

(** ** The invariant *)

Section Invariant.
Context {R D : Type} `{RL : RedisLaws R} `{LL : LuaNumLaws} `{PL : PostgresLaws D} `{O : Oracle}
  `{UU : UuidLaws}.
Variable sale : uuid.
Variable total : Z.
Hypothesis Htotal : total < max_int64.
Hypothesis Huuids : distinct_uuids.

(** After [n] calls, with the claims [cs] of the handlers. *)
Record inv (cs : list claim) (n : nat) (v : view) : Prop := {
  i_schema : schema_ok (v_db v);
  i_stock : stock v sale =
    Some (total - held sale (v_db v) - sold sale (v_db v) - total_of units_of cs + total_of returned cs,
          held sale (v_db v) + total_of units_of cs - total_of working cs);
  i_pos : 0 <= total - held sale (v_db v) - sold sale (v_db v) - total_of units_of cs + total_of returned cs;
  i_facts : Forall (fun c => facts sale c (v_db v)) cs;
  i_rows : NoDup (omap c_row cs);
  i_keys : NoDup (omap c_key cs);
  i_orders : NoDup (omap c_order cs);
  i_fresh : forall m, (n <= m)%nat ->
    t_orders (v_db v) !! uuid_at m = None /\ (uuid_at m ∉ omap c_order cs) /\ uuid_at m <> sale;
  i_queue : queue_ok sale v
}.

(** Units that are moved but not recorded are among the units held: the orders
    never exceed the stock, and both counters stay between 0 and the stock. *)
Lemma inv_bounds cs n v : inv cs n v ->
  exists a b, stock v sale = Some (a, b) /\ 0 <= a <= total /\ 0 <= b <= total /\
    sold sale (v_db v) <= total.
Proof.
  intros H. do 2 eexists. split; [apply (i_stock _ _ _ H)|].
  pose proof (i_pos _ _ _ H) as Hpos.
  pose proof (working_held sale (v_db v) cs (i_facts _ _ _ H) (i_rows _ _ _ H)) as Hw.
  assert (total_of returned cs <= total_of working cs) as Hr by (apply total_of_le, returned_working).
  assert (0 <= total_of units_of cs) as Hu by (apply total_of_nonneg; intros; unfold units_of; lia).
  pose proof (count_nonneg (counted_order sale) (t_orders (v_db v))) as Ho. fold (sold sale (v_db v)) in Ho.
  lia.
Qed.

(** The other handlers still know what they knew. *)
Lemma facts_kept h c d d' :
  facts sale h d -> touches c d d' ->
  (forall k, c_row h = Some k -> c_row c <> Some k) ->
  (forall k, c_key h = Some k -> c_key c <> Some k) ->
  (forall k, c_order h = Some k -> c_order c <> Some k) ->
  facts sale h d'.
Proof.
  intros [Hr Hk Ho] [Hrows Horders] Hrow Hkey Hord. split.
  - unfold row_fact in *. destruct (c_res h) as [r|]; [|done].
    destruct Hr as (rid & w & Hrid & Hw & Hrest). exists rid, w. split; [done|]. split; [|done].
    apply Hrows; [done|]. by apply Hrow.
  - intros Hfree. destruct (Hk Hfree) as (key & Hck & Hused). exists key. split; [done|].
    destruct (idempotency_key_used key (t_orders d')) eqn:E; [|done]. exfalso.
    apply idempotency_key_used_spec in E as (k & o & Hko & Heq).
    destruct (Horders k o Hko) as [Hold|[_ Hmine]].
    + assert (idempotency_key_used key (t_orders d) = true); [|congruence].
      apply idempotency_key_used_spec. eauto.
    + apply (Hkey key Hck). by rewrite Hmine, Heq.
  - intros Hfree u Hu. destruct (t_orders d' !! u) as [o|] eqn:E; [|done]. exfalso.
    destruct (Horders u o E) as [Hold|[Hmine _]]; [|by apply (Hord u Hu)].
    rewrite (Ho Hfree u Hu) in Hold. done.
Qed.

Lemma inv_step pre c post n v c' v' a b a' b' :
  inv (pre ++ c :: post) n v ->
  c_row c' = c_row c -> c_key c' = c_key c ->
  c_order c' = c_order c \/ c_order c' = Some (uuid_at n) ->
  touches c (v_db v) (v_db v') -> schema_ok (v_db v') ->
  facts sale c' (v_db v') -> queue_ok sale v' ->
  stock v sale = Some (a, b) -> stock v' sale = Some (a', b') ->
  a' = a + (held sale (v_db v) - held sale (v_db v')) + (sold sale (v_db v) - sold sale (v_db v'))
         + (units_of c - units_of c') + (returned c' - returned c) ->
  b' = b + (held sale (v_db v') - held sale (v_db v)) + (units_of c' - units_of c)
         - (working c' - working c) ->
  0 <= a' ->
  inv (pre ++ c' :: post) (S n) v'.
Proof.
  intros H Hrow Hkey Hord Ht Hschema Hf' Hq Hs Hs' Ha' Hb' Hpos.
  pose proof (i_stock _ _ _ H) as Hst. rewrite Hs in Hst.
  rewrite !total_of_middle in Hst. injection Hst as Ea Eb.
  assert (forall m, (n <= m)%nat -> t_orders (v_db v') !! uuid_at m = None) as Hnew.
  { intros m Hm. destruct (t_orders (v_db v') !! uuid_at m) as [o|] eqn:E; [|done]. exfalso.
    destruct (i_fresh _ _ _ H m Hm) as (Hno & Hnc & _).
    destruct (proj2 Ht _ _ E) as [Hold|[Hmine _]]; [congruence|].
    apply Hnc, elem_of_omap_middle. by right. }
  split; try done.
  - rewrite Hs', !total_of_middle. f_equal. f_equal; lia.
  - rewrite !total_of_middle. lia.
  - pose proof (i_facts _ _ _ H) as Hfs. rewrite Forall_app, Forall_cons in Hfs |- *.
    destruct Hfs as (Hpre & _ & Hpost).
    assert (forall h, h ∈ pre ++ post -> facts sale h (v_db v) -> facts sale h (v_db v')) as Hk.
    { intros h Hh Hfh. apply (facts_kept h c (v_db v)); try done; intros k Hk.
      - by apply (nodup_other c_row pre c post h k (i_rows _ _ _ H)).
      - by apply (nodup_other c_key pre c post h k (i_keys _ _ _ H)).
      - by apply (nodup_other c_order pre c post h k (i_orders _ _ _ H)). }
    rewrite !Forall_forall in *. split; [|split; [done|]]; intros h Hh.
    + apply Hk; [apply elem_of_app; by left|by apply Hpre].
    + apply Hk; [apply elem_of_app; by right|by apply Hpost].
  - rewrite (omap_middle c_row pre c c' post Hrow). apply H.
  - rewrite (omap_middle c_key pre c c' post Hkey). apply H.
  - pose proof (i_orders _ _ _ H) as Hnd. destruct Hord as [Hord|Hord].
    + by rewrite (omap_middle c_order pre c c' post Hord).
    + apply NoDup_omap_middle in Hnd as [Hnd _]. apply NoDup_omap_middle. split; [done|].
      intros x Hx. rewrite Hord in Hx. injection Hx as <-.
      destruct (i_fresh _ _ _ H n) as (_ & Hn & _); [lia|]. intros Hin. apply Hn, elem_of_omap_middle. by left.
  - intros m Hm. destruct (i_fresh _ _ _ H m) as (_ & Hn & Hns); [lia|].
    split; [apply Hnew; lia|]. split; [|exact Hns]. intros [Hin|Hin]%elem_of_omap_middle.
    + apply Hn, elem_of_omap_middle. by left.
    + destruct Hord as [Hord|Hord]; rewrite Hord in Hin.
      * apply Hn, elem_of_omap_middle. by right.
      * injection Hin as E%Huuids. lia.
Qed.
End Invariant.

(** ** Calls under the invariant *)

(** What the invariant knows of waitlist members and of the clock. *)
#[export] Instance kept_promise `{UuidLib} : Promise := {|
  promoted_ok u := exists x, u = uuid_String x;
  time_ok t := -9007199254740992 <= InventoryService.Unix t <= 9007199254740992;
  id_ok sale u := u <> sale
|}.

Section Calls.
Context {R D : Type} `{RL : RedisLaws R} `{LL : LuaNumLaws} `{PL : PostgresLaws D} `{O : Oracle}
  `{UU : UuidLaws} `{NF : !NoFaults}.
#[local] Abbreviation wp := (wp (R := R) (D := D)).
Variable sale : uuid.
Variable total : Z.
Hypothesis Htotal : total < max_int64.
Hypothesis Huuids : distinct_uuids.
Hypothesis Hclock : clock_ok.
#[local] Abbreviation inv := (inv sale total).

(** The call keeps the invariant, whatever the other handlers claim, and leaves
    its handler with an answer and a claim that satisfy [K]. *)
Definition call_ok {X} (c : call X) (g : claim) (K : X -> claim -> Prop) : Prop :=
  forall pre post (w : world R D),
    inv (pre ++ g :: post) (w_calls w) (view_of w) ->
    exists g', K (fst (exec c w)) g' /\
      inv (pre ++ g' :: post) (S (w_calls w)) (view_of (snd (exec c w))).

Definition at_rest (g : claim) : Prop := c_units g = 0%nat /\ c_phase g = Idle.

Fixpoint ok_to {A} (Q : A -> claim -> Prop) (g : claim) (p : prog A) : Prop :=
  match p with
  | Ret a => Q a g
  | Panic _ => at_rest g
  | Vis c k => call_ok c g (fun x g' => ok_to Q g' (k x))
  end.

Lemma call_ok_mono {X} (c : call X) g (K K' : X -> claim -> Prop) :
  (forall x g', K x g' -> K' x g') -> call_ok c g K -> call_ok c g K'.
Proof. intros HK H pre post w Hi. destruct (H pre post w Hi) as (g' & Hx & Hi'). eauto. Qed.

Lemma ok_bind {A B} (Q : B -> claim -> Prop) g (p : prog A) (f : A -> prog B) :
  ok_to (fun a g' => ok_to Q g' (f a)) g p -> ok_to Q g (pbind p f).
Proof.
  revert g. induction p as [a|m|X c k IH]; intros g; cbn [ok_to pbind]; [done|done|].
  apply call_ok_mono. intros x g'. apply IH.
Qed.

Lemma ok_mono {A} (Q Q' : A -> claim -> Prop) g (p : prog A) :
  (forall a g', Q a g' -> Q' a g') -> ok_to Q g p -> ok_to Q' g p.
Proof.
  intros HQ. revert g. induction p as [a|m|X c k IH]; intros g; cbn [ok_to]; [apply HQ|done|].
  apply call_ok_mono. intros x g'. apply IH.
Qed.

(** A call is checked on views. *)
Definition next (K : claim -> Prop) pre post (n : nat) (v' : view) : Prop :=
  exists g', K g' /\ inv (pre ++ g' :: post) (S n) v'.

Lemma call_ok_wp {X} (c : call X) g (K : X -> claim -> Prop) :
  (forall pre post n v, inv (pre ++ g :: post) n v ->
     wp (invoke c) v (fun o v' => exists x, o = Ok x /\ next (K x) pre post n v')) ->
  call_ok c g K.
Proof.
  intros H pre post w Hi. specialize (H pre post _ _ Hi w eq_refl). unfold invoke in H. cbn [run] in H.
  destruct (exec c w) as [x w']. cbn in *. destruct H as (y & [= <-] & g' & HK & Hi'). eauto.
Qed.

(** *** Steps that move no unit, and steps of units *)

Lemma touches_refl g d : touches g d d.
Proof. split; auto. Qed.

Lemma facts_with_units m g d : facts sale g d -> facts sale (with_units m g) d.
Proof. intros [? ? ?]. by split. Qed.

Lemma inv_same pre g post n v v' :
  inv (pre ++ g :: post) n v -> same_books sale v v' -> queue_ok sale v' ->
  inv (pre ++ g :: post) (S n) v'.
Proof.
  intros H Hsame Hq. pose proof (inv_bounds _ _ _ _ _ H) as (a & b & Hs & Ha & _).
  pose proof (same_books_stock _ _ _ Hsame) as Hs'. destruct Hsame as (_ & _ & Hdb).
  pose proof (i_facts _ _ _ _ _ H) as Hf. rewrite Forall_app, Forall_cons in Hf.
  eapply (inv_step sale total Huuids pre g post n v g v' a b a b); try done; rewrite ?Hdb;
    try apply H; try apply touches_refl; try tauto; try congruence; try lia; by left.
Qed.

Lemma inv_units pre g post n v v' m m' a b :
  inv (pre ++ with_units m g :: post) n v -> queue_ok sale v' -> v_db v' = v_db v ->
  stock v sale = Some (a, b) ->
  stock v' sale = Some (a - (Z.of_nat m' - Z.of_nat m), b + (Z.of_nat m' - Z.of_nat m)) ->
  0 <= a - (Z.of_nat m' - Z.of_nat m) ->
  inv (pre ++ with_units m' g :: post) (S n) v'.
Proof.
  intros H Hq Hdb Hs Hs' Hpos. pose proof (i_facts _ _ _ _ _ H) as Hf.
  rewrite Forall_app, Forall_cons in Hf. destruct Hf as (_ & Hf & _).
  eapply (inv_step sale total Huuids pre (with_units m g) post n v); try done; rewrite ?Hdb;
    try apply H; try apply touches_refl; [by left| | |].
  - by apply (facts_with_units m' (with_units m g)).
  - unfold units_of, returned. cbn. lia.
  - unfold units_of, working. cbn. lia.
Qed.

Lemma call_still {X} (c : call X) g (K : X -> claim -> Prop) :
  avoids sale (keys_written c) -> only_reads_db c ->
  (forall v, queue_ok sale v -> wp (invoke c) v (fun _ v' => queue_ok sale v')) ->
  (forall x, K x g) -> call_ok c g K.
Proof.
  intros Hk Hdb Hq HK. apply call_ok_wp. intros pre post n v Hi.
  eapply wp_mono; [apply wp_and; [by apply (neutral_call sale)|apply Hq, Hi]|].
  intros o v' [[[x ->] Hsame] Hq']. exists x. split; [done|]. exists g. split; [done|].
  by eapply inv_same.
Qed.

(** *** The waitlist stays a list of users *)

Lemma queue_far {X} (c : call X) v :
  line sale ∉ keys_written c -> queue_ok sale v -> wp (invoke c) v (fun _ v' => queue_ok sale v').
Proof.
  intros Hk (z & Hz & Hu). eapply wp_mono; [by apply keys_frame|]. intros o v' E. exists z.
  split; [|done]. unfold queue, zset_at in *. unfold line in E. by rewrite E.
Qed.

Lemma queue_zrem k m v :
  queue_ok sale v -> wp (invoke (CZRem k m)) v (fun _ v' => queue_ok sale v').
Proof.
  intros Hq. destruct (decide (k = line sale)) as [->|Hne].
  - destruct Hq as (z & Hz & Hu). eapply wp_zrem; [exact Hz|no_drop|].
    exists (delete m z). split; [apply zset_at_put|]. intros x Hx. apply Hu.
    destruct (decide (m = x)) as [->|]; [by rewrite lookup_delete_eq in Hx; destruct Hx|].
    by rewrite lookup_delete_ne in Hx.
  - apply queue_far; [|done]. cbn. intros E%list_elem_of_singleton. congruence.
Qed.

Lemma join_lua_queue (r : R) k1 k2 u n z :
  zset_at (dataset r) k2 = Some z -> -9007199254740992 <= n <= 9007199254740992 ->
  let r' := snd (waitlist_join_lua k1 k2 u (Itoa n) r) in
  zset_at (dataset r') k2 = Some z \/ zset_at (dataset r') k2 = Some (<[u := n]> z).
Proof.
  intros Hz Hn. unfold waitlist_join_lua, get_number, lua_bind. pose proof (GET_read r k1) as E1.
  destruct (GET k1 r) as [[e|o] r1]; cbn in E1; [cbn; rewrite E1; by left|].
  cbn. case_match; cbn; [rewrite E1; by left|].
  rewrite <- E1 in Hz. pose proof (ZSCORE_read r1 k2 u) as E2.
  destruct (ZSCORE k2 u r1) as [[e|[s|]] r2]; cbn in E2 |- *; [rewrite E2; by left|rewrite E2; by left|].
  rewrite <- E2 in Hz. destruct (ZADD_spec r2 k2 z (Itoa n) n u Hz eq_refl Hn) as (a & Ha & Hd & _).
  destruct (ZADD k2 (Itoa n) u r2) as [x r3]. cbn in Ha, Hd. subst x.
  pose proof (ZRANK_read r3 k2 u) as E3. right.
  destruct (ZRANK k2 u r3) as [[e|o'] r4]; cbn in E3 |- *; rewrite E3, Hd; unfold zset_at;
    by rewrite lookup_insert_eq.
Qed.

Lemma queue_join k1 k2 u t v :
  time_ok t -> queue_ok sale v ->
  wp (invoke (CEvalSha waitlistJoinSHA [k1; k2] [uuid_String u; Itoa (InventoryService.Unix t)])) v
    (fun _ v' => queue_ok sale v').
Proof.
  intros Ht Hq. destruct (decide (k2 = line sale)) as [->|Hne].
  - destruct Hq as (z & Hz & Hu). eapply (wp_redis _ (eval_script _ _ _)); [done|no_drop|].
    intros r Hd Hp. unfold eval_script. cbn [run_script]. unfold queue in Hz. rewrite <- Hd in Hz.
    pose proof (join_lua_queue r k1 (line sale) (uuid_String u) _ z Hz Ht) as L. cbn zeta in L.
    assert (forall r', zset_at (dataset r') (line sale) = Some z \/
      zset_at (dataset r') (line sale) = Some (<[uuid_String u := InventoryService.Unix t]> z) ->
      queue_ok sale (mkView (dataset r') (published r') (v_db v) (v_metrics v))) as Hr.
    { intros r' [E|E]; eexists; (split; [exact E|]); [done|].
      intros m Hm. destruct (decide (uuid_String u = m)) as [<-|]; [by exists u|].
      rewrite lookup_insert_ne in Hm by done. by apply Hu. }
    destruct (waitlist_join_lua _ _ _ _ r) as [[e|[x|x|]] r']; cbn in *; by apply Hr.
  - apply queue_far; [|done]. cbn. intros E%list_elem_of_singleton. congruence.
Qed.
(** *** Calls of the discipline *)

(** Two ways the units of a claim change with one script. *)
Lemma next_units (K : claim -> Prop) pre g post n v v' m m' a b :
  inv (pre ++ with_units m g :: post) n v -> queue_ok sale v' -> v_db v' = v_db v ->
  stock v sale = Some (a, b) ->
  stock v' sale = Some (a - (Z.of_nat m' - Z.of_nat m), b + (Z.of_nat m' - Z.of_nat m)) ->
  0 <= a - (Z.of_nat m' - Z.of_nat m) -> K (with_units m' g) ->
  next K pre post n v'.
Proof. intros. exists (with_units m' g). split; [done|]. by eapply inv_units. Qed.

Lemma next_same (K : claim -> Prop) pre g post n v v' :
  inv (pre ++ g :: post) n v -> same_books sale v v' -> queue_ok sale v' -> K g -> next K pre post n v'.
Proof. intros. exists g. split; [done|]. by eapply inv_same. Qed.

Lemma queue_data v v' : v_data v' !! line sale = v_data v !! line sale -> queue_ok sale v -> queue_ok sale v'.
Proof. intros E (z & Hz & Hu). exists z. split; [|done]. unfold queue, zset_at, line in *. by rewrite E. Qed.

(** A script that only moves units keeps the waitlist. *)
Lemma wp_keep_queue {X} (c : call X) v (Phi : outcome X -> view -> Prop) :
  line sale ∉ keys_written c -> queue_ok sale v ->
  wp (invoke c) v (fun o v' => queue_ok sale v' -> Phi o v') -> wp (invoke c) v Phi.
Proof.
  intros Hk Hq H. eapply wp_mono; [apply wp_and; [exact H|by apply queue_far]|].
  intros o v' [HPhi Hq']. by apply HPhi.
Qed.

Lemma line_counters : line sale ∉ [avail sale; resv sale].
Proof.
  unfold line, avail, resv. repeat (apply not_elem_of_cons; split); try apply not_elem_of_nil;
    apply not_eq_sym; [apply available_waitlist|apply reserved_waitlist].
Qed.

Lemma call_ok_take m g (K : error + lua_value -> claim -> Prop) :
  K (inr (LInt (-1))) (with_units m g) -> K (inr (LInt 1)) (with_units (S m) g) ->
  call_ok (CEvalSha reserveSHA [avail sale; resv sale] []) (with_units m g) K.
Proof.
  intros Hno Hyes. apply call_ok_wp. intros pre post n v Hi.
  destruct (inv_bounds _ _ _ _ _ Hi) as (a & b & Hs & Ha & Hb & _).
  pose proof (i_queue _ _ _ _ _ Hi) as Hq.
  apply wp_keep_queue; [apply line_counters|done|].
  eapply call_take; [exact Hs|lia|no_drop| |].
  - intros _ _. eexists. split; [done|]. by eapply next_same.
  - intros Hpos v' Hs' Hdb Hq'. eexists. split; [done|].
    eapply (next_units _ pre g post n v v' m (S m)); [exact Hi|done|done|exact Hs| |lia|exact Hyes].
    rewrite Hs'. f_equal. f_equal; lia.
Qed.

Lemma call_ok_give m g (K : error + lua_value -> claim -> Prop) :
  K (inr (LInt 1)) (with_units m g) ->
  call_ok (CEvalSha releaseSHA [avail sale; resv sale] []) (with_units (S m) g) K.
Proof.
  intros Hyes. apply call_ok_wp. intros pre post n v Hi.
  destruct (inv_bounds _ _ _ _ _ Hi) as (a & b & Hs & Ha & Hb & _).
  pose proof (i_queue _ _ _ _ _ Hi) as Hq.
  apply wp_keep_queue; [apply line_counters|done|].
  eapply call_give; [exact Hs|lia|unfold min_int64; lia|no_drop|].
  intros v' Hs' Hdb Hq'. eexists. split; [done|].
  eapply (next_units _ pre g post n v v' (S m) m); [exact Hi|done|done|exact Hs| |lia|exact Hyes].
  rewrite Hs'. f_equal. f_equal; lia.
Qed.

Lemma call_ok_promote m g (K : error + lua_value -> claim -> Prop) :
  K (inr (LStr "-1")) (with_units m g) ->
  (forall u, u <> "-1"%string -> promoted_ok u -> K (inr (LStr u)) (with_units (S m) g)) ->
  call_ok (CEvalSha waitlistPromoteSHA [line sale; avail sale; resv sale] []) (with_units m g) K.
Proof.
  intros Hno Hyes. apply call_ok_wp. intros pre post n v Hi.
  destruct (inv_bounds _ _ _ _ _ Hi) as (a & b & Hs & Ha & Hb & _).
  pose proof (i_queue _ _ _ _ _ Hi) as Hq. pose proof Hq as (z & Hz & Hu).
  eapply wp_eval_promote; [exact Hs|lia|exact Hz| |].
  - intros _. eexists. split; [done|]. by eapply next_same.
  - intros u Hpos (sc & Hin & _). eexists. split; [done|].
    destruct (Hu u) as [x ->]; [by eexists|].
    eapply (next_units _ pre g post n v _ m (S m)); [exact Hi| |done|exact Hs| |lia|apply Hyes; [apply uuid_String_not_minus_one|by exists x]].
    + exists (delete (uuid_String x) z). split.
      * unfold queue, after_promotion. cbn. rewrite !zset_at_insert by auto with keys. apply zset_at_put.
      * intros y Hy. apply Hu. destruct (decide (uuid_String x = y)) as [<-|];
          [by rewrite lookup_delete_eq in Hy; destruct Hy|by rewrite lookup_delete_ne in Hy].
    + rewrite stock_after_promotion with (a := a) (b := b) by (done || lia).
      rewrite decide_True by done. f_equal. f_equal; lia.
Qed.
(** *** Statements *)

(** What a change of the tables alone has to do to the claim of its handler. *)
Record db_step (g g' : claim) (d d' : db) : Prop := {
  ds_row : c_row g' = c_row g;
  ds_key : c_key g' = c_key g;
  ds_order : c_order g' = c_order g;
  ds_touches : touches g d d';
  ds_facts : facts sale g' d';
  ds_available : held sale d + sold sale d + units_of g - returned g =
    held sale d' + sold sale d' + units_of g' - returned g';
  ds_reserved : held sale d + units_of g - working g = held sale d' + units_of g' - working g'
}.

Lemma inv_db pre g post n v g' d' :
  inv (pre ++ g :: post) n v -> schema_ok d' -> db_step g g' (v_db v) d' ->
  inv (pre ++ g' :: post) (S n) (set_db d' v).
Proof.
  intros H Hd [Hr Hk Ho Ht Hf Ea Eb].
  destruct (inv_bounds _ _ _ _ _ H) as (a & b & Hs & Ha & Hb & _).
  eapply (inv_step sale total Huuids pre g post n v g' (set_db d' v) a b a b); try done;
    [by left|apply H|cbn; lia|cbn; lia|lia].
Qed.

Lemma call_ok_exec s g (K : error + unit -> claim -> Prop) :
  (forall d, schema_ok d -> facts sale g d -> stmt_ok s d = true ->
     exists g', K (inr tt) g' /\ db_step g g' d (stmt_effect s d)) ->
  (forall d e, schema_ok d -> facts sale g d -> stmt_ok s d = false -> K (inl e) g) ->
  call_ok (CExec s) g K.
Proof.
  intros Hyes Hno. apply call_ok_wp. intros pre post n v Hi.
  pose proof (i_facts _ _ _ _ _ Hi) as Hf. rewrite Forall_app, Forall_cons in Hf.
  destruct Hf as (_ & Hf & _). pose proof (i_schema _ _ _ _ _ Hi) as Hd. apply wp_exec.
  - intros [Hdr|Hbad] e; [exfalso; exact (no_drops Hdr)|]. eexists. split; [done|].
    eapply next_same; [exact Hi|apply same_books_refl|apply Hi|by eapply Hno].
  - intros Hok. eexists. split; [done|]. destruct (Hyes _ Hd Hf Hok) as (g' & HK & Hstep).
    exists g'. split; [done|]. apply (inv_db pre g post); [done|by apply schema_step|done].
Qed.

Lemma quiet_step s g d :
  quiet_stmt sale s -> stmt_ok s d = true -> facts sale g d -> db_step g g d (stmt_effect s d).
Proof.
  intros Hq Hok Hf. destruct (quiet_rows sale s d Hq Hok) as [Eo Hr].
  assert (touches g d (stmt_effect s d)) as Ht by (split; [auto|rewrite Eo; auto]).
  assert (held sale (stmt_effect s d) = held sale d) as Eh.
  { apply (count_quiet sale); [|done|done]. unfold holds_unit.
    by intros w [?%bool_decide_eq_true _]%andb_true_iff. }
  assert (sold sale (stmt_effect s d) = sold sale d) as Es by (unfold sold; by rewrite Eo).
  split; rewrite ?Eh, ?Es; try done. destruct Hf as [H1 H2 H3]. split.
  - unfold row_fact in *. destruct (c_res g); [|done]. destruct H1 as (rid & w & ? & ? & ?).
    exists rid, w. auto.
  - unfold key_fact in *. by rewrite Eo.
  - unfold order_fact in *. by rewrite Eo.
Qed.

Lemma facts_insert r p m g d :
  t_reservations d !! ID r = None -> facts sale g d ->
  facts sale (with_units m g) (stmt_effect (InsertReservation r p) d).
Proof.
  intros Hn [H1 H2 H3]. split; [|exact H2|exact H3]. unfold row_fact in *. cbn.
  destruct (c_res g); [|done]. destruct H1 as (rid & w & Hrid & Hw & Hrest). exists rid, w.
  split; [done|]. split; [|done]. rewrite lookup_insert_ne by congruence. done.
Qed.

Lemma insert_step r p m g d :
  SaleID r = sale -> Status r = ReservationStatusReserved ->
  stmt_ok (InsertReservation r p) d = true -> facts sale (with_units (S m) g) d ->
  db_step (with_units (S m) g) (with_units m g) d (stmt_effect (InsertReservation r p) d).
Proof.
  intros Hs Hst Hok Hf. cbn [stmt_ok] in Hok. rewrite !andb_true_iff, bool_decide_eq_true in Hok.
  destruct Hok as [[[[Hn _] _] _] _]. pose proof (held_insert sale d r p Hn) as Eh.
  rewrite Hs, Hst, !bool_decide_true in Eh by done. cbn [andb] in Eh.
  assert (sold sale (stmt_effect (InsertReservation r p) d) = sold sale d) as Es by done.
  split; try done.
  - split; [|intros; by left]. intros k w Hk _. cbn. rewrite lookup_insert_ne by congruence. done.
  - by apply (facts_insert r p m (with_units (S m) g)).
  - rewrite Eh, Es. unfold units_of, returned. cbn. lia.
  - rewrite Eh. unfold units_of, working. cbn. lia.
Qed.

(** Every call of the discipline keeps the invariant. *)
Lemma call_ok_fresh g (K : uuid -> claim -> Prop) :
  (forall u, u <> sale -> K u g) -> call_ok CNewUUID g K.
Proof.
  intros HK pre post w Hi. exists g. split.
  - apply HK. by destruct (i_fresh _ _ _ _ _ Hi (w_calls w)) as (_ & _ & Hn).
  - eapply inv_same; [exact Hi|apply same_books_refl|apply Hi].
Qed.

Lemma lift_call {X} (c : call X) m g (K : X -> nat -> Prop) :
  call_safe sale c m K -> call_ok c (with_units m g) (fun x g' => exists k, K x k /\ g' = with_units k g).
Proof.
  intros Hsafe.
  assert (forall (HK : forall x, K x m), avoids sale (keys_written c) -> only_reads_db c ->
    (forall v, queue_ok sale v -> wp (invoke c) v (fun _ v' => queue_ok sale v')) ->
    call_ok c (with_units m g) (fun x g' => exists k, K x k /\ g' = with_units k g)) as Hstill.
  { intros HK Ha Hdb Hq. apply call_still; [done|done|done|]. intros x. by exists m. }
  assert (forall (HK : forall x, K x m), far sale (keys_written c) -> only_reads_db c ->
    call_ok c (with_units m g) (fun x g' => exists k, K x k /\ g' = with_units k g)) as Hfar.
  { intros HK [Ha Hl] Hdb. apply Hstill; [done|done|done|]. intros v. by apply queue_far. }
  assert (far sale []) as Hnil by (split; [apply avoids_nil|apply not_elem_of_nil]).
  destruct c; cbn [call_safe] in Hsafe; try (by apply Hfar); try (by destruct Hsafe; apply Hfar).
  - destruct Hsafe as [(-> & -> & -> & H1 & H2 & H3) | [(-> & -> & -> & j & -> & H1) |
      [(-> & -> & -> & H1 & H2 & H3) | [(-> & (k1 & k2 & u & t & -> & Hk & Ht & ->) & HK)|[Hk HK]]]]].
    + apply call_ok_take; eauto.
    + apply call_ok_give; eauto.
    + apply call_ok_promote; eauto.
    + apply Hstill; [done|done|done|]. intros v. by apply queue_join.
    + by apply Hfar.
  - destruct Hsafe as [Ha HK]. apply Hstill; [done|done|done|]. intros v. apply queue_zrem.
  - destruct Hsafe as [[Hq HK]|(r & p & j & -> & Hs & Hst & -> & Hyes & Hno)].
    + apply call_ok_exec.
      * intros d Hd Hf Hok. exists (with_units m g). split; [by exists m|by apply quiet_step].
      * intros d e _ _ _. by exists m.
    + apply call_ok_exec.
      * intros d Hd Hf Hok. exists (with_units j g). split; [by exists j|].
        by apply insert_step.
      * intros d e _ _ _. by exists (S j).
  - apply call_ok_wp. intros pre post n v Hi. apply wp_now_at. intros i. eexists. split; [done|].
    eapply next_same; [exact Hi|apply same_books_refl|apply Hi|].
    exists m. split; [|done]. apply Hsafe, Hclock.
  - apply call_ok_fresh. intros u Hu. exists m. split; [by apply Hsafe|done].
Qed.
End Calls.
