(* ===== verification/Traffic.v ===== *)
(** * Reserve, confirm, release and expiry side by side

    The handlers keep the invariant of Claims.v, call by call; so any number of
    them, interleaved in any way, leaves counters and tables in agreement. *)
From S2P Require Import Prelude GoStd Models Schema Services Scripts World Keys Logic.
From S2P Require Import RedisClient Reservation Inventory Expiry Ledger.
From S2P Require Import Discipline ReserveSpec ConfirmSpec ExpirySpec WaitlistSpec Claims.
Local Open Scope Z_scope.

Section Handlers.
Context {R D : Type} `{RL : RedisLaws R} `{LL : LuaNumLaws} `{PL : PostgresLaws D} `{O : Oracle}
  `{UU : UuidLaws} `{NF : !NoFaults}.
#[local] Abbreviation wp := (wp (R := R) (D := D)).
Variable sale : uuid.
Variable total : Z.
Hypothesis Htotal : total < max_int64.
Hypothesis Huuids : distinct_uuids.
Hypothesis Hclock : clock_ok.
#[local] Abbreviation inv := (inv sale total).
#[local] Abbreviation call_ok := (call_ok (R := R) (D := D) sale total).
#[local] Abbreviation ok_to := (ok_to (R := R) (D := D) sale total).
#[local] Abbreviation next := (next sale total).

Lemma lift {A} (Q : A -> nat -> Prop) m g (p : prog A) :
  c_phase g = Idle -> safe_to sale Q m p ->
  ok_to (fun a g' => exists k, Q a k /\ g' = with_units k g) (with_units m g) p.
Proof.
  intros Hg. revert m. induction p as [a|msg|X c k IH]; intros m Hs; cbn [safe_to] in Hs.
  - by exists m.
  - by subst.
  - eapply call_ok_mono; [|by apply lift_call]. intros x g' (j & Hj & ->). by apply IH.
Qed.

(** A program without units of its own, in a handler that holds none. *)
Lemma lift_0 {A} (Q : A -> claim -> Prop) g (p : prog A) :
  at_rest g -> safe_to sale (fun _ m => m = 0%nat) 0 p -> (forall a, Q a g) -> ok_to Q g p.
Proof.
  intros [Hu Hp] Hs HQ. assert (g = with_units 0 g) as Eg by (destruct g; cbn in *; by subst).
  rewrite Eg. eapply ok_mono; [|by apply lift]. intros a g' (k & -> & ->). rewrite <- Eg. apply HQ.
Qed.

Lemma lift_call_0 {X} (c : call X) g (K : X -> claim -> Prop) :
  c_units g = 0%nat -> call_safe sale c 0 (fun _ m => m = 0%nat) -> (forall x, K x g) -> call_ok c g K.
Proof.
  intros Hu Hs HK. assert (g = with_units 0 g) as Eg by (destruct g; cbn in *; by subst).
  rewrite Eg. eapply call_ok_mono; [|by apply lift_call]. intros x g' (k & -> & ->). rewrite <- Eg. apply HK.
Qed.

(** ** Learning: reading the row, the key and a fresh id *)

Lemma next_learn (K : claim -> Prop) pre g post n v g' :
  inv (pre ++ g :: post) n v -> K g' -> db_step sale g g' (v_db v) (v_db v) -> next K pre post n v.
Proof.
  intros Hi HK Hs. exists g'. split; [done|]. replace v with (set_db (v_db v) v) by (by destruct v).
  eapply inv_db; eauto using i_schema.
Qed.

Lemma db_step_refl g d : facts sale g d -> db_step sale g g d d.
Proof. intros. split; try done. apply touches_refl. Qed.

Lemma inv_facts pre g post n v : inv (pre ++ g :: post) n v -> facts sale g (v_db v).
Proof. intros H%i_facts. by rewrite Forall_app, Forall_cons in H; apply H. Qed.

Lemma call_ok_read rid g (K : error + Reservation -> claim -> Prop) :
  c_row g = Some rid -> c_phase g = Idle ->
  (forall e, K (inl e) g) ->
  (forall r, Status r <> ReservationStatusReserved -> K (inr r) g) ->
  (forall r, Status r = ReservationStatusReserved -> K (inr r) (with_res (Some r) g)) ->
  call_ok (CRow (SelectReservation rid)) g K.
Proof.
  intros Hrow Hph He Hno Hyes. apply call_ok_wp. intros pre post n v Hi.
  pose proof (inv_facts _ _ _ _ _ Hi) as Hf.
  assert (forall K', K' g -> next K' pre post n v) as Hstay
    by (intros; eapply next_learn; eauto using db_step_refl).
  apply wp_row; [no_drop|]. intros now. cbn [row_answer].
  destruct (t_reservations (v_db v) !! rid) as [w|] eqn:Hw; cbn [fmap option_fmap option_map].
  2: { intros e. eexists. split; [done|]. by apply Hstay. }
  eexists. split; [done|].
  destruct (decide (Status (row_res w) = ReservationStatusReserved)) as [Hst|Hst]; [|by apply Hstay, Hno].
  eapply next_learn; [exact Hi|by apply Hyes|]. destruct Hf as [Hr Hk Ho].
  split; try done; [apply touches_refl|]. split; [|done|done]. unfold row_fact. cbn.
  by exists rid, w.
Qed.

Lemma call_ok_find_order key g (K : error + Order -> claim -> Prop) :
  c_key g = Some key -> c_order g = None ->
  (forall o, K (inr o) g) -> (forall e, K (inl e) (with_free true g)) ->
  call_ok (CRow (SelectOrderByKey key)) g K.
Proof.
  intros Hkey Hord Hyes Hno. apply call_ok_wp. intros pre post n v Hi.
  pose proof (inv_facts _ _ _ _ _ Hi) as Hf. apply wp_row; [no_drop|]. intros now.
  destruct (row_answer (SelectOrderByKey key) now (v_db v)) as [o|] eqn:E.
  - eexists. split; [done|]. eapply next_learn; [exact Hi|apply Hyes|by apply db_step_refl].
  - intros e. eexists. split; [done|]. eapply next_learn; [exact Hi|apply Hno|].
    apply row_answer_key_none in E. destruct Hf as [Hr Hk Ho].
    split; try done; [apply touches_refl|]. split; [done| |].
    + intros _. by exists key.
    + intros _ u. cbn. by rewrite Hord.
Qed.

Lemma call_ok_new_id g (K : uuid -> claim -> Prop) :
  (forall u, K u (with_order (Some u) g)) -> call_ok CNewUUID g K.
Proof.
  intros HK pre post w Hi. exists (with_order (Some (uuid_at (w_calls w))) g). split; [apply HK|].
  pose proof (inv_facts _ _ _ _ _ Hi) as Hf.
  destruct (inv_bounds _ _ _ _ _ Hi) as (a & b & Hs & Ha & _).
  destruct (i_fresh _ _ _ _ _ Hi (w_calls w)) as (Hno & _); [done|].
  eapply (inv_step sale total Huuids pre g post _ _ _ _ a b a b);
    [exact Hi|done|done|by right|apply touches_refl|apply Hi| |apply Hi|exact Hs|exact Hs| | |lia].
  - destruct Hf as [Hr Hk Ho]. split; [done|done|]. intros _ u. cbn. by intros [= <-].
  - unfold units_of, returned. cbn. lia.
  - unfold units_of, working. cbn. lia.
Qed.
(** ** Giving a unit back *)

Lemma with_phase_idle g : c_phase g = Idle -> with_phase Idle g = g.
Proof. destruct g. cbn. by intros ->. Qed.

(** The phase of a handler that has moved a unit of reservation [r] in Redis. *)
Definition moved (p : phase) (r : Reservation) : phase := if decide (SaleID r = sale) then p else Idle.

(** The counters are ahead of the tables from now on. *)
Lemma next_moved (K : claim -> Prop) p pre g post n v v' r a b :
  inv (pre ++ g :: post) n v -> at_rest g -> c_res g = Some r -> SaleID r = sale -> p <> Idle ->
  queue_ok sale v' -> v_db v' = v_db v -> stock v sale = Some (a, b) -> 0 <= a ->
  stock v' sale = Some (a + returned (with_phase p g), b - 1) ->
  K (with_phase p g) -> next K pre post n v'.
Proof.
  intros Hi [Hu Hph] Hres Hsale Hp Hq Hdb Hs Hpos Hs' HK. exists (with_phase p g). split; [done|].
  pose proof (inv_facts _ _ _ _ _ Hi) as [Hr Hk Ho].
  assert (returned g = 0 /\ working g = 0 /\ working (with_phase p g) = 1) as (E1 & E2 & E3).
  { unfold returned, working. rewrite Hph. by destruct p. }
  pose proof (returned_working (with_phase p g)).
  eapply (inv_step sale total Huuids pre g post n v _ v' a b); try done; rewrite ?Hdb;
    try apply Hi; try apply touches_refl; [by left| | | |].
  - split; [|done|done]. unfold row_fact in *. cbn. rewrite Hres in *.
    destruct Hr as (rid & w & ? & ? & ? & ? & ?). by exists rid, w.
  - rewrite E1. change (units_of (with_phase p g)) with (units_of g). lia.
  - rewrite E2, E3. change (units_of (with_phase p g)) with (units_of g). lia.
  - lia.
Qed.

Lemma call_ok_return g r (K : error + lua_value -> claim -> Prop) :
  at_rest g -> c_res g = Some r -> SaleID r = sale -> K (inr (LInt 1)) (with_phase Returned g) ->
  call_ok (CEvalSha releaseSHA [avail sale; resv sale] []) g K.
Proof.
  intros Hrest Hres Hsale HK. apply call_ok_wp. intros pre post n v Hi.
  destruct (inv_bounds _ _ _ _ _ Hi) as (a & b & Hs & Ha & Hb & _).
  pose proof (i_queue _ _ _ _ _ Hi) as Hq. apply (wp_keep_queue sale); [apply line_counters|done|].
  eapply call_give; [exact Hs|lia|unfold min_int64; lia|no_drop|].
  intros v' Hs' Hdb Hq'. eexists. split; [done|].
  eapply (next_moved _ Returned); try done; lia.
Qed.

Lemma ok_client_release g r (Q : option error -> claim -> Prop) :
  at_rest g -> c_res g = Some r ->
  (forall e, SaleID r <> sale -> Q (Some e) g) -> Q None (with_phase (moved Returned r) g) ->
  ok_to Q g (Client.Release (uuid_String (SaleID r))).
Proof.
  intros Hrest Hres He HQ. unfold moved in HQ. case_decide as Hd.
  - unfold Client.Release. apply ok_bind. rewrite Hd. by apply (call_ok_return g r).
  - rewrite with_phase_idle in HQ by apply Hrest. apply lift_0; [done| |].
    + by apply safe_client_release.
    + intros [e|]; auto.
Qed.

(** A row in another state, as Release and the expiry handler leave it. *)
Lemma update_step st rid g r d :
  c_row g = Some rid -> c_res g = Some r -> c_phase g = moved Returned r ->
  st <> ReservationStatusReserved -> facts sale g d ->
  db_step sale g (with_phase Idle (with_res None g)) d (stmt_effect (UpdateReservationStatus st rid) d).
Proof.
  intros Hrow Hres Hph Hst [Hr Hk Ho]. unfold row_fact in Hr. rewrite Hres in Hr.
  destruct Hr as (rid' & w & Hrid & Hw & Hwr & Hstat & _). rewrite Hrow in Hrid. injection Hrid as <-.
  set (g' := with_phase Idle (with_res None g)).
  assert (held sale (stmt_effect (UpdateReservationStatus st rid) d) = held sale d - working g) as Eh.
  { cbn [stmt_effect]. rewrite (held_update _ _ _ _ _ Hw). unfold holds_unit. cbn.
    rewrite Hwr, Hstat, (bool_decide_false (st = ReservationStatusReserved)), andb_false_r by done.
    rewrite (bool_decide_true (ReservationStatusReserved = _)), andb_true_r by done.
    unfold working. rewrite Hph. unfold moved. destruct (decide (SaleID r = sale)).
    - rewrite bool_decide_true by done. cbn. lia.
    - rewrite bool_decide_false by done. cbn. lia. }
  assert (returned g = working g /\ returned g' = 0 /\ working g' = 0) as (E1 & E2 & E3).
  { unfold returned, working. rewrite Hph. unfold moved. by destruct (decide (SaleID r = sale)). }
  change (units_of g') with (units_of g).
  split; rewrite ?Eh, ?E1, ?E2, ?E3; try done.
  - split; [|intros; by left]. intros k w' Hk' Hne. cbn. rewrite lookup_alter_ne by congruence. done.
  - change (units_of g') with (units_of g).
    change (sold sale (stmt_effect (UpdateReservationStatus st rid) d)) with (sold sale d). lia.
  - change (units_of g') with (units_of g). lia.
Qed.

Lemma call_ok_update st rid g r (K : error + unit -> claim -> Prop) :
  c_row g = Some rid -> c_res g = Some r -> c_phase g = moved Returned r ->
  st <> ReservationStatusReserved -> st <> ReservationStatusConfirmed ->
  K (inr tt) (with_phase Idle (with_res None g)) ->
  call_ok (CExec (UpdateReservationStatus st rid)) g K.
Proof.
  intros Hrow Hres Hph Hst Hst' HK. apply call_ok_exec; [done| |].
  - intros d _ Hf _. eexists. split; [exact HK|]. by apply (update_step st rid g r).
  - intros d e Hd [Hr _ _] Hbad. exfalso. unfold row_fact in Hr. rewrite Hres in Hr.
    destruct Hr as (rid' & w & Hrid & Hw & Hwr & Hstat & _). rewrite Hrow in Hrid. injection Hrid as <-.
    assert (stmt_ok (UpdateReservationStatus st rid) d = true); [|congruence].
    eapply status_update_ok; [exact Hw|done|by rewrite Hwr|done].
Qed.

(** ** Release and expiry *)

Definition done_with (g : claim) : Prop := at_rest g.

Lemma ok_release svc rid g :
  c_row g = Some rid -> at_rest g -> ok_to (fun _ => done_with) g (ReservationService.Release svc rid).
Proof.
  intros Hrow Hrest. unfold ReservationService.Release. apply ok_bind. cbn [invoke ok_to].
  apply (call_ok_read rid); [done|apply Hrest|done| |].
  - intros r Hst. cbn beta iota. by rewrite bool_decide_true.
  - intros r Hst. cbn beta iota. rewrite bool_decide_false by (intros X; by apply X).
    apply ok_bind, (ok_client_release _ r); [done|done|done|].
    cbn beta iota. apply ok_bind. cbn [invoke ok_to].
    apply (call_ok_update _ rid _ r); [done|done|done|done|done|]. cbn beta iota.
    apply lift_0; [by destruct Hrest|..|by destruct Hrest].
    apply safe_bind, safe_get. intros z. apply safe_bind, safe_announce. apply safe_bind, safe_audit.
    done.
Qed.

Lemma ok_handle_expired h rid g :
  c_row g = Some rid -> at_rest g ->
  ok_to (fun _ => done_with) g (ExpiryHandler.handleExpiredReservation h (ttlKey (uuid_String rid))).
Proof.
  intros Hrow Hrest. rewrite handle_key. apply ok_bind. cbn [invoke ok_to].
  apply (call_ok_read rid); [done|apply Hrest|done| |].
  - intros r Hst. cbn beta iota. by rewrite bool_decide_true.
  - intros r Hst. cbn beta iota. rewrite bool_decide_false by (intros X; by apply X).
    apply ok_bind, (ok_client_release _ r); [done|done|done|].
    cbn beta iota. apply ok_bind. cbn [invoke ok_to].
    apply (call_ok_update _ rid _ r); [done|done|done|done|done|]. cbn beta iota.
    apply lift_0; [by destruct Hrest|..|by destruct Hrest].
    apply safe_bind, safe_get. intros z. apply safe_bind.
    assert (safe_to sale (fun _ m => m = 0%nat) 0 (ExpiryHandler.promoteNextUser h (SaleID r))) as Hp.
    { eapply safe_mono; [|apply safe_promote]. intros a m Hm. apply Hm.
      intros u [x ->]. exists x. apply Parse_String. }
    destruct (ExpiryHandler.publisher h); cbn beta iota.
    + apply safe_bind, safe_publish. intros o. apply safe_bind, safe_audit. intros o'. exact Hp.
    + apply safe_bind, safe_audit. intros o'. exact Hp.
Qed.

Lemma ok_expire h rid g :
  c_row g = Some rid -> at_rest g ->
  ok_to (fun _ => done_with) g (ExpiryHandler.on_expired_message h (ttlKey (uuid_String rid))).
Proof.
  intros Hrow Hrest. unfold ExpiryHandler.on_expired_message. case_match; [|done].
  by apply ok_handle_expired.
Qed.

(** A handler that follows the discipline, whatever it may settle. *)
Lemma ok_safe {A} (p : prog A) g :
  at_rest g -> safe sale 0 p -> ok_to (fun _ => at_rest) g p.
Proof.
  intros [Hu Hp] Hs. assert (g = with_units 0 g) as -> by (destruct g; cbn in *; by subst).
  eapply ok_mono; [|by apply lift]. intros a g' (k & Hk & ->). split; [|exact Hp].
  apply Hk. intros u [x ->]. exists x. apply Parse_String.
Qed.
(** ** Confirmation *)

Lemma call_ok_sell g r (K : error + lua_value -> claim -> Prop) :
  at_rest g -> c_res g = Some r -> SaleID r = sale ->
  K (inr (LInt (-1))) g -> K (inr (LInt 1)) (with_phase Confirming g) ->
  call_ok (CEvalSha confirmSHA [resv sale; avail sale; metaKey (uuid_String sale)] []) g K.
Proof.
  intros Hrest Hres Hsale Hno HK. apply call_ok_wp. intros pre post n v Hi.
  destruct (inv_bounds _ _ _ _ _ Hi) as (a & b & Hs & Ha & Hb & _).
  pose proof (i_queue _ _ _ _ _ Hi) as Hq. apply (wp_keep_queue sale); [|done|].
  { cbn. intros E%list_elem_of_singleton. exact (reserved_waitlist _ _ (eq_sym E)). }
  eapply call_confirm; [exact Hs|no_drop| |].
  - intros _ _. eexists. split; [done|]. eapply next_same; [done|exact Hi|apply same_books_refl|done|done].
  - intros _ v' Hs' Hdb Hq'. eexists. split; [done|].
    eapply (next_moved _ Confirming); try done; [lia|]. rewrite Hs'. cbn. by rewrite Z.add_0_r.
Qed.

Lemma ok_client_confirm g r (Q : error + Z -> claim -> Prop) :
  at_rest g -> c_res g = Some r ->
  (forall e, SaleID r <> sale -> Q (inl e) g) -> Q (inr (-1)) g ->
  (forall z, z <> -1 -> Q (inr z) (with_phase (moved Confirming r) g)) ->
  ok_to Q g (Client.Confirm (uuid_String (SaleID r))).
Proof.
  intros Hrest Hres He Hno HQ. unfold Client.Confirm. apply ok_bind. cbn [invoke ok_to].
  unfold moved in HQ. destruct (decide (SaleID r = sale)) as [Hd|Hd].
  - rewrite Hd. apply (call_ok_sell g r); [done|done|done|exact Hno|]. by apply HQ.
  - rewrite with_phase_idle in HQ by apply Hrest. apply lift_call_0; [apply Hrest| |].
    + do 4 right. split; [|done]. split; [split|]; cbn; intros E%list_elem_of_singleton.
      * exact (available_reserved _ _ E).
      * by apply reserved_inj in E.
      * exact (reserved_waitlist _ _ (eq_sym E)).
    + intros [e|[z|z|]]; cbn; auto. destruct (decide (z = -1)) as [->|]; auto.
Qed.

(** Calls of an open transaction that cannot fail. *)
Lemma call_ok_begin g (K : error + unit -> claim -> Prop) : K (inr tt) g -> call_ok CBegin g K.
Proof.
  intros HK. apply call_ok_wp. intros pre post n v Hi. apply wp_begin; [no_drop|].
  eexists. split; [done|]. eapply next_same; [done|exact Hi|apply same_books_refl|apply Hi|done].
Qed.

Lemma call_ok_now g (K : Z -> claim -> Prop) : (forall t, K t g) -> call_ok CNow g K.
Proof.
  intros HK. apply call_ok_wp. intros pre post n v Hi. apply wp_now. intros t.
  eexists. split; [done|]. eapply next_same; [done|exact Hi|apply same_books_refl|apply Hi|done].
Qed.

Lemma call_ok_tx l s g (K : error + unit -> claim -> Prop) :
  (forall d, schema_ok d -> facts sale g d -> stmts_ok (l ++ [s]) d = true) ->
  K (inr tt) g -> call_ok (CTxExec l s) g K.
Proof.
  intros Hok HK. apply call_ok_wp. intros pre post n v Hi.
  pose proof (i_schema _ _ _ _ _ Hi) as Hd. pose proof (inv_facts _ _ _ _ _ Hi) as Hf.
  apply wp_tx_ok; [by apply Hok|].
  eexists. split; [done|]. eapply next_same; [done|exact Hi|apply same_books_refl|apply Hi|done].
Qed.

Lemma call_ok_commit l g g' (K : error + unit -> claim -> Prop) :
  (forall d, schema_ok d -> facts sale g d ->
     stmts_ok l d = true /\ db_step sale g g' d (stmts_effect l d)) ->
  K (inr tt) g' -> call_ok (CCommit l) g K.
Proof.
  intros Hok HK. apply call_ok_wp. intros pre post n v Hi.
  pose proof (i_schema _ _ _ _ _ Hi) as Hd. pose proof (inv_facts _ _ _ _ _ Hi) as Hf.
  destruct (Hok _ Hd Hf) as [Hl Hstep]. apply wp_commit_accepted; [done|].
  eexists. split; [done|]. exists g'. split; [done|].
  eapply inv_db; eauto using schema_steps.
Qed.

(** What Confirm knows when its transaction is under way. *)
Record confirming (g : claim) (rid : uuid) (r : Reservation) (key : string) : Prop := {
  cf_units : c_units g = 0%nat;
  cf_phase : c_phase g = moved Confirming r;
  cf_row : c_row g = Some rid;
  cf_res : c_res g = Some r;
  cf_key : c_key g = Some key;
  cf_free : c_free g = true
}.

(** The claim after the commit: the row is settled, the key is used. *)
Definition sold_claim (g : claim) : claim := with_phase Idle (with_res None (with_free false g)).

Lemma confirm_accepted g rid r key u t d :
  confirming g rid r key -> c_order g = Some u -> varchar 255 key = true ->
  schema_ok d -> facts sale g d -> stmts_ok (confirm_stmts u rid r key t) d = true.
Proof.
  intros [_ _ Hrow Hres Hkey Hfree] Hord Hlen Hd [Hr Hk Ho].
  unfold row_fact in Hr. rewrite Hres in Hr. destruct Hr as (rid' & w & Hrid & Hw & <- & Hst & _).
  rewrite Hrow in Hrid. injection Hrid as <-.
  destruct (Hk Hfree) as (key' & Hkey' & Hused). rewrite Hkey in Hkey'. injection Hkey' as <-.
  apply confirm_stmts_ok; auto.
Qed.

Lemma confirm_step g rid r key u t d :
  confirming g rid r key -> c_order g = Some u -> facts sale g d ->
  db_step sale g (sold_claim g) d (stmts_effect (confirm_stmts u rid r key t) d).
Proof.
  intros [Hun Hph Hrow Hres Hkey Hfree] Hord [Hr Hk Ho].
  unfold row_fact in Hr. rewrite Hres in Hr. destruct Hr as (rid' & w & Hrid & Hw & Hwr & Hst & _).
  rewrite Hrow in Hrid. injection Hrid as <-. specialize (Ho Hfree u Hord).
  set (d' := stmts_effect (confirm_stmts u rid r key t) d).
  assert (held sale d' = held sale d - (if decide (SaleID r = sale) then 1 else 0)) as Eh.
  { change (held sale (stmt_effect (UpdateReservationConfirmed ReservationStatusConfirmed t rid) d) =
      held sale d - (if decide (SaleID r = sale) then 1 else 0)).
    cbn [stmt_effect]. rewrite (held_update _ _ _ _ _ Hw). unfold holds_unit. cbn.
    rewrite Hwr, Hst, andb_false_r, (bool_decide_true (ReservationStatusReserved = _)), andb_true_r by done.
    case_decide; [rewrite bool_decide_true by done|rewrite bool_decide_false by done]; lia. }
  assert (sold sale d' = sold sale d + (if decide (SaleID r = sale) then 1 else 0)) as Es.
  { change (sold sale (stmt_effect (InsertOrder (confirm_order u rid r key t))
      (stmt_effect (UpdateReservationConfirmed ReservationStatusConfirmed t rid) d)) =
      sold sale d + (if decide (SaleID r = sale) then 1 else 0)).
    rewrite sold_insert by exact Ho. unfold counted_order. cbn [confirm_order OrderSaleID OrderStatus].
    change (sold sale (stmt_effect _ d)) with (sold sale d).
    case_decide; [rewrite bool_decide_true by done|rewrite bool_decide_false by done]; done. }
  assert (returned g = 0 /\ working g = (if decide (SaleID r = sale) then 1 else 0)) as (E1 & E2).
  { unfold returned, working. rewrite Hph. unfold moved. by destruct (decide (SaleID r = sale)). }
  split; rewrite ?Eh, ?Es, ?E1, ?E2; try done.
  - split.
    + intros k w' Hk' Hne. cbn. rewrite lookup_alter_ne by congruence. done.
    + change (t_orders d') with (<[u := confirm_order u rid r key t]> (t_orders d)).
      intros k o [[<- <-]|[_ H]]%lookup_insert_Some; [|by left].
      right. by rewrite Hord, Hkey.
  - unfold units_of. cbn. case_decide; lia.
  - unfold units_of, working. cbn. case_decide; lia.
Qed.

Lemma ok_confirm_tx rid key r g :
  confirming g rid r key -> varchar 255 key = true ->
  ok_to (fun _ => done_with) g (ReservationService.confirm_tx rid key r).
Proof.
  intros Hg Hlen. unfold ReservationService.confirm_tx. apply ok_bind. cbn [invoke ok_to].
  apply call_ok_begin. cbn beta iota. apply ok_bind. cbn [invoke ok_to]. apply call_ok_now. intros t.
  apply ok_bind. cbn [invoke ok_to].
  assert (forall g' u, confirming g' rid r key -> c_order g' = Some u -> forall d,
    schema_ok d -> facts sale g' d -> stmts_ok (confirm_stmts u rid r key t) d = true) as Hacc
    by (intros; by eapply confirm_accepted).
  apply call_ok_tx.
  { intros d Hd [Hr _ _]. unfold row_fact in Hr. rewrite (cf_res _ _ _ _ Hg) in Hr.
    destruct Hr as (rid' & w & Hrid & Hw & _). rewrite (cf_row _ _ _ _ Hg) in Hrid.
    injection Hrid as <-. cbn. by rewrite Hw. }
  cbn beta iota. apply ok_bind. cbn [invoke ok_to]. apply call_ok_new_id. intros u.
  set (g1 := with_order (Some u) g).
  assert (confirming g1 rid r key) as Hg1 by (destruct Hg; by split).
  specialize (Hacc g1 u Hg1 eq_refl).
  apply ok_bind. cbn [invoke ok_to]. apply call_ok_tx.
  { intros d Hd Hf. specialize (Hacc d Hd Hf). cbn [confirm_stmts stmts_ok app] in *.
    rewrite !andb_true_iff in *. tauto. }
  cbn beta iota. apply ok_bind. unfold Audit.LogWithConn. apply ok_bind. cbn [invoke ok_to].
  apply call_ok_tx; [exact Hacc|]. cbn beta iota. cbn [ok_to].
  apply ok_bind. cbn [invoke ok_to]. apply (call_ok_commit _ g1 (sold_claim g1)).
  { intros d Hd Hf. split; [by apply Hacc|by apply confirm_step]. }
  cbn beta iota. apply ok_bind. cbn [invoke ok_to].
  apply lift_call_0; [apply Hg| |].
  - intros x. done.
  - intros _. split; [apply Hg|done].
Qed.

Lemma ok_confirm rid key g :
  c_row g = Some rid -> c_key g = Some key -> c_order g = None -> at_rest g -> valid_key key ->
  ok_to (fun _ => done_with) g (ReservationService.Confirm rid key).
Proof.
  intros Hrow Hkey Hord Hrest [Hne Hlen]. unfold ReservationService.Confirm. apply ok_bind.
  destruct (String.eqb_spec key "") as [|_]; [done|].
  unfold ReservationService.getOrderByIdempotencyKey. cbn [invoke ok_to].
  apply (call_ok_find_order key); [done|done|done|]. intros _. cbn beta iota.
  set (g1 := with_free true g). apply ok_bind. cbn [invoke ok_to].
  apply (call_ok_read rid); [done|apply Hrest|done| |].
  - intros r Hst. cbn beta iota. by rewrite bool_decide_true.
  - intros r Hst. cbn beta iota. rewrite bool_decide_false by (intros X; by apply X).
    apply ok_bind, (ok_client_confirm _ r); [done|done|done|done|].
    intros z Hz. cbn beta iota. rewrite (proj2 (Z.eqb_neq z (-1))) by done.
    apply ok_confirm_tx; [|done]. destruct Hrest. by split.
Qed.
End Handlers.

(** ** Pools *)

Section Pools.
Context {R D : Type} `{RL : RedisLaws R} `{LL : LuaNumLaws} `{PL : PostgresLaws D} `{O : Oracle}
  `{UU : UuidLaws} `{NF : !NoFaults}.
Variable sale : uuid.
Variable total : Z.
Hypothesis Htotal : total < max_int64.
Hypothesis Huuids : distinct_uuids.
Hypothesis Hclock : clock_ok.
#[local] Abbreviation pool := (pool (R := R) (D := D) unit).
#[local] Abbreviation ok_to := (ok_to (R := R) (D := D) sale total).

Definition pool_ok (s : pool) : Prop :=
  exists cs, Forall2 (ok_to (fun _ => at_rest)) cs (fst s) /\
    inv sale total cs (w_calls (snd s)) (view_of (snd s)).

Lemma pool_step_ok (s s' : pool) : pool_step s s' -> pool_ok s -> pool_ok s'.
Proof.
  intros [pre X c k post w] (cs & Hok & Hi). cbn [fst snd] in *.
  apply Forall2_app_inv_r in Hok as (c1 & c2 & H1 & H2 & ->).
  apply Forall2_cons_inv_r in H2 as (g & c3 & Hg & H3 & ->). cbn [Claims.ok_to] in Hg.
  destruct (Hg c1 c3 w Hi) as (g' & HK & Hi'). exists (c1 ++ g' :: c3). cbn [fst snd].
  rewrite exec_calls. split; [|done]. by apply Forall2_app, Forall2_cons.
Qed.

Lemma pool_steps_ok (s s' : pool) : pool_steps s s' -> pool_ok s -> pool_ok s'.
Proof. induction 1; [done|]. intros. eauto using pool_step_ok. Qed.

Lemma ok_perform o :
  Forall valid_key (option_list (op_key o)) -> ok_to (fun _ => at_rest) (new_claim o) (perform o).
Proof.
  intros Hk. assert (at_rest (new_claim o)) as Hrest by done. destruct o as [q|rid key|svc rid|h rid].
  - apply ok_safe; [done..|]. apply safe_serve.
  - apply ok_bind. eapply ok_mono; [|apply ok_confirm]; try done.
    cbn in Hk. by apply Forall_cons in Hk as [Hk _].
  - apply ok_bind. by apply ok_release.
  - by apply ok_expire.
Qed.

(** Claims of handlers that have nothing on the way. *)
Lemma total_at_rest (f : claim -> Z) cs :
  (forall g, at_rest g -> f g = 0) -> Forall at_rest cs -> total_of f cs = 0.
Proof. intros Hf. induction 1 as [|g cs Hg _ IH]; cbn; [done|]. by rewrite IH, Hf. Qed.

Lemma units_at_rest g : at_rest g -> units_of g = 0.
Proof. intros [Hu _]. unfold units_of. by rewrite Hu. Qed.
Lemma returned_at_rest g : at_rest g -> returned g = 0.
Proof. intros [_ Hp]. unfold returned. by rewrite Hp. Qed.
Lemma working_at_rest g : at_rest g -> working g = 0.
Proof. intros [_ Hp]. unfold working. by rewrite Hp. Qed.

Lemma inv_at_rest cs n v : Forall at_rest cs -> inv sale total cs n v -> consistent sale total v.
Proof.
  intros Hr Hi. unfold consistent. rewrite (i_stock _ _ _ _ _ Hi).
  rewrite !total_at_rest by eauto using units_at_rest, returned_at_rest, working_at_rest.
  do 2 f_equal; lia.
Qed.

Section Start.
Context {T : Type} (row : T -> option uuid) (key : T -> option string) (handler : T -> prog unit).
#[local] Abbreviation claim_of := (fun t => start_claim (row t) (key t)).

Lemma omap_claims {B} (f : claim -> option B) (f' : T -> option B) (l : list T) :
  (forall t, f (claim_of t) = f' t) -> omap f (claim_of <$> l) = omap f' l.
Proof. intros E. induction l as [|t l IH]; cbn; [done|]. by rewrite E, IH. Qed.

Lemma inv_start (l : list T) n v :
  orderly_by row key l -> schema_ok (v_db v) -> consistent sale total v ->
  0 <= total - held sale (v_db v) - sold sale (v_db v) -> queue_ok sale v ->
  (forall m, (n <= m)%nat -> t_orders (v_db v) !! uuid_at m = None /\ uuid_at m <> sale) ->
  inv sale total (claim_of <$> l) n v.
Proof.
  intros [Hrows Hkeys _] Hd Hc Hpos Hq Hfresh.
  assert (Forall at_rest (claim_of <$> l)) as Hr by (apply Forall_fmap, Forall_true; done).
  assert (omap c_order (claim_of <$> l) = []) as Eo.
  { rewrite (omap_claims c_order (fun _ => None)) by done. clear; induction l as [|o l IH]; [done|exact IH]. }
  split; try done.
  - rewrite Hc, !total_at_rest by eauto using units_at_rest, returned_at_rest, working_at_rest.
    do 2 f_equal; lia.
  - rewrite !total_at_rest by eauto using units_at_rest, returned_at_rest. lia.
  - apply Forall_fmap, Forall_true. intros o. by split.
  - by rewrite (omap_claims c_row row).
  - by rewrite (omap_claims c_key key).
  - rewrite Eo. constructor.
  - intros m Hm. rewrite Eo. destruct (Hfresh m Hm). split; [done|].
    split; [apply not_elem_of_nil|done].
Qed.

Lemma pool_ok_start (l : list T) (w : world R D) :
  Forall valid_key (omap key l) ->
  (forall t, t ∈ l -> Forall valid_key (option_list (key t)) ->
     ok_to (fun _ => at_rest) (claim_of t) (handler t)) ->
  inv sale total (claim_of <$> l) (w_calls w) (view_of w) -> pool_ok (handler <$> l, w).
Proof.
  intros Hkeys Hok Hi. exists (claim_of <$> l). split; [|done]. cbn [fst]. clear Hi.
  induction l as [|t l IH]; [constructor|]. cbn [fmap list_fmap]. constructor.
  - apply Hok; [by left|]. cbn in Hkeys. destruct (key t); cbn; [|done].
    apply Forall_cons in Hkeys as [? _]. auto.
  - apply IH; [|intros u Hu; apply Hok; by right].
    cbn in Hkeys. destruct (key t); [by apply Forall_cons in Hkeys as [_ ?]|done].
Qed.
End Start.

Lemma finished_at_rest cs (ps : list (prog unit)) :
  Forall2 (ok_to (fun _ => at_rest)) cs ps -> Forall (fun p => finished p = true) ps -> Forall at_rest cs.
Proof.
  induction 1 as [|g p cs ps Hg _ IH]; [constructor|]. intros [Hp Hps]%Forall_cons.
  constructor; [|by apply IH]. by destruct p.
Qed.
End Pools.

(** ** The theorem *)

Section Conservation.
Context {R D : Type} `{RL : RedisLaws R} `{LL : LuaNumLaws} `{PL : PostgresLaws D} `{O : Oracle}
  `{UU : UuidLaws} `{NF : !NoFaults}.

(** The ids drawn from now on are new. *)
Definition ids_new (sale : uuid) (w : world R D) : Prop :=
  forall m, (w_calls w <= m)%nat -> t_orders (tables (w_pg w)) !! uuid_at m = None /\ uuid_at m <> sale.

(** A stock of [total] units that the counters and the tables agree on. *)
Record stocked (sale : uuid) (total : Z) (w : world R D) : Prop := {
  st_total : total < max_int64;
  st_schema : schema_ok (tables (w_pg w));
  st_queue : queue_ok sale (view_of w);
  st_consistent : consistent sale total (view_of w);
  st_room : held sale (tables (w_pg w)) + sold sale (tables (w_pg w)) <= total
}.

(** Both counters and the orders within the stock. *)
Definition within_stock (sale : uuid) (total : Z) (w : world R D) : Prop :=
  exists a b, stock (view_of w) sale = Some (a, b) /\ 0 <= a <= total /\ 0 <= b <= total /\
    sold sale (tables (w_pg w)) <= total.

(** Handlers that each keep the invariant, side by side. *)
Lemma pool_conserves {T} (row : T -> option uuid) key (handler : T -> prog unit) sale total
    (l : list T) (w w' : world R D) ps' :
  distinct_uuids -> clock_ok -> orderly_by row key l -> stocked sale total w -> ids_new sale w ->
  (forall t, t ∈ l -> Forall valid_key (option_list (key t)) ->
     ok_to (R := R) (D := D) sale total (fun _ => at_rest) (start_claim (row t) (key t)) (handler t)) ->
  pool_steps (handler <$> l, w) (ps', w') ->
  within_stock sale total w' /\
  (Forall (fun p => finished p = true) ps' -> consistent sale total (view_of w')).
Proof.
  intros Huu Hclock Hl [Htotal Hd Hq Hc Hroom] Hfresh Hok Hsteps.
  destruct (pool_steps_ok sale total _ _ Hsteps) as (cs & Hcs & Hi).
  { apply (pool_ok_start sale total row key handler l w); [apply Hl|exact Hok|].
    apply inv_start; try done. cbn. lia. }
  cbn [fst snd] in *. split; [by eapply inv_bounds|].
  intros Hfin. eapply inv_at_rest; [|exact Hi]. by eapply finished_at_rest.
Qed.

(** Reserve, promote, join, leave, reads, updates, confirmations, releases
    and expiries for any sales run side by side under any schedule, no
    reservation handled twice at a time and no idempotency key shared. From
    counters that agree with the tables on a stock of [total] units: at every
    moment both counters are between 0 and [total] and no more than [total]
    orders have been written; and whenever all handlers have finished, the
    counters agree with the tables again, every unit available, held or sold. *)
Theorem traffic_conserves_stock (sale : uuid) (total : Z) (ops : list operation) (w w' : world R D) ps' :
  distinct_uuids -> clock_ok -> orderly ops -> stocked sale total w -> ids_new sale w ->
  pool_steps (perform <$> ops, w) (ps', w') ->
  within_stock sale total w' /\
  (Forall (fun p => finished p = true) ps' -> consistent sale total (view_of w')).
Proof.
  intros Huu Hclock Hops Hst Hfresh. eapply pool_conserves; eauto.
  intros o _ Hk. apply (ok_perform sale total (st_total _ _ _ Hst) Huu Hclock); done.
Qed.
End Conservation.
