(* ===== verification/Calls.v ===== *)
(** * How many calls a request makes

    A request makes a fixed number of calls to Redis, PostgreSQL, the clock and
    the metrics at most, whatever they answer: no handler retries or loops. *)
From S2P Require Import Prelude GoStd Models Services Scripts World Keys RedisClient.
From S2P Require Import Reservation Inventory Expiry RateLimit Hub Metrics Http Sessions.
Local Open Scope nat_scope.

(** At most [n] calls, whatever is answered. *)
Fixpoint within {A} (n : nat) (p : prog A) {struct p} : Prop :=
  match p with
  | Vis _ k => match n with 0 => False | S n' => forall x, within n' (k x) end
  | _ => True
  end.

Create HintDb calls.

Lemma within_mono {A} n m (p : prog A) : n <= m -> within n p -> within m p.
Proof.
  revert n m. induction p as [a|msg|X c k IH]; intros n m Hle; cbn; [done|done|].
  destruct n as [|n]; [done|]. destruct m as [|m]; [lia|]. intros H x. apply (IH x n); [lia|apply H].
Qed.

Lemma within_bind {A B} m n (p : prog A) (f : A -> prog B) :
  within m p -> m <= n -> (forall a, within (n - m) (f a)) -> within n (pbind p f).
Proof.
  revert m n. induction p as [a|msg|X c k IH]; intros m n Hp Hle Hf; cbn; [|done|].
  - eapply within_mono; [|apply Hf]. lia.
  - cbn in Hp. destruct m as [|m]; [done|]. destruct n as [|n]; [lia|].
    intros x. apply (IH x m); [apply Hp|lia|exact Hf].
Qed.

Lemma within_assoc {A B C} n (p : prog A) (f : A -> prog B) (g : B -> prog C) :
  within n (pbind p (fun a => pbind (f a) g)) -> within n (pbind (pbind p f) g).
Proof. revert n. induction p as [a|msg|X c k IH]; intros n; cbn; [done|done|]. destruct n; [done|]. auto. Qed.

Lemma within_invoke {X} (c : call X) : within 1 (invoke c).
Proof. done. Qed.

Lemma within_ret {A} (a : A) : within 0 (Ret a).
Proof. done. Qed.

Lemma within_defer {A} m n d (p : prog A) :
  within m p -> within n d -> within (m + n) (defer d p).
Proof.
  revert m. induction p as [a|msg|X c k IH]; intros m Hp Hd; cbn in *.
  - apply (within_bind n); [done|lia|done].
  - apply (within_bind n); [done|lia|done].
  - destruct m as [|m]; [done|]. cbn. intros x. by apply IH.
Qed.

Lemma within_catch {A} n (p : prog A) : within n p -> within n (Http.catch p).
Proof.
  revert n. induction p as [a|msg|X c k IH]; intros n; cbn; [done|done|]. destruct n; [done|]. auto.
Qed.

Lemma within_inc m : within 1 (Metrics.IncWithLabelValues m).
Proof. unfold Metrics.IncWithLabelValues. by destruct (forallb _ _). Qed.
#[export] Hint Resolve within_invoke within_ret within_inc : calls.

(** Walk through a program, counting down; a branch is split. *)
Ltac within_step :=
  first
    [ done
    | solve [eapply within_mono; [|eauto with calls nocore]; lia]
    | eapply within_bind; [solve [eauto with calls nocore] | lia | intros; cbn [Nat.sub]]
    | apply within_assoc
    | case_match
    | progress intros ].
Ltac within := intros; repeat within_step.

Section Client.
Context `{UL : UuidLib} `{FA : FloatArg}.

Lemma within_as_int64 v : within 0 (Client.as_int64 v).
Proof. by destruct v. Qed.
Lemma within_as_string v : within 0 (Client.as_string v).
Proof. by destruct v. Qed.
#[local] Hint Resolve within_as_int64 within_as_string : calls.

Lemma within_client_reserve s : within 1 (Client.Reserve s).
Proof. unfold Client.Reserve. within. Qed.
Lemma within_client_release s : within 1 (Client.Release s).
Proof. unfold Client.Release. within. Qed.
Lemma within_client_confirm s : within 1 (Client.Confirm s).
Proof. unfold Client.Confirm. within. Qed.
Lemma within_waitlist_join s u t : within 1 (Client.WaitlistJoin s u t).
Proof. unfold Client.WaitlistJoin. within. Qed.
Lemma within_waitlist_promote s : within 1 (Client.WaitlistPromote s).
Proof. unfold Client.WaitlistPromote. within. Qed.
Lemma within_get_int k : within 1 (Client.get_int k).
Proof. unfold Client.get_int. within. Qed.
Lemma within_get_int_ignoring k : within 1 (Client.get_int_ignoring_error k).
Proof. unfold Client.get_int_ignoring_error. within. Qed.
Lemma within_publish s e : within 1 (Publisher.Publish s e).
Proof. unfold Publisher.Publish. within. Qed.
Lemma within_publish_user s e : within 1 (Publisher.PublishToUser s e).
Proof. unfold Publisher.PublishToUser. within. Qed.
Lemma within_audit db t i e p : within 1 (Audit.LogWithConn db t i e p).
Proof. unfold Audit.LogWithConn. within. Qed.
Lemma within_allow l u : within 2 (Limiter.Allow l u).
Proof. unfold Limiter.Allow. within. Qed.
End Client.
#[export] Hint Resolve within_client_reserve within_client_release within_client_confirm
  within_waitlist_join within_waitlist_promote within_get_int within_get_int_ignoring within_publish
  within_publish_user within_audit within_allow : calls.

Section Handlers.
Context `{UL : UuidLib} `{FA : FloatArg}.

Lemma within_announce svc s n b : within 2 (ReservationService.announce_stock svc s n b).
Proof.
  unfold ReservationService.announce_stock, Publisher.StockUpdate, Publisher.SaleEnded. within.
Qed.
#[local] Hint Resolve within_announce : calls.

Lemma within_idempotency s key : within 2 (ReservationService.checkIdempotency s key).
Proof. unfold ReservationService.checkIdempotency. within. Qed.
Lemma within_reserve_notify svc r : within 6 (ReservationService.reserve_notify svc r).
Proof. unfold ReservationService.reserve_notify, Audit.Log. within. Qed.
#[local] Hint Resolve within_idempotency within_reserve_notify : calls.

Lemma within_reserve_finish svc key r : within 8 (ReservationService.reserve_finish svc key r).
Proof.
  unfold ReservationService.reserve_finish, ReservationService.setIdempotency.
  eapply within_bind; [apply within_invoke|lia|]. intros [e|x]; [done|].
  apply (within_bind 1); [by destruct (String.eqb key "")|lia|]. intros y. apply within_reserve_notify.
Qed.
#[local] Hint Resolve within_reserve_finish : calls.

Lemma within_reserve_record svc u s i key : within 12 (ReservationService.reserve_record svc u s i key).
Proof. unfold ReservationService.reserve_record. within. Qed.
#[local] Hint Resolve within_reserve_record : calls.

Lemma within_reserve_attempt svc u s i key : within 15 (ReservationService.reserve_attempt svc u s i key).
Proof.
  unfold ReservationService.reserve_attempt. apply (within_bind 2); [|lia|].
  - destruct (String.eqb key ""); [done|apply within_idempotency].
  - within.
Qed.

Lemma within_reserve svc u s i key : within 18 (ReservationService.Reserve svc u s i key).
Proof.
  unfold ReservationService.Reserve. intros start.
  apply (within_defer 15 2); [apply within_reserve_attempt|]. by intros finish x.
Qed.

Lemma within_confirm_fail s pre e : within 2 (ReservationService.confirm_fail s pre e).
Proof. unfold ReservationService.confirm_fail. within. Qed.
#[local] Hint Resolve within_confirm_fail : calls.

Lemma within_confirm_tx rid key r : within 9 (ReservationService.confirm_tx rid key r).
Proof. unfold ReservationService.confirm_tx. within. Qed.
#[local] Hint Resolve within_confirm_tx : calls.

Lemma within_confirm rid key : within 12 (ReservationService.Confirm rid key).
Proof.
  unfold ReservationService.Confirm, ReservationService.getOrderByIdempotencyKey.
  apply (within_bind 1); [by destruct (String.eqb key "")|lia|]. within.
Qed.

Lemma within_release svc rid : within 7 (ReservationService.Release svc rid).
Proof. unfold ReservationService.Release, Audit.Log. within. Qed.

Lemma within_create sale : within 4 (InventoryService.CreateSale sale).
Proof. unfold InventoryService.CreateSale. within. Qed.
Lemma within_get_sale sale : within 3 (InventoryService.GetSale sale).
Proof. unfold InventoryService.GetSale. within. Qed.
Lemma within_update_status sale st : within 2 (InventoryService.UpdateSaleStatus sale st).
Proof. unfold InventoryService.UpdateSaleStatus. within. Qed.
Lemma within_join s u : within 2 (WaitlistService.Join s u).
Proof. unfold WaitlistService.Join. within. Qed.
Lemma within_position s u : within 2 (WaitlistService.GetPosition s u).
Proof. unfold WaitlistService.GetPosition. within. Qed.
Lemma within_leave s u : within 1 (WaitlistService.Leave s u).
Proof. unfold WaitlistService.Leave. within. Qed.
#[local] Hint Resolve within_reserve within_confirm within_release within_create within_get_sale
  within_update_status within_join within_position within_leave : calls.

(** An expired key: at most six calls for the reservation and eleven for the
    promotion. *)
Lemma within_promote h s : within 11 (ExpiryHandler.promoteNextUser h s).
Proof.
  unfold ExpiryHandler.promoteNextUser, Publisher.WaitlistPromoted, Publisher.StockUpdate, Audit.Log.
  destruct (ExpiryHandler.publisher h); within.
Qed.
#[local] Hint Resolve within_promote : calls.

Lemma within_expired h key : within 17 (ExpiryHandler.on_expired_message h key).
Proof.
  unfold ExpiryHandler.on_expired_message, ExpiryHandler.handleExpiredReservation,
    Publisher.StockUpdate, Audit.Log. destruct (ExpiryHandler.publisher h); within.
Qed.

Lemma within_handler s r pattern h : Http.route s r = Some (pattern, h) -> within 20 h.
Proof.
  assert (forall p : prog Http.Response, within 18 p -> within 20 (Http.RateLimitMiddleware (Http.rateLimiter s) r p))
    as Hlim.
  { intros p Hp. unfold Http.RateLimitMiddleware. eapply within_bind; [apply within_allow|lia|].
    intros [e|[[|] z]]; [done| |within]. eapply within_bind; [exact Hp|lia|done]. }
  apply (Http.route_handlers (within 20)); intros; try apply Hlim;
    unfold Http.HealthzHandler, Http.CreateSale, Http.GetSale, Http.UpdateSaleStatus, Http.Reserve,
      Http.Join, Http.GetPosition, Http.Leave, Http.Confirm, Http.Release, Http.GetOrder,
      Http.with_uuid, Http.with_body; within.
Qed.

(** A request through the middleware: one call more, for the counter. *)
Lemma within_request s r p : Http.ServeHTTP s r = Some p -> within 21 p.
Proof.
  unfold Http.ServeHTTP. destruct (Http.route s r) as [[pattern h]|] eqn:E; [|done]. intros [= <-].
  apply within_handler in E. unfold Http.MetricsMiddleware, Http.RecoveryMiddleware.
  apply (within_bind 20); [|lia|].
  - apply (within_bind 20); [by apply within_catch|lia|]. by intros [a|m].
  - within.
Qed.

End Handlers.
