(* ===== verification/Schedule.v ===== *)
(** * The server as a pool of goroutines

    net/http starts a goroutine per request, [Start] one per expired key, and
    the tickers run their passes: the goroutines of the server make their calls
    side by side, in any order. How many turns they need. *)
From S2P Require Import Prelude GoStd Models Services Scripts World Keys RedisClient.
From S2P Require Import Reservation Inventory Expiry Reconcile RateLimit Hub Http Sessions Discipline Calls.
Local Open Scope Z_scope.

(** ** Tasks *)

Inductive task :=
| HandleRequest (r : Http.Request)
| HandleWebSocketRequest (refused : option Http.Response) (id user_id : string)
| HandleExpiredKey (payload : string)
| WarnExpiring
| Reconcile.

Definition is_websocket (t : task) : bool :=
  match t with HandleWebSocketRequest _ _ _ => true | _ => false end.

(** Of a WebSocket request the calls: at the hub it may wait and may panic
    (SessionsSpec.v), and then makes no further one. [refused] is the answer of
    gorilla's Upgrade. *)
Definition run_task `{UuidLib} `{FloatArg} (s : Http.Server) (h : ExpiryHandler.ExpiryHandler)
    (t : task) : prog unit :=
  match t with
  | HandleRequest r => match Http.ServeHTTP s r with Some p => ignore p | None => Ret tt end
  | HandleWebSocketRequest refused id user_id =>
      ignore (Session.calls_of (Session.HandleWebSocket (fun _ => refused) (Session.mkWriter true) 0%nat id user_id))
  | HandleExpiredKey payload => ExpiryHandler.on_expired_message h payload
  | WarnExpiring => ExpiryHandler.notifyExpiringReservations h
  | Reconcile => ignore Worker.reconcileAllSales
  end.

(** ** Budgets *)

Section Budgets.
Context {R D : Type} `{RS : RedisServer R} `{LN : LuaNum} `{PG : Postgres D} `{O : Oracle}.
Context {A : Type}.
#[local] Abbreviation pool := (pool (R := R) (D := D) A).
Local Open Scope nat_scope.

(** Each step of a pool takes one call from one program's budget. *)
Lemma pool_step_budget (s s' : pool) ns :
  pool_step s s' -> Forall2 (fun n p => within n p) ns (fst s) ->
  exists ns', Forall2 (fun n p => within n p) ns' (fst s') /\ sum_list ns = S (sum_list ns').
Proof.
  intros [pre X c k post w] H. cbn [fst] in *.
  apply Forall2_app_inv_r in H as (n1 & n2 & H1 & H2 & ->).
  apply Forall2_cons_inv_r in H2 as (n & n3 & Hn & H3 & ->). cbn in Hn. destruct n as [|n]; [done|].
  exists (n1 ++ n :: n3)%list. split; [by apply Forall2_app, Forall2_cons|].
  rewrite !sum_list_with_app. cbn. lia.
Qed.

Lemma pool_nsteps_budget k (s s' : pool) ns :
  nsteps pool_step k s s' -> Forall2 (fun n p => within n p) ns (fst s) -> k <= sum_list ns.
Proof.
  intros H. revert ns. induction H as [s|k s1 s2 s3 Hstep _ IH]; intros ns Hns; [lia|].
  destruct (pool_step_budget _ _ _ Hstep Hns) as (ns' & Hns' & ->). apply IH in Hns'. lia.
Qed.

(** The turns a schedule gives to a goroutine. *)
Definition turns (i : nat) (schedule : list nat) : nat := length (base.filter (eq i) schedule).

(** Every turn takes one call from the budget of the goroutine it is given to. *)
Definition budgets (b : nat -> nat) (s : pool) : Prop :=
  forall i p, fst s !! i = Some p -> within (b i) p.

Lemma pool_next_budgets b i (s : pool) :
  budgets b s -> budgets (fun j => if decide (i = j) then pred (b j) else b j) (pool_next i s).
Proof.
  intros Hb j p. destruct s as [ps w]. unfold pool_next. cbn [fst snd].
  assert (forall q, ps !! j = Some q -> finished q = true \/ i <> j ->
    within (if decide (i = j) then pred (b j) else b j) q) as Hkeep.
  { intros q Hq Hor. specialize (Hb j q Hq). case_decide; [|done]. by destruct q; destruct Hor. }
  destruct (ps !! i) as [q|] eqn:E.
  - destruct q as [a|m|X c k].
    1-2: cbn [fst]; intros Hp; apply (Hkeep p Hp); destruct (decide (i = j)) as [->|]; [left|by right];
      rewrite E in Hp; by injection Hp as <-.
    destruct (exec c w) as [x w'] eqn:Ex. cbn [fst]. intros Hp.
    destruct (decide (i = j)) as [<-|Hne].
    + rewrite list_lookup_insert_eq in Hp by (by eapply lookup_lt_Some). injection Hp as <-.
      specialize (Hb i _ E). cbn in Hb. destruct (b i); [done|]. apply Hb.
    + rewrite list_lookup_insert_ne in Hp by done. exact (Hkeep p Hp (or_intror Hne)).
  - cbn [fst]. intros Hp. apply (Hkeep p Hp). right. intros ->. congruence.
Qed.

Lemma pool_run_budgets schedule : forall b (s : pool),
  budgets b s -> budgets (fun j => b j - turns j schedule) (pool_run schedule s).
Proof.
  induction schedule as [|i l IH]; intros b s Hb.
  { intros j p Hp. unfold turns. cbn. rewrite Nat.sub_0_r. exact (Hb j p Hp). }
  intros j p Hp. specialize (IH _ _ (pool_next_budgets b i s Hb) j p Hp). cbn beta in IH.
  unfold turns in *. rewrite filter_cons. destruct (decide (i = j)) as [->|Hne].
  - rewrite decide_True by done. cbn [length]. eapply within_mono; [|exact IH]. lia.
  - rewrite decide_False by congruence. exact IH.
Qed.

Lemma pool_run_length schedule : forall s : pool, length (fst (pool_run schedule s)) = length (fst s).
Proof.
  induction schedule as [|i l IH]; intros s; [done|].
  change (pool_run (i :: l) s) with (pool_run l (pool_next i s)). rewrite IH. destruct s as [ps w].
  unfold pool_next. cbn [fst snd]. destruct (ps !! i) as [[a|m|X c k]|]; try done.
  destruct (exec c w). apply length_insert.
Qed.

(** Nothing is left of a program whose budget is used up. *)
Lemma within_zero (p : prog A) : within 0 p -> finished p = true.
Proof. by destruct p. Qed.
End Budgets.

(** Tasks that neither walk over the rows of a query nor wait for the hub. *)
Definition bounded_task (t : task) : bool :=
  match t with HandleRequest _ | HandleExpiredKey _ => true | _ => false end.

Lemma within_task `{UuidLib} `{FloatArg} srv h t : bounded_task t = true -> within 21 (run_task srv h t).
Proof.
  destruct t as [r|up id u|payload| |]; try done; intros _; cbn [run_task]; unfold ignore.
  - destruct (Http.ServeHTTP srv r) as [p|] eqn:E; [|done].
    apply (within_bind 21); [by eapply within_request|lia|done].
  - apply (within_mono 17); [lia|]. apply within_expired.
Qed.

(** ** The theorem *)

Section Server.
Context {R D : Type} `{RS : RedisServer R} `{LN : LuaNum} `{PG : Postgres D} `{O : Oracle}
  `{UL : UuidLib} `{FA : FloatArg}.
Variables (srv : Http.Server) (h : ExpiryHandler.ExpiryHandler).

(** C19. No HTTP request and no expired key retries, loops or waits for another
    goroutine, whatever the services answer: each is done after twenty-one turns
    of its own, however they are spread over the schedule and whatever the
    others do meanwhile, and [n] of them never make more than 21 n calls. *)
Theorem done_in_21_turns (tasks : list task) (schedule : list nat) (w : world R D) :
  forallb bounded_task tasks = true ->
  (forall i, (i < length tasks)%nat -> (21 <= turns i schedule)%nat) ->
  Forall (fun p => finished p = true) (fst (pool_run schedule (run_task srv h <$> tasks, w))) /\
  (forall k s, nsteps pool_step k (run_task srv h <$> tasks, w) s -> (k <= 21 * length tasks)%nat).
Proof.
  intros Hb Hturns. rewrite forallb_forall in Hb.
  assert (Forall (fun p => within 21 p) (run_task srv h <$> tasks)) as Hw.
  { apply Forall_fmap, Forall_forall. intros t Ht. apply within_task, Hb. by apply list_elem_of_In. }
  split.
  - apply Forall_lookup. intros i p Hp.
    assert (budgets (fun _ => 21%nat) (run_task srv h <$> tasks, w)) as H0
      by (intros j q Hq; rewrite Forall_lookup in Hw; by eapply Hw).
    pose proof (pool_run_budgets schedule _ _ H0 i p Hp) as H. cbn beta in H.
    apply within_zero. eapply within_mono; [|exact H].
    assert (i < length tasks)%nat as Hi.
    { apply lookup_lt_Some in Hp. by rewrite pool_run_length in Hp; cbn [fst] in Hp; rewrite length_fmap in Hp. }
    specialize (Hturns i Hi). lia.
  - intros k s Hk. apply (pool_nsteps_budget _ _ _ (replicate (length tasks) 21%nat)) in Hk.
    + rewrite sum_list_replicate in Hk. lia.
    + cbn [fst]. rewrite <- (length_fmap (run_task srv h)). clear -Hw.
      induction Hw; cbn; by constructor.
Qed.
End Server.
