(* ===== verification/Api.v ===== *)
(** * Everything the server does at once

    Traffic.v lifted to what the outside world sees: HTTP requests through the
    router and its middleware, WebSocket requests, expired keys and ticks of the
    warning ticker run side by side and keep the stock of every sale. The
    reconciliation worker is left out: Races.v has the run in which a pass
    beside one reservation oversells. *)
From S2P Require Import Prelude GoStd Models Schema Services Scripts World Keys Logic RedisClient.
From S2P Require Import Reservation Inventory Expiry RateLimit Metrics Http Sessions Ledger Discipline ReserveSpec.
From S2P Require Import ConfirmSpec ExpirySpec WaitlistSpec Concurrency Claims Traffic Schedule.
From Stdlib Require Import Ascii.
Local Open Scope string_scope.
Local Open Scope Z_scope.

(** ** What a task may change *)

Section Tasks.
Context `{UL : UuidLib}.

Definition parsed (s : string) : option uuid :=
  match uuid_Parse s with inr u => Some u | inl _ => None end.

(** The id in the path of a confirmation. *)
Definition confirmed_by (r : Http.Request) : option uuid :=
  match Http.method r, Http.path r with
  | Http.MethodPost, ["api"; "reservations"; id; "confirm"] => parsed id
  | _, _ => None
  end.

(** The id in the path of a release. *)
Definition released_by (r : Http.Request) : option uuid :=
  match Http.method r, Http.path r with
  | Http.MethodDelete, ["api"; "reservations"; id] => parsed id
  | _, _ => None
  end.

(** The reservation whose TTL key has expired. *)
Definition expired_by (payload : string) : option uuid :=
  match Split payload ":"%char with [_; part1; _] => parsed part1 | _ => None end.

(** The reservation a task may settle. *)
Definition task_row (t : task) : option uuid :=
  match t with
  | HandleRequest r =>
      match confirmed_by r with Some rid => Some rid | None => released_by r end
  | HandleExpiredKey payload => expired_by payload
  | _ => None
  end.

(** The idempotency key a task may give to an order. *)
Definition task_key (t : task) : option string :=
  match t with
  | HandleRequest r =>
      match confirmed_by r with Some _ => Some (Http.header_idempotency_key r) | None => None end
  | _ => None
  end.

(** Requests that open a sale. *)
Definition opens_sale (r : Http.Request) : bool :=
  match Http.method r, Http.path r with Http.MethodPost, ["api"; "sales"] => true | _, _ => false end.

(** What shoppers do: every request but those that open a sale and those that
    settle a reservation, and the ticks of the warning ticker. *)
Definition shopping (t : task) : Prop :=
  match t with
  | HandleRequest r => task_row t = None /\ opens_sale r = false
  | HandleWebSocketRequest _ _ _ | WarnExpiring => True
  | HandleExpiredKey _ | Reconcile => False
  end.

Definition reconciles (t : task) : bool := match t with Reconcile => true | _ => false end.
End Tasks.

(** ** Handlers that settle no reservation *)

Section Quiet.
Context `{UU : UuidLaws} `{FA : FloatArg} `{PR : Promise}.
Variable sale : uuid.

Lemma tidy_catch {A} n (p : prog A) : tidy sale n p -> tidy sale n (Http.catch p).
Proof.
  unfold tidy. revert n. induction p as [a|m|X c k IH]; intros n; cbn; [done|done|].
  apply call_safe_mono. intros x m. apply IH.
Qed.

Lemma tidy_then {A B} (p : prog A) (f : A -> prog B) :
  tidy sale 0 p -> (forall a, tidy sale 0 (f a)) -> tidy sale 0 (pbind p f).
Proof.
  intros Hp Hf. unfold tidy. apply safe_bind. eapply safe_mono; [|exact Hp]. intros a m ->. apply Hf.
Qed.

Lemma tidy_ret {A} (a : A) : tidy sale 0 (Ret a).
Proof. done. Qed.

Lemma tidy_metric m : tidy sale 0 (invoke (CMetric m)).
Proof. by intros []. Qed.

Lemma tidy_inc m : tidy sale 0 (Metrics.IncWithLabelValues m).
Proof. unfold Metrics.IncWithLabelValues. case_match; [apply tidy_metric|done]. Qed.

Lemma tidy_row {A} (q : row_query (option A)) : tidy sale 0 (invoke (CRow q)).
Proof. by intros [e|x]. Qed.

Lemma tidy_allow l u : tidy sale 0 (Limiter.Allow l u).
Proof.
  intros t _. do 4 right. split.
  - split; [split|]; intros E%list_elem_of_singleton; discriminate E.
  - intros [e|[z|z|]]; cbn; try case_match; done.
Qed.

Lemma tidy_limited l r p : tidy sale 0 p -> tidy sale 0 (Http.RateLimitMiddleware l r p).
Proof.
  intros Hp. unfold Http.RateLimitMiddleware. apply tidy_then; [apply tidy_allow|].
  intros [e|[[] n]]; [apply tidy_ret| |]; (apply tidy_then; [exact Hp || apply tidy_inc|]);
    intros; apply tidy_ret.
Qed.

Lemma tidy_middleware pattern r h :
  tidy sale 0 h -> tidy sale 0 (Http.MetricsMiddleware pattern r (Http.RecoveryMiddleware h)).
Proof.
  intros Hh. unfold Http.MetricsMiddleware, Http.RecoveryMiddleware.
  apply tidy_then; [apply tidy_then; [by apply tidy_catch|by intros []]|].
  intros resp. apply tidy_then; [apply tidy_inc|by intros []].
Qed.

(** The handlers of the router that settle nothing. *)
Ltac quiet :=
  repeat first
    [ apply tidy_ret
    | apply tidy_limited
    | apply tidy_then; [auto using tidy_reserve, tidy_join, tidy_leave, tidy_position, tidy_get_sale,
        tidy_update_status, tidy_row|intros]
    | case_match ].

(** A routed request settles nothing, or opens a sale, or confirms or releases
    the reservation in its path. *)
Lemma tidy_route s r pattern h : Http.route s r = Some (pattern, h) ->
  tidy sale 0 h \/
  (Http.method r = Http.MethodPost /\ Http.path r = ["api"; "sales"] /\ h = Http.CreateSale r) \/
  (exists id, Http.method r = Http.MethodPost /\ Http.path r = ["api"; "reservations"; id; "confirm"] /\
     h = Http.Confirm id r) \/
  (exists id, Http.method r = Http.MethodDelete /\ Http.path r = ["api"; "reservations"; id] /\
     h = Http.Release (Http.service s) id).
Proof.
  intros E. pattern h. eapply Http.route_handlers; [..|exact E]; clear E; intros;
    try (right; eauto 6; fail); left;
    unfold Http.GetSale, Http.UpdateSaleStatus, Http.Reserve, Http.Join,
      Http.GetPosition, Http.Leave, Http.GetOrder, Http.with_uuid, Http.with_body; quiet.
Qed.

Lemma tidy_create r : (forall u, id_ok sale u -> u <> sale) -> tidy sale 0 (Http.CreateSale r).
Proof.
  intros Hid. unfold Http.CreateSale, Http.with_body. case_match; [|apply tidy_ret].
  apply tidy_then; [by apply tidy_create_sale|]. intros [x [e|]]; apply tidy_ret.
Qed.

Lemma tidy_then_session {A B} (p : prog A) (f : A -> Session.session B) :
  tidy sale 0 p -> (forall a, tidy sale 0 (Session.calls_of (f a))) ->
  tidy sale 0 (Session.calls_of (Session.sbind (Session.of_prog p) f)).
Proof.
  intros Hp Hf. unfold tidy in *.
  assert (forall n, safe_to sale (fun _ m => m = 0%nat) n p ->
    safe_to sale (fun _ m => m = 0%nat) n (Session.calls_of (Session.sbind (Session.of_prog p) f))) as H;
    [clear Hp|by apply H].
  induction p as [a|m|X c k IH]; intros n; cbn; [intros ->; apply Hf|done|].
  apply call_safe_mono. intros x m. apply IH.
Qed.

(** A WebSocket request only reads the sale. *)
Lemma tidy_websocket upgrade wr c id user :
  tidy sale 0 (Session.calls_of (Session.HandleWebSocket upgrade wr c id user)).
Proof.
  unfold Session.HandleWebSocket. repeat case_match; try apply tidy_ret.
  apply (tidy_then_session (InventoryService.GetSale _)); [apply tidy_get_sale|].
  intros [e|[x stats]]; apply tidy_ret.
Qed.

Lemma tidy_warnings h : tidy sale 0 (ExpiryHandler.notifyExpiringReservations h).
Proof.
  unfold ExpiryHandler.notifyExpiringReservations. case_match; [|apply tidy_ret].
  apply tidy_then; [by intros [e|x]|]. intros [e|rows]; [apply tidy_ret|].
  induction rows as [|[e|[[rid user] t]] rows IH]; [apply tidy_ret|exact IH|].
  cbn [ExpiryHandler.notify_rows].
  apply tidy_then; [by intros now _|]. intros now. apply tidy_then; [|intros; exact IH].
  by apply safe_publish_user.
Qed.

Lemma tidy_ignore {A} (p : prog A) : tidy sale 0 p -> tidy sale 0 (ignore p).
Proof. intros Hp. by apply tidy_then. Qed.

Lemma tidy_shopping srv h t : shopping t -> tidy sale 0 (run_task srv h t).
Proof.
  destruct t as [r|up id u|payload| |]; cbn [run_task shopping task_row]; [|intros _|done|intros _|done].
  - intros [Hrow Hopen]. unfold Http.ServeHTTP.
    destruct (Http.route srv r) as [[pattern hd]|] eqn:E; [|apply tidy_ret].
    apply tidy_ignore, tidy_middleware.
    destruct (tidy_route srv r pattern hd E)
      as [Hs|[(Hm & Hp & ->)|[(id & Hm & Hp & ->)|(id & Hm & Hp & ->)]]]; [done|..].
    + unfold opens_sale in Hopen. by rewrite Hm, Hp in Hopen.
    + unfold confirmed_by, released_by, parsed in Hrow. rewrite Hm, Hp in Hrow.
      unfold Http.Confirm, Http.with_uuid. by destruct (uuid_Parse id).
    + unfold confirmed_by, released_by, parsed in Hrow. rewrite Hm, Hp in Hrow.
      unfold Http.Release, Http.with_uuid. by destruct (uuid_Parse id).
  - apply tidy_ignore, tidy_websocket.
  - apply tidy_warnings.
Qed.
End Quiet.

(** ** Handlers that settle the reservation in their path *)

Section Handlers.
Context {R D : Type} `{RL : RedisLaws R} `{LL : LuaNumLaws} `{PL : PostgresLaws D} `{O : Oracle}
  `{UU : UuidLaws} `{FA : !FloatArg} `{NF : !NoFaults}.
Variable sale : uuid.
Variable total : Z.
Hypothesis Htotal : total < max_int64.
Hypothesis Huuids : distinct_uuids.
Hypothesis Hclock : clock_ok.
#[local] Abbreviation ok g p := (ok_to (R := R) (D := D) sale total (fun _ => at_rest) g p).

Lemma ok_quiet {A} g (p : prog A) : at_rest g -> tidy sale 0 p -> ok g p.
Proof. intros. by apply ok_safe, tidy_safe. Qed.

Lemma ok_then {A B} g (p : prog A) (f : A -> prog B) :
  ok g p -> (forall a g', at_rest g' -> ok g' (f a)) -> ok g (pbind p f).
Proof. intros Hp Hf. apply ok_bind. eapply ok_mono; [|exact Hp]. auto. Qed.

Lemma ok_catch {A} g (p : prog A) : ok g p -> ok g (Http.catch p).
Proof.
  revert g. induction p as [a|m|X c k IH]; intros g; cbn; [done|done|].
  apply call_ok_mono. intros x g'. apply IH.
Qed.

Lemma ok_middleware g pattern r h : ok g h -> ok g (Http.MetricsMiddleware pattern r (Http.RecoveryMiddleware h)).
Proof.
  intros Hh. unfold Http.MetricsMiddleware, Http.RecoveryMiddleware.
  apply ok_then; [apply ok_then; [by apply ok_catch|by intros []]|].
  intros resp g' Hg'. apply ok_quiet; [done|]. apply tidy_then; [apply tidy_inc|by intros []].
Qed.

Lemma ok_http_confirm g r id :
  at_rest g -> c_order g = None ->
  (forall rid, parsed id = Some rid -> c_row g = Some rid /\
     c_key g = Some (Http.header_idempotency_key r) /\ valid_key (Http.header_idempotency_key r)) ->
  ok g (Http.Confirm id r).
Proof.
  intros Hg Hord Hid. unfold Http.Confirm, Http.with_uuid, parsed in *.
  destruct (uuid_Parse id) as [e|rid]; [done|]. destruct (Hid rid eq_refl) as (Hrow & Hkey & Hv).
  apply ok_then; [by apply ok_confirm|]. by intros [].
Qed.

Lemma ok_http_release g svc id :
  at_rest g -> (forall rid, parsed id = Some rid -> c_row g = Some rid) -> ok g (Http.Release svc id).
Proof.
  intros Hg Hid. unfold Http.Release, Http.with_uuid, parsed in *.
  destruct (uuid_Parse id) as [e|rid]; [done|].
  apply ok_then; [apply (ok_release sale total); auto|]. by intros [].
Qed.

Lemma ok_expired_key g h payload :
  at_rest g -> (forall rid, expired_by payload = Some rid -> c_row g = Some rid) ->
  ok g (ExpiryHandler.on_expired_message h payload).
Proof.
  intros Hg Hrow. unfold ExpiryHandler.on_expired_message. case_match; [|done]. unfold expired_by in Hrow.
  assert (forall rid, (match Split payload ":"%char with [_; p; _] => uuid_Parse p | _ => inl ""%string end) = inr rid ->
    ExpiryHandler.handleExpiredReservation h payload =
    ExpiryHandler.handleExpiredReservation h (ttlKey (uuid_String rid))) as Heq.
  { intros rid E. rewrite handle_key. unfold ExpiryHandler.handleExpiredReservation.
    destruct (Split payload ":"%char) as [|? [|p [|? [|]]]]; try discriminate. by rewrite E. }
  unfold parsed in Hrow.
  destruct (match Split payload ":"%char with [_; p; _] => uuid_Parse p | _ => inl ""%string end)
    as [e|rid] eqn:E.
  - unfold ExpiryHandler.handleExpiredReservation.
    destruct (Split payload ":"%char) as [|? [|p [|? [|]]]]; try done. by rewrite E.
  - rewrite (Heq rid eq_refl). apply ok_handle_expired; [done..| |done]. apply Hrow.
    destruct (Split payload ":"%char) as [|? [|p [|? [|]]]]; try discriminate. by rewrite E.
Qed.
End Handlers.

(** ** Tasks *)

Section Tasks.
Context {R D : Type} `{RL : RedisLaws R} `{LL : LuaNumLaws} `{PL : PostgresLaws D} `{O : Oracle}
  `{UU : UuidLaws} `{FA : !FloatArg} `{NF : !NoFaults}.
Variable sale : uuid.
Variable total : Z.
Hypothesis Htotal : total < max_int64.
Hypothesis Huuids : distinct_uuids.
Hypothesis Hclock : clock_ok.
#[local] Abbreviation ok g p := (ok_to (R := R) (D := D) sale total (fun _ => at_rest) g p).

Lemma ok_route g s r pattern h :
  at_rest g -> c_order g = None ->
  (forall rid, confirmed_by r = Some rid -> c_row g = Some rid /\
     c_key g = Some (Http.header_idempotency_key r) /\ valid_key (Http.header_idempotency_key r)) ->
  (forall rid, released_by r = Some rid -> c_row g = Some rid) ->
  Http.route s r = Some (pattern, h) -> ok g h.
Proof.
  intros Hg Hord Hconf Hrel Hroute.
  destruct (tidy_route sale s r pattern h Hroute)
    as [Hs|[(_ & _ & ->)|[(id & Hm & Hp & ->)|(id & Hm & Hp & ->)]]].
  - by apply ok_quiet.
  - apply ok_quiet; [done..|]. by apply tidy_create.
  - apply ok_http_confirm; [done..|]. unfold confirmed_by in Hconf. by rewrite Hm, Hp in Hconf.
  - apply ok_http_release; [done..|]. unfold released_by in Hrel. by rewrite Hm, Hp in Hrel.
Qed.

Lemma confirmed_not_released r rid : confirmed_by r = Some rid -> released_by r = None.
Proof. unfold confirmed_by, released_by. by destruct (Http.method r). Qed.

Lemma ok_task srv h t :
  reconciles t = false -> Forall valid_key (option_list (task_key t)) ->
  ok (start_claim (task_row t) (task_key t)) (run_task srv h t).
Proof.
  intros Ht Hk. assert (at_rest (start_claim (task_row t) (task_key t))) as Hg by done.
  destruct t as [r|up id u|payload| |]; cbn [run_task]; [| | | |done].
  - unfold Http.ServeHTTP. destruct (Http.route srv r) as [[pattern hd]|] eqn:E; [|done].
    apply ok_then; [|by intros]. apply ok_middleware; [done..|].
    apply (ok_route _ srv r pattern); [done|done| | |exact E]; intros rid Hrid; cbn [task_row task_key] in *.
    + rewrite Hrid in *. split; [done|]. split; [done|]. by apply Forall_cons in Hk as [Hk _].
    + destruct (confirmed_by r) as [rid'|] eqn:Ec; [|done].
      apply confirmed_not_released in Ec. congruence.
  - apply ok_quiet; [done..|]. apply tidy_ignore, tidy_websocket.
  - apply ok_expired_key; [done..|]. auto.
  - apply ok_quiet; [done..|]. apply tidy_warnings.
Qed.
End Tasks.

(** ** The theorem *)

Section Server.
Context {R D : Type} `{RL : RedisLaws R} `{LL : LuaNumLaws} `{PL : PostgresLaws D} `{O : Oracle}
  `{UU : UuidLaws} `{FA : !FloatArg}.

(** C1. No sale is oversold over HTTP: requests on any routes but those that open
    a sale or settle a reservation, WebSocket requests and warning ticks run
    side by side under any schedule, with calls to Redis and PostgreSQL failing
    anywhere (but no executed call reported as failed): the available counter
    never goes below zero, and available units plus recorded reservations never
    exceed what they were at the start. *)
Theorem shoppers_never_oversell (NL : NoLostReplies) srv h sale (tasks : list task)
    (w w' : world R D) ps' a b :
  Forall shopping tasks ->
  stock (view_of w) sale = Some (a, b) -> 0 <= a ->
  a + units sale (tables (w_pg w)) < max_int64 ->
  min_int64 + (a + units sale (tables (w_pg w))) < a + b < max_int64 ->
  pool_steps (run_task srv h <$> tasks, w) (ps', w') ->
  sells_within sale a b w w'.
Proof.
  intros Ht Hs Ha HT HC. apply pool_never_oversells; [done| |done..].
  apply Forall_fmap. eapply Forall_impl; [exact Ht|]. intros t Htask.
  by apply tidy_safe, tidy_shopping.
Qed.

(** C2. The server keeps the stock of every sale as long as no call to Redis or
    PostgreSQL fails and every confirmation carries an idempotency key of its
    own, not empty and of at most 255 bytes: take any HTTP requests on any
    routes, WebSocket requests, expired keys and ticks of the warning ticker, no
    reconciliation pass among them, no two of them settling the same reservation
    (confirm, release, expiry), and let their calls interleave in any way. (With
    an empty key, or a failed commit, Confirm's compensation breaks the counters:
    confirm_without_key_inflates_stock shows how.) From counters that agree with the tables on a stock of [total] units, at
    every moment both counters are between 0 and [total] and no more than
    [total] orders have been written; and whenever all tasks are done, the
    counters agree with the tables again: every unit is available, held or
    sold. *)
Theorem server_conserves_stock (NF : NoFaults) srv h sale total (tasks : list task) (w w' : world R D) ps' :
  distinct_uuids -> clock_ok -> orderly_by task_row task_key tasks ->
  Forall (fun t => reconciles t = false) tasks -> stocked sale total w -> ids_new sale w ->
  pool_steps (run_task srv h <$> tasks, w) (ps', w') ->
  within_stock sale total w' /\
  (Forall (fun p => finished p = true) ps' -> consistent sale total (view_of w')).
Proof.
  intros Huu Hclock Htasks Hrec Hst Hids. eapply pool_conserves; eauto.
  intros t Ht Hk. rewrite Forall_forall in Hrec.
  apply ok_task; [exact (st_total _ _ _ Hst)|done|done|by apply Hrec|exact Hk].
Qed.
End Server.
