(* ===== verification/Replies.v ===== *)
(** * What the scripts reply, and the type assertions of the client

    go-redis hands a script's reply over as an [interface{}]; the client takes it
    apart with [result.(int64)] and [result.(string)], and a wrong guess panics.
    Each script replies with values of one type only, so no assertion fails;
    what is left to panic is the metric of the rate limiter. *)
From S2P Require Import Prelude GoStd Models Services Scripts World Keys Logic RedisClient.
From S2P Require Import Reservation Inventory Expiry Reconcile RateLimit Hub Metrics Http HttpSpec Sessions Discipline Schedule.
From Stdlib Require Import QArith.
Local Open Scope Z_scope.

(** ** Types of replies *)

Inductive reply_type := TInt | TStr.

(** The Go type of a reply that is not nil. *)
Definition type_of (v : lua_value) : option reply_type :=
  match v with LInt _ => Some TInt | LStr _ => Some TStr | LNil => None end.

Definition reply_of (s : script) : reply_type :=
  match s with waitlistPromoteSHA => TStr | _ => TInt end.

(** A computation of a script whose result, if it has one, satisfies [P]. *)
Definition replies {R X} (P : X -> Prop) (m : lua R X) : Prop :=
  forall r, match fst (m r) with inl _ => True | inr x => P x end.

Create HintDb replies.

Section Scripts.
Context {R : Type} `{RS : RedisServer R} `{LN : LuaNum}.

Lemma replies_ret {X} (P : X -> Prop) x : P x -> replies (R := R) P (lua_ret x).
Proof. intros H r. exact H. Qed.

Lemma replies_fail {X} (P : X -> Prop) e : replies (R := R) P (lua_fail e).
Proof. intros r. exact I. Qed.

Lemma replies_bind {X Y} (P : Y -> Prop) (m : lua R X) f :
  (forall x, replies P (f x)) -> replies P (lua_bind m f).
Proof. intros H r. unfold lua_bind. destruct (m r) as [[e|x] r']; [exact I|apply H]. Qed.

#[local] Hint Resolve replies_ret replies_fail replies_bind : replies.

(** A reply is nil or of the script's type. *)
Definition of_type (s : script) (v : lua_value) : Prop := v = LNil \/ type_of v = Some (reply_of s).

Lemma of_type_int s z : reply_of s = TInt -> of_type s (LInt z).
Proof. intros E. right. cbn. by rewrite E. Qed.

Lemma of_type_str u : of_type waitlistPromoteSHA (LStr u).
Proof. by right. Qed.

Lemma of_type_nil s : of_type s LNil.
Proof. by left. Qed.
#[local] Hint Resolve of_type_int of_type_str of_type_nil : replies.

#[local] Ltac replies :=
  intros; repeat first [progress intros|apply replies_bind|case_match; subst]; auto with replies.

Lemma script_replies s keys argv : replies (of_type s) (run_script (R := R) s keys argv).
Proof.
  destruct s, keys as [|k1 [|k2 [|k3 [|]]]], argv as [|a1 [|a2 [|a3 [|]]]]; cbn [run_script];
    auto with replies.
  all: unfold reserve_lua, release_lua, confirm_lua, waitlist_join_lua, waitlist_promote_lua,
    token_bucket_lua; replies.
Qed.
End Scripts.

(** ** Programs that survive their replies *)

(** What a call can answer, as far as types go. *)
Definition typed_answer {X} (c : call X) : X -> Prop :=
  match c in call X return X -> Prop with
  | CEvalSha s _ _ => fun x => match x with inl _ => True | inr v => type_of v = Some (reply_of s) end
  | _ => fun _ => True
  end.

Fixpoint no_panic {A} (p : prog A) : Prop :=
  match p with
  | Ret _ => True
  | Panic _ => False
  | Vis c k => forall x, typed_answer c x -> no_panic (k x)
  end.

Section Worlds.
Context {R D : Type} `{RS : RedisServer R} `{LN : LuaNum} `{PG : Postgres D} `{O : Oracle}.

Lemma exec_typed {X} (c : call X) (w : world R D) : typed_answer c (fst (exec c w)).
Proof.
  destruct c as [s keys argv| | | | | | | | | | | | | | | | | | | |]; try exact I.
  cbn [typed_answer exec]. unfold on_redis.
  assert (forall r, match fst (eval_script s keys argv r) with
    | inl _ => True | inr v => type_of v = Some (reply_of s) end) as Hev.
  { intros r. unfold eval_script. pose proof (script_replies s keys argv r) as H.
    destruct (run_script s keys argv r) as [[e|[z|u|]] r']; cbn in *; try done.
    - by destruct H.
    - by destruct H. }
  specialize (Hev (w_redis w)). unfold faulty.
  destruct (eval_script s keys argv (w_redis w)) as [x r'].
  destruct (fault_at (w_calls w)); cbn in *; try done.
Qed.

(** No program of a pool panics, whatever is scheduled. *)
Lemma pool_no_panic {A} (s s' : pool (R := R) (D := D) A) :
  pool_steps s s' -> Forall no_panic (fst s) -> Forall no_panic (fst s').
Proof.
  induction 1 as [|s1 s2 s3 [pre X c k post w] _ IH]; [done|]. cbn [fst snd] in *.
  intros H. apply IH. rewrite Forall_app, Forall_cons in H |- *.
  destruct H as (H1 & H2 & H3). repeat split; try done. apply H2, exec_typed.
Qed.

Lemma run_no_panic {A} (p : prog A) (w : world R D) : no_panic p -> exists a, fst (run p w) = Ok a.
Proof.
  revert w. induction p as [a|m|X c k IH]; intros w Hp; [by exists a|done|].
  cbn [run]. pose proof (exec_typed c w) as Ht. destruct (exec c w) as [x w']. by apply IH, Hp.
Qed.
End Worlds.

Create HintDb safe_replies.

Lemma no_panic_bind {A B} (p : prog A) (f : A -> prog B) :
  no_panic p -> (forall a, no_panic (f a)) -> no_panic (pbind p f).
Proof. intros Hp Hf. induction p as [a|m|X c k IH]; cbn in *; auto. Qed.

Lemma no_panic_defer {A} d (p : prog A) : no_panic d -> no_panic p -> no_panic (defer d p).
Proof. intros Hd Hp. induction p as [a|m|X c k IH]; cbn in *; [by apply no_panic_bind|done|auto]. Qed.

Lemma no_panic_invoke {X} (c : call X) : no_panic (invoke c).
Proof. cbn. done. Qed.

Lemma no_panic_recovered {A} (p : prog A) : no_panic (Http.catch p).
Proof. induction p as [a|m|X c k IH]; cbn; auto. Qed.

(** The reply of a script goes to the assertion of its type. *)
Lemma no_panic_int {A} s keys argv (on_err : error -> prog A) (f : Z -> prog A) :
  reply_of s = TInt -> (forall e, no_panic (on_err e)) -> (forall z, no_panic (f z)) ->
  no_panic (pbind (invoke (CEvalSha s keys argv)) (fun r =>
    match r with inl e => on_err e | inr v => pbind (Client.as_int64 v) f end)).
Proof. intros Ht He Hf [e|[z|u|]]; cbn; by rewrite ?Ht. Qed.

Lemma no_panic_str {A} s keys argv (on_err : error -> prog A) (f : string -> prog A) :
  reply_of s = TStr -> (forall e, no_panic (on_err e)) -> (forall u, no_panic (f u)) ->
  no_panic (pbind (invoke (CEvalSha s keys argv)) (fun r =>
    match r with inl e => on_err e | inr v => pbind (Client.as_string v) f end)).
Proof. intros Ht He Hf [e|[z|u|]]; cbn; by rewrite ?Ht. Qed.

(** A program is walked through call by call; branches are split. *)
Ltac no_panic_step :=
  first
    [ done
    | assumption
    | solve [auto with safe_replies nocore]
    | apply no_panic_int; [reflexivity| |]
    | apply no_panic_str; [reflexivity| |]
    | apply no_panic_bind
    | apply no_panic_invoke
    | progress intros
    | case_match ].
Ltac no_panic := repeat no_panic_step.

Section Client.
Context `{UL : UuidLib} `{FA : FloatArg}.

Lemma no_panic_client_reserve s : no_panic (Client.Reserve s).
Proof. unfold Client.Reserve. no_panic. Qed.
Lemma no_panic_client_release s : no_panic (Client.Release s).
Proof. unfold Client.Release. no_panic. Qed.
Lemma no_panic_client_confirm s : no_panic (Client.Confirm s).
Proof. unfold Client.Confirm. no_panic. Qed.
Lemma no_panic_waitlist_join s u t : no_panic (Client.WaitlistJoin s u t).
Proof. unfold Client.WaitlistJoin. no_panic. Qed.
Lemma no_panic_waitlist_promote s : no_panic (Client.WaitlistPromote s).
Proof. unfold Client.WaitlistPromote. no_panic. Qed.
Lemma no_panic_get_int k : no_panic (Client.get_int k).
Proof. unfold Client.get_int. no_panic. Qed.
Lemma no_panic_get_int_ignoring k : no_panic (Client.get_int_ignoring_error k).
Proof. unfold Client.get_int_ignoring_error. no_panic. Qed.
Lemma no_panic_publish s e : no_panic (Publisher.Publish s e).
Proof. unfold Publisher.Publish. no_panic. Qed.
Lemma no_panic_publish_user s e : no_panic (Publisher.PublishToUser s e).
Proof. unfold Publisher.PublishToUser. no_panic. Qed.
Lemma no_panic_audit db t i e p : no_panic (Audit.LogWithConn db t i e p).
Proof. unfold Audit.LogWithConn. no_panic. Qed.
Lemma no_panic_allow l u : no_panic (Limiter.Allow l u).
Proof. unfold Limiter.Allow. no_panic. Qed.
End Client.
#[export] Hint Resolve no_panic_client_reserve no_panic_client_release no_panic_client_confirm
  no_panic_waitlist_join no_panic_waitlist_promote no_panic_get_int no_panic_get_int_ignoring
  no_panic_publish no_panic_publish_user no_panic_audit no_panic_allow no_panic_invoke : safe_replies.

Section Handlers.
Context `{UL : UuidLib} `{FA : FloatArg}.

Lemma no_panic_announce svc s n b : no_panic (ReservationService.announce_stock svc s n b).
Proof.
  unfold ReservationService.announce_stock, Publisher.StockUpdate, Publisher.SaleEnded. no_panic.
Qed.
#[local] Hint Resolve no_panic_announce : safe_replies.

Lemma no_panic_reserve_record svc u s i key : no_panic (ReservationService.reserve_record svc u s i key).
Proof.
  unfold ReservationService.reserve_record, ReservationService.reserve_finish,
    ReservationService.reserve_notify, ReservationService.setIdempotency, Audit.Log. no_panic.
Qed.
#[local] Hint Resolve no_panic_reserve_record : safe_replies.

Lemma no_panic_reserve svc u s i key : no_panic (ReservationService.Reserve svc u s i key).
Proof.
  unfold ReservationService.Reserve. intros start _. apply no_panic_defer; [done|].
  unfold ReservationService.reserve_attempt, ReservationService.checkIdempotency. no_panic.
Qed.

Lemma no_panic_confirm_tx rid key r : no_panic (ReservationService.confirm_tx rid key r).
Proof. unfold ReservationService.confirm_tx, ReservationService.confirm_fail. no_panic. Qed.
#[local] Hint Resolve no_panic_confirm_tx : safe_replies.

Lemma no_panic_confirm rid key : no_panic (ReservationService.Confirm rid key).
Proof. unfold ReservationService.Confirm, ReservationService.getOrderByIdempotencyKey. no_panic. Qed.

Lemma no_panic_release svc rid : no_panic (ReservationService.Release svc rid).
Proof. unfold ReservationService.Release, Audit.Log. no_panic. Qed.

Lemma no_panic_create sale : no_panic (InventoryService.CreateSale sale).
Proof. unfold InventoryService.CreateSale. no_panic. Qed.
Lemma no_panic_get_sale sale : no_panic (InventoryService.GetSale sale).
Proof. unfold InventoryService.GetSale. no_panic. Qed.
Lemma no_panic_update_status sale st : no_panic (InventoryService.UpdateSaleStatus sale st).
Proof. unfold InventoryService.UpdateSaleStatus. no_panic. Qed.

Lemma no_panic_join s u : no_panic (WaitlistService.Join s u).
Proof. unfold WaitlistService.Join. no_panic. Qed.
Lemma no_panic_position s u : no_panic (WaitlistService.GetPosition s u).
Proof. unfold WaitlistService.GetPosition. no_panic. Qed.
Lemma no_panic_leave s u : no_panic (WaitlistService.Leave s u).
Proof. unfold WaitlistService.Leave. no_panic. Qed.

Lemma no_panic_promote h s : no_panic (ExpiryHandler.promoteNextUser h s).
Proof.
  unfold ExpiryHandler.promoteNextUser, Publisher.WaitlistPromoted, Publisher.StockUpdate, Audit.Log.
  no_panic.
Qed.
#[local] Hint Resolve no_panic_promote : safe_replies.

Lemma no_panic_expired h key : no_panic (ExpiryHandler.on_expired_message h key).
Proof.
  unfold ExpiryHandler.on_expired_message, ExpiryHandler.handleExpiredReservation,
    Publisher.StockUpdate, Audit.Log. no_panic.
Qed.

Lemma no_panic_notify_rows rows : no_panic (ExpiryHandler.notify_rows rows).
Proof.
  induction rows as [|[err|[[x u] e]] rest IH]; cbn [ExpiryHandler.notify_rows];
    unfold Publisher.ReservationExpiring; no_panic.
Qed.
#[local] Hint Resolve no_panic_notify_rows : safe_replies.

Lemma no_panic_warnings h : no_panic (ExpiryHandler.notifyExpiringReservations h).
Proof. unfold ExpiryHandler.notifyExpiringReservations. no_panic. Qed.

Lemma no_panic_reconcile_one id n : no_panic (Worker.reconcileSingleSale id n).
Proof. unfold Worker.reconcileSingleSale, Audit.Log. no_panic. Qed.
#[local] Hint Resolve no_panic_reconcile_one : safe_replies.

Lemma no_panic_worker_rows rows n : no_panic (Worker.worker_rows rows n).
Proof.
  revert n. induction rows as [|[e|[id t]] rest IH]; intros n; cbn [Worker.worker_rows]; no_panic.
Qed.
#[local] Hint Resolve no_panic_worker_rows : safe_replies.

Lemma no_panic_reconcile : no_panic Worker.reconcileAllSales.
Proof. unfold Worker.reconcileAllSales. no_panic. Qed.

Lemma no_panic_startup_rows rows n : no_panic (Recovery.startup_rows rows n).
Proof.
  revert n. induction rows as [|[e|[id t]] rest IH]; intros n; cbn [Recovery.startup_rows];
    unfold Recovery.reconcileSale, Audit.Log; no_panic.
Qed.
#[local] Hint Resolve no_panic_startup_rows : safe_replies.

Lemma no_panic_startup : no_panic Recovery.ReconcileOnStartup.
Proof. unfold Recovery.ReconcileOnStartup. no_panic. Qed.

Lemma no_panic_start : no_panic ExpiryHandler.Start.
Proof. unfold ExpiryHandler.Start. no_panic. Qed.

(** The label of the counter of refused requests is the text of a header. *)
Lemma no_panic_limited l r p :
  utf8_ValidString (Http.limited_user r) = true -> no_panic p -> no_panic (Http.RateLimitMiddleware l r p).
Proof.
  intros Hu Hp. unfold Http.RateLimitMiddleware, Metrics.IncWithLabelValues.
  cbn [forallb Metrics.label_values]. rewrite Hu. no_panic.
Qed.
#[local] Hint Resolve no_panic_reserve no_panic_confirm no_panic_release no_panic_create
  no_panic_get_sale no_panic_update_status no_panic_join no_panic_position no_panic_leave
  no_panic_expired no_panic_warnings no_panic_reconcile : safe_replies.

(** Every handler of the router, before the recovery middleware is put around it. *)
Lemma no_panic_route s r pattern h :
  utf8_ValidString (Http.limited_user r) = true -> Http.route s r = Some (pattern, h) -> no_panic h.
Proof.
  intros Hu. apply (Http.route_handlers no_panic); intros; try (apply no_panic_limited; [exact Hu|]);
    unfold Http.HealthzHandler, Http.CreateSale, Http.GetSale, Http.UpdateSaleStatus, Http.Reserve,
      Http.Join, Http.GetPosition, Http.Leave, Http.Confirm, Http.Release, Http.GetOrder,
      Http.with_uuid, Http.with_body; no_panic.
Qed.

Lemma no_panic_task s h t : is_websocket t = false -> no_panic (run_task s h t).
Proof.
  destruct t as [r|up id u|payload| |]; [intros _|done|intros _..]; cbn [run_task]; unfold ignore;
    [|no_panic..].
  unfold Http.ServeHTTP. destruct (Http.route s r) as [[pattern hd]|] eqn:E; [|done].
  apply no_panic_bind; [|done].
  unfold Http.MetricsMiddleware, Http.RecoveryMiddleware. apply no_panic_bind.
  - apply no_panic_bind; [apply no_panic_recovered|no_panic].
  - intros resp. rewrite (Http.request_counted _ _ _ _ _ E). no_panic.
Qed.
End Handlers.

(** ** The theorem *)

Section Types.
Context {R D : Type} `{RS : RedisServer R} `{LN : LuaNum} `{PG : Postgres D} `{O : Oracle}
  `{UL : UuidLib} `{FA : FloatArg}.


(** And in this one case it does: the request is over its limit, and answered
    500 instead of 429. *)
Lemma limited_label_panics (l : Limiter.Limiter) r next (w w' : world R D) remaining :
  utf8_ValidString (Http.limited_user r) = false ->
  run (Limiter.Allow l (Http.limited_user r)) w = (Ok (inr (false, remaining)), w') ->
  run (Http.RecoveryMiddleware (Http.RateLimitMiddleware l r next)) w =
    (Ok (Http.Error "Internal server error" 500), w').
Proof.
  intros Hu Ha. unfold Http.RecoveryMiddleware. rewrite run_pbind, run_catch.
  unfold Http.RateLimitMiddleware. rewrite run_pbind, Ha.
  unfold Metrics.IncWithLabelValues. cbn [forallb Metrics.label_values]. by rewrite Hu.
Qed.

(** A request for a path that is none of the router's and not UTF-8 panics in the
    metrics middleware, which is outside of the recovery middleware. *)
Lemma unrouted_path_panics r resp (w : world R D) :
  utf8_ValidString (Http.URLPath r) = false ->
  exists m, run (Http.MetricsMiddleware "" r (Ret resp)) w = (Panicked m, w).
Proof.
  intros Hu. unfold Http.MetricsMiddleware, Metrics.IncWithLabelValues.
  cbn [forallb Metrics.label_values pbind String.eqb]. rewrite Hu. by eexists.
Qed.
End Types.
