(* ===== verification/SessionsSpec.v ===== *)
(** * What a WebSocket request gets, and how it can be left hanging *)
From S2P Require Import Prelude GoStd Models Services Scripts World Keys Logic RedisClient.
From S2P Require Import Inventory Hub HubSpec Metrics Http Sessions Replies.
Local Open Scope string_scope.
Local Open Scope Z_scope.
Import Hub Session.

(** ** Buffers *)

(** What waits in a buffer stays there, in front of what comes. *)
Definition kept (x x' : Client) : Prop := exists l, send x' = (send x ++ l)%list.

Lemma kept_refl x : kept x x.
Proof. exists []. by rewrite app_nil_r. Qed.

Lemma kept_send p x : kept x (with_send (send x ++ [p])%list x).
Proof. by exists [p]. Qed.

Lemma insert_kept (m : gmap cid Client) c y d x :
  m !! d = Some x -> (c = d -> kept x y) -> exists x', <[c := y]> m !! d = Some x' /\ kept x x'.
Proof.
  intros Hd Hy. destruct (decide (c = d)) as [->|Hne].
  - rewrite lookup_insert_eq. eauto.
  - rewrite lookup_insert_ne by done. eauto using kept_refl.
Qed.

Lemma direct_send_kept d p h h' c x :
  DirectSend d p h = inr h' -> clients h !! c = Some x -> exists x', clients h' !! c = Some x' /\ kept x x'.
Proof.
  intros Hs Hc. unfold DirectSend, try_send, deref in Hs.
  destruct (clients h !! d) as [y|] eqn:E; cbn [bind] in Hs; [|done]. destruct (closed y); [done|].
  destruct (_ <? _)%nat; cbn in Hs; injection Hs as <-; cbn; [|eauto using kept_refl].
  apply insert_kept; [done|]. intros ->. replace y with x by congruence. apply kept_send.
Qed.

(** Only its own write pump takes messages out of the buffer of a client. *)
Lemma step_kept e h h' c x :
  step e h = Some (inr h') -> e <> EvWrite c -> clients h !! c = Some x ->
  exists x', clients h' !! c = Some x' /\ kept x x'.
Proof.
  intros Hs He Hc. destruct e; cbn [step] in *.
  - destruct (clients h !! c0) eqn:E; [done|]. injection Hs as <-. cbn.
    apply insert_kept; [done|]. intros ->. congruence.
  - destruct (_ <? _)%nat; [|done]. unfold Subscribe, deref in Hs.
    destruct (clients h !! c0) as [y|] eqn:E; cbn in Hs; [|done]. injection Hs as <-. cbn.
    apply insert_kept; [done|]. intros ->. replace y with x by congruence. exists []. by rewrite app_nil_r.
  - destruct (_ <? _)%nat; [|done]. injection Hs as <-. cbn. eauto using kept_refl.
  - destruct (spawned h !! i); [|done]. destruct (_ <? _)%nat; [|done]. injection Hs as <-. cbn.
    eauto using kept_refl.
  - destruct (_ <? _)%nat; [|done]. injection Hs as <-. cbn. eauto using kept_refl.
  - destruct (register h); [done|]. injection Hs as <-. cbn. eauto using kept_refl.
  - destruct (unregister h) as [|d rest]; [done|]. injection Hs as Hs. unfold run_unregister, deref in Hs.
    cbn [clients set_unregister] in Hs. destruct (clients h !! d) as [y|] eqn:E; cbn [bind] in Hs; [|done].
    destruct (closed y); [done|]. injection Hs as <-. cbn. apply insert_kept; [done|]. intros ->.
    replace y with x by congruence. exists []. by rewrite app_nil_r.
  - destruct (broadcast h) as [|msg rest]; [done|]. destruct (bool_decide _) eqn:Hb; [|done].
    apply bool_decide_eq_true in Hb. injection Hs as Hs.
    destruct (deliver_clients (Payload msg) order (set_broadcast rest h) h' c x) as (x' & Hx' & Hor);
      [rewrite Hb; apply NoDup_elements|done|done|]. exists x'. split; [done|].
    destruct Hor as [->|[_ ->]]; [apply kept_refl|apply kept_send].
  - destruct (picked h); [done|]. destruct (bool_decide _); [|done]. injection Hs as <-. cbn.
    eauto using kept_refl.
  - destruct (picked h) as [[d p]|]; [|done]. injection Hs as Hs.
    destruct (send_or_drop_clients d p _ h' c x Hs Hc) as (x' & Hx' & Hor). exists x'. split; [done|].
    destruct Hor as [->|[_ ->]]; [apply kept_refl|apply kept_send].
  - injection Hs as Hs. by eapply direct_send_kept.
  - apply plain_send_direct in Hs. by eapply direct_send_kept.
  - injection Hs as Hs. unfold write_frame, deref in Hs. assert (c0 <> c) as Hne by congruence.
    destruct (clients h !! c0) as [y|] eqn:E; cbn [bind] in Hs; [|done].
    destruct (send y) as [|m l]; injection Hs as <-; cbn; [eauto using kept_refl|].
    by apply insert_kept.
Qed.

Lemma step_full e h h' c : step e h = Some (inr h') -> e <> EvWrite c -> full h c -> full h' c.
Proof.
  intros Hs He (x & Hx & Hl). destruct (step_kept e h h' c x Hs He Hx) as (x' & Hx' & l & E).
  exists x'. split; [done|]. rewrite E, length_app. lia.
Qed.

(** A send to a full buffer waits, or panics once the hub has closed the channel. *)
Lemma full_send c p h : full h c ->
  step (EvSend c p) h = None /\ open h c \/
  step (EvSend c p) h = Some (inl "send on closed channel") /\ ~ open h c.
Proof.
  intros (x & Hx & Hl). cbn [step]. unfold plain_send, try_send, deref, open. rewrite Hx. cbn [bind].
  destruct (closed x) eqn:Ec; [right|left]; cbn [bind].
  - split; [done|]. intros (y & [= <-] & Hy). congruence.
  - rewrite (proj2 (Nat.ltb_ge _ _)) by done. eauto.
Qed.

(** ** Runs *)

Section Play.
Context {R D : Type} `{RS : RedisServer R} `{LN : LuaNum} `{PG : Postgres D} `{O : Oracle}.

Lemma play_app {A} ms1 ms2 (s : @state R D A) :
  play (ms1 ++ ms2) s = match play ms1 s with Some s' => play ms2 s' | None => None end.
Proof.
  revert s. induction ms1 as [|m ms1 IH]; intros s; [done|]. cbn [app play].
  destruct (play1 m s); [apply IH|done].
Qed.

(** The calls of a program, one by one. *)
Lemma play_calls {A B} (p : prog A) (f : A -> session B) (h : Hub) (w w' : world R D) a :
  run p w = (Ok a, w') -> exists n,
    play (repeat Own n) (sbind (of_prog p) f, h, w) = Some (f a, h, w').
Proof.
  revert w. induction p as [a'|msg|X c k IH]; intros w; cbn [run of_prog sbind].
  - intros [= -> ->]. by exists 0%nat.
  - done.
  - destruct (exec c w) as [x w1] eqn:E. intros Hr. destruct (IH x w1 Hr) as [n Hn].
    exists (S n). cbn [repeat play play1]. rewrite E. apply Hn.
Qed.

Context `{UL : UuidLib}.

(** C17. A WebSocket request that is left hanging, or worse. [HandleWebSocket] puts
    the snapshot into the client's buffer with a plain send before it starts the
    write pump, while the hub already broadcasts to the client. Once the buffer
    is full the handler never gets past that send, whatever the other goroutines
    do: it waits, or it panics when the hub, at the next broadcast, has dropped
    the client and closed its channel. It never starts the pumps. *)
Theorem full_buffer_stops_the_handler ms c sale user sl stats (h h' : Hub) (w w' : world R D) s' :
  full h c -> Forall (fun m => m <> Other (EvWrite c)) ms ->
  let s := sbind (send_snapshot c (inr (sl, stats))) (fun _ => SRet (Connected sale user)) in
  play ms (s, h, w) = Some (s', h', w') ->
  w' = w /\ full h' c /\
  (s' = s /\ (open h' c -> play1 Own (s', h', w') = None) \/ s' = SPanic "send on closed channel").
Proof.
  intros Hf Hms s. revert h Hf. assert (forall ms h, Forall (fun m => m <> Other (EvWrite c)) ms ->
    full h c -> play ms (SPanic "send on closed channel", h, w) = Some (s', h', w') ->
    w' = w /\ full h' c /\ s' = SPanic "send on closed channel") as Hend.
  { clear ms Hms. induction ms as [|m ms IH]; intros h Hms Hf; cbn [play]; [by intros [= <- <- <-]|].
    apply Forall_cons in Hms as [Hm Hms]. destruct m as [|e]; cbn [play1]; [done|].
    destruct (step e h) as [[msg|h1]|] eqn:E; [done| |done]. apply IH; [done|].
    eapply step_full; [exact E|congruence|done]. }
  induction Hms as [|m ms Hm Hms IH]; intros h Hf Hp.
  - cbn in Hp. injection Hp as <- <- <-. split; [done|]. split; [done|]. left. split; [done|].
    intros Ho. destruct (full_send c (snapshot stats) h Hf) as [[E _]|[_ Hn]]; [|done].
    unfold s. cbn [play1 sbind send_snapshot hub_op]. by rewrite E.
  - cbn [play] in Hp. destruct m as [|e].
    + unfold s in Hp. cbn [play1 sbind send_snapshot hub_op] in Hp.
      destruct (full_send c (snapshot stats) h Hf) as [[E _]|[E _]]; rewrite E in Hp; [done|].
      cbn [sbind] in Hp. destruct (Hend _ _ Hms Hf Hp) as (? & ? & ?). auto.
    + cbn [play1] in Hp. destruct (step e h) as [[msg|h1]|] eqn:E; [done| |done].
      apply (IH h1); [|exact Hp]. eapply step_full; [exact E|congruence|done].
Qed.

(** The hub after an undisturbed request: one client more, its registration waiting. *)
Definition subscribed (c : cid) (sale user : string) (res : error + Sale * SaleStats) (h : Hub) : Hub :=
  set_register (register h ++ [mkReg c sale user])%list
    (set_clients (<[c := mkClient (match res with
       | inr (_, stats) => [Publisher.Event "stock_update" [("remaining", JNum (Available stats))]]
       | inl _ => []
       end) false sale user []]> (clients h)) h).

(** Connecting, subscribing and, after GetSale, the snapshot. *)
Lemma play_subscribe {A} c sale user (k : session A) (h : Hub) (w : world R D) :
  clients h !! c = None -> (length (register h) < register_capacity)%nat ->
  play [Own; Own] (sbind (hub_op (EvConnect c)) (fun _ => sbind (hub_op (EvSubscribe c sale user)) (fun _ => k)), h, w) =
    Some (k, subscribed c sale user (inl "") h, w).
Proof.
  intros Hc Hroom. cbn [play play1 sbind hub_op]. cbn [step]. rewrite Hc.
  cbn [play play1 sbind]. cbn [step register set_clients]. rewrite (proj2 (Nat.ltb_lt _ _)) by done.
  unfold Subscribe, deref. cbn [clients set_clients]. rewrite lookup_insert_eq. cbn [bind].
  unfold subscribed, with_ids, NewClient, set_register, set_clients. cbn. by rewrite insert_insert_eq.
Qed.

Lemma play_snapshot c sale user res (h : Hub) (w : world R D) : exists n,
  play (repeat Own n) (sbind (send_snapshot c res) (fun _ => SRet (Connected sale user)),
      subscribed c sale user (inl "") h, w) =
    Some (SRet (Connected sale user), subscribed c sale user res h, w).
Proof.
  destruct res as [e|[sl stats]]; [by exists 0%nat|]. exists 1%nat.
  cbn [repeat play play1 sbind send_snapshot hub_op]. cbn [step].
  unfold plain_send, try_send, deref, subscribed. cbn [clients set_register set_clients].
  rewrite lookup_insert_eq. cbn [bind closed Hub.send length Nat.ltb Nat.leb send_capacity].
  unfold with_send, set_register, set_clients. cbn. by rewrite insert_insert_eq.
Qed.

(** Documented behaviour of gorilla's Upgrade: it needs to hijack the connection. *)
Definition needs_hijacker (upgrade : ResponseWriter -> option Http.Response) : Prop :=
  forall w, Hijacker w = false -> is_Some (upgrade w).

(** Without a connection to take over, nothing happens but an answer. *)
Lemma refused_upgrade upgrade wr c id userq : is_Some (upgrade wr) ->
  exists resp o, (o = Refused resp \/ o = NotUpgraded resp) /\
    recorded_status (Ok o) = Http.statusCode resp /\ HandleWebSocket upgrade wr c id userq = SRet o.
Proof.
  intros [resp Hresp]. unfold HandleWebSocket. rewrite Hresp.
  destruct (uuid_Parse id) as [e|saleID]; [|destruct (subscription id userq) as [[sale user]|]];
    do 2 eexists; eauto.
Qed.

(** C18. What a WebSocket request gets. Where gorilla can take the connection over,
    an undisturbed request subscribes a new client to the room of the sale's
    canonical id, and the first message in its buffer is a snapshot with the
    available counter GetSale read (none when GetSale failed). Behind NewRouter
    it never comes to that: the writer of MetricsMiddleware is no Hijacker, so
    every request to /ws/sales/{id} ends as a refused one, with no client, no
    call to Redis or PostgreSQL, and its status counted. *)
Theorem websocket_request upgrade wr c id userq sale user (h : Hub) (w : world R D) :
  (subscription id userq = Some (sale, user) -> upgrade wr = None ->
   clients h !! c = None -> (length (register h) < register_capacity)%nat ->
   exists saleID res w' n, uuid_Parse id = inr saleID /\ sale = uuid_String saleID /\
     run (InventoryService.GetSale saleID) w = (Ok res, w') /\
     play (repeat Own n) (HandleWebSocket upgrade wr c id userq, h, w) =
       Some (SRet (Connected sale user), subscribed c sale user res h, w')) /\
  (needs_hijacker upgrade -> forall r s, ServeWebSocket upgrade wr c r = Some s ->
   exists resp o w', (o = Refused resp \/ o = NotUpgraded resp) /\
     play [Own] (s, h, w) = Some (SRet (Ok o), h, w') /\
     w_redis w' = w_redis w /\ w_pg w' = w_pg w /\
     w_metrics w' = (w_metrics w ++
       [HTTPRequestsTotal "/ws/sales/{id}" "GET" (Itoa (Http.statusCode resp))])%list).
Proof.
  split.
  - intros Hsub Hup Hc Hroom. unfold HandleWebSocket. rewrite Hsub, Hup. unfold subscription in Hsub.
    destruct (uuid_Parse id) as [e|saleID]; [done|]. injection Hsub as <- Hu.
    destruct (run_no_panic _ w (no_panic_get_sale saleID)) as [res Hres].
    destruct (run (InventoryService.GetSale saleID) w) as [o w'] eqn:Hrun. cbn in Hres. subst o.
    destruct (play_calls _ (fun res => sbind (send_snapshot c res)
      (fun _ => SRet (Connected (uuid_String saleID) user))) (subscribed c (uuid_String saleID) user (inl "") h)
      w w' res Hrun) as [n Hn].
    destruct (play_snapshot c (uuid_String saleID) user res h w') as [m Hm].
    exists saleID, res, w', (2 + (n + m))%nat. do 3 (split; [done|]).
    rewrite repeat_app, play_app. cbn [repeat]. rewrite (play_subscribe c _ _ _ h w Hc Hroom).
    by rewrite repeat_app, play_app, Hn.
  - intros Hneed r s. unfold ServeWebSocket.
    destruct (Http.method r); try done; repeat (match goal with
      | |- match ?x with _ => _ end = _ -> _ => destruct x
      end; try discriminate). intros [= <-].
    destruct (refused_upgrade upgrade (newResponseWriter wr) c s0 (Http.query_user_id r) (Hneed (newResponseWriter wr) eq_refl))
      as (resp & o & Ho & Hcode & ->).
    exists resp, o, (tick (add_metric (HTTPRequestsTotal "/ws/sales/{id}" "GET" (Itoa (Http.statusCode resp))) w)).
    split; [exact Ho|]. split; [|done]. cbn [scatch sbind]. rewrite Hcode.
    unfold Metrics.IncWithLabelValues. cbn [forallb Metrics.label_values]. rewrite Itoa_utf8.
reflexivity.
Qed.
End Play.
