(* ===== verification/BootSpec.v ===== *)
(** * Startup and shutdown

    What [main] of Boot.v leaves behind, whatever the host answers: it serves
    only when everything behind it is ready, and a normal end closes what was
    opened. *)
From S2P Require Import Prelude GoStd Models Services Scripts World Keys Logic RedisClient.
From S2P Require Import Reservation Expiry Reconcile RateLimit Ledger ReconcileSpec Discipline Schedule Replies Http Config Wiring Boot.
From Stdlib Require Import QArith.
Local Open Scope string_scope.
Local Open Scope Z_scope.

(** ** Running startup code *)

Section Run.
Context {R D : Type} `{RS : RedisServer R} `{LN : LuaNum} `{PG : Postgres D} `{O : Oracle} `{HO : Host}.
#[local] Abbreviation process := (process R D).

(** Code without deferred calls of its own. *)
Fixpoint plain {A} (b : boot A) : Prop :=
  match b with
  | BRet _ | Fatalf _ => True
  | BCall _ k => forall x, plain (k x)
  | Defer _ _ => False
  end.

Lemma boot_run_bind {A B} (b : boot A) (f : A -> boot B) (p : process) : plain b ->
  boot_run (bbind b f) p =
    match boot_run b p with
    | (Returned a, p') => boot_run (f a) p'
    | (Exited m, p') => (Exited m, p')
    | (Crashed m, p') => (Crashed m, p')
    end.
Proof.
  revert p. induction b as [a|m|X c k IH|d b IH]; intros p; cbn [plain bbind boot_run]; [done|done| |done].
  intros Hp. destruct (perform_call c p) as [[m|x] p']; [done|]. by apply IH.
Qed.

(** A call that only asks or connects: it starts, closes and serves nothing. *)
Definition connects {X} (c : bcall X) : Prop :=
  match c with
  | Handler _ | Go _ | SetReconciliationComplete | Close _ | WaitQuit | ServerShutdown => False
  | _ => True
  end.

Fixpoint connecting {A} (b : boot A) : Prop :=
  match b with
  | BRet _ => True
  | BCall c k => connects c /\ forall x, connecting (k x)
  | Fatalf _ | Defer _ _ => False
  end.

(** What connecting leaves alone. *)
Record aside (p p' : process) : Prop := {
  as_world : p_world p' = p_world p;
  as_closed : p_closed p' = p_closed p;
  as_ready : p_ready p' = p_ready p;
  as_goroutines : p_goroutines p' = p_goroutines p
}.

Lemma connects_aside {X} (c : bcall X) (p : process) : connects c ->
  exists x, fst (perform_call c p) = inr x /\ aside p (snd (perform_call c p)).
Proof. destruct c; cbn; try done; intros _; try (by eexists); destruct (script_load _ _ _); by eexists. Qed.

Lemma connecting_aside {A} (b : boot A) (p : process) : connecting b ->
  exists a p', boot_run b p = (Returned a, p') /\ aside p p'.
Proof.
  revert p. induction b as [a|m|X c k IH|d b IH]; intros p; cbn [connecting boot_run]; [|done| |done].
  - intros _. by exists a, p.
  - intros [Hc Hk]. destruct (connects_aside c p Hc) as (x & Hx & H1).
    destruct (perform_call c p) as [r p1]. cbn in Hx, H1. subst r.
    destruct (IH x p1 (Hk x)) as (a & p' & -> & H2). exists a, p'. split; [done|].
    destruct H1, H2. split; congruence.
Qed.

Lemma connecting_plain {A} (b : boot A) : connecting b -> plain b.
Proof. induction b as [a|m|X c k IH|d b IH]; cbn; [done|done| |done]. intros [_ H] x. auto. Qed.

Lemma connecting_bind {A B} (b : boot A) (f : A -> boot B) :
  connecting b -> (forall a, connecting (f a)) -> connecting (bbind b f).
Proof. intros Hb Hf. revert Hb. induction b as [a|m|X c k IH|d b IH]; cbn in *; [done|done| |done]. intros [Hc Hk]. split; [done|]. intros x. by apply IH. Qed.

Lemma connecting_do {X} (c : bcall X) : connects c -> connecting (bdo c).
Proof. by split. Qed.

#[local] Ltac connecting :=
  repeat first [done | apply connecting_do | apply connecting_bind | progress intros | case_match].

Lemma connecting_NewClient u r : connecting (RedisConnection.NewClient u r).
Proof.
  unfold RedisConnection.NewClient, RedisConnection.connect_replica, RedisConnection.loadScripts,
    RedisConnection.read_script, RedisConnection.load_script. connecting.
Qed.

Lemma connecting_NewLimiter c a b : connecting (RateLimiter.NewLimiter c a b).
Proof. unfold RateLimiter.NewLimiter, RateLimiter.loadScript. connecting. Qed.

Lemma connecting_InitTracer a b c d : connecting (Telemetry.InitTracer a b c d).
Proof. unfold Telemetry.InitTracer. connecting. Qed.

Lemma connecting_getenv a b : connecting (Main.getEnvOrDefault a b).
Proof. unfold Main.getEnvOrDefault. connecting. Qed.

(** A handler that cannot panic, run inside [main]. *)
Lemma handler_returns {A} (h : prog A) (p : process) : no_panic h ->
  exists a w, run h (p_world p) = (Ok a, w) /\
    perform_call (Handler h) p = (inr a, pcall (set_world w p)).
Proof.
  intros Hp. destruct (run_no_panic h (p_world p) Hp) as [a Ha].
  destruct (run h (p_world p)) as [x w] eqn:E. cbn in Ha. subst x. exists a, w. split; [done|].
  cbn. by rewrite E.
Qed.
End Run.

(** ** The Redis client *)

Section Clients.
Context {R D : Type} `{RS : RedisServer R} `{LN : LuaNum} `{PG : Postgres D} `{O : Oracle} `{HO : Host}.
#[local] Abbreviation process := (process R D).

(** [sha] is what [c] answered when the text of [name] was loaded into it. *)
Definition bound (c : rconn) (name sha : string) (p : process) : Prop :=
  exists n m text, os_read_file n (RedisConnection.scriptsDir ++ "/" ++ name) = inr text /\
    script_load m c text = inr sha /\ (c, text) ∈ p_scripts p.

Record all_bound (cl : RedisObject.Client) (p : process) : Prop := {
  ab_reserve : bound (RedisObject.rdb cl) "reserve.lua" (RedisObject.reserveSHA cl) p;
  ab_release : bound (RedisObject.rdb cl) "release.lua" (RedisObject.releaseSHA cl) p;
  ab_confirm : bound (RedisObject.rdb cl) "confirm.lua" (RedisObject.confirmSHA cl) p;
  ab_join : bound (RedisObject.rdb cl) "waitlist_join.lua" (RedisObject.waitlistJoinSHA cl) p;
  ab_promote : bound (RedisObject.rdb cl) "waitlist_promote.lua" (RedisObject.waitlistPromoteSHA cl) p
}.

Lemma bound_intro c name sha (p : process) n m text :
  os_read_file n (RedisConnection.scriptsDir ++ "/" ++ name) = inr text ->
  script_load m c text = inr sha -> (c, text) ∈ p_scripts p -> bound c name sha p.
Proof. intros. by exists n, m, text. Qed.

Lemma loadScripts_inv c r (p p' : process) cl :
  boot_run (RedisConnection.loadScripts c r) p = (Returned (inr cl), p') ->
  RedisObject.rdb cl = c /\ RedisObject.replica cl = r /\ p_open p' = p_open p /\ all_bound cl p'.
Proof.
  unfold RedisConnection.loadScripts, RedisConnection.read_script, RedisConnection.load_script, bdo.
  intros H. cbn [bbind boot_run perform_call] in H.
  repeat (case_match; cbn [bbind boot_run perform_call] in H; simplify_eq).
  split; [done|]. split; [done|]. split; [done|].
  split; eapply bound_intro; try eassumption; cbn; set_solver.
Qed.

Lemma loadScripts_error c r (p p' : process) e :
  boot_run (RedisConnection.loadScripts c r) p = (Returned (inl e), p') ->
  (exists n path e, os_read_file n path = inl e) \/ exists n text e, script_load n c text = inl e.
Proof.
  unfold RedisConnection.loadScripts, RedisConnection.read_script, RedisConnection.load_script, bdo.
  intros H. cbn [bbind boot_run perform_call] in H.
  repeat (case_match; cbn [bbind boot_run perform_call] in H; simplify_eq);
    first [left; do 3 eexists; eassumption | right; do 3 eexists; eassumption].
Qed.

(** What became of the replica. *)
Inductive replica_state (url : string) : option rconn -> list resource -> Prop :=
| no_replica : replica_state url None []
| replica_down n : redis_ping n (mkConn Replica url) <> None ->
    replica_state url None [RedisConn (mkConn Replica url)]
| replica_up n : url <> "" -> redis_parse_url url = None -> redis_ping n (mkConn Replica url) = None ->
    replica_state url (Some (mkConn Replica url)) [RedisConn (mkConn Replica url)].

Lemma connect_replica_inv url (p p' : process) r :
  boot_run (RedisConnection.connect_replica url) p = (Returned r, p') ->
  exists l, replica_state url r l /\ p_open p' = (l ++ p_open p)%list.
Proof.
  unfold RedisConnection.connect_replica, bdo. cbn [bbind boot_run perform_call].
  destruct (String.eqb_spec url ""); cbn [bbind boot_run perform_call].
  { intros [= <- <-]. exists []. split; [constructor|done]. }
  destruct (redis_parse_url url) eqn:Hu; cbn [bbind boot_run perform_call].
  { intros [= <- <-]. exists []. split; [constructor|done]. }
  intros [= <- <-]. exists [RedisConn (mkConn Replica url)]. split; [|done].
  destruct (redis_ping _ _) eqn:E; [eapply replica_down|by eapply replica_up]. by rewrite E.
Qed.

Lemma connecting_connect_replica url : connecting (RedisConnection.connect_replica url).
Proof.
  unfold RedisConnection.connect_replica.
  repeat first [done | apply connecting_do | apply connecting_bind | progress intros | case_match].
Qed.

Lemma connecting_loadScripts c r : connecting (RedisConnection.loadScripts c r).
Proof.
  unfold RedisConnection.loadScripts, RedisConnection.read_script, RedisConnection.load_script.
  repeat first [done | apply connecting_do | apply connecting_bind | progress intros | case_match].
Qed.

Lemma NewClient_inv url rurl (p p' : process) cl :
  boot_run (RedisConnection.NewClient url rurl) p = (Returned (inr cl), p') ->
  RedisObject.rdb cl = mkConn Primary url /\ all_bound cl p' /\
  exists l, replica_state rurl (RedisObject.replica cl) l /\
    p_open p' = (l ++ RedisConn (mkConn Primary url) :: p_open p)%list.
Proof.
  unfold RedisConnection.NewClient, bdo. cbn [bbind boot_run perform_call].
  destruct (redis_parse_url url); cbn [bbind boot_run perform_call]; [done|].
  destruct (redis_ping _ _); cbn [bbind boot_run perform_call]; [done|].
  match goal with |- context [boot_run _ ?q] => set (p1 := q) end.
  rewrite boot_run_bind by apply connecting_plain, connecting_connect_replica.
  destruct (connecting_aside _ p1 (connecting_connect_replica rurl)) as (r & p2 & Hr & _).
  rewrite Hr. apply connect_replica_inv in Hr as (l & Hl & Hopen).
  rewrite boot_run_bind by apply connecting_plain, connecting_loadScripts.
  destruct (connecting_aside _ p2 (connecting_loadScripts (mkConn Primary url) r)) as (x & p3 & Hx & _).
  rewrite Hx. destruct x as [e|c]; [done|]. cbn. intros [= <- <-].
  apply loadScripts_inv in Hx as (E1 & E2 & E3 & Hb). split; [done|]. split; [done|].
  exists l. rewrite E2. split; [done|]. by rewrite E3, Hopen.
Qed.

(** C32. The client evaluates, under each of its five names, the SHA the primary
    gave for the file of that name, and the primary holds that script. NewClient
    never ends the process; once the primary is reachable and takes the scripts,
    the replica cannot make it fail: without one, or when its URL is bad or it
    does not answer, reads go to the primary. *)
Theorem new_client_binds_its_scripts (url rurl : string) (p : process) :
  exists r p', boot_run (RedisConnection.NewClient url rurl) p = (Returned r, p') /\ aside p p' /\
  match r with
  | inr cl =>
      RedisObject.GetClient cl = mkConn Primary url /\ all_bound cl p' /\
      (RedisObject.ReadClient cl = mkConn Primary url \/
       RedisObject.ReadClient cl = mkConn Replica rurl /\ rurl <> "" /\
         redis_parse_url rurl = None /\ exists n, redis_ping n (mkConn Replica rurl) = None)
  | inl _ =>
      redis_parse_url url <> None \/ (exists n, redis_ping n (mkConn Primary url) <> None) \/
      (exists n path e, os_read_file n path = inl e) \/
      exists n text e, script_load n (mkConn Primary url) text = inl e
  end.
Proof.
  destruct (connecting_aside _ p (connecting_NewClient url rurl)) as (r & p' & Hr & Ha).
  exists r, p'. split; [done|]. split; [done|]. destruct r as [e|cl].
  - revert Hr. unfold RedisConnection.NewClient, bdo. cbn [bbind boot_run perform_call].
    destruct (redis_parse_url url); cbn [bbind boot_run perform_call]; [by left|].
    destruct (redis_ping _ _) eqn:Hp; cbn [bbind boot_run perform_call].
    { intros _. right; left. eexists. rewrite Hp. done. }
    rewrite boot_run_bind by apply connecting_plain, connecting_connect_replica.
    match goal with |- context [boot_run (RedisConnection.connect_replica _) ?q] => set (p1 := q) end.
    destruct (connecting_aside _ p1 (connecting_connect_replica rurl)) as (r & p2 & -> & _).
    rewrite boot_run_bind by apply connecting_plain, connecting_loadScripts.
    destruct (connecting_aside _ p2 (connecting_loadScripts (mkConn Primary url) r)) as (x & p3 & Hx & _).
    rewrite Hx. destruct x as [e'|c]; [|discriminate]. intros _. right; right.
    by eapply loadScripts_error.
  - pose proof Hr as Hr'. apply NewClient_inv in Hr' as (E & Hb & l & Hl & _).
    split; [done|]. split; [done|]. unfold RedisObject.ReadClient.
    destruct Hl; [by left|by left|]. right. eauto 6.
Qed.
End Clients.

(** ** main *)

Section Main.
Context {R D : Type} `{RS : RedisServer R} `{LN : LuaNum} `{PG : Postgres D} `{O : Oracle} `{HO : Host}
  `{UL : UuidLib}.
#[local] Abbreviation process := (process R D).

Definition ends {A} (b : boot A) (p : process) (Q : exit A -> process -> Prop) : Prop :=
  Q (fst (boot_run b p)) (snd (boot_run b p)).

Lemma ends_mono {A} (b : boot A) p (Q Q' : exit A -> process -> Prop) :
  (forall o p', Q o p' -> Q' o p') -> ends b p Q -> ends b p Q'.
Proof. intros H. apply H. Qed.

Lemma ends_connecting {A B} (b : boot A) (f : A -> boot B) p Q :
  connecting b ->
  (forall a p', boot_run b p = (Returned a, p') -> aside p p' -> ends (f a) p' Q) ->
  ends (bbind b f) p Q.
Proof.
  intros Hb H. unfold ends. rewrite boot_run_bind by by apply connecting_plain.
  destruct (connecting_aside b p Hb) as (a & p' & E & Ha). rewrite E. by apply H.
Qed.

Lemma ends_handler {A B} (h : prog A) (f : A -> boot B) p Q : no_panic h ->
  (forall a w, run h (p_world p) = (Ok a, w) -> ends (f a) (pcall (set_world w p)) Q) ->
  ends (bbind (bdo (Handler h)) f) p Q.
Proof.
  intros Hh H. destruct (handler_returns h p Hh) as (a & w & Hr & Hc).
  unfold ends. cbn [bdo bbind boot_run]. rewrite Hc. by apply H.
Qed.

Lemma ends_step {X B} (c : bcall X) (f : X -> boot B) x (p p' : process) Q :
  perform_call c p = (inr x, p') -> ends (f x) p' Q -> ends (bbind (bdo c) f) p Q.
Proof. intros Hc H. unfold ends. cbn [bdo bbind boot_run]. by rewrite Hc. Qed.

Lemma ends_defer {A} d (b : boot A) p Q :
  ends b p (fun o p' => match o with Exited m => Q (Exited m) p' | _ => Q o (run_cleanup d p') end) ->
  ends (Defer d b) p Q.
Proof. unfold ends. cbn [boot_run]. destruct (boot_run b p) as [[a|m|m] p']; done. Qed.

(** *** The last part: limiter, goroutines, waiting, shutdown *)

Lemma start_view (w : world R D) o w' : run ExpiryHandler.Start w = (o, w') -> view_of w' = view_of w.
Proof.
  unfold ExpiryHandler.Start. cbn. unfold on_redis, faulty.
  destruct (fault_at (w_calls w)); cbn; by intros [= _ <-].
Qed.

Lemma start_expiry_ends {B} h (f : option error -> boot B) p Q :
  (forall r w, view_of w = view_of (p_world p) ->
     ends (match r with
       | None => do^ Go (ExpiryListener h) in do^ Go (ExpiryTicker h) in f None
       | Some e => f (Some e)
       end)%boot (pcall (set_world w p)) Q) ->
  ends (bbind (Main.start_expiry h) f) p Q.
Proof.
  intros H. destruct (handler_returns ExpiryHandler.Start p no_panic_start) as (r & w & Hr & Hc).
  specialize (H r w (start_view _ _ _ Hr)). unfold ends, Main.start_expiry in *.
  cbn [bdo bbind boot_run]. rewrite Hc. by destruct r.
Qed.

Definition serving (p : process) : Prop := exists addr m, ListenAndServe addr m ∈ p_goroutines p.

(** The objects of a process that serves. *)
Section Objects.
Variable cfg : Config.Config.
Variable cl : RedisObject.Client.
Variable sha : string.

Definition the_pool : pgpool := mkPool (Config.DatabaseURL cfg).
Definition the_publisher : option PublisherObject.Publisher :=
  Some (PublisherObject.mkPublisher (RedisObject.rdb cl)).
Definition the_inventory : InventoryObject.Service := InventoryObject.mkService cl the_pool.
Definition the_handler : QueueObject.ExpiryHandler :=
  QueueObject.mkExpiryHandler cl the_pool (Config.ReservationTTLSeconds cfg) the_publisher.
Definition the_router : Mux :=
  NewRouter the_inventory
    (ReservationObject.mkService cl the_pool (Config.ReservationTTLSeconds cfg) the_publisher)
    (WaitlistObject.mkService cl) (WebsocketObject.mkHandler MainHub the_inventory) the_pool
    (LimiterObject.mkLimiter (RedisObject.rdb cl) sha
       (Limiter.mkLimiter (Config.RateLimitCapacity cfg) (Config.RateLimitRatePerSec cfg))).

(** The goroutines of main, in the order it starts them. *)
Definition launched : list goroutine :=
  [ReconciliationWorker the_pool (RedisObject.rdb cl) (seconds (Config.ReconciliationIntervalSeconds cfg));
   HubRun MainHub; ExpiryListener the_handler; ExpiryTicker the_handler;
   SaleFanOut (RedisObject.rdb cl) MainHub; UserFanOut (RedisObject.rdb cl) MainHub;
   ListenAndServe (":" ++ Config.ServerPort cfg) the_router].
End Objects.

(** Everything is running, or only goroutines that come before the listener. *)
Definition launching (cfg : Config.Config) (cl : RedisObject.Client) (p : process) : Prop :=
  exists sha, p_goroutines p = launched cfg cl sha \/
    exists n, (n < 7)%nat /\ p_goroutines p = take n (launched cfg cl sha).

Lemma launching_serves cfg cl p : launching cfg cl p -> serving p ->
  exists sha, p_goroutines p = launched cfg cl sha.
Proof.
  intros (sha & [E|(n & Hn & E)]) (addr & m & Hin); [by exists sha|exfalso]. rewrite E in Hin.
  assert (ListenAndServe addr m ∈ take 6 (launched cfg cl sha)) as H6.
  { replace n with (n `min` 6)%nat in Hin by lia. rewrite <- take_take in Hin.
    eapply elem_of_sublist; [exact Hin|]. apply sublist_take. }
  cbn in H6. repeat (apply elem_of_cons in H6 as [H6|H6]; [discriminate H6|]). by apply not_elem_of_nil in H6.
Qed.

Lemma remove_one_here r l : remove_one r (r :: l) = l.
Proof. cbn. by rewrite decide_True. Qed.

Lemma remove_one_skip r x l : x <> r -> remove_one r (x :: l) = x :: remove_one r l.
Proof. intros H. cbn. by rewrite decide_False. Qed.

(** The world stays, nothing new is ready; a normal end closes what this part opened. *)
Definition served (p : process) (o : exit unit) (p' : process) : Prop :=
  view_of (p_world p') = view_of (p_world p) /\ p_ready p' = p_ready p /\
  p_goroutines p' = p_goroutines p /\
  match o with
  | Returned _ => p_open p' = p_open p /\ p_closed p' = (p_closed p ++ [ShutdownContext])%list
  | Exited _ => p_closed p' = p_closed p
  | Crashed _ => False
  end.

Lemma shutdown_ends p : ends Main.shutdown p (served p).
Proof.
  unfold Main.shutdown, ends, bdo, served. cbn [bbind boot_run perform_call].
  destruct (wait_quit _); cbn [bbind boot_run perform_call]; [done|].
  destruct (server_shutdown _); cbn [bbind boot_run perform_call fst snd]; [done|].
  cbn. by rewrite decide_True.
Qed.

Lemma limiter_open c a b (p p' : process) r :
  boot_run (RateLimiter.NewLimiter c a b) p = (Returned r, p') -> p_open p' = p_open p.
Proof.
  unfold RateLimiter.NewLimiter, RateLimiter.loadScript, bdo. cbn [bbind boot_run perform_call].
  destruct (os_read_file _ _); cbn [bbind boot_run perform_call]; [by intros [= _ <-]|].
  destruct (script_load _ _ _); cbn [bbind boot_run perform_call]; by intros [= _ <-].
Qed.

Lemma limiter_object c a b (p p' : process) lim :
  boot_run (RateLimiter.NewLimiter c a b) p = (Returned (inr lim), p') ->
  exists sha, lim = LimiterObject.mkLimiter c sha (Limiter.mkLimiter a b).
Proof.
  unfold RateLimiter.NewLimiter, RateLimiter.loadScript, bdo. cbn [bbind boot_run perform_call].
  destruct (os_read_file _ _); cbn [bbind boot_run perform_call]; [discriminate|].
  destruct (script_load _ _ _) as [e|sha]; cbn [bbind boot_run perform_call]; [discriminate|].
  intros [= <- _]. by exists sha.
Qed.

(** [served], but for the goroutines that have been started meanwhile. *)
Definition serves (cfg : Config.Config) (cl : RedisObject.Client) (p : process) (o : exit unit) (p' : process)
  : Prop :=
  launching cfg cl p' /\ view_of (p_world p') = view_of (p_world p) /\ p_ready p' = p_ready p /\
  match o with
  | Returned _ => p_open p' = p_open p /\ p_closed p' = (p_closed p ++ [ShutdownContext])%list
  | Exited _ => p_closed p' = p_closed p
  | Crashed _ => False
  end.

Lemma serve_ends cfg cl p : p_goroutines p = [] ->
  ends (Main.serve cfg cl (the_pool cfg)) p (serves cfg cl p).
Proof.
  intros Hg. unfold Main.serve. apply ends_connecting; [apply connecting_NewLimiter|].
  intros lim p1 Hl [Ew Ec Er Eg]. pose proof (limiter_open _ _ _ _ _ _ Hl) as Eo. rewrite Hg in Eg.
  destruct lim as [e|lim].
  { unfold ends, serves. cbn. rewrite Ew. split; [|done]. exists "". right. exists 0%nat.
    split; [lia|exact Eg]. }
  apply limiter_object in Hl as [sha ->].
  do 2 (eapply ends_step; [reflexivity|]). apply start_expiry_ends. intros r w1 Hv. cbn in Hv.
  destruct r as [e|].
  - unfold ends, serves. cbn. rewrite Hv, Ew. split; [|done]. exists sha. right. exists 2%nat.
    split; [lia|]. cbn. by rewrite Eg.
  - do 5 (eapply ends_step; [reflexivity|]). eapply ends_mono; [|apply shutdown_ends].
    unfold served, serves. cbn. intros o p' (H1 & H2 & H4 & H3). rewrite Ec, Eo in H3.
    rewrite H1, H2, Hv, Ew, Er. split; [|done]. exists sha. left. rewrite H4. cbn. by rewrite Eg.
Qed.

(** *** From the Redis connection to the end *)

(** The pools of a client, in the order they are closed; a replica that did not
    answer is not among them. *)
Definition client_pools (url : string) (replica : option rconn) : list resource :=
  (match replica with Some c => [RedisConn c] | None => [] end ++ [RedisConn (mkConn Primary url)])%list.

Definition left_open (replica : option rconn) (l : list resource) : list resource :=
  match replica with Some _ => [] | None => l end.

(** What a serving process has behind it: startup reconciliation has succeeded on
    the world [w] it was started beside, and its objects are those of the
    configuration, around a client of the primary. *)
Definition behind (cfg : Config.Config) (w : world R D) (p' : process) : Prop :=
  p_ready p' = true /\
  (exists w1, run Recovery.ReconcileOnStartup w = (Ok None, w1) /\ view_of (p_world p') = view_of w1) /\
  exists cl sha, RedisObject.rdb cl = mkConn Primary (Config.RedisURL cfg) /\
    p_goroutines p' = launched cfg cl sha.

(** What the process has done when [connect] ends. *)
Definition connected (cfg : Config.Config) (p : process) (o : exit unit) (p' : process) : Prop :=
  (serving p' -> behind cfg (p_world p) p') /\
  match o with
  | Returned _ => exists replica l, replica_state (Config.RedisReplicaURL cfg) replica l /\
      p_open p' = (left_open replica l ++ p_open p)%list /\
      p_closed p' = (p_closed p ++ [ShutdownContext; PgPool] ++ client_pools (Config.RedisURL cfg) replica)%list
  | Exited _ => p_closed p' = p_closed p
  | Crashed _ => False
  end.

Lemma cleanup_client url rurl cl l (p : process) :
  RedisObject.rdb cl = mkConn Primary url -> replica_state rurl (RedisObject.replica cl) l ->
  forall rest, p_open p = (l ++ RedisConn (mkConn Primary url) :: rest)%list ->
  let p' := run_cleanup (RedisConnection.CloseClient cl) p in
  p_open p' = (left_open (RedisObject.replica cl) l ++ rest)%list /\
  p_closed p' = (p_closed p ++ client_pools url (RedisObject.replica cl))%list /\
  p_world p' = p_world p /\ p_ready p' = p_ready p /\ p_goroutines p' = p_goroutines p.
Proof.
  intros E Hl rest Ho. unfold RedisConnection.CloseClient, client_pools, left_open. rewrite E.
  destruct Hl; cbn [app] in *; unfold run_cleanup; cbn [fold_left perform_call snd set_open pcall
    p_open p_closed p_world p_ready p_goroutines]; rewrite Ho.
  - by rewrite remove_one_here.
  - rewrite remove_one_skip by done. by rewrite remove_one_here.
  - rewrite !remove_one_here, <- app_assoc. done.
Qed.

Lemma not_serving_nil (p : process) : p_goroutines p = [] -> ~ serving p.
Proof. intros E (addr & m & H). rewrite E in H. by apply not_elem_of_nil in H. Qed.

Lemma connect_ends cfg (p : process) : p_goroutines p = [] -> ends (Main.connect cfg) p (connected cfg p).
Proof.
  intros Hg. unfold Main.connect. apply ends_connecting; [apply connecting_NewClient|].
  intros r p1 Hr [Ew Ec _ Eg]. rewrite Hg in Eg.
  destruct r as [e|cl]; [by split; [intros []%not_serving_nil|]|].
  apply NewClient_inv in Hr as (Erdb & _ & l & Hl & Eo). apply ends_defer.
  eapply ends_step; [reflexivity|]. destruct (pgxpool_new _ _) as [e|].
  { by split; [intros []%not_serving_nil|]. }
  eapply ends_step; [reflexivity|]. apply ends_defer. eapply ends_step; [reflexivity|].
  apply ends_handler; [apply no_panic_startup|]. cbn [p_world pcall set_open add_log].
  intros x w Hx. rewrite Ew in Hx. destruct x as [e|].
  { by split; [intros []%not_serving_nil|]. }
  eapply ends_step; [reflexivity|]. eapply ends_mono; [|by apply serve_ends].
  intros o p2 (Hla & Hv & Hrd & Ho). cbn in Hv, Hrd, Ho.
  assert (serving p2 -> behind cfg (p_world p) p2) as Hbehind.
  { intros Hs. apply (launching_serves _ _ _ Hla) in Hs as [sha Hs].
    split; [exact Hrd|]. split; [by exists w|]. by exists cl, sha. }
  destruct o as [[]|m|m]; [|by split; [exact Hbehind|rewrite Ho]|done].
  destruct Ho as [Ho Hc].
  assert (p_open (run_cleanup [Close PgPool] p2) = (l ++ RedisConn (mkConn Primary (Config.RedisURL cfg)) :: p_open p)%list)
    as Ho'.
  { cbn [run_cleanup fold_left perform_call snd set_open pcall p_open]. rewrite Ho, remove_one_here. exact Eo. }
  destruct (cleanup_client _ _ cl l _ Erdb Hl _ Ho') as (E1 & E2 & E3 & E4 & E5).
  split.
  - unfold serving, behind. rewrite E3, E4, E5. exact Hbehind.
  - exists (RedisObject.replica cl), l. split; [done|]. split; [done|].
    rewrite E2. cbn. rewrite Hc, Ec. by rewrite <- !app_assoc.
Qed.

(** *** The whole of main *)

(** What became of tracing: what shutting it down closes, and what of it nobody
    closes. An exporter without a resource for it is left behind. *)
Inductive tracing : list resource -> list resource -> Prop :=
| no_exporter : tracing [] []
| exporter_dropped n : resource_new n <> None -> tracing [] [Exporter]
| traced : tracing [Exporter; TracerProvider; TracerContext] [].

Lemma tracer_open a b c d (p p' : process) r :
  boot_run (Telemetry.InitTracer a b c d) p = (Returned r, p') ->
  match r with
  | None => p_open p' = TracerProvider :: Exporter :: p_open p
  | Some _ => exists l, tracing [] l /\ p_open p' = (l ++ p_open p)%list
  end.
Proof.
  unfold Telemetry.InitTracer, bdo. cbn [bbind boot_run perform_call].
  destruct (otlp_new _ _); cbn [bbind boot_run perform_call].
  { intros [= <- <-]. exists []. split; [constructor|done]. }
  destruct (resource_new _) eqn:E; cbn [bbind boot_run perform_call]; intros [= <- <-]; [|done].
  exists [Exporter]. split; [eapply exporter_dropped; by rewrite E|done].
Qed.

(** Tracing is shut down last, when it was initialised. *)
Definition main_post (cfg : Config.Config) (w : world R D) (o : exit unit) (p' : process) : Prop :=
  (serving p' -> behind cfg w p') /\
  match o with
  | Returned _ => exists replica l tracer exporter, replica_state (Config.RedisReplicaURL cfg) replica l /\
      tracing tracer exporter /\
      p_open p' = (left_open replica l ++ exporter)%list /\
      p_closed p' = ([ShutdownContext; PgPool] ++ client_pools (Config.RedisURL cfg) replica ++ tracer)%list
  | Exited _ => p_closed p' = []
  | Crashed _ => False
  end.

(** The two resources of tracing go, the exporter first, from under a dropped replica. *)
Lemma tracing_closed url rep l : replica_state url rep l ->
  remove_one TracerProvider (remove_one Exporter (left_open rep l ++ [TracerProvider; Exporter])) =
  left_open rep l.
Proof.
  destruct 1; cbn [left_open app];
    repeat first [rewrite remove_one_here | rewrite remove_one_skip by done]; done.
Qed.

Lemma getenv_open a b (p p' : process) r :
  boot_run (Main.getEnvOrDefault a b) p = (Returned r, p') -> p_open p' = p_open p.
Proof. unfold Main.getEnvOrDefault. cbn. by intros [= _ <-]. Qed.

Lemma main_ends {V} `{VI : Viper V} (v : V) (w : world R D) cfg :
  fst (Config.Load v) = inr cfg -> ends (Main.main v) (fresh_process w) (main_post cfg w).
Proof.
  intros Hcfg. unfold Main.main. rewrite Hcfg.
  apply ends_connecting; [apply connecting_getenv|]. intros e1 p1 H1 [Ew1 Ec1 _ Eg1].
  apply getenv_open in H1.
  apply ends_connecting; [apply connecting_getenv|]. intros e2 p2 H2 [Ew2 Ec2 _ Eg2].
  apply getenv_open in H2.
  apply ends_connecting; [apply connecting_InitTracer|]. intros r p3 Hr [Ew3 Ec3 _ Eg3].
  apply tracer_open in Hr.
  assert (p_world p3 = w /\ p_closed p3 = [] /\ p_goroutines p3 = [] /\ p_open p2 = []) as (Ew & Ec & Eg & Eo)
    by (rewrite Ew3, Ew2, Ew1, Ec3, Ec2, Ec1, Eg3, Eg2, Eg1, H2, H1; done).
  destruct r as [err|]; rewrite Eo in Hr.
  - eapply ends_step; [reflexivity|]. eapply ends_mono; [|by apply connect_ends].
    intros o p' [Hs Ho]. cbn in Hs, Ho. rewrite Ew in Hs. split; [exact Hs|].
    destruct o as [u|m|m]; [|by rewrite Ho|done].
    destruct Ho as (rep & l & Hl & E1 & E2). destruct Hr as (ex & Hex & Hr). exists rep, l, [], ex.
    rewrite Hr, app_nil_r in E1. rewrite app_nil_r. rewrite Ec in E2. auto.
  - apply ends_defer. eapply ends_mono; [|by apply connect_ends].
    intros o p' [Hs Ho]. rewrite Ew in Hs. destruct o as [u|m|m].
    + destruct Ho as (rep & l & Hl & E1 & E2). split; [exact Hs|].
      exists rep, l, [Exporter; TracerProvider; TracerContext], []. split; [done|].
      split; [constructor|].
      rewrite Ec in E2. cbn [run_cleanup fold_left perform_call snd set_open pcall p_open p_closed].
      rewrite E1, E2, Hr. split; [|by rewrite <- !app_assoc].
      rewrite app_nil_r, (remove_one_skip Exporter), (remove_one_skip TracerProvider) by done.
      rewrite remove_one_here. by eapply tracing_closed.
    + split; [exact Hs|]. by rewrite Ho.
    + done.
Qed.
End Main.

(** ** The theorems *)

Section Theorems.
Context {R D : Type} `{RL : RedisLaws R} `{LL : LuaNumLaws} `{PL : PostgresLaws D} `{O : Oracle} `{HO : Host}
  `{UU : UuidLaws} {V : Type} `{VI : Viper V}.

Lemma main_exit (v : V) (w : world R D) o p :
  boot_run (Main.main v) (fresh_process w) = (o, p) ->
  match fst (Config.Load v) with
  | inl e => o = Exited (Errorf_w "Failed to load config" e) /\ p = fresh_process w
  | inr cfg => main_post cfg w o p
  end.
Proof.
  intros E. destruct (fst (Config.Load v)) as [e|cfg] eqn:Hcfg.
  - unfold Main.main in E. rewrite Hcfg in E. by injection E as <- <-.
  - pose proof (main_ends v w cfg Hcfg) as H. unfold ends in H. by rewrite E in H.
Qed.

(** C13. Whatever fails on the way, a process that has started to listen has
    finished startup reconciliation without an error, before, and its health
    check says so; and when no call failed, the counters of every active sale,
    the live reservations and the orders add up to its stock: without overdue
    rows the sales that had counters are consistent. *)
Theorem serving_server_is_ready (v : V) (w : world R D) o p :
  boot_run (Main.main v) (fresh_process w) = (o, p) -> serving p ->
  Http.statusCode (Http.HealthzHandler (p_ready p)) = 200 /\
  (exists w1, run Recovery.ReconcileOnStartup w = (Ok None, w1) /\ view_of (p_world p) = view_of w1) /\
  (NoFaults -> active_counted (view_of w) -> small_tables (v_db (view_of w)) ->
     active_healed (view_of w) (view_of (p_world p)) /\
     (none_overdue (v_db (view_of w)) -> active_consistent (view_of w) (view_of (p_world p)))).
Proof.
  intros E Hs. apply main_exit in E. destruct (fst (Config.Load v)) as [e|cfg].
  - destruct E as [_ ->]. by apply not_serving_nil in Hs.
  - destruct E as [H _]. destruct (H Hs) as (Hr & (w1 & Hw1 & Hv) & _). rewrite Hr. split; [done|].
    split; [by exists w1|]. intros NF Hc Hsm.
    pose proof (wp_startup (view_of w) Hc Hsm w eq_refl) as [_ Hpost].
    rewrite Hw1 in Hpost. cbn in Hpost. rewrite Hv. split; [exact Hpost|].
    by apply active_healed_consistent.
Qed.

(** C34. A process that serves runs exactly the seven goroutines of main, and they
    share one Redis and one database: every handler of the router, the rate
    limiter, the publisher, the expiry handler, the reconciliation worker and
    both fan-out loops use the primary of REDIS_URL, never the replica, and the
    pool of DATABASE_URL. Reservations made by a request and by a promotion have
    the same configured lifetime, both announce their events, and the limiter
    has the configured capacity and rate. *)
Theorem main_wires_the_services (v : V) (w : world R D) o p :
  boot_run (Main.main v) (fresh_process w) = (o, p) -> serving p ->
  exists cfg cl sha, fst (Config.Load v) = inr cfg /\ p_goroutines p = launched cfg cl sha /\
    let m := the_router cfg cl sha in
    let ttl := Config.ReservationTTLSeconds cfg in
    (forall c, c ∈ RedisObject.GetClient cl :: redis_conns m -> c = mkConn Primary (Config.RedisURL cfg)) /\
    (forall q, q ∈ pg_pools m -> q = mkPool (Config.DatabaseURL cfg)) /\
    server_of m (p_ready p) = Http.mkServer (ReservationService.mkService ttl true)
      (Limiter.mkLimiter (Config.RateLimitCapacity cfg) (Config.RateLimitRatePerSec cfg)) true /\
    handler_of (the_handler cfg cl) = ExpiryHandler.mkExpiryHandler ttl true.
Proof.
  intros E Hs. apply main_exit in E. destruct (fst (Config.Load v)) as [e|cfg].
  { destruct E as [_ ->]. by apply not_serving_nil in Hs. }
  destruct E as [H _]. destruct (H Hs) as (Hr & _ & cl & sha & Hcl & Hg).
  exists cfg, cl, sha. do 2 (split; [done|]). cbn zeta. rewrite Hr. split; [|split; [|done]].
  - intros c Hc. cbn in Hc. unfold RedisObject.GetClient in Hc. rewrite Hcl in Hc.
    repeat (apply elem_of_cons in Hc as [Hc|Hc]; [exact Hc|]). by apply not_elem_of_nil in Hc.
  - intros q Hq. cbn in Hq.
    repeat (apply elem_of_cons in Hq as [Hq|Hq]; [exact Hq|]). by apply not_elem_of_nil in Hq.
Qed.

(** C33. main never panics. When it returns, the pools are closed after the
    shutdown context, PostgreSQL before Redis, the replica before the primary,
    tracing last, the exporter with its provider, and all that is still open is
    a replica that did not answer at startup, and an exporter for which no
    resource could be made, which nobody closes. When it exits through [log.Fatalf], no
    deferred call has run. *)
Theorem main_closes_what_it_opened (v : V) (w : world R D) o p :
  boot_run (Main.main v) (fresh_process w) = (o, p) ->
  match o with
  | Returned _ => exists cfg replica l tracer exporter, fst (Config.Load v) = inr cfg /\
      replica_state (Config.RedisReplicaURL cfg) replica l /\ tracing tracer exporter /\
      p_closed p = ([ShutdownContext; PgPool] ++ client_pools (Config.RedisURL cfg) replica ++ tracer)%list /\
      p_open p = (left_open replica l ++ exporter)%list
  | Exited _ => p_closed p = []
  | Crashed _ => False
  end.
Proof.
  intros E. apply main_exit in E. destruct (fst (Config.Load v)) as [e|cfg].
  - by destruct E as [-> ->].
  - destruct E as [_ H]. destruct o as [u|m|m]; [|done|done].
    destruct H as (rep & l & tr & ex & Hl & Ht & E1 & E2). by exists cfg, rep, l, tr, ex.
Qed.

(** An interval that is no number is read as zero, and the worker's ticker
    panics: the whole process goes down after its start. *)
Lemma unreadable_interval_panics `{VL : !ViperLaws V} env file s wakes :
  env !! "RECONCILIATION_INTERVAL_SECONDS" = Some s -> numeral s = false ->
  Main.worker_goroutine (seconds (Config.ReconciliationIntervalSeconds (config_of env file))) wakes =
    Panic "non-positive interval for NewTicker".
Proof. intros Hs Hn. by rewrite (unreadable_interval _ _ _ Hs Hn). Qed.
End Theorems.
