(* ===== verification/Streams.v ===== *)
(** * internal/streams/logger.go: events on Redis streams

    [LogEvent] appends an entry to the stream of a sale, [StartConsumer] reads
    entries as a member of a consumer group. An entry is a set of named fields;
    whatever was written, Redis gives every field back as a string. *)
From S2P Require Import Prelude GoStd Models Services Keys.
From Stdlib Require Import Ascii.
Local Open Scope string_scope.
Local Open Scope Z_scope.

Module EventLogger.

Record StreamEvent := mkEvent {
  Type_ : string;
  UserID : string;
  ReservationID : string;
  SaleID : string;
  Timestamp : Z
}.

(** The fields of an entry. *)
Abbreviation fields := (gmap string string).

Definition streamKey (saleID : string) : string := "sale:" ++ saleID ++ ":events".

(** ** LogEvent *)

Definition set_nonempty (k v : string) (m : fields) : fields :=
  if String.eqb v "" then m else <[k := v]> m.

Definition values (event : StreamEvent) : fields :=
  set_nonempty "sale_id" (SaleID event)
    (set_nonempty "reservation_id" (ReservationID event)
    (set_nonempty "user_id" (UserID event)
    (<["timestamp" := Itoa (Timestamp event)]> (<["type" := Type_ event]> ∅)))).

Section LogEvent.
Context `{UL : UuidLib}.

(** The entry that is appended and, from what XADD answers, the result. *)
Definition LogEvent (saleID : uuid) (event : StreamEvent) (xadd : string -> fields -> error + string)
  : option error :=
  match xadd (streamKey (uuid_String saleID)) (values event) with
  | inl err => Some (Errorf_w "failed to add event to stream" err)
  | inr _ => None
  end.
End LogEvent.

(** ** Decoding an entry *)

Definition lower_char (c : ascii) : ascii :=
  let n := N_of_ascii c in
  if (N.leb 65 n && N.leb n 90)%bool then ascii_of_N (n + 32) else c.

Fixpoint lower (s : string) : string :=
  match s with
  | EmptyString => EmptyString
  | String c r => String (lower_char c) (lower r)
  end.

(** encoding/json writes the keys of a map in byte order and matches a key to a
    field without regard to (ASCII) case; of several that match, the last
    counts. *)
Definition later (name : string) (k v : string) (best : option (string * string)) : option (string * string) :=
  if String.eqb (lower k) name then
    match best with
    | Some (k', _) => if String.leb k k' then best else Some (k, v)
    | None => Some (k, v)
    end
  else best.

Definition field (name : string) (m : fields) : option string :=
  snd <$> map_fold (later name) None m.

Definition type_error : error :=
  "json: cannot unmarshal string into Go struct field StreamEvent.timestamp of type int64".

(** [json.Unmarshal(json.Marshal(values), &event)]: every value is a JSON string,
    which a string field takes and an int64 field does not. *)
Definition unmarshal (m : fields) : error + StreamEvent :=
  match field "timestamp" m with
  | Some _ => inl type_error
  | None =>
      inr (mkEvent (default "" (field "type" m)) (default "" (field "user_id" m))
        (default "" (field "reservation_id" m)) (default "" (field "sale_id" m)) 0)
  end.

(** ** StartConsumer *)

Record Message := mkMessage { MessageID : string; Values : fields }.

Record XReadGroupArgs := mkReadArgs {
  Group : string;
  Consumer : string;
  Streams : list string;
  Count : Z
}.

(** What a turn of the loop meets: a context that is done, or the answer of
    XREADGROUP. *)
Inductive turn :=
| CtxDone (err : error)
| Read (result : error + list (string * list Message)).

(** What the consumer does to the outside. *)
Inductive action :=
| XReadGroup (a : XReadGroupArgs)
| Handle (event : StreamEvent)
| XAck (stream group id : string)
| LogPrintf (line : string).

Section Consumer.
Variables (groupName consumerName : string) (handler : StreamEvent -> option error).

Definition consume_message (stream : string) (message : Message) : list action :=
  match unmarshal (Values message) with
  | inl err => [LogPrintf (Errorf_w "Failed to unmarshal event" err)]
  | inr event =>
      match handler event with
      | Some err => [Handle event; LogPrintf (Errorf_w "Handler error" err)]
      | None => [Handle event; XAck stream groupName (MessageID message)]
      end
  end.

Definition consume_streams (result : list (string * list Message)) : list action :=
  concat ((fun s => concat (consume_message (fst s) <$> snd s)) <$> result).

Definition read_args : XReadGroupArgs :=
  mkReadArgs groupName consumerName ["sale:*:events"; ">"] 10.

(** The actions, and the error [StartConsumer] returns once its context is done. *)
Fixpoint StartConsumer (turns : list turn) : list action * option error :=
  match turns with
  | [] => ([], None)
  | CtxDone err :: _ => ([], Some err)
  | Read result :: rest =>
      let now :=
        match result with
        | inl err => if String.eqb err "redis: nil" then [] else [LogPrintf (Errorf_w "Stream read error" err)]
        | inr streams => consume_streams streams
        end in
      let '(later, e) := StartConsumer rest in
      (XReadGroup read_args :: now ++ later, e)%list
  end.
End Consumer.
End EventLogger.
Import EventLogger.

(** ** Lemmas *)

(** A field is found when some key spells its name. *)
Lemma field_is_some name m : is_Some (field name m) <-> exists k v, m !! k = Some v /\ lower k = name.
Proof.
  unfold field. rewrite fmap_is_Some.
  apply (map_fold_weak_ind (fun r m => is_Some r <-> exists k v, m !! k = Some v /\ lower k = name)).
  - split; [intros [x Hx]; done|]. intros (k & v & Hk & _). by rewrite lookup_empty in Hk.
  - intros k v m' r Hk IH. unfold later. destruct (String.eqb_spec (lower k) name) as [Hl|Hl].
    + split; [intros _; exists k, v; by rewrite lookup_insert_eq|].
      intros _. destruct r as [[k' v']|]; [|by eexists]. destruct (String.leb k k'); by eexists.
    + rewrite IH. split; intros (k0 & v0 & H0 & Hn); exists k0, v0; (split; [|done]).
      * apply lookup_insert_Some. right. split; [congruence|done].
      * apply lookup_insert_Some in H0 as [[-> _]|[_ H0]]; [done|done].
Qed.

Lemma set_nonempty_lookup k v m k' : k <> k' -> set_nonempty k v m !! k' = m !! k'.
Proof. intros H. unfold set_nonempty. destruct (String.eqb v ""); [done|]. by rewrite lookup_insert_ne. Qed.

Lemma values_timestamp event : values event !! "timestamp" = Some (Itoa (Timestamp event)).
Proof. unfold values. by rewrite !set_nonempty_lookup, lookup_insert_eq by done. Qed.

Lemma unmarshal_logged event : unmarshal (values event) = inl type_error.
Proof.
  unfold unmarshal. destruct (field "timestamp" (values event)) eqn:E; [done|]. exfalso.
  apply eq_None_not_Some in E. apply E, field_is_some.
  exists "timestamp", (Itoa (Timestamp event)). split; [apply values_timestamp|reflexivity].
Qed.

(** ** The consumer *)

(** The messages of a turn that [LogEvent] wrote. *)
Definition logged_turn (t : turn) : Prop :=
  match t with
  | Read (inr streams) => forall s m, s ∈ streams -> m ∈ snd s -> exists ev, Values m = values ev
  | _ => True
  end.

Definition handled (a : action) : option StreamEvent := match a with Handle ev => Some ev | _ => None end.
Definition acked (a : action) : option (string * string) :=
  match a with XAck s _ id => Some (s, id) | _ => None end.

Section Theorems.
Context `{UU : UuidLaws}.
Variables (group consumer : string) (handler : StreamEvent -> option error).

(** The messages of one stream, and of one answer, that decode. *)
Definition decode (stream : string) (m : Message) : option (string * Message * StreamEvent) :=
  match unmarshal (Values m) with inr ev => Some (stream, m, ev) | inl _ => None end.

Definition decoded (result : list (string * list Message)) : list (string * Message * StreamEvent) :=
  concat (map (fun s : string * list Message => omap (decode (fst s)) (snd s)) result).

Definition succeeds (x : string * Message * StreamEvent) : option (string * string) :=
  match handler (snd x) with None => Some (fst (fst x), MessageID (snd (fst x))) | Some _ => None end.

Lemma consume_message_actions stream (ms : list Message) :
  let l := concat (consume_message group handler stream <$> ms) in
  omap handled l = snd <$> omap (decode stream) ms /\
  omap acked l = omap succeeds (omap (decode stream) ms).
Proof.
  induction ms as [|m ms [IH1 IH2]]; cbn zeta in *; [done|]. cbn [fmap list_fmap concat].
  rewrite !omap_app, IH1, IH2.
  assert (omap (decode stream) (m :: ms) =
    match decode stream m with Some x => x :: omap (decode stream) ms | None => omap (decode stream) ms end)%list
    as -> by done.
  assert (omap handled (consume_message group handler stream m) = snd <$> option_list (decode stream m) /\
    omap acked (consume_message group handler stream m) = omap succeeds (option_list (decode stream m)))
    as [-> ->].
  { unfold consume_message, decode. destruct (unmarshal (Values m)) as [e|ev]; [done|].
    unfold succeeds. cbn. destruct (handler ev) eqn:E; cbn; by rewrite ?E. }
  destruct (decode stream m) as [x|]; [|done]. cbn. by destruct (succeeds x).
Qed.

Lemma consume_streams_actions result :
  omap handled (consume_streams group handler result) = snd <$> decoded result /\
  omap acked (consume_streams group handler result) = omap succeeds (decoded result).
Proof.
  unfold consume_streams, decoded. induction result as [|[s ms] rest [IH1 IH2]]; [done|].
  cbn [fmap list_fmap map concat fst snd]. destruct (consume_message_actions s ms) as [E1 E2].
  rewrite !omap_app, fmap_app, IH1, IH2, E1, E2. done.
Qed.

Lemma decoded_app l1 l2 : decoded (l1 ++ l2) = (decoded l1 ++ decoded l2)%list.
Proof. unfold decoded. by rewrite map_app, concat_app. Qed.

(** The answers a consumer reads until its context is done. *)
Fixpoint answers_until_done (turns : list turn) : list (string * list Message) :=
  match turns with
  | [] => []
  | CtxDone _ :: _ => []
  | Read (inr streams) :: rest => (streams ++ answers_until_done rest)%list
  | Read (inl _) :: rest => answers_until_done rest
  end.

(** The consumer hands every message it can decode to the handler, once and
    in order, and acknowledges exactly those the handler accepted, on the stream
    they came from; after the context is done it reads nothing more. *)
Theorem consumer_acks_what_was_handled (turns : list turn) :
  let actions := fst (StartConsumer group consumer handler turns) in
  let ds := decoded (answers_until_done turns) in
  omap handled actions = snd <$> ds /\ omap acked actions = omap succeeds ds.
Proof.
  cbn zeta. induction turns as [|[err|[err|streams]] rest [IH1 IH2]]; [done|done| |].
  - cbn [StartConsumer answers_until_done]. destruct (StartConsumer _ _ _ rest) as [l e]. cbn [fst] in *.
    destruct (String.eqb err "redis: nil"); cbn; done.
  - cbn [StartConsumer answers_until_done]. destruct (StartConsumer _ _ _ rest) as [l e]. cbn [fst] in *.
    destruct (consume_streams_actions streams) as [E1 E2].
    rewrite decoded_app. cbn [omap list_omap handled acked]. rewrite !omap_app, fmap_app, IH1, IH2, E1, E2. done.
Qed.

(** Every read asks for the same key. *)
Lemma reads_one_key turns a :
  XReadGroup a ∈ fst (StartConsumer group consumer handler turns) -> a = read_args group consumer.
Proof.
  induction turns as [|[err|res] rest IH]; cbn [StartConsumer fst]; [by intros ?%not_elem_of_nil..|].
  destruct (StartConsumer group consumer handler rest) as [l e]. cbn [fst] in *.
  intros [[= ->]|[Ha|Ha]%elem_of_app]%elem_of_cons; [done| |by apply IH]. exfalso.
  assert (forall x : action, x ∈ (match res with
    | inl err => if String.eqb err "redis: nil" then [] else [LogPrintf (Errorf_w "Stream read error" err)]
    | inr streams => consume_streams group handler streams end) ->
    match x with XReadGroup _ => False | _ => True end) as H; [|by apply H in Ha].
  clear. intros x. destruct res as [err|streams].
  - destruct (String.eqb err "redis: nil"); [by intros ?%not_elem_of_nil|].
    by intros ->%list_elem_of_singleton.
  - unfold consume_streams. rewrite !list_elem_of_In. intros (l1 & Hl1 & Hx)%in_concat.
    apply list_elem_of_In, list_elem_of_fmap in Hl1 as (s & -> & _).
    apply in_concat in Hx as (l2 & Hl2 & Hx).
    apply list_elem_of_In, list_elem_of_fmap in Hl2 as (m & -> & _). revert Hx.
    unfold consume_message. destruct (unmarshal (Values m)); [|destruct (handler _)]; cbn;
      intros H; repeat destruct H as [<-|H]; done.
Qed.

Lemma streamKey_no_star u : streamKey (uuid_String u) <> "sale:*:events".
Proof.
  unfold streamKey. intros E. injection E as E.
  pose proof (String_no_colon u) as Hno. destruct (uuid_String u) as [|c s] eqn:Eu; [discriminate E|].
  injection E as -> E. destruct s as [|c s].
  - pose proof (Parse_String u) as Hp. rewrite Eu in Hp.
    destruct (Parse_short "*") as [e He]; [cbn; lia|]. congruence.
  - injection E as -> _. cbn in Hno. discriminate Hno.
Qed.

Lemma decoded_logged streams :
  (forall s m, s ∈ streams -> m ∈ snd s -> exists ev, Values m = values ev) -> decoded streams = [].
Proof.
  induction streams as [|[s ms] l IH]; intros H; [done|].
  change ((s, ms) :: l)%list with ([(s, ms)] ++ l)%list. rewrite decoded_app.
  rewrite IH by (intros s' m Hs; apply H; by right). rewrite app_nil_r.
  assert (forall m, m ∈ ms -> exists ev, Values m = values ev) as Hms
    by (intros m Hm; apply (H (s, ms)); [by left|done]). clear -Hms.
  unfold decoded. cbn. rewrite app_nil_r. induction ms as [|m ms IH]; [done|]. cbn. unfold decode at 1.
  destruct (Hms m) as [ev ->]; [by left|]. rewrite unmarshal_logged. apply IH. intros m' Hm'. apply Hms. by right.
Qed.

(** C38. Nothing [LogEvent] writes is ever consumed: the consumer asks for the
    one stream whose key is spelled with a star, which is no sale's stream; and
    an entry of [LogEvent] given to it all the same fails to decode, since its
    timestamp comes back as a string: it is neither handled nor acknowledged. *)
Theorem logged_events_are_never_consumed (turns : list turn) :
  Forall logged_turn turns ->
  let actions := fst (StartConsumer group consumer handler turns) in
  omap handled actions = [] /\ omap acked actions = [] /\
  forall a saleID, XReadGroup a ∈ actions -> streamKey (uuid_String saleID) ∉ Streams a.
Proof.
  intros Hl. cbn zeta.
  assert (decoded (answers_until_done turns) = []) as Hnone.
  { induction Hl as [|[err|[err|streams]] rest Ht _ IH]; [done..|].
    cbn [answers_until_done]. by rewrite decoded_app, IH, decoded_logged. }
  destruct (consumer_acks_what_was_handled turns) as [E1 E2]. rewrite Hnone in E1, E2.
  split; [exact E1|]. split; [exact E2|]. intros a saleID ->%reads_one_key. cbn.
  rewrite elem_of_cons, list_elem_of_singleton. intros [E|E]; [by apply streamKey_no_star in E|].
  discriminate E.
Qed.
End Theorems.
