(* ===== verification/Pumps.v ===== *)
(** * internal/websocket/client.go: the two pumps of a connection

    The write pump turns the messages of the client's buffer into frames, the
    read pump waits for the connection to end. gorilla's connection is given by
    its answers; what the pumps do to it is a list of operations. *)
From S2P Require Import Prelude GoStd.
From Stdlib Require Import Ascii.
Local Open Scope string_scope.
Local Open Scope Z_scope.

Module Pumps.

Definition writeWait : Z := 10 * 1000000000.
Definition pongWait : Z := 60 * 1000000000.
Definition pingPeriod : Z := Z.quot (pongWait * 9) 10.

Definition newline : ascii := "010"%char.

(** ** The write pump *)

(** What wakes the select, with the answers of the connection that follow: a
    message with those that wait behind it ([n := len(c.send)]), the closed
    channel, or the ticker. *)
Inductive wake :=
| Received (message : string) (queued : list string) (next_writer close : option error)
| SendClosed
| TickerC (ping : option error).

Inductive op :=
| SetWriteDeadline (wait : Z)
| NextWriter
| WriteBytes (s : string)
| CloseWriter
| WriteClose
| WritePing
| TickerStop
| ConnClose.

(** The loop over the queued messages. *)
Definition write_queued (queued : list string) : list op :=
  concat (map (fun m => [WriteBytes (String newline ""); WriteBytes m]) queued).

(** One case of the select: what is written, and whether the loop goes on. *)
Definition write_turn (w : wake) : list op * bool :=
  match w with
  | Received message queued next_writer close =>
      match next_writer with
      | Some _ => ([SetWriteDeadline writeWait; NextWriter], false)
      | None =>
          ([SetWriteDeadline writeWait; NextWriter; WriteBytes message] ++ write_queued queued ++
             [CloseWriter],
           match close with Some _ => false | None => true end)%list
      end
  | SendClosed => ([SetWriteDeadline writeWait; WriteClose], false)
  | TickerC ping =>
      ([SetWriteDeadline writeWait; WritePing], match ping with Some _ => false | None => true end)
  end.

(** The pump on the events it meets, and whether it has returned; the deferred
    calls run when it does. *)
Fixpoint StartWritePump (wakes : list wake) : list op * bool :=
  match wakes with
  | [] => ([], false)
  | w :: rest =>
      let '(ops, more) := write_turn w in
      if more then let '(ops', done) := StartWritePump rest in (ops ++ ops', done)%list
      else (ops ++ [TickerStop; ConnClose], true)%list
  end.

(** ** The read pump *)

(** What [ReadMessage] meets: a pong, for which the handler that was set runs; a
    message, which is dropped; an error and whether it is an unexpected close. *)
Inductive incoming := Pong | Incoming | ReadError (err : error) (unexpected : bool).

Inductive read_op :=
| SetReadDeadline (wait : Z)
| SetPongHandler
| LogPrintf (line : string)
| Unregister
| CloseConn.

Fixpoint read_loop (l : list incoming) : list read_op * bool :=
  match l with
  | [] => ([], false)
  | Pong :: rest => let '(ops, done) := read_loop rest in (SetReadDeadline pongWait :: ops, done)
  | Incoming :: rest => read_loop rest
  | ReadError err unexpected :: _ =>
      ((if unexpected then [LogPrintf (Errorf_w "WebSocket error" err)] else []) ++ [Unregister; CloseConn],
       true)%list
  end.

Definition StartReadPump (l : list incoming) : list read_op * bool :=
  let '(ops, done) := read_loop l in (SetReadDeadline pongWait :: SetPongHandler :: ops, done).

(** ** What the peer sees *)

(** The frames that were completed: what was written between [NextWriter] and
    [CloseWriter]. *)
Fixpoint frames_from (open : option string) (ops : list op) : list string :=
  match ops with
  | [] => []
  | NextWriter :: rest => frames_from (Some "") rest
  | WriteBytes s :: rest => frames_from (match open with Some t => Some (t ++ s) | None => None end) rest
  | CloseWriter :: rest =>
      match open with Some t => t :: frames_from None rest | None => frames_from None rest end
  | _ :: rest => frames_from open rest
  end.

Definition frames (ops : list op) : list string := frames_from None ops.

(** A frame cut at its newlines. *)
Definition lines (frame : string) : list string := Split frame newline.

(** The messages the pump takes from the buffer. When no writer can be had it
    has taken one, and leaves those behind it. *)
Fixpoint taken (wakes : list wake) : list string :=
  match wakes with
  | [] => []
  | Received message queued None close :: rest =>
      (message :: queued ++ match close with None => taken rest | Some _ => [] end)%list
  | Received message _ (Some _) _ :: _ => [message]
  | SendClosed :: _ => []
  | TickerC (Some _) :: _ => []
  | TickerC None :: rest => taken rest
  end.

(** The message the pump had taken when it could not get a writer. *)
Fixpoint lost (wakes : list wake) : list string :=
  match wakes with
  | Received message _ (Some _) _ :: _ => [message]
  | Received _ _ None None :: rest | TickerC None :: rest => lost rest
  | _ => []
  end.

Definition message_of (w : wake) : list string :=
  match w with Received m q _ _ => m :: q | _ => [] end.
End Pumps.
Import Pumps.
#[local] Arguments newline : simpl never.

(** ** Lemmas *)

(** A frame: the first message, then each other behind a newline. *)
Fixpoint join_lines (m : string) (queued : list string) : string :=
  match queued with
  | [] => m
  | q :: rest => join_lines (m ++ String newline q) rest
  end.

Lemma frames_queued t queued rest :
  frames_from (Some t) (write_queued queued ++ CloseWriter :: rest) =
    join_lines t queued :: frames_from None rest.
Proof.
  revert t. induction queued as [|q l IH]; intros t; [done|].
  cbn [write_queued map concat app frames_from join_lines]. unfold write_queued in IH.
  rewrite append_assoc. apply IH.
Qed.

Lemma split_on_not_nil c s : split_on c s <> [].
Proof. destruct s as [|a s]; [done|]. cbn. destruct (Ascii.eqb a c); [done|]. by destruct (split_on c s). Qed.

Lemma split_join m queued :
  no_char newline m = true -> Forall (fun q => no_char newline q = true) queued ->
  forall s pre, split_on newline s = (pre ++ [m])%list ->
  split_on newline (join_lines s queued) = (pre ++ m :: queued)%list.
Proof.
  intros Hm Hq. revert m Hm. induction Hq as [|q l Hq _ IH]; intros m Hm s pre Hs; [done|].
  cbn [join_lines]. replace (pre ++ m :: q :: l)%list with ((pre ++ [m]) ++ q :: l)%list
    by (by rewrite <- app_assoc).
  apply (IH q Hq). rewrite <- Hs. clear -Hq. induction s as [|a s IHs].
  - exact (f_equal (cons "") (split_on_no_char newline q Hq)).
  - change ((String a s ++ String newline q)%string) with (String a (s ++ String newline q)%string).
    cbn [split_on]. destruct (Ascii.eqb a newline); [by rewrite IHs|].
    rewrite IHs. destruct (split_on newline s) as [|x xs] eqn:E; [|done].
    by apply split_on_not_nil in E.
Qed.

Lemma lines_join m queued :
  no_char newline m = true -> Forall (fun q => no_char newline q = true) queued ->
  lines (join_lines m queued) = m :: queued.
Proof. intros Hm Hq. apply (split_join m queued Hm Hq m []). by apply split_on_no_char. Qed.

Lemma frames_turn w more ops rest : write_turn w = (ops, more) ->
  frames (ops ++ rest) =
    match w with
    | Received m q None _ => join_lines m q :: frames rest
    | Received _ _ (Some _) _ => frames_from (Some "") rest
    | _ => frames rest
    end.
Proof.
  unfold frames. destruct w as [m q [e|] c| |p]; cbn [write_turn]; intros [= <- _]; [done| |done|done].
  cbn [app frames_from]. rewrite <- app_assoc. cbn [app]. apply frames_queued.
Qed.

Lemma lost_later w ops rest : write_turn w = (ops, true) -> lost (w :: rest) = lost rest.
Proof. destruct w as [m q [e|] [c|]| |[p|]]; cbn; congruence. Qed.

(** ** The theorems *)

(** C35. Cut at their newlines, the frames of a write pump are the messages it
    took from the client's buffer, all of them, in order, none split or joined,
    as long as no message holds a raw newline (the JSON encoder writes none);
    only when the connection has no writer for it, which ends the pump, the one
    message just taken is lost. Once the pump has returned, the ticker is stopped and the connection closed,
    as its last operations and only once. *)
Theorem frames_carry_the_messages (wakes : list wake) :
  Forall (fun w => Forall (fun m => no_char newline m = true) (message_of w)) wakes ->
  let '(ops, done) := StartWritePump wakes in
  (concat (map lines (frames ops)) ++ lost wakes)%list = taken wakes /\
  (lost wakes = [] \/ done = true /\
     exists m q e c, lost wakes = [m] /\ Received m q (Some e) c ∈ wakes) /\
  exists ops', ops = (ops' ++ (if done then [TickerStop; ConnClose] else []))%list /\
    (ConnClose ∉ ops') /\ (TickerStop ∉ ops').
Proof.
  induction 1 as [|w rest Hw _ IH]; cbn [StartWritePump].
  { split; [done|]. split; [by left|]. exists []. split; [done|]. split; apply not_elem_of_nil. }
  destruct (StartWritePump rest) as [ops' dn]. destruct IH as (IH1 & IH2 & (l & -> & Hc & Ht)).
  destruct (write_turn w) as [ops more] eqn:E.
  assert ((ConnClose ∉ ops) /\ (TickerStop ∉ ops)) as [Hc' Ht'].
  { assert (forall x, x ∈ ops -> match x with ConnClose | TickerStop => False | _ => True end) as H.
    { clear -E. intros x. destruct w as [m q [e|] c| |p]; cbn in E; injection E as <- _;
        rewrite !elem_of_cons; try (by intros Hx; repeat destruct Hx as [->|Hx]; try done; apply not_elem_of_nil in Hx).
      rewrite elem_of_app. intros [->|[->|[->|[Hx|Hx]]]]; try done.
      - unfold write_queued in Hx. apply list_elem_of_In, in_concat in Hx as (y & Hy & Hx).
        apply in_map_iff in Hy as (z & <- & _). cbn in Hx. by destruct Hx as [<-|[<-|[]]].
      - apply list_elem_of_singleton in Hx. by subst. }
    split; intros Hx; exact (H _ Hx). }
  destruct more.
  - split; [|split].
    + rewrite (frames_turn _ _ _ _ E). destruct w as [m q [e|] c| |[p|]]; cbn in E; try discriminate E.
      * destruct c; [discriminate E|]. cbn [map concat taken lost].
        rewrite <- app_assoc, IH1, lines_join; [done|..].
        -- by apply Forall_cons in Hw as [Hm _].
        -- by apply Forall_cons in Hw as [_ Hq].
      * exact IH1.
    + rewrite (lost_later _ _ _ E).
      destruct IH2 as [?|(? & m & q & e & c & ? & Hin)]; [by left|right]. split; [done|].
      exists m, q, e, c. split; [done|]. by apply list_elem_of_further.
    + exists (ops ++ l)%list. rewrite <- app_assoc. split; [done|]. rewrite !elem_of_app. tauto.
  - split; [|split].
    + rewrite (frames_turn _ _ _ _ E). destruct w as [m q [e|] c| |[p|]]; cbn in E; try discriminate E; try done.
      destruct c; [|discriminate E]. cbn [map concat taken lost frames frames_from].
      rewrite lines_join, !app_nil_r.
      * done.
      * by apply Forall_cons in Hw as [Hm _].
      * by apply Forall_cons in Hw as [_ Hq].
    + destruct w as [m q [e|] [c|]| |[p|]]; cbn in E; try discriminate E; try by left.
      all: right; split; [done|]; do 4 eexists; (split; [done|apply list_elem_of_here]).
    + exists ops. done.
Qed.

(** However a connection ends, the read pump takes its client off the hub
    once and closes the connection once, as its last two operations; until then
    it only moves the deadline, once at the start and once for each pong. *)
Theorem read_pump_unregisters_once (l : list incoming) :
  let '(ops, done) := StartReadPump l in
  done = existsb (fun i => match i with ReadError _ _ => true | _ => false end) l /\
  exists ops', ops = (ops' ++ (if done then [Unregister; CloseConn] else []))%list /\
    (Unregister ∉ ops') /\ (CloseConn ∉ ops').
Proof.
  unfold StartReadPump.
  assert (let '(ops, done) := read_loop l in
    done = existsb (fun i => match i with ReadError _ _ => true | _ => false end) l /\
    exists ops', ops = (ops' ++ (if done then [Unregister; CloseConn] else []))%list /\
      (Unregister ∉ ops') /\ (CloseConn ∉ ops')) as H.
  { induction l as [|[| |e u] rest IH]; cbn [read_loop existsb].
    - split; [done|]. exists []. split; [done|]. split; apply not_elem_of_nil.
    - destruct (read_loop rest) as [ops dn]. destruct IH as [-> (o & -> & H1 & H2)]. split; [done|].
      exists (SetReadDeadline pongWait :: o). split; [done|]. split; intros [?|?]%elem_of_cons; done.
    - exact IH.
    - split; [done|]. eexists. split; [done|].
      destruct u; split; intros Hx; (apply not_elem_of_nil in Hx || apply list_elem_of_singleton in Hx); done. }
  destruct (read_loop l) as [ops dn]. destruct H as [-> (o & -> & H1 & H2)]. split; [done|].
  exists (SetReadDeadline pongWait :: SetPongHandler :: o). split; [done|].
  split; intros [?|[?|?]%elem_of_cons]%elem_of_cons; done.
Qed.
