(* ===== verification/Idempotency.v ===== *)
(** * internal/api/metrics_middleware.go: the response cache by Idempotency-Key

    The middleware takes its cache and the handler behind it as arguments. A
    cached string is given by what encoding/json makes of it: an entry, or not. *)
From S2P Require Import Prelude GoStd Models Services Scripts World Keys RedisClient Reservation.
From S2P Require Import Inventory RateLimit Hub Http.
Local Open Scope string_scope.
Local Open Scope Z_scope.

Module Idempotency.
Import Http.

(** [idempotencyEntry]: the body is the text of a payload. *)
Record idempotencyEntry := mkEntry { Status : Z; EntryBody : Payload }.

Inductive cached := CachedEntry (e : idempotencyEntry) | CachedText (s : string).

(** The [rdb] argument, with the state [C] behind it. *)
Class Cache (C : Type) := {
  CacheGet : string -> C -> (error + cached) * C;
  CacheSet : string -> cached -> Z -> C -> option error * C
}.

(** The [responseWriter] that captures: the status, 200 unless one is written,
    and the bytes. *)
Definition captured (resp : Response) : idempotencyEntry := mkEntry (statusCode resp) (payload resp).

Definition replay (e : idempotencyEntry) : Response :=
  mkResponse (Status e) [("Content-Type", "application/json"); ("X-Idempotency-Replayed", "true")]
    (EntryBody e).

Definition isPost (m : Method) : bool := match m with MethodPost => true | _ => false end.

Section Middleware.
Context {C W : Type} `{CA : Cache C}.
Variable next : Request -> W -> outcome Response * W.

(** A panic of the handler passes before anything is stored. *)
Definition IdempotencyMiddleware (r : Request) (s : C * W) : outcome Response * (C * W) :=
  let '(c, w) := s in
  let pass := let '(o, w') := next r w in (o, (c, w')) in
  if negb (isPost (method r)) then pass
  else
    let iKey := header_idempotency_key r in
    if String.eqb iKey "" then pass
    else
      let cacheKey := "idempotency:" ++ iKey in
      match CacheGet cacheKey c with
      | (inr (CachedEntry entry), c1) => (Ok (replay entry), (c1, w))
      | (_, c1) =>
          match next r w with
          | (Ok resp, w') =>
              let '(_, c2) := CacheSet cacheKey (CachedEntry (captured resp)) (24 * 3600 * 1000000000) c1 in
              (Ok resp, (c2, w'))
          | (Panicked m, w') => (Panicked m, (c1, w'))
          end
      end.
End Middleware.
End Idempotency.
Import Idempotency.

(** ** A cache that works *)

Class CacheLaws (C : Type) `{CA : Cache C} := {
  holds : C -> string -> option cached;
  CacheGet_found : forall k c x, holds c k = Some x -> CacheGet k c = (inr x, c);
  CacheGet_missing : forall k c, holds c k = None -> exists e, CacheGet k c = (inl e, c);
  CacheSet_holds : forall k x ttl c, 0 < ttl -> exists c', CacheSet k x ttl c = (None, c') /\
    forall k', holds c' k' = if String.eqb k' k then Some x else holds c k'
}.

Section Theorems.
Context {C W : Type} `{CL : CacheLaws C}.
Variable next : Http.Request -> W -> outcome Http.Response * W.
#[local] Abbreviation handle := (IdempotencyMiddleware next).

Definition keyed (r : Http.Request) (key : string) : Prop :=
  Http.method r = Http.MethodPost /\ Http.header_idempotency_key r = key /\ key <> "".

Lemma first_request r key c w resp w' :
  keyed r key -> holds c ("idempotency:" ++ key) = None -> next r w = (Ok resp, w') ->
  exists c', handle r (c, w) = (Ok resp, (c', w')) /\
    holds c' ("idempotency:" ++ key) = Some (CachedEntry (captured resp)).
Proof.
  intros (Hm & Hk & Hne) Hc Hn. unfold IdempotencyMiddleware. rewrite Hm, Hk. cbn [isPost negb].
  destruct (String.eqb_spec key ""); [done|]. destruct (CacheGet_missing _ _ Hc) as [e ->]. rewrite Hn.
  destruct (CacheSet_holds ("idempotency:" ++ key) (CachedEntry (captured resp)) (24 * 3600 * 1000000000) c)
    as (c' & -> & Hh); [done|]. exists c'. split; [done|]. by rewrite Hh, String.eqb_refl.
Qed.

Lemma cached_request r key c w e :
  keyed r key -> holds c ("idempotency:" ++ key) = Some (CachedEntry e) ->
  handle r (c, w) = (Ok (replay e), (c, w)).
Proof.
  intros (Hm & Hk & Hne) Hc. unfold IdempotencyMiddleware. rewrite Hm, Hk. cbn [isPost negb].
  destruct (String.eqb_spec key ""); [done|]. by rewrite (CacheGet_found _ _ _ Hc).
Qed.

(** C36. The second POST with an idempotency key gets the status and the body of
    the first, marked as a replay, and the handler behind the middleware is not
    run for it. This holds for any two requests: the key is not bound to an
    endpoint, a sale or a user, and failures are replayed like successes. *)
Theorem second_post_is_a_replay r1 r2 key c w resp w' :
  keyed r1 key -> keyed r2 key -> holds c ("idempotency:" ++ key) = None ->
  next r1 w = (Ok resp, w') ->
  exists c', handle r1 (c, w) = (Ok resp, (c', w')) /\
    forall w2, handle r2 (c', w2) =
      (Ok (Http.mkResponse (Http.statusCode resp)
         [("Content-Type", "application/json"); ("X-Idempotency-Replayed", "true")] (Http.payload resp)),
       (c', w2)).
Proof.
  intros H1 H2 Hc Hn. destruct (first_request r1 key c w resp w' H1 Hc Hn) as (c' & E & Hh).
  exists c'. split; [exact E|]. intros w2. exact (cached_request r2 key c' w2 _ H2 Hh).
Qed.

(** Other methods, and requests without a key, pass the middleware by. *)
Lemma unkeyed_passes r c w :
  Http.method r <> Http.MethodPost \/ Http.header_idempotency_key r = "" ->
  handle r (c, w) = (fst (next r w), (c, snd (next r w))).
Proof.
  intros H. unfold IdempotencyMiddleware. destruct (next r w) as [o w'].
  destruct H as [H|H]; [|rewrite H]; destruct (Http.method r); done.
Qed.
End Theorems.
