(* ===== verification/MetricsSpec.v ===== *)
(** * What the metrics say

    Every attempt to reserve is timed once and counted at most once, under the
    result it had; the latency objective can be read off the histogram. *)
From S2P Require Import Prelude GoStd Models Services Scripts World Keys Logic RedisClient.
From S2P Require Import Reservation Replies Metrics.
From Stdlib Require Import QArith.
Local Open Scope string_scope.
Local Open Scope Z_scope.

(** ** The updates of a program *)

Definition emitted {X} (c : call X) : list metric :=
  match c with CMetric m => [m] | _ => [] end.

(** Whatever is answered, the program ends with an outcome and updates, after
    [ms], that satisfy [Q]. *)
Fixpoint measures {A} (Q : outcome A -> list metric -> Prop) (ms : list metric) (p : prog A) {struct p} : Prop :=
  match p with
  | Ret a => Q (Ok a) ms
  | Panic m => Q (Panicked m) ms
  | Vis c k => forall x, typed_answer c x -> measures Q (ms ++ emitted c)%list (k x)
  end.

Section Rules.
Context {A B : Type}.

Lemma measures_mono (Q Q' : outcome A -> list metric -> Prop) ms (p : prog A) :
  (forall o l, Q o l -> Q' o l) -> measures Q ms p -> measures Q' ms p.
Proof. intros HQ. revert ms. induction p as [a|m|X c k IH]; cbn; auto. Qed.

Lemma measures_bind (Q : outcome B -> list metric -> Prop) ms (p : prog A) (f : A -> prog B) :
  measures (fun o l => match o with
    | Ok a => measures Q l (f a)
    | Panicked m => Q (Panicked m) l
    end) ms p -> measures Q ms (pbind p f).
Proof. revert ms. induction p as [a|m|X c k IH]; intros ms; cbn; auto. Qed.
End Rules.

(** A program that updates no metric and does not panic. *)
Definition unmeasured {A} (p : prog A) : Prop :=
  forall ms, measures (fun o l => (exists a, o = Ok a) /\ l = ms) ms p.

Lemma unmeasured_bind {A B} (Q : outcome B -> list metric -> Prop) ms (p : prog A) (f : A -> prog B) :
  unmeasured p -> (forall a, measures Q ms (f a)) -> measures Q ms (pbind p f).
Proof.
  intros Hp Hf. apply measures_bind. eapply measures_mono; [|apply Hp].
  intros o l [[a ->] ->]. apply Hf.
Qed.

Section Worlds.
Context {R D : Type} `{RS : RedisServer R} `{LN : LuaNum} `{PG : Postgres D} `{O : Oracle}.

Lemma exec_metrics {X} (c : call X) (w : world R D) :
  w_metrics (snd (exec c w)) = (w_metrics w ++ emitted c)%list.
Proof.
  destruct c; cbn; rewrite ?app_nil_r; try done; unfold on_redis, on_pg; by destruct (faulty _ _ _).
Qed.

Lemma measures_run {A} (Q : outcome A -> list metric -> Prop) (p : prog A) : forall ms (w : world R D),
  measures Q ms p -> exists l, w_metrics (snd (run p w)) = (w_metrics w ++ l)%list /\
    Q (fst (run p w)) (ms ++ l)%list.
Proof.
  induction p as [a|m|X c k IH]; intros ms w Hp; cbn in *;
    [exists []; by rewrite !app_nil_r..|].
  pose proof (exec_typed c w) as Ht. pose proof (exec_metrics c w) as Hm.
  destruct (exec c w) as [x w']. cbn in *. destruct (IH x _ w' (Hp x Ht)) as (l & Hl & HQ).
  exists (emitted c ++ l)%list. rewrite Hl, Hm. by rewrite !app_assoc in *.
Qed.

Lemma run_calls {A} (p : prog A) (w : world R D) : (w_calls w <= w_calls (snd (run p w)))%nat.
Proof.
  revert w. induction p as [a|m|X c k IH]; intros w; cbn; [done|done|].
  pose proof (exec_calls c w) as E. destruct (exec c w) as [x w']. cbn in *.
  specialize (IH x w'). lia.
Qed.
End Worlds.

(** ** Reserve *)

(** The result an attempt is counted under; [None] when it is not counted. *)
Definition counted_as (sale : string) (o : outcome (error + Reservation)) (ms : list metric) : Prop :=
  match o with
  | Panicked _ => False
  | Ok (inr r) =>
      ms = [ReservationTotal sale "idempotent"] \/
      exists n, ms = [StockLevel sale n; ReservationTotal sale "success"]
  | Ok (inl e) =>
      e = "sold out" /\ ms = [ReservationTotal sale "sold_out"] \/
      (exists e', e = Errorf_w "redis reserve failed" e' \/ e = Errorf_w "failed to create reservation" e') /\
        ms = [ReservationTotal sale "error"] \/
      (exists e', e = Errorf_w "failed to set ttl" e') /\ ms = []
  end.

Section Reserve.
Context `{UL : UuidLib}.
Import ReservationService.

Lemma unmeasured_invoke {X} (c : call X) : emitted c = [] -> unmeasured (invoke c).
Proof. intros E ms x _. rewrite E, app_nil_r. by split; [exists x|]. Qed.

Lemma unmeasured_ret {A} (a : A) : unmeasured (Ret a).
Proof. intros ms. by split; [exists a|]. Qed.

Lemma unmeasured_then {A B} (p : prog A) (f : A -> prog B) :
  unmeasured p -> (forall a, unmeasured (f a)) -> unmeasured (pbind p f).
Proof. intros Hp Hf ms. apply unmeasured_bind; [done|]. intros a. apply Hf. Qed.

Create HintDb unmeasured.
#[local] Hint Resolve unmeasured_ret unmeasured_then : unmeasured.
#[local] Hint Extern 1 (unmeasured (invoke _)) => apply unmeasured_invoke; reflexivity : unmeasured.
#[local] Ltac quiet := repeat first
  [solve [auto with unmeasured nocore] | apply unmeasured_then | progress intros | case_match].

Lemma unmeasured_cached s key :
  unmeasured (if String.eqb key "" then Ret (inl "") else checkIdempotency s key).
Proof. unfold checkIdempotency. quiet. Qed.

Lemma unmeasured_get k : unmeasured (Client.get_int_ignoring_error k).
Proof. unfold Client.get_int_ignoring_error. quiet. Qed.

Lemma unmeasured_announce svc s n b : unmeasured (announce_stock svc s n b).
Proof.
  unfold announce_stock, Publisher.StockUpdate, Publisher.SaleEnded, Publisher.Publish. quiet.
Qed.

Lemma unmeasured_release s : unmeasured (Client.Release s).
Proof. unfold Client.Release. quiet. Qed.

Lemma unmeasured_log t i e p : unmeasured (Audit.Log t i e p).
Proof. unfold Audit.Log, Audit.LogWithConn. quiet. Qed.

Lemma unmeasured_set s key r : unmeasured (if String.eqb key "" then Ret (inr tt) else setIdempotency s key r).
Proof. unfold setIdempotency. quiet. Qed.

(** The reply of reserve.lua is an integer, so the assertion holds. *)
Lemma unmeasured_client_reserve s : unmeasured (Client.Reserve s).
Proof.
  intros ms [e|[z|u|]] Ht; cbn in *; try done; rewrite app_nil_r; by split; [eexists|].
Qed.

Lemma measures_metric {A} (Q : outcome A -> list metric -> Prop) m ms (p : prog A) :
  measures Q (ms ++ [m])%list p -> measures Q ms (pbind (invoke (CMetric m)) (fun _ => p)).
Proof. intros H [] _. exact H. Qed.

Lemma measures_notify svc r :
  measures (counted_as (uuid_String (SaleID r))) [] (reserve_notify svc r).
Proof.
  unfold reserve_notify. apply unmeasured_bind; [apply unmeasured_get|]. intros n.
  apply measures_metric, measures_metric. apply unmeasured_bind; [apply unmeasured_announce|]. intros _.
  apply unmeasured_bind; [apply unmeasured_log|]. intros _. right. by exists n.
Qed.

Lemma measures_record svc u s i key :
  measures (counted_as (uuid_String s)) [] (reserve_record svc u s i key).
Proof.
  unfold reserve_record.
  apply unmeasured_bind; [by apply unmeasured_invoke|]. intros id.
  apply unmeasured_bind; [by apply unmeasured_invoke|]. intros t1.
  apply unmeasured_bind; [by apply unmeasured_invoke|]. intros t2.
  apply unmeasured_bind; [by apply unmeasured_invoke|]. intros [e|x].
  - apply unmeasured_bind; [apply unmeasured_release|]. intros _. apply measures_metric.
    right; left. split; [exists e; by right|done].
  - unfold reserve_finish. apply unmeasured_bind; [by apply unmeasured_invoke|]. intros [e|y].
    + right; right. by split; [exists e|].
    + apply unmeasured_bind; [apply unmeasured_set|]. intros _.
      exact (measures_notify svc (mkReservation id u s i ReservationStatusReserved t1 None
        (t2 + seconds (reservationTTL svc)))).
Qed.

Lemma measures_attempt svc u s i key :
  measures (counted_as (uuid_String s)) [] (reserve_attempt svc u s i key).
Proof.
  unfold reserve_attempt. apply unmeasured_bind; [apply unmeasured_cached|]. intros [e|r].
  - apply unmeasured_bind; [apply unmeasured_client_reserve|]. intros [e'|z].
    + apply measures_metric. right; left. split; [exists e'; by left|done].
    + destruct (z =? -1); [|apply measures_record]. apply measures_metric. by left.
  - apply measures_metric. by left.
Qed.

Section Worlds.
Context {R D : Type} `{RS : RedisServer R} `{LN : LuaNum} `{PG : Postgres D} `{O : Oracle}.

(** C31. Whatever is answered and whichever calls fail, a Reserve never panics, adds
    exactly one observation to the duration histogram of its sale, which is not
    negative when the clock does not go back, and is counted once in
    reservation_total under the result it had: idempotent or success when it
    answers a reservation, sold_out for the sold-out error, error when the script
    or the INSERT failed. Only an attempt whose TTL key cannot be set, which has
    kept its row and its unit, is not counted at all. *)
Theorem reserve_is_counted svc user sale item key (w : world R D) :
  let r := run (Reserve svc user sale item key) w in
  exists ms ns, w_metrics (snd r) = (w_metrics w ++ ms ++ [ReservationDuration (uuid_String sale) ns])%list /\
    counted_as (uuid_String sale) (fst r) ms /\
    ((forall i j, (i <= j)%nat -> time_at i <= time_at j) -> 0 <= ns).
Proof.
  cbn zeta. unfold Reserve. cbn [pbind invoke run exec]. rewrite run_defer.
  destruct (measures_run _ _ [] (tick w) (measures_attempt svc user sale item key)) as (l & Hl & HQ).
  pose proof (run_calls (reserve_attempt svc user sale item key) (tick w)) as Hc.
  destruct (run (reserve_attempt svc user sale item key) (tick w)) as [o w1].
  cbn [fst snd] in *. cbn [app] in HQ. unfold observe_duration. cbn [pbind invoke run exec fst snd].
  exists l, (now w1 - now w). split; [|split; [exact HQ|]].
  - cbn. rewrite Hl. by rewrite app_assoc.
  - intros Hmono. unfold now. specialize (Hmono (w_calls w) (w_calls w1)). cbn in Hc. lia.
Qed.
End Worlds.
End Reserve.

(** ** The registry and the objectives *)

(** No two collectors share a name, so the registration at load time does not
    panic, and every update names as many labels as its collector has. *)
Lemma registration_succeeds : NoDup (Metrics.Name <$> Metrics.registered).
Proof. apply (bool_decide_unpack (NoDup _)). vm_compute. done. Qed.

Lemma labels_match m :
  length (Metrics.label_values m) = length (Metrics.variableLabels (Metrics.collector_of m)).
Proof. by destruct m. Qed.

(** No update of the program goes to the waitlist gauge. *)
Lemma waitlist_depth_is_never_set m : Metrics.collector_of m <> Metrics.WaitlistDepth.
Proof. by destruct m. Qed.

(** The latency target is the bound of a bucket: whether the objective is met can
    be read off the histogram exactly. *)
Lemma latency_target_is_a_bucket :
  exists le, In le (Metrics.Buckets Metrics.ReservationDuration) /\ (le == Slo.LatencyP99TargetSeconds)%Q.
Proof. exists (100 # 1000). split; [cbn; tauto|reflexivity]. Qed.

(** At a hundred requests a second a day's budget is 8640 failed requests. *)
Lemma daily_error_budget : (Slo.error_budget 100 86400 == 8640)%Q.
Proof. reflexivity. Qed.
