(* ===== verification/Chaos.v ===== *)
(** * Crashes, lost data, and one undisturbed reconciliation pass

    Calls fail or lose their answers, goroutines die, the server restarts, and
    Redis forgets keys: none of it does lasting damage to the counters of an
    active sale. Whatever has happened, one pass of the worker that runs
    undisturbed makes them agree with the tables again. *)
From S2P Require Import Prelude GoStd Models Schema Services Scripts World Keys Logic.
From S2P Require Import RedisClient Reservation Inventory Expiry Reconcile Ledger RateLimit Hub Metrics Http Sessions.
From S2P Require Import Discipline ReconcileSpec Schedule.
Local Open Scope string_scope.
Local Open Scope Z_scope.

(** ** What can happen to a running system *)

Section Steps.
Context {R D : Type} `{RS : RedisServer R} `{LN : LuaNum} `{PG : Postgres D} `{O : Oracle}
  `{UL : UuidLib} `{FA : FloatArg}.
Variable srv : Http.Server.
Variable h : ExpiryHandler.ExpiryHandler.

(** One event: a goroutine makes its next call, which may fail or lose its
    answer; a task arrives; the server starts again; some goroutines die, all of
    them when the process crashes; Redis loses some of its keys. *)
Inductive chaos_step : pool (R := R) (D := D) unit -> pool (R := R) (D := D) unit -> Prop :=
| call_made s s' : pool_step s s' -> chaos_step s s'
| task_arrives ps w t : chaos_step (ps, w) (ps ++ [run_task srv h t], w)%list
| server_restarts ps w : chaos_step (ps, w) (ps ++ [ignore Recovery.ReconcileOnStartup], w)%list
| goroutines_die ps qs w : qs ⊆+ ps -> chaos_step (ps, w) (qs, w)
| redis_forgets ps w r : dataset r ⊆ dataset (w_redis w) -> chaos_step (ps, w) (ps, set_redis r w).

Definition chaos_steps : pool (R := R) (D := D) unit -> pool (R := R) (D := D) unit -> Prop :=
  rtc chaos_step.
End Steps.

(** ** Bounds *)

(** More calls than a server makes in a thousand years. *)
Definition call_limit : Z := 288230376151711744.

(** Rows of [reservations] and [orders] after [n] calls, from a start with at
    most 2^32; no call adds more than three. *)
Definition rows_after (n : Z) : Z := 4294967296 + 3 * n.

(** The largest value any call stores in a counter, and the largest a counter
    has after [n] calls: a script moves it by two at most. *)
Definition written : Z := 2147483648 + 2 * rows_after call_limit.
Definition counter_after (n : Z) : Z := written + 2 * n.

(** The key is missing or holds an integer no larger than [b]. *)
Definition bounded_counter (b : Z) (d : gmap string rval) (k : string) : Prop :=
  d !! k = None \/ exists n, counter_at d k = Some n /\ -b <= n <= b.

Definition rows (d : db) : Z :=
  Z.of_nat (size (t_reservations d)) + Z.of_nat (size (t_orders d)).

Definition integer_totals (d : db) : Prop :=
  forall id s, t_sales d !! id = Some s -> int4 (TotalStock s).

Section Bounds.
Context `{UL : UuidLib}.

Definition counter_keys (sale : uuid) : list string :=
  [availableKey (uuid_String sale); reservedKey (uuid_String sale)].

(** The counters of all sales are bounded by [b], the tables by [r] rows. *)
Definition bounded (b r : Z) (v : view) : Prop :=
  (forall sale k, k ∈ counter_keys sale -> bounded_counter b (v_data v) k) /\
  rows (v_db v) <= r /\ integer_totals (v_db v).

(** Where a history starts: at most 2^32 rows, counters between -2^31 and 2^31. *)
Definition modest (v : view) : Prop := bounded 2147483648 4294967296 v.

(** ** Calls that keep the bounds *)

(** Not a counter of any sale. *)
Definition foreign (k : string) : Prop := forall sale, k ∉ counter_keys sale.

(** Keys a script writes with other commands than INCR and DECR. *)
Definition script_others (sc : script) (keys : list string) : list string :=
  match sc, keys with
  | waitlistJoinSHA, [_; k2] => [k2]
  | waitlistPromoteSHA, k1 :: _ => [k1]
  | tokenBucketSHA, _ => keys
  | _, _ => []
  end.

Definition small_value (v : string) : Prop := exists n, v = Itoa n /\ - written <= n <= written.

Definition tame_pipe (c : pipe_cmd) : Prop :=
  match c with PSet k v _ => foreign k \/ small_value v | PHSet k _ => foreign k end.

Definition tame_call {X} (c : call X) : Prop :=
  match c with
  | CEvalSha sc keys _ => Forall foreign (script_others sc keys)
  | CSet k v _ => foreign k \/ small_value v
  | CHSet k _ | CZRem k _ => foreign k
  | CPipeline cmds => Forall tame_pipe cmds
  | CCommit l => (length l <= 3)%nat
  | _ => True
  end.

(** What the bounds say about an answer. *)
Definition tame_row {Y} (q : row_query Y) : Y -> Prop :=
  match q in row_query Y return Y -> Prop with
  | CountLiveReservations _ | CountOrders _ =>
      fun o => match o with Some n => 0 <= n <= rows_after call_limit | None => True end
  | _ => fun _ => True
  end.

Definition scanned_total (row : error + uuid * Z) : Prop :=
  match row with inl _ => True | inr p => int4 (snd p) end.

Definition tame_rows {Y} (q : rows_query Y) : list (error + Y) -> Prop :=
  match q in rows_query Y return list (error + Y) -> Prop with
  | SelectActiveSales => Forall scanned_total
  | SelectExpiring => fun _ => True
  end.

Definition tame_stmt (s : stmt) : Prop :=
  match s with InsertSale x => int4 (TotalStock x) | _ => True end.

Definition tame_answer {X} (c : call X) : X -> Prop :=
  match c in call X return X -> Prop with
  | CRow q => fun x => match x with inl _ => True | inr y => tame_row q (Some y) end
  | CRows q => fun x => match x with inl _ => True | inr l => tame_rows q l end
  | CExec s => fun x => match x with inl _ => True | inr _ => tame_stmt s end
  | _ => fun _ => True
  end.

(** Whatever is answered within the bounds, every call keeps them. *)
Fixpoint tame {A} (p : prog A) : Prop :=
  match p with
  | Vis c k => tame_call c /\ forall x, tame_answer c x -> tame (k x)
  | _ => True
  end.
End Bounds.

(** ** Scripts *)

Lemma bounded_counter_mono b b' d k : b <= b' -> bounded_counter b d k -> bounded_counter b' d k.
Proof. intros Hle [H|(n & H & Hn)]; [by left|right]. exists n. split; [done|lia]. Qed.

Lemma bounded_counter_same b d d' k : d' !! k = d !! k -> bounded_counter b d k -> bounded_counter b d' k.
Proof. intros E. unfold bounded_counter, counter_at. by rewrite E. Qed.

Lemma bounded_counter_insert b d k n :
  - b <= n <= b -> b < max_int64 -> bounded_counter b (<[k := RStr (Itoa n)]> d) k.
Proof.
  intros Hn Hb. right. exists n. split; [|done]. apply counter_at_insert.
  unfold int64, min_int64, max_int64 in *. lia.
Qed.

Section Scripts.
Context {R : Type} `{RL : RedisLaws R} `{LN : LuaNum}.

(** The script moves the counter at [k] by [n] at most. *)
Definition moves {X} (k : string) (n : nat) (m : lua R X) : Prop :=
  forall b r, 0 <= b -> b + Z.of_nat n < max_int64 ->
    bounded_counter b (dataset r) k -> bounded_counter (b + Z.of_nat n) (dataset (snd (m r))) k.

Lemma moves_leaves {X} k n (m : lua R X) : leaves k m -> moves k n m.
Proof.
  intros Hm b r Hb Hlim H. apply (bounded_counter_mono b); [lia|].
  by apply (bounded_counter_same _ (dataset r)).
Qed.

Lemma moves_bind {X Y} k i n (m : lua R X) (f : X -> lua R Y) :
  (i <= n)%nat -> moves k i m -> (forall x, moves k (n - i) (f x)) -> moves k n (lua_bind m f).
Proof.
  intros Hle Hm Hf b r Hb Hlim H. unfold lua_bind.
  specialize (Hm b r Hb ltac:(lia) H). destruct (m r) as [[e|x] r'] eqn:E; cbn in *.
  - eapply bounded_counter_mono; [|exact Hm]. lia.
  - specialize (Hf x (b + Z.of_nat i) r' ltac:(lia) ltac:(lia) Hm).
    eapply bounded_counter_mono; [|exact Hf]. lia.
Qed.

(** What INCR and DECR start from. *)
Lemma bounded_start b d k :
  0 <= b -> bounded_counter b d k ->
  exists n, (counter_at d k = Some n \/ d !! k = None /\ n = 0) /\ -b <= n <= b.
Proof.
  intros Hb [H|(n & H & Hn)]; [exists 0; split; [by right|lia]|]. exists n. split; [by left|done].
Qed.

Lemma moves_write {X} k k' (m : lua R X) :
  (forall r, only_key k' r (snd (m r))) -> (k = k' -> moves k 1 m) -> moves k 1 m.
Proof.
  intros Honly Hm. destruct (decide (k = k')) as [E|Hne]; [by apply Hm|].
  by eapply moves_leaves, leaves_write.
Qed.

Lemma moves_INCR k k' : moves k 1 (INCR k').
Proof.
  apply (moves_write k k'); [intros; apply INCR_only|]. intros -> b r Hb Hlim H.
  destruct (bounded_start _ _ _ Hb H) as (n & Hn & Hr).
  destruct (INCR_spec r k' n Hn) as (_ & -> & _); [lia|]. apply bounded_counter_insert; lia.
Qed.

Lemma moves_DECR k k' : moves k 1 (DECR k').
Proof.
  apply (moves_write k k'); [intros; apply DECR_only|]. intros -> b r Hb Hlim H.
  destruct (bounded_start _ _ _ Hb H) as (n & Hn & Hr).
  destruct (DECR_spec r k' n Hn) as (_ & -> & _); [unfold min_int64, max_int64 in *; lia|].
  apply bounded_counter_insert; lia.
Qed.

#[local] Ltac moves :=
  repeat first
    [ apply moves_leaves; solve [frame_script]
    | apply (moves_bind _ 1 _ (INCR _)); [lia|apply moves_INCR|intros; cbn [Nat.sub]]
    | apply (moves_bind _ 1 _ (DECR _)); [lia|apply moves_DECR|intros; cbn [Nat.sub]]
    | apply (moves_bind _ 0); [lia|apply moves_leaves; solve [frame_script]|intros; cbn [Nat.sub]]
    | case_match ].

Lemma script_moves k sc keys argv :
  k ∉ script_others sc keys -> moves k 2 (run_script (R := R) sc keys argv).
Proof.
  intros Hk. unfold run_script. repeat case_match; subst; try (apply moves_leaves, leaves_fail);
    cbn in Hk; repeat (apply not_elem_of_cons in Hk as [? Hk]).
  - unfold reserve_lua. moves.
  - unfold release_lua. moves.
  - unfold confirm_lua. moves.
  - unfold waitlist_join_lua. moves.
  - unfold waitlist_promote_lua. moves.
  - unfold token_bucket_lua. moves.
Qed.
End Scripts.

(** ** Statements *)

Lemma size_insert_le {A} (m : gmap uuid A) k x : (size (<[k := x]> m) <= S (size m))%nat.
Proof. rewrite map_size_insert. destruct (m !! k); cbn; lia. Qed.

Lemma size_alter {A} (f : A -> A) (m : gmap uuid A) k : size (alter f k m) = size m.
Proof.
  destruct (m !! k) as [x|] eqn:E.
  - assert (alter f k m = <[k := f x]> m) as ->; [|by rewrite map_size_insert, E].
    apply map_eq. intros i. rewrite lookup_alter, lookup_insert. case_decide; [by subst; rewrite E|done].
  - f_equal. apply map_eq. intros i. rewrite lookup_alter. case_decide; [by subst; rewrite E|done].
Qed.

Lemma rows_stmt s d : rows (stmt_effect s d) <= rows d + 1.
Proof.
  unfold rows. destruct s; cbn [stmt_effect set_sales set_reservations set_orders set_audit
    t_reservations t_orders]; rewrite ?size_alter; try lia.
  - pose proof (size_insert_le (t_reservations d) (ID r) (mkRow (with_confirmed_at None r) promoted)). lia.
  - pose proof (size_insert_le (t_orders d) (OrderID o) o). lia.
Qed.

Lemma totals_stmt s d : stmt_ok s d = true -> integer_totals d ->
  integer_totals (stmt_effect s d) /\ tame_stmt s.
Proof.
  intros Hok H. destruct s; cbn in *; try done.
  - rewrite !andb_true_iff in Hok. destruct Hok as [[_ Hn] _]. unfold int4b in Hn.
    rewrite andb_true_iff, !Z.leb_le in Hn. split; [|exact Hn].
    intros id x. cbn. rewrite lookup_insert. case_decide; [intros [= <-]; done|apply H].
  - split; [|done]. intros k x. cbn. rewrite lookup_alter. case_decide; [|apply H].
    destruct (t_sales d !! id) as [y|] eqn:E; [|done]. intros [= <-]. cbn. by eapply H.
Qed.

Lemma rows_stmts l : forall d, rows (stmts_effect l d) <= rows d + Z.of_nat (length l).
Proof.
  induction l as [|s l IH]; intros d; cbn [stmts_effect fold_left length].
  - lia.
  - specialize (IH (stmt_effect s d)). pose proof (rows_stmt s d). unfold stmts_effect in IH. lia.
Qed.

Lemma totals_stmts l : forall d, stmts_ok l d = true -> integer_totals d ->
  integer_totals (stmts_effect l d).
Proof.
  induction l as [|s l IH]; intros d Hok H; [done|]. cbn [stmts_ok] in Hok.
  apply andb_true_iff in Hok as [Hs Hl]. apply IH; [done|]. by apply totals_stmt.
Qed.

(** ** One call *)

Section Calls.
Context {R D : Type} `{RL : RedisLaws R} `{LN : LuaNum} `{PL : PostgresLaws D} `{O : Oracle} `{UL : UuidLib}.
#[local] Abbreviation wd := (world R D).

(** The bounds hold for the calls made so far. *)
Definition sound (w : wd) : Prop :=
  bounded (counter_after (Z.of_nat (w_calls w))) (rows_after (Z.of_nat (w_calls w))) (view_of w).

Lemma bounded_mono b b' r r' v : b <= b' -> r <= r' -> bounded b r v -> bounded b' r' v.
Proof.
  intros Hb Hr (H1 & H2 & H3). split; [|split; [lia|done]]. intros s k Hk.
  eapply bounded_counter_mono; [exact Hb|]. by eapply H1.
Qed.

Lemma sound_tick (w : wd) : sound w -> sound (tick w).
Proof.
  unfold sound. apply bounded_mono; cbn [tick w_calls]; unfold counter_after, rows_after; lia.
Qed.

Lemma modest_sound (w : wd) : modest (view_of w) -> sound w.
Proof.
  apply bounded_mono; unfold counter_after, written, rows_after, call_limit; lia.
Qed.

(** A Redis command that moves every counter by two at most, or writes a small
    value into it. *)
Definition gentle {X} (op : R -> (error + X) * R) : Prop :=
  forall sale k b r, k ∈ counter_keys sale -> written <= b -> b + 2 < max_int64 ->
    bounded_counter b (dataset r) k -> bounded_counter (b + 2) (dataset (snd (op r))) k.

Lemma on_redis_sound {X} (op : R -> (error + X) * R) (w : wd) :
  gentle op -> Z.of_nat (w_calls w) < call_limit -> sound w -> sound (snd (on_redis op w)).
Proof.
  intros Hop Hlim (H1 & H2 & H3). unfold on_redis.
  assert (forall x r', (forall sale k, k ∈ counter_keys sale ->
      bounded_counter (counter_after (Z.of_nat (w_calls w)) + 2) (dataset r') k) ->
    sound (snd (x : error + X, tick (set_redis r' w)))) as Hsound.
  { intros x r' Hr. split; [|split; [|exact H3]]; cbn [snd tick set_redis w_calls w_pg view_of v_db v_data] in *.
    - intros s k Hk. eapply bounded_counter_mono; [|by eapply Hr]. unfold counter_after. lia.
    - cbn [view_of v_db] in H2. unfold rows_after in *. lia. }
  assert (forall sale k, k ∈ counter_keys sale ->
    bounded_counter (counter_after (Z.of_nat (w_calls w)) + 2) (dataset (w_redis w)) k) as Hsame.
  { intros s k Hk. eapply bounded_counter_mono; [|by eapply H1]. lia. }
  assert (forall sale k, k ∈ counter_keys sale ->
    bounded_counter (counter_after (Z.of_nat (w_calls w)) + 2) (dataset (snd (op (w_redis w)))) k) as Hdone.
  { intros s k Hk. apply (Hop s); [done| | |by eapply H1];
      unfold counter_after, written, rows_after, call_limit, max_int64 in *; lia. }
  unfold faulty. destruct (fault_at (w_calls w)) as [|e|e].
  - destruct (op (w_redis w)) as [x r']. by apply Hsound.
  - by apply (Hsound (inl e)).
  - by apply (Hsound (inl e)).
Qed.

(** A PostgreSQL operation that adds three rows at most. *)
Definition modest_op {X} (op : D -> (error + X) * D) : Prop :=
  forall d, integer_totals (tables d) ->
    rows (tables (snd (op d))) <= rows (tables d) + 3 /\ integer_totals (tables (snd (op d))).

Lemma on_pg_sound {X} (op : D -> (error + X) * D) (w : wd) :
  modest_op op -> sound w -> sound (snd (on_pg op w)).
Proof.
  intros Hop (H1 & H2 & H3). unfold on_pg.
  assert (forall x d', rows (tables d') <= rows (tables (w_pg w)) + 3 /\ integer_totals (tables d') ->
    sound (snd (x : error + X, tick (set_pg d' w)))) as Hsound.
  { intros x d' [Hr Ht]. split; [|split; [|exact Ht]];
      cbn [snd tick set_pg w_calls w_redis w_pg view_of v_db v_data] in *.
    - intros s k Hk. eapply bounded_counter_mono; [|by eapply H1]. unfold counter_after. lia.
    - unfold rows_after in *. lia. }
  specialize (Hop (w_pg w) H3).
  assert (rows (tables (w_pg w)) <= rows (tables (w_pg w)) + 3 /\ integer_totals (tables (w_pg w))) as Hid
    by (split; [lia|done]).
  unfold faulty. destruct (fault_at (w_calls w)) as [|e|e].
  - destruct (op (w_pg w)) as [x d']. by apply Hsound.
  - by apply (Hsound (inl e)).
  - by apply (Hsound (inl e)).
Qed.

Lemma gentle_same {X} (op : R -> (error + X) * R) :
  (forall sale k r, k ∈ counter_keys sale -> dataset (snd (op r)) !! k = dataset r !! k) -> gentle op.
Proof.
  intros H s k b r Hk Hb Hlim Hr. eapply bounded_counter_mono; [|eapply bounded_counter_same; [by eapply H|exact Hr]].
  lia.
Qed.

Lemma gentle_read {X} (op : R -> (error + X) * R) :
  (forall r, dataset (snd (op r)) = dataset r) -> gentle op.
Proof. intros H. apply gentle_same. intros s k r _. by rewrite H. Qed.

Lemma gentle_write {X} k (op : R -> (error + X) * R) :
  foreign k -> (forall r, only_key k r (snd (op r))) -> gentle op.
Proof. intros Hk H. apply gentle_same. intros s k' r Hin. apply H. intros ->. by apply (Hk s). Qed.

Lemma SET_data k v px (r : R) : dataset (snd (SET k v px r)) = <[k := RStr v]> (dataset r).
Proof. by destruct (SET_spec r k v px) as (_ & -> & _). Qed.

(** Unlike the other commands a SET of a small value never raises a bound. *)
Lemma small_set k v px sale k' b (r : R) :
  foreign k \/ small_value v -> k' ∈ counter_keys sale -> written <= b -> b < max_int64 ->
  bounded_counter b (dataset r) k' -> bounded_counter b (dataset (snd (SET k v px r))) k'.
Proof.
  intros H Hk Hb Hlim Hr. rewrite SET_data. destruct (decide (k = k')) as [->|Hne].
  - destruct H as [H|(n & -> & Hn)]; [by destruct (H sale)|]. apply bounded_counter_insert; lia.
  - eapply bounded_counter_same; [by rewrite lookup_insert_ne|done].
Qed.

Lemma pipe_bounded cmds sale k b : Forall tame_pipe cmds -> k ∈ counter_keys sale ->
  written <= b -> b < max_int64 ->
  forall r : R, bounded_counter b (dataset r) k -> bounded_counter b (dataset (snd (pipe_exec cmds r))) k.
Proof.
  intros Hc Hk Hb Hlim. induction Hc as [|c cs Hc _ IH]; intros r Hr; cbn [pipe_exec]; [done|].
  assert (bounded_counter b (dataset (snd (pipe_run c r))) k) as H1.
  { destruct c as [k' v px|k' fs]; cbn [pipe_run tame_pipe] in *.
    - by apply (small_set _ _ _ sale).
    - eapply bounded_counter_same; [|exact Hr]. apply HSET_only. intros ->. by apply (Hc sale). }
  destruct (pipe_run c r) as [x r1]. specialize (IH r1 H1).
  destruct (pipe_exec cs r1) as [y r2]. exact IH.
Qed.

Lemma script_gentle sc keys argv :
  Forall foreign (script_others sc keys) -> gentle (eval_script (R := R) sc keys argv).
Proof.
  intros Hk s k b r Hin Hb Hlim Hr.
  assert (k ∉ script_others sc keys) as Hn.
  { intros Hbad. rewrite Forall_forall in Hk. by apply (Hk k Hbad s). }
  assert (0 <= b) as Hpos by (unfold written, rows_after, call_limit in Hb; lia).
  pose proof (script_moves k sc keys argv Hn b r Hpos Hlim Hr) as H. unfold eval_script.
  destruct (run_script sc keys argv r) as [[e|[z|u|]] r']; exact H.
Qed.

Lemma or_nil_gentle {X} (op : R -> (error + option X) * R) :
  (forall r, dataset (snd (op r)) = dataset r) -> gentle (or_nil op).
Proof.
  intros H. apply gentle_read. intros r. specialize (H r). unfold or_nil.
  destruct (op r) as [[e|[x|]] r']; exact H.
Qed.

Lemma redis_sound {X} (c : call X) (w : wd) :
  tame_call c -> Z.of_nat (w_calls w) < call_limit -> sound w ->
  match c with
  | CEvalSha _ _ _ | CGet _ | CSet _ _ _ | CHSet _ _ | CPipeline _ | CZRank _ _ | CZCard _
  | CZRem _ _ | CPublish _ _ | CConfigSet _ _ => sound (snd (exec c w))
  | _ => True
  end.
Proof.
  intros Hc Hlim Hw. destruct c; try exact I; cbn [exec tame_call] in *; apply on_redis_sound; try done.
  - by apply script_gentle.
  - apply or_nil_gentle. intros r. apply GET_read.
  - intros s k' b r Hk Hb Hb' Hr. eapply bounded_counter_mono; [|eapply small_set; eauto; lia]. lia.
  - eapply gentle_write; [exact Hc|]. intros r. apply HSET_only.
  - intros s k' b r Hk Hb Hb' Hr. eapply bounded_counter_mono; [|eapply pipe_bounded; eauto; lia]. lia.
  - apply or_nil_gentle. intros r. apply ZRANK_read.
  - apply gentle_read. intros r. apply ZCARD_read.
  - eapply gentle_write; [exact Hc|]. intros r. apply ZREM_only.
  - apply gentle_read. intros r. by destruct (PUBLISH_spec r channel payload) as (_ & -> & _).
  - by apply gentle_read.
Qed.

Lemma pg_exec_modest s : modest_op (pg_exec (D := D) s).
Proof.
  intros d Ht. destruct (stmt_ok s (tables d)) eqn:E.
  - destruct (pg_exec_ok d s E) as [_ ->]. pose proof (rows_stmt s (tables d)).
    split; [lia|by apply totals_stmt].
  - destruct (pg_exec_rejected d s E) as [_ ->]. split; [lia|done].
Qed.

Lemma pg_commit_modest l : (length l <= 3)%nat -> modest_op (pg_commit (D := D) l).
Proof.
  intros Hl d Ht. destruct (stmts_ok l (tables d)) eqn:E.
  - destruct (pg_commit_ok d l E) as [_ ->]. pose proof (rows_stmts l (tables d)).
    split; [lia|by apply totals_stmts].
  - destruct (pg_commit_rejected d l E) as [_ ->]. split; [lia|done].
Qed.

Lemma same_modest {X} (f : D -> error + X) : modest_op (fun d => (f d, d)).
Proof. intros d Ht. split; [cbn; lia|exact Ht]. Qed.

(** Every call keeps the bounds. *)
Lemma exec_sound {X} (c : call X) (w : wd) :
  tame_call c -> Z.of_nat (w_calls w) < call_limit -> sound w -> sound (snd (exec c w)).
Proof.
  intros Hc Hlim Hw. pose proof (redis_sound c w Hc Hlim Hw) as Hr.
  destruct c; try exact Hr; cbn [exec tame_call] in *;
    try (apply on_pg_sound; [apply same_modest|exact Hw]); try (exact (sound_tick _ Hw)).
  - apply on_pg_sound; [apply pg_exec_modest|exact Hw].
  - apply on_pg_sound; [by apply pg_commit_modest|exact Hw].
Qed.

(** An answer of PostgreSQL is an error or what the tables say. *)
Lemma on_pg_answer {X} (op : D -> (error + X) * D) (w : wd) (P : X -> Prop) :
  (forall x, fst (op (w_pg w)) = inr x -> P x) ->
  match fst (on_pg op w) with inl _ => True | inr x => P x end.
Proof.
  intros H. unfold on_pg, faulty. destruct (fault_at (w_calls w)); [|done|done].
  destruct (op (w_pg w)) as [[e|x] d']; [done|]. by apply H.
Qed.

Lemma count_rows {A} (f : A -> bool) (m : gmap uuid A) (w : wd) :
  Z.of_nat (size m) <= rows (tables (w_pg w)) -> Z.of_nat (w_calls w) < call_limit -> sound w ->
  0 <= count f m <= rows_after call_limit.
Proof.
  intros Hm Hlim (_ & Hr & _). cbn [view_of v_db] in Hr. pose proof (count_le_size f m).
  unfold rows_after in *. lia.
Qed.

Lemma exec_answer {X} (c : call X) (w : wd) :
  Z.of_nat (w_calls w) < call_limit -> sound w -> tame_answer c (fst (exec c w)).
Proof.
  intros Hlim Hw. pose proof Hw as (_ & _ & Ht). cbn [view_of v_db] in Ht.
  destruct c; try exact I; cbn [tame_answer exec].
  - apply (on_pg_answer (pg_exec s) w (fun _ => tame_stmt s)). intros [] E.
    destruct (stmt_ok s (tables (w_pg w))) eqn:Hok; [by eapply totals_stmt|].
    destruct (pg_exec_rejected (w_pg w) s Hok) as [[e He] _]. congruence.
  - apply (on_pg_answer _ w (fun y => tame_row q (Some y))). intros y. cbn [fst].
    rewrite pg_row_spec. set (o := row_answer q _ _). assert (tame_row q o) as Hq.
    { subst o. destruct q; cbn [tame_row row_answer]; try done;
        eapply count_rows; eauto; unfold rows; lia. }
    destruct o as [z|]; cbn; [by intros [= <-]|done].
  - apply (on_pg_answer _ w (tame_rows q)). intros l. cbn [fst].
    destruct (pg_rows_spec (w_pg w) _ q (now w)) as (l' & -> & Hp). intros [= <-].
    destruct q; cbn [tame_rows]; [|done]. apply Forall_fmap. rewrite Hp.
    apply Forall_fmap, Forall_forall.
    intros [id s] [_ Hin]%list_elem_of_filter. apply elem_of_map_to_list in Hin. by eapply Ht.
Qed.
End Calls.

(** ** The handlers keep the bounds *)

Create HintDb tame.

Section Rules.
Context `{UL : UuidLib}.

Lemma tame_bind {A B} (p : prog A) (f : A -> prog B) :
  tame p -> (forall a, tame (f a)) -> tame (pbind p f).
Proof.
  intros Hp Hf. induction p as [a|m|X c k IH]; cbn in *; [auto|done|]. destruct Hp as [Hc Hk]. auto.
Qed.

Lemma tame_call_bind {A X} (c : call X) (f : X -> prog A) :
  tame_call c -> (forall x, tame_answer c x -> tame (f x)) -> tame (pbind (invoke c) f).
Proof. done. Qed.

Lemma tame_defer {A} d (p : prog A) : tame d -> tame p -> tame (defer d p).
Proof.
  intros Hd Hp. induction p as [a|m|X c k IH]; cbn in *;
    [by apply tame_bind|by apply tame_bind|]. destruct Hp as [Hc Hk]. auto.
Qed.

Lemma tame_invoke {X} (c : call X) : tame_call c -> tame (invoke c).
Proof. by split. Qed.

Lemma tame_catch {A} (p : prog A) : tame p -> tame (Http.catch p).
Proof. induction p as [a|m|X c k IH]; cbn; [done|done|]. intros [Hc Hk]. auto. Qed.
End Rules.

Section ForeignKeys.
Context `{UU : UuidLaws}.

Lemma foreign_neq k :
  (forall s, k <> availableKey (uuid_String s)) -> (forall s, k <> reservedKey (uuid_String s)) -> foreign k.
Proof.
  intros Ha Hr s. unfold counter_keys. rewrite !not_elem_of_cons. repeat split; auto. apply not_elem_of_nil.
Qed.

Lemma foreign_waitlist s : foreign (waitlistKey (uuid_String s)).
Proof. apply foreign_neq; auto with keys. Qed.
Lemma foreign_meta s : foreign (metaKey (uuid_String s)).
Proof. apply foreign_neq; auto with keys. Qed.
Lemma foreign_ttl r : foreign (ttlKey (uuid_String r)).
Proof. apply foreign_neq; auto with keys. Qed.
Lemma foreign_idempotency s key : foreign (idempotencyKeyOf (uuid_String s) key).
Proof. apply foreign_neq; auto with keys. Qed.
Lemma foreign_ratelimit u : foreign (ratelimitKey u).
Proof. by apply foreign_neq. Qed.
End ForeignKeys.
#[export] Hint Resolve foreign_waitlist foreign_meta foreign_ttl foreign_idempotency foreign_ratelimit : tame.
#[export] Hint Resolve or_introl Forall_nil_2 Forall_cons_2 : tame.

(** A program is walked through call by call, as in Replies.v. *)
Ltac tame_side := cbn [tame_call script_others length]; solve [exact I|auto with tame|lia].
Ltac tame_step :=
  first
    [ exact I
    | assumption
    | solve [auto with tame nocore]
    | apply tame_bind; [solve [auto with tame nocore]|]
    | apply tame_call_bind; [tame_side|intros]
    | apply tame_invoke; tame_side
    | apply tame_bind
    | progress intros
    | case_match ].
Ltac tame := repeat tame_step.

Section Client.
Context `{UU : UuidLaws} `{FA : FloatArg}.

Lemma tame_as_int64 v : tame (Client.as_int64 v).
Proof. by destruct v. Qed.
Lemma tame_as_string v : tame (Client.as_string v).
Proof. by destruct v. Qed.
#[local] Hint Resolve tame_as_int64 tame_as_string : tame.

Lemma tame_client_reserve s : tame (Client.Reserve s).
Proof. unfold Client.Reserve. tame. Qed.
Lemma tame_client_release s : tame (Client.Release s).
Proof. unfold Client.Release. tame. Qed.
Lemma tame_client_confirm s : tame (Client.Confirm s).
Proof. unfold Client.Confirm. tame. Qed.
Lemma tame_waitlist_join s u t : tame (Client.WaitlistJoin (uuid_String s) u t).
Proof. unfold Client.WaitlistJoin. tame. Qed.
Lemma tame_waitlist_promote s : tame (Client.WaitlistPromote (uuid_String s)).
Proof. unfold Client.WaitlistPromote. tame. Qed.
Lemma tame_get_int k : tame (Client.get_int k).
Proof. unfold Client.get_int. tame. Qed.
Lemma tame_get_int_ignoring k : tame (Client.get_int_ignoring_error k).
Proof. unfold Client.get_int_ignoring_error. tame. Qed.
Lemma tame_publish s e : tame (Publisher.Publish s e).
Proof. unfold Publisher.Publish. tame. Qed.
Lemma tame_publish_user s e : tame (Publisher.PublishToUser s e).
Proof. unfold Publisher.PublishToUser. tame. Qed.
Lemma tame_audit db t i e p : tame (Audit.LogWithConn db t i e p).
Proof. unfold Audit.LogWithConn. destruct db; tame. Qed.
Lemma tame_allow l u : tame (Limiter.Allow l u).
Proof. unfold Limiter.Allow. tame. Qed.
End Client.
#[export] Hint Resolve tame_as_int64 tame_as_string tame_client_reserve tame_client_release tame_client_confirm
  tame_waitlist_join tame_waitlist_promote tame_get_int tame_get_int_ignoring tame_publish
  tame_publish_user tame_audit tame_allow : tame.

Section Handlers.
Context `{UU : UuidLaws} `{FA : FloatArg}.

Lemma tame_announce svc s n b : tame (ReservationService.announce_stock svc s n b).
Proof.
  unfold ReservationService.announce_stock, Publisher.StockUpdate, Publisher.SaleEnded. tame.
Qed.
#[local] Hint Resolve tame_announce : tame.

Lemma tame_reserve_record svc u s i key : tame (ReservationService.reserve_record svc u s i key).
Proof.
  unfold ReservationService.reserve_record, ReservationService.reserve_finish,
    ReservationService.reserve_notify, ReservationService.setIdempotency, Audit.Log. tame.
Qed.
#[local] Hint Resolve tame_reserve_record : tame.

Lemma tame_reserve svc u s i key : tame (ReservationService.Reserve svc u s i key).
Proof.
  unfold ReservationService.Reserve. apply tame_call_bind; [done|]. intros start _.
  apply tame_defer; [done|].
  unfold ReservationService.reserve_attempt, ReservationService.checkIdempotency. tame.
Qed.

Lemma tame_confirm_tx rid key r : tame (ReservationService.confirm_tx rid key r).
Proof. unfold ReservationService.confirm_tx, ReservationService.confirm_fail. tame. Qed.
#[local] Hint Resolve tame_confirm_tx : tame.

Lemma tame_confirm rid key : tame (ReservationService.Confirm rid key).
Proof. unfold ReservationService.Confirm, ReservationService.getOrderByIdempotencyKey. tame. Qed.

Lemma tame_release svc rid : tame (ReservationService.Release svc rid).
Proof. unfold ReservationService.Release, Audit.Log. tame. Qed.

(** A sale whose row was accepted has an INTEGER stock: its counter starts small. *)
Lemma tame_create sale : tame (InventoryService.CreateSale sale).
Proof.
  unfold InventoryService.CreateSale. tame. apply tame_invoke. cbn in H1.
  assert (small_value (Itoa (TotalStock sale)) /\ small_value (Itoa 0)) as [Ht H0'].
  { split; eexists; (split; [done|]); unfold int4, written, rows_after, call_limit in *; lia. }
  apply Forall_cons_2; [by right|]. apply Forall_cons_2; [by right|].
  apply Forall_cons_2; [apply foreign_meta|apply Forall_nil_2].
Qed.
Lemma tame_get_sale sale : tame (InventoryService.GetSale sale).
Proof. unfold InventoryService.GetSale. tame. Qed.
Lemma tame_update_status sale st : tame (InventoryService.UpdateSaleStatus sale st).
Proof. unfold InventoryService.UpdateSaleStatus. tame. Qed.

Lemma tame_join s u : tame (WaitlistService.Join s u).
Proof. unfold WaitlistService.Join. tame. Qed.
Lemma tame_position s u : tame (WaitlistService.GetPosition s u).
Proof. unfold WaitlistService.GetPosition. tame. Qed.
Lemma tame_leave s u : tame (WaitlistService.Leave s u).
Proof. unfold WaitlistService.Leave. tame. Qed.

Lemma tame_promote h s : tame (ExpiryHandler.promoteNextUser h s).
Proof.
  unfold ExpiryHandler.promoteNextUser, Publisher.WaitlistPromoted, Publisher.StockUpdate, Audit.Log. tame.
Qed.
#[local] Hint Resolve tame_promote : tame.

Lemma tame_expired h key : tame (ExpiryHandler.on_expired_message h key).
Proof.
  unfold ExpiryHandler.on_expired_message, ExpiryHandler.handleExpiredReservation,
    Publisher.StockUpdate, Audit.Log. tame.
Qed.

Lemma tame_notify_rows rows : tame (ExpiryHandler.notify_rows rows).
Proof.
  induction rows as [|[err|[[x u] e]] rest IH]; cbn [ExpiryHandler.notify_rows];
    unfold Publisher.ReservationExpiring; tame.
Qed.
#[local] Hint Resolve tame_notify_rows : tame.

Lemma tame_warnings h : tame (ExpiryHandler.notifyExpiringReservations h).
Proof. unfold ExpiryHandler.notifyExpiringReservations. tame. Qed.

(** Reconciling writes a difference of the total and two counts. *)
Lemma small_expected total live orders :
  int4 total -> 0 <= live <= rows_after call_limit -> 0 <= orders <= rows_after call_limit ->
  small_value (Itoa (total - live - orders)).
Proof. intros Ht Hl Ho. eexists. split; [done|]. unfold int4, written, rows_after, call_limit in *. lia. Qed.

Lemma small_count n : 0 <= n <= rows_after call_limit -> small_value (Itoa n).
Proof. intros Hn. exists n. split; [done|]. unfold written, rows_after, call_limit in *. lia. Qed.

Lemma tame_worker_one id total : int4 total -> tame (Worker.reconcileSingleSale id total).
Proof.
  intros Ht. unfold Worker.reconcileSingleSale, Audit.Log.
  apply tame_call_bind; [done|]. intros [e|live] Hl; [done|].
  apply tame_call_bind; [done|]. intros [e|orders] Ho; [done|]. cbn [tame_answer tame_row] in *.
  tame; (apply tame_invoke; right); [by apply small_expected|by apply small_count].
Qed.

Lemma tame_startup_one id total : int4 total -> tame (Recovery.reconcileSale id total).
Proof.
  intros Ht. unfold Recovery.reconcileSale.
  apply tame_call_bind; [done|]. intros [e|live] Hl; [done|].
  apply tame_call_bind; [done|]. intros [e|orders] Ho; [done|]. cbn [tame_answer tame_row] in *.
  tame; (apply tame_invoke; right); [by apply small_expected|by apply small_count].
Qed.
#[local] Hint Resolve tame_worker_one tame_startup_one : tame.

Lemma tame_worker_rows rows n :
  Forall scanned_total rows -> tame (Worker.worker_rows rows n).
Proof.
  intros Hr. revert n. induction Hr as [|[e|[id t]] rest Ht _ IH]; intros n;
    cbn [Worker.worker_rows scanned_total snd] in *; tame.
Qed.

Lemma tame_startup_rows rows n :
  Forall scanned_total rows -> tame (Recovery.startup_rows rows n).
Proof.
  intros Hr. revert n. induction Hr as [|[e|[id t]] rest Ht _ IH]; intros n;
    cbn [Recovery.startup_rows scanned_total snd] in *; unfold Audit.Log; tame.
Qed.
#[local] Hint Resolve tame_worker_rows tame_startup_rows : tame.

Lemma tame_worker : tame Worker.reconcileAllSales.
Proof.
  unfold Worker.reconcileAllSales. apply tame_call_bind; [done|]. intros [e|rows] Hr; [done|].
  cbn [tame_answer tame_rows] in Hr. tame.
Qed.

Lemma tame_startup : tame Recovery.ReconcileOnStartup.
Proof.
  unfold Recovery.ReconcileOnStartup. apply tame_call_bind; [done|]. intros [e|rows] Hr; [done|].
  cbn [tame_answer tame_rows] in Hr. tame.
Qed.

Lemma tame_inc m : tame (Metrics.IncWithLabelValues m).
Proof. unfold Metrics.IncWithLabelValues. by case_match. Qed.
#[local] Hint Resolve tame_inc : tame.

Lemma tame_limited l r p : tame p -> tame (Http.RateLimitMiddleware l r p).
Proof. intros Hp. unfold Http.RateLimitMiddleware. tame. Qed.
#[local] Hint Resolve tame_reserve tame_confirm tame_release tame_create tame_get_sale
  tame_update_status tame_join tame_position tame_leave tame_expired tame_warnings tame_worker
  tame_startup tame_limited : tame.

Lemma tame_route s r pattern h : Http.route s r = Some (pattern, h) -> tame h.
Proof.
  apply (Http.route_handlers tame); intros;
    unfold Http.HealthzHandler, Http.CreateSale, Http.GetSale, Http.UpdateSaleStatus, Http.Reserve,
      Http.Join, Http.GetPosition, Http.Leave, Http.Confirm, Http.Release, Http.GetOrder,
      Http.with_uuid, Http.with_body; tame.
Qed.

Lemma tame_session {A B} (p : prog A) (f : A -> Session.session B) :
  tame p -> (forall a, tame (Session.calls_of (f a))) ->
  tame (Session.calls_of (Session.sbind (Session.of_prog p) f)).
Proof.
  intros Hp Hf. induction p as [a|m|X c k IH]; cbn in *; [apply Hf|done|]. destruct Hp as [Hc Hk]. auto.
Qed.

Lemma tame_task s h t : tame (run_task s h t).
Proof.
  destruct t as [r|up id u|payload| |]; cbn [run_task]; unfold ignore.
  - unfold Http.ServeHTTP. destruct (Http.route s r) as [[pattern hd]|] eqn:E; [|done].
    apply tame_bind; [|done]. unfold Http.MetricsMiddleware, Http.RecoveryMiddleware.
    apply tame_bind; [|tame]. apply tame_bind; [|tame]. apply tame_catch. by eapply tame_route.
  - apply tame_bind; [|done]. unfold Session.HandleWebSocket. repeat case_match; try done.
    apply (tame_session (InventoryService.GetSale _)); [apply tame_get_sale|]. by intros [e|[x st]].
  - tame.
  - tame.
  - tame.
Qed.
End Handlers.

(** ** Histories *)

Section History.
Context {R D : Type} `{RL : RedisLaws R} `{LN : LuaNum} `{PL : PostgresLaws D} `{O : Oracle}
  `{UU : UuidLaws} `{FA : FloatArg}.
Variable srv : Http.Server.
Variable h : ExpiryHandler.ExpiryHandler.

(** What every history keeps, as long as few enough calls have been made. *)
Definition history_inv (s : pool (R := R) (D := D) unit) : Prop :=
  Z.of_nat (w_calls (snd s)) <= call_limit -> Forall tame (fst s) /\ sound (snd s).

Lemma call_keeps_inv s s' : pool_step s s' -> history_inv s -> history_inv s'.
Proof.
  intros [pre X c k post w] Hinv. unfold history_inv in *. cbn [fst snd] in *. rewrite exec_calls.
  intros Hlim. destruct Hinv as [Ht Hw]; [lia|]. rewrite Forall_app, Forall_cons in Ht |- *.
  destruct Ht as (H1 & [Hc Hk] & H3). split; [|by apply exec_sound; [|lia|]].
  split; [done|]. split; [|done]. by apply Hk, exec_answer; [lia|].
Qed.

Lemma forgetting_keeps_bounds b r (w : world R D) (x : R) :
  dataset x ⊆ dataset (w_redis w) -> bounded b r (view_of w) -> bounded b r (view_of (set_redis x w)).
Proof.
  intros Hsub (H1 & H2 & H3). split; [|done]. intros s k Hk. specialize (H1 s k Hk).
  cbn [view_of set_redis w_redis v_data] in *. unfold bounded_counter.
  destruct (dataset x !! k) as [y|] eqn:E; [right|by left].
  pose proof (lookup_weaken _ _ _ _ E Hsub) as Ew.
  destruct H1 as [Hn|(n & Hn & Hr)]; [congruence|]. exists n. split; [|done].
  unfold counter_at in *. by rewrite Ew in Hn; rewrite E.
Qed.

Lemma chaos_keeps_inv s s' : chaos_step srv h s s' -> history_inv s -> history_inv s'.
Proof.
  intros [s1 s2 Hs|ps w t|ps w|ps qs w Hsub|ps w r Hr] Hinv; [by eapply call_keeps_inv|..];
    unfold history_inv in *; cbn [fst snd] in *; intros Hlim.
  - destruct (Hinv Hlim) as [Ht Hw]. rewrite Forall_app. split; [|done]. split; [done|].
    apply Forall_singleton, tame_task.
  - destruct (Hinv Hlim) as [Ht Hw]. rewrite Forall_app. split; [|done]. split; [done|].
    apply Forall_singleton, tame_bind; [apply tame_startup|done].
  - destruct (Hinv Hlim) as [Ht Hw]. split; [|done]. rewrite Forall_forall in Ht |- *.
    intros p Hp. apply Ht. by eapply elem_of_submseteq.
  - destruct (Hinv Hlim) as [Ht Hw]. split; [done|]. by apply forgetting_keeps_bounds.
Qed.

Lemma chaos_sound (w w' : world R D) ps :
  chaos_steps srv h ([], w) (ps, w') -> modest (view_of w) ->
  Z.of_nat (w_calls w') <= call_limit -> sound w'.
Proof.
  intros Hsteps Hw Hlim. assert (history_inv ([], w)) as Hinv.
  { intros _. split; [apply Forall_nil_2|by apply modest_sound]. }
  assert (history_inv (ps, w')) as Hinv'.
  { clear Hlim Hw. revert Hinv. induction Hsteps as [|s1 s2 s3 Hs _ IH]; [done|].
    intros Hinv. by eapply IH, chaos_keeps_inv. }
  by apply Hinv'.
Qed.

(** Within the bounds a pass can read every counter. *)
Lemma bounded_readable b r v s :
  bounded b r v -> is_Some (readings v s).
Proof.
  intros (H & _). assert (forall k, k ∈ counter_keys s -> is_Some (reading (v_data v) k)) as Hk.
  { intros k Hin. destruct (H s k Hin) as [E|(n & E & _)].
    - unfold reading. rewrite E. by eexists.
    - exists n. by apply reading_counter. }
  unfold readings. destruct (Hk (availableKey (uuid_String s))) as [a ->];
    [apply elem_of_cons; by left|]. destruct (Hk (reservedKey (uuid_String s))) as [b' ->];
    [apply elem_of_cons; right; by apply list_elem_of_singleton|]. by eexists.
Qed.

Lemma sound_counted (w : world R D) : sound w -> active_counted (view_of w).
Proof.
  intros Hw id s Hs _. split; [|by eapply bounded_readable]. destruct Hw as (_ & _ & Ht).
  by eapply Ht.
Qed.

Lemma sound_small (w : world R D) :
  sound w -> Z.of_nat (w_calls w) <= call_limit -> small_tables (v_db (view_of w)).
Proof.
  intros (_ & Hr & _) Hlim. unfold small_tables, rows, rows_after, call_limit in *. lia.
Qed.
End History.

(** ** The theorem *)

Section Heal.
Context {R D : Type} `{RL : RedisLaws R} `{LL : LuaNumLaws} `{PL : PostgresLaws D}
  `{UU : UuidLaws} `{FA : FloatArg}.

(** C3. From a modest start, whatever happens afterwards: any requests, expired
    keys, ticker passes and restarts, in any interleaving, any calls failing or
    losing their answers, goroutines dying at any point and Redis forgetting any
    of its keys. One pass of the worker, or of the startup recovery, that then
    runs without failures succeeds and heals the counters of every active sale:
    they read as the total stock less the live reservations and the orders, and
    as the live reservations; without overdue rows, every active sale that still
    had its counters is consistent. *)
Theorem chaos_then_one_pass_heals (stormy calm : Oracle) srv h (w w' : world R D) ps pass :
  modest (view_of w) -> chaos_steps (O := stormy) srv h ([], w) (ps, w') ->
  Z.of_nat (w_calls w') <= call_limit -> NoFaults (O := calm) ->
  pass = Worker.reconcileAllSales \/ pass = Recovery.ReconcileOnStartup ->
  let r := run (O := calm) pass w' in
  fst r = Ok None /\ active_healed (O := calm) (view_of w') (view_of (snd r)) /\
  (none_overdue (O := calm) (tables (w_pg w')) -> active_consistent (view_of w') (view_of (snd r))).
Proof.
  intros Hw Hsteps Hlim NF Hpass. pose proof (chaos_sound _ _ _ _ _ Hsteps Hw Hlim) as Hsound.
  assert (wp (O := calm) pass (view_of w') (fun o v' => o = Ok None /\ active_healed (view_of w') v')) as H.
  { destruct Hpass as [-> | ->]; [apply wp_worker|apply wp_startup];
      by (apply sound_counted || apply sound_small). }
  destruct (H w' eq_refl) as [Ho Hheal]. split; [done|]. split; [done|].
  intros Hno. exact (active_healed_consistent _ _ Hheal Hno).
Qed.
End Heal.
