(* ===== verification/Witnesses.v ===== *)
(** * The theorems at concrete inputs

    One instance of each theorem that has hypotheses, on the reference
    services of RefServices.v: the hypotheses can hold. *)
From S2P Require Import Prelude GoStd Models Schema Services Scripts World Keys Logic.
From S2P Require Import RedisClient Reservation Inventory Expiry Reconcile RateLimit Hub Http Ledger.
From S2P Require Import RefServices ReserveSpec ConfirmSpec Concurrency ExpirySpec WaitlistSpec InventorySpec ReconcileSpec HubSpec.
From S2P Require Import RateLimitSpec HttpSpec.
From S2P Require Import Discipline Claims Traffic Api Schedule Replies Config Wiring Boot BootSpec.
From S2P Require Import Streams Pumps Idempotency Chaos Pipeline Sessions SessionsSpec.
From Stdlib Require Import QArith.
Local Open Scope string_scope.
Local Open Scope Z_scope.
#[local] Set Warnings "-clear-no-such-hyp".

(** ** Inputs *)

(** A clock that stands at five seconds, no failures, fresh numbers. *)
#[local] Instance still : Oracle := {|
  fault_at _ := NoFault;
  time_at _ := 5000000000;
  uuid_at n := (1000 + N.of_nat n)%N
|}.

#[local] Instance still_no_faults : NoFaults.
Proof. intros n. done. Qed.

Definition service : ReservationService.Service := ReservationService.mkService 600 true.
Definition handler : ExpiryHandler.ExpiryHandler := ExpiryHandler.mkExpiryHandler 600 true.

Definition sample : view := view_of sample_world.
Definition sample_row : reservation_row := mkRow sample_reservation false.
Definition sample_ledger : ledger := mkLedger 1 1 0.

(** The same sale with nothing available, and user 1 waiting since second 3 or 5. *)
Definition waiting_data (since : Z) : gmap string rval :=
  <[availableKey (uuid_String 7%N) := RStr "0"]>
  (<[waitlistKey (uuid_String 7%N) := RZset {[uuid_String 1%N := since]}]> sample_data).
Definition waiting (since : Z) : view := mkView (waiting_data since) [] sample_db [].

(** Reservation 50 confirmed by order 60 under the key [key]. *)
Definition ordered_db (key : string) : db :=
  mkDB (t_users sample_db) (t_sales sample_db) (t_sale_items sample_db)
    {[50%N := sample_row;
      51%N := mkRow (mkReservation 51%N 2%N 7%N 3%N ReservationStatusConfirmed 0 (Some 1) 9) false]}
    {[60%N := mkOrder 60%N 51%N 2%N 7%N 0 "pending" key 1]} [].
Definition ordered (key : string) : view := mkView sample_data [] (ordered_db key) [].

Lemma sample_schema : schema_ok sample_db.
Proof.
  split; cbn; intros k;
    try (intros x [<- <-]%lookup_singleton_Some; cbn; try done; try (by eexists); set_solver);
    intros; rewrite lookup_empty in *; done.
Qed.

Lemma ordered_schema key : schema_ok (ordered_db key).
Proof.
  assert (forall k w, t_reservations (ordered_db key) !! k = Some w ->
    k = 50%N /\ w = sample_row \/
    k = 51%N /\ w = mkRow (mkReservation 51%N 2%N 7%N 3%N ReservationStatusConfirmed 0 (Some 1) 9) false)
    as Hrow.
  { intros k w. cbn. intros [[<- <-]|[_ [<- <-]%lookup_singleton_Some]]%lookup_insert_Some; auto. }
  split; cbn [ordered_db t_users t_sales t_sale_items t_orders];
    try (intros k w Hk; destruct (Hrow k w Hk) as [[-> ->]|[-> ->]]; cbn; try done; try (by eexists); set_solver);
    try (intros k x [<- <-]%lookup_singleton_Some; cbn; try done; try (by eexists); set_solver).
  - apply sample_schema.
  -  intros k1 k2 o1 o2 [<- <-]%lookup_singleton_Some [<- <-]%lookup_singleton_Some. done.
Qed.

Lemma sample_implements : implements 7%N sample_ledger sample.
Proof. repeat split; vm_compute; reflexivity. Qed.

Lemma sample_stock : stock sample 7%N = Some (1, 1).
Proof. vm_compute. reflexivity. Qed.

Lemma sample_row_at : t_reservations (v_db sample) !! 50%N = Some sample_row.
Proof. reflexivity. Qed.

Lemma fresh_numbers n : uuid_at n = (1000 + N.of_nat n)%N.
Proof. reflexivity. Qed.

Lemma clock_still : clock_ok.
Proof. intros n. change (InventoryService.Unix (time_at n)) with 5. lia. Qed.

(** ** Reservations *)

Lemma reserve_refines_witness :
  let r := run (ReservationService.Reserve service 2%N 7%N 3%N "k") sample_world in
  reserve_post 7%N 2%N 3%N "k" sample_ledger sample (fst r) (view_of (snd r)) /\
  other_sales_same 7%N sample (view_of (snd r)).
Proof.
  apply (reserve_refines service 2%N 7%N 3%N "k" sample sample_ledger); [|done|right|reflexivity].
  - apply sample_implements.
  - vm_compute. reflexivity.
Defined.

Lemma reserve_retry_takes_one_witness :
  wp (R := ref_state) (D := db)
    (pbind (ReservationService.Reserve service 2%N 7%N 3%N "k") (fun r1 =>
      match r1 with
      | inl e => Ret (inl e)
      | inr r => pbind (ReservationService.Reserve service 1%N 7%N 3%N "k") (fun r2 => Ret (inr (r, r2)))
      end)) sample
    (fun o v' => match o with
     | Ok (inr (r1, r2)) =>
         r2 = inr r1 /\ UserID r1 = 2%N /\
         exists l', ledger_step LReserve sample_ledger = Some l' /\ implements 7%N l' v'
     | Ok (inl e) => e <> "sold out" /\ implements 7%N sample_ledger v' /\ v_db v' = v_db sample
     | Panicked _ => False
     end).
Proof.
  apply reserve_retry_takes_one; [|done|done|done|].
  - apply sample_implements.
  - vm_compute. reflexivity.
Defined.

Lemma confirm_refines_witness :
  let r := run (ReservationService.Confirm 50%N "k") sample_world in
  confirm_post 50%N sample_row "k" sample_ledger sample (fst r) (view_of (snd r)).
Proof.
  apply (confirm_refines 50%N "k" sample_row sample_ledger sample);
    [|apply sample_schema|done|done|done|done| |done].
  - apply sample_implements.
  - intros n. rewrite fresh_numbers. reflexivity.
Defined.

Lemma confirm_without_key_inflates_stock_witness :
  wp (R := ref_state) (D := db) (ReservationService.Confirm 50%N "") (ordered "") (fun o v' =>
    (exists e, o = Ok (inl (Errorf_w "failed to create order" e))) /\ v_db v' = v_db (ordered "") /\
    stock v' 7%N = Some (2, -1) /\
    forall total, consistent 7%N total (ordered "") -> ~ consistent 7%N total v').
Proof.
  apply (confirm_without_key_inflates_stock 50%N sample_row (mkLedger 1 1 1) (ordered ""));
    [|apply ordered_schema|done|done|done|vm_compute; reflexivity].
  repeat split; vm_compute; reflexivity.
Defined.

Lemma confirm_idempotent_witness :
  wp (R := ref_state) (D := db) (ReservationService.Confirm 51%N "k") (ordered "k") (fun out v' =>
    out = Ok (inr (mkOrder 60%N 51%N 2%N 7%N 0 "pending" "k" 1)) /\ v' = ordered "k").
Proof.
  apply confirm_idempotent; [apply ordered_schema|done|reflexivity|reflexivity].
Defined.

Lemma release_refines_witness :
  let r := run (ReservationService.Release service 50%N) sample_world in
  fst r = Ok None /\
  release_post 50%N sample_row ReservationStatusReleased sample_ledger (view_of (snd r)).
Proof.
  apply (release_refines service 50%N sample_ledger sample); [apply sample_schema| |done].
  intros w Hw. cbn in Hw. injection Hw as <-. split; [apply sample_implements|done].
Defined.

(** ** Concurrency and expiry *)

Definition two_buyers : list request :=
  [ReqReserve service 2%N 7%N 3%N ""; ReqReserve service 1%N 7%N 3%N ""].

Definition alternating : list nat := concat (repeat [0; 1] 20)%nat.

Lemma no_oversell_concurrent_witness :
  let s := pool_run alternating (serve <$> two_buyers, sample_world) in
  exists a' b', stock (view_of (snd s)) 7%N = Some (a', b') /\ 0 <= a' /\ a' + b' = 1 + 1 /\
    a' + units 7%N (tables (w_pg (snd s))) <= 1 + units 7%N (tables (w_pg sample_world)).
Proof.
  cbn zeta. destruct (pool_run alternating (serve <$> two_buyers, sample_world)) as [ps' w'] eqn:E.
  apply (no_oversell_concurrent _ 7%N two_buyers sample_world w' ps' 1 1);
    [apply sample_stock|done|vm_compute; reflexivity|split; vm_compute; reflexivity|].
  rewrite <- E. apply pool_run_steps.
Defined.

(** A buyer, the payment of reservation 50 and a waitlist join, call by call. *)
Definition mixed : list operation :=
  [OpRequest (ReqReserve service 2%N 7%N 3%N "k"); OpConfirm 50%N "pay"; OpRequest (ReqJoin 7%N 1%N)].

Definition in_turn : list nat := concat (repeat [0; 1; 2] 20)%nat.

Lemma distinct_numbers : distinct_uuids.
Proof. intros n m. rewrite !fresh_numbers. lia. Qed.

Lemma sample_stocked : stocked 7%N 2 sample_world.
Proof.
  split; [vm_compute; reflexivity|apply sample_schema| |vm_compute; reflexivity|vm_compute; discriminate].
  exists ∅. split; [reflexivity|]. intros m [x Hx]. discriminate Hx.
Qed.

Lemma sample_ids : ids_new 7%N sample_world.
Proof. intros m _. split; [reflexivity|]. rewrite fresh_numbers. lia. Qed.

Lemma traffic_conserves_stock_witness :
  let s := pool_run in_turn (perform <$> mixed, sample_world) in
  within_stock 7%N 2 (snd s) /\
  (Forall (fun p => finished p = true) (fst s) -> consistent 7%N 2 (view_of (snd s))).
Proof.
  cbn zeta. destruct (pool_run in_turn (perform <$> mixed, sample_world)) as [ps' w'] eqn:E.
  apply (traffic_conserves_stock 7%N 2 mixed sample_world w' ps').
  - apply distinct_numbers.
  - apply clock_still.
  - split; [apply NoDup_singleton|apply NoDup_singleton|].
    constructor; [|constructor]. split; [discriminate|reflexivity].
  - apply sample_stocked.
  - apply sample_ids.
  - rewrite <- E. apply pool_run_steps.
Defined.

(** All three are done after twenty rounds, and the unit paid for is sold. *)
Example mixed_ends :
  let s := pool_run in_turn (perform <$> mixed, sample_world) in
  forallb finished (fst s) = true /\
  stock (view_of (snd s)) 7%N = Some (0, 1) /\ sold 7%N (tables (w_pg (snd s))) = 1.
Proof. vm_compute. repeat split. Qed.

Lemma promotion_loses_the_user_witness :
  wp (R := ref_state) (D := db) (ExpiryHandler.promoteNextUser handler 7%N)
    (mkView (<[availableKey (uuid_String 7%N) := RStr "1"]> (waiting_data 3)) [] sample_db [])
    (fun o v' => o = Ok tt /\ stock v' 7%N = Some (1, 1) /\ v_db v' = sample_db /\ v_pub v' = [] /\
      ({[uuid_String 1%N := 3]} <> (∅ : gmap string Z) ->
        exists m, first_waiting {[uuid_String 1%N := 3]} m /\
          zset_at (v_data v') (waitlistKey (uuid_String 7%N)) =
          Some (delete m {[uuid_String 1%N := 3]}))).
Proof.
  apply (promotion_loses_the_user handler 7%N {[uuid_String 1%N := 3]} 1 1); try done.
  - intros n. rewrite fresh_numbers. cbn. rewrite elem_of_singleton. lia.
  - intros m [x [<- <-]%lookup_singleton_Some]. by exists 1%N.
Defined.

Lemma expire_refines_witness :
  wp (R := ref_state) (D := db)
    (ExpiryHandler.on_expired_message handler (ttlKey (uuid_String 50%N))) sample (fun o v' =>
    o = Ok tt /\
    t_reservations (v_db v') !! 50%N = Some (on_row (with_status ReservationStatusExpired) sample_row) /\
    exists l1, ledger_step LRelease sample_ledger = Some l1 /\
      (implements 7%N l1 v' \/
       exists l2 r, ledger_step LReserve l1 = Some l2 /\ implements 7%N l2 v' /\
         first_waiting ∅ (uuid_String (UserID r)) /\
         t_reservations (v_db v') !! ID r = Some (mkRow r true))).
Proof.
  apply (expire_refines handler 50%N sample_row ∅ sample_ledger sample); try done.
  - apply sample_schema.
  - intros m [x Hx]. by rewrite lookup_empty in Hx.
Defined.

Lemma expire_ignores_witness :
  wp (R := ref_state) (D := db)
    (ExpiryHandler.on_expired_message handler (ttlKey (uuid_String 51%N))) (ordered "k")
    (fun o v' => o = Ok tt /\ v' = ordered "k").
Proof.
  apply expire_ignores. intros p0 id p2 Hs rid Hp w Hw.
  unfold Split in Hs. rewrite ttlKey_split in Hs. assert (id = uuid_String 51%N) as -> by congruence.
  rewrite Parse_String in Hp. injection Hp as <-. vm_compute in Hw. injection Hw as <-. done.
Defined.

Lemma warnings_match_rows_witness :
  let r := run (ExpiryHandler.notifyExpiringReservations handler) sample_world in
  exists now rows ms,
    fst r = Ok tt /\ v_data (view_of (snd r)) = v_data sample /\ v_db (view_of (snd r)) = sample_db /\
    v_pub (view_of (snd r)) = ms /\ Forall2 warns rows ms /\
    (forall id user expires, (id, user, expires) ∈ rows <->
       exists w, t_reservations sample_db !! id = Some w /\ UserID (row_res w) = user /\
         ExpiresAt (row_res w) = expires /\ Status (row_res w) = ReservationStatusReserved /\
         now + 55000000000 <= expires <= now + 90000000000) /\
    forall n expires, 0 <= ExpiryHandler.seconds_left n expires.
Proof. apply (warnings_match_rows handler sample); reflexivity. Defined.

(** ** Waitlist *)

Definition line (since : Z) : gmap string Z := {[uuid_String 1%N := since]}.

Lemma waiting_sold_out since : sold_out (waiting since) 7%N.
Proof. right. exists 0. split; [vm_compute; reflexivity|done]. Qed.

Lemma waiting_queue since : queue (waiting since) 7%N = Some (line since).
Proof. reflexivity. Qed.

Lemma line_size since : Z.of_nat (size (line since)) < max_int64.
Proof. unfold line. rewrite map_size_singleton. done. Qed.

Lemma not_in_line since u : u <> 1%N -> line since !! uuid_String u = None.
Proof. intros H. apply lookup_singleton_ne. by intros E%uuid_String_inj. Qed.

Lemma join_enqueues_witness :
  let w := mkWorld (mkRef (waiting_data 3) []) sample_db 0 [] in
  let r := run (WaitlistService.Join 7%N 2%N) w in
  (in_stock (waiting 3) 7%N /\ fst r = Ok (inl "stock available") /\ view_of (snd r) = waiting 3) \/
  (sold_out (waiting 3) 7%N /\ is_Some (line 3 !! uuid_String 2%N) /\
     fst r = Ok (inl "already in waitlist") /\ view_of (snd r) = waiting 3) \/
  (sold_out (waiting 3) 7%N /\ line 3 !! uuid_String 2%N = None /\
   exists n p, let t := InventoryService.Unix (time_at n) in
     view_of (snd r) = enqueue 7%N 2%N t (line 3) (waiting 3) /\
     place (<[uuid_String 2%N := t]> (line 3)) (uuid_String 2%N) = Some p /\
     fst r = Ok (inr (WaitlistService.mkJoinResponse p (t * 1000000000)))).
Proof.
  apply (join_enqueues 7%N 2%N (line 3) (waiting 3));
    [apply waiting_queue|apply line_size|apply clock_still|right; apply waiting_sold_out|reflexivity].
Defined.

Lemma join_is_fifo_witness :
  wp (R := ref_state) (D := db) (WaitlistService.Join 7%N 2%N) (waiting 3) (fun o v' =>
    exists z' at_, queue v' 7%N = Some z' /\
      o = Ok (inr (WaitlistService.mkJoinResponse (Z.of_nat (size (line 3)) + 1) at_)) /\
      place z' (uuid_String 2%N) = Some (Z.of_nat (size (line 3)) + 1) /\
      forall m, m <> uuid_String 2%N -> place z' m = place (line 3) m).
Proof.
  apply join_is_fifo; [apply waiting_queue|apply line_size|apply clock_still|apply waiting_sold_out| |].
  - by apply not_in_line.
  - intros n m sc Hm. unfold line in Hm. apply lookup_singleton_Some in Hm as [_ <-]. reflexivity.
Defined.

(** User 0 joins in the second in which user 1 joined, and gets before them. *)
Lemma join_same_second_overtakes_witness :
  wp (R := ref_state) (D := db) (WaitlistService.Join 7%N 0%N) (waiting 5) (fun o v' =>
    exists z' p q, queue v' 7%N = Some z' /\ place z' (uuid_String 0%N) = Some p /\
      place (line 5) (uuid_String 1%N) = Some q /\ place z' (uuid_String 1%N) = Some (q + 1) /\ p <= q).
Proof.
  apply (join_same_second_overtakes 7%N 0%N (line 5) (uuid_String 1%N) 5);
    [apply waiting_queue|apply line_size|apply clock_still|apply waiting_sold_out| |done| |].
  - by apply not_in_line.
  - apply lookup_singleton_eq.
  - vm_compute. reflexivity.
Defined.

Lemma position_reads_place_witness :
  wp (R := ref_state) (D := db) (WaitlistService.GetPosition 7%N 1%N) (waiting 3) (fun o v' =>
    v' = waiting 3 /\
    o = Ok (match place (line 3) (uuid_String 1%N) with
            | Some p => inr (WaitlistService.mkPositionResponse p (Z.of_nat (size (line 3))))
            | None => inl "user not in waitlist"
            end)).
Proof.
  apply position_reads_place; [apply waiting_queue|]. pose proof (line_size 3). lia.
Defined.

Lemma leave_closes_the_gap_witness :
  wp (R := ref_state) (D := db) (WaitlistService.Leave 7%N 1%N) (waiting 3) (fun o v' =>
    queue v' 7%N = Some (delete (uuid_String 1%N) (line 3)) /\ v_db v' = sample_db /\ v_pub v' = [] /\
    (forall s, stock v' s = stock (waiting 3) s) /\
    match line 3 !! uuid_String 1%N with
    | None => o = Ok (Some "user not in waitlist")
    | Some sc =>
        o = Ok None /\ place (delete (uuid_String 1%N) (line 3)) (uuid_String 1%N) = None /\
        forall m sc', m <> uuid_String 1%N -> line 3 !! m = Some sc' ->
          place (delete (uuid_String 1%N) (line 3)) m =
          (if zmember_before (uuid_String 1%N, sc) (m, sc') then Z.pred <$> place (line 3) m
           else place (line 3) m)
    end).
Proof. apply (leave_closes_the_gap 7%N 1%N (line 3) (waiting 3)). apply waiting_queue. Defined.

Lemma promotion_serves_the_head_witness :
  let v := mkView (<[availableKey (uuid_String 7%N) := RStr "1"]> (waiting_data 3)) [] sample_db [] in
  wp (R := ref_state) (D := db) (Client.WaitlistPromote (uuid_String 7%N)) v (fun o v' =>
    (1 <= 0 \/ line 3 = ∅) /\ o = Ok (inr "-1") /\ v' = v \/
    0 < 1 /\ exists m, o = Ok (inr m) /\ place (line 3) m = Some 1 /\
      stock v' 7%N = Some (1 - 1, 1 + 1) /\ queue v' 7%N = Some (delete m (line 3)) /\
      forall m', m' <> m -> place (delete m (line 3)) m' = Z.pred <$> place (line 3) m').
Proof.
  apply (promotion_serves_the_head 7%N 1 1 (line 3)); [vm_compute; reflexivity|done|reflexivity].
Defined.

(** ** Sales *)

Definition new_sale : Sale := mkSale 0%N "boots" 10 0 0 "" 0.

Lemma sample_meta n : meta_ok sample (uuid_at n).
Proof.
  unfold meta_ok, hash_at. change (v_data sample) with sample_data. unfold sample_data.
  pose proof (available_meta (uuid_at n) 7%N). pose proof (reserved_meta (uuid_at n) 7%N).
  rewrite lookup_insert_ne, lookup_singleton_ne by congruence. eauto.
Qed.

Lemma create_sale_starts_ledger_witness :
  let r := run (InventoryService.CreateSale new_sale) sample_world in
  exists sale,
    (fst r = Ok (sale, None) /\ sale_created new_sale sale sample (view_of (snd r))) \/
    (exists e, fst r = Ok (sale, Some (Errorf_w "failed to create sale" e)) /\
       view_of (snd r) = sample /\ stmt_ok (InsertSale sale) sample_db = false).
Proof.
  apply (create_sale_starts_ledger new_sale sample); [apply sample_schema|apply sample_meta|reflexivity].
Defined.

Lemma create_then_get_witness :
  wp (R := ref_state) (D := db) (pbind (InventoryService.CreateSale new_sale) (fun r =>
      match r with
      | (_, Some e) => Ret (inl e)
      | (sale, None) => pbind (InventoryService.GetSale (SaleRowID sale)) (fun g => Ret (inr (sale, g)))
      end)) sample (fun o _ =>
    match o with
    | Ok (inr (sale, g)) => g = inr (sale, mkSaleStats 10 0 10) /\ Name sale = "boots"
    | Ok (inl e) => exists e', e = Errorf_w "failed to create sale" e'
    | Panicked _ => False
    end).
Proof. apply (create_then_get new_sale sample); [apply sample_schema|apply sample_meta]. Defined.

Lemma update_sale_status_writes_both_witness :
  let r := run (InventoryService.UpdateSaleStatus 7%N "paused") sample_world in
  (forall s, stock (view_of (snd r)) s = stock sample s) /\
  fst r = Ok None /\
  v_db (view_of (snd r)) = stmt_effect (UpdateSaleStatusStmt "paused" 7%N) sample_db /\
  exists h, hash_at (v_data (view_of (snd r))) (metaKey (uuid_String 7%N)) = Some h /\
    h !! "status" = Some "paused".
Proof.
  apply (update_sale_status_writes_both 7%N "paused" sample); [|reflexivity].
  unfold meta_ok. vm_compute. eauto.
Defined.

(** ** Reconciliation *)

(** Counters that have drifted far off. *)
Definition drifted_data : gmap string rval :=
  <[availableKey (uuid_String 7%N) := RStr "40"]> (<[reservedKey (uuid_String 7%N) := RStr "-3"]> sample_data).
Definition drifted : view := mkView drifted_data [] sample_db [].

Lemma drifted_counted : active_counted drifted.
Proof.
  intros id s Hs _. change (t_sales (v_db drifted)) with (t_sales sample_db) in Hs.
  unfold sample_db, t_sales in Hs. apply lookup_singleton_Some in Hs as [<- <-]. split; [done|].
  exists (40, -3). vm_compute. reflexivity.
Qed.

(** A Redis that has lost its data. *)
Definition forgotten : view := mkView ∅ [] sample_db [].

Lemma forgotten_counted : active_counted forgotten.
Proof.
  intros id s Hs _. change (t_sales (v_db forgotten)) with (t_sales sample_db) in Hs.
  unfold sample_db, t_sales in Hs. apply lookup_singleton_Some in Hs as [<- <-]. split; [done|].
  by exists (0, 0).
Qed.

Lemma sample_sale : exists s, t_sales sample_db !! 7%N = Some s /\ SaleStatusField s = SaleStatusActive /\ TotalStock s = 2.
Proof. eexists. split; [vm_compute; reflexivity|]. split; reflexivity. Qed.

Lemma sample_small : small_tables sample_db.
Proof. vm_compute. reflexivity. Qed.

Lemma sample_not_overdue : none_overdue sample_db.
Proof.
  intros k w n Hw _. unfold sample_db, t_reservations in Hw. apply lookup_singleton_Some in Hw as [<- <-].
  vm_compute. reflexivity.
Qed.

Lemma worker_restores_ledgers_witness :
  wp (R := ref_state) (D := db) Worker.reconcileAllSales drifted (fun o v' =>
    o = Ok None /\ consistent 7%N 2 v').
Proof.
  eapply wp_mono; [apply (worker_restores_ledgers drifted); [apply drifted_counted|apply sample_small]|].
  intros o v' (-> & _ & H). split; [reflexivity|]. destruct sample_sale as (s & Hs & Ha & <-).
  apply (H sample_not_overdue 7%N s); [exact Hs|exact Ha|]. exists (40, -3). vm_compute. reflexivity.
Defined.

(** The sample has no row in state reserved: a healed sale without keys reads as
    its stock less the orders. *)
Lemma startup_restores_ledgers_witness :
  wp (R := ref_state) (D := db) Recovery.ReconcileOnStartup forgotten (fun o v' =>
    o = Ok None /\ exists lv, readings v' 7%N = Some (2 - lv - sold 7%N sample_db, lv)).
Proof.
  eapply wp_mono; [apply (startup_restores_ledgers forgotten);
    [apply forgotten_counted|apply sample_small]|].
  intros o v' (-> & (H & _) & _). split; [reflexivity|]. destruct sample_sale as (s & Hs & Ha & <-).
  specialize (H 7%N s Hs). rewrite bool_decide_true in H by exact Ha.
  destruct H as (n & Hr & _). eexists. exact Hr.
Defined.

Lemma reconcile_idempotent_witness :
  wp (R := ref_state) (D := db) (pbind (Worker.reconcileSingleSale 7%N 2) (fun r1 =>
      pbind (Worker.reconcileSingleSale 7%N 2) (fun r2 => Ret (r1, r2)))) drifted (fun o v' =>
    exists c, o = Ok (inr c, inr false) /\ (c = false -> v' = drifted) /\ consistent 7%N 2 v').
Proof.
  apply (reconcile_idempotent 7%N 2 drifted);
    [done|apply sample_small|apply sample_not_overdue|exists (40, -3); vm_compute; reflexivity].
Defined.

(** ** Rate limiter *)

Definition limiter : Limiter.Limiter := Limiter.mkLimiter (inject_Z 10) (inject_Z 2).

Lemma limiter_args : args_ok limiter 10.
Proof. repeat split; done. Qed.

Lemma allow_in_range_witness :
  let r := run (Limiter.Allow limiter "alice") sample_world in
  only_bucket "alice" sample (view_of (snd r)) /\
  exists res, fst r = Ok res /\
    forall ok n, res = inr (ok, n) -> if (ok : bool) then 0 <= n <= 10 - 1 else n = 0.
Proof. apply (allow_in_range limiter 10 "alice" sample); [apply limiter_args|reflexivity]. Defined.

Lemma burst_allows_capacity_witness :
  wp (R := ref_state) (D := db) (burst limiter "alice" 12) sample (fun o _ =>
    exists xs, o = Ok xs /\ length xs = 12%nat /\
    forall i, (i < 12)%nat -> xs !! i =
      Some (inr (if Z.of_nat i <? 10 then (true, 10 - 1 - Z.of_nat i) else (false, 0)))).
Proof.
  apply (burst_allows_capacity limiter 10 "alice" 5000);
    [apply limiter_args|done|intros k; vm_compute; reflexivity|reflexivity].
Defined.

(** ** WebSocket hub *)

Definition hub_with (q : list json) : Hub.Hub :=
  Hub.mkHub {["s" := {[0%nat; 1%nat]}]} ∅ [] [] [Hub.mkMsg "s" hello]
    {[0%nat := Hub.mkClient q false "s" "" []; 1%nat := Hub.mkClient [] false "s" "" []]} [] None 2.

(** A client that connects, subscribes, is registered and leaves. *)
Definition visit : list Hub.event :=
  [Hub.EvConnect 0%nat; Hub.EvSubscribe 0%nat "s" ""; Hub.EvRunRegister; Hub.EvUnregister 0%nat].

Definition visited (es : list Hub.event) : Hub.Hub :=
  match Hub.steps es Hub.NewHub with Some (inr h) => h | _ => Hub.NewHub end.

Lemma visited_orderly : orderly_reach (visited visit).
Proof.
  apply (orderly_next (visited (take 3 visit)) _ (Hub.EvUnregister 0%nat)); [| |reflexivity].
  2: { split; [|by apply not_elem_of_nil]. eexists. split; reflexivity. }
  apply (orderly_next (visited (take 2 visit)) _ Hub.EvRunRegister); [|exact I|reflexivity].
  apply (orderly_next (visited (take 1 visit)) _ (Hub.EvSubscribe 0%nat "s" "")); [| |reflexivity].
  2: { split; [discriminate|]. split; [by eexists|]. split.
    - intros (x & _ & Hin). by apply elem_of_empty in Hin.
    - split; [by apply not_elem_of_nil|]. by intros x [= <-]. }
  apply (orderly_next Hub.NewHub _ (Hub.EvConnect 0%nat)); [apply orderly_new|exact I|reflexivity].
Qed.

Lemma hub_never_panics_witness :
  Hub.rooms (visited visit) !! "s" = Some {[0%nat]} /\
  exists h', Hub.step Hub.EvRunUnregister (visited visit) = Some (inr h') /\
    no_empty_room (Hub.rooms h') /\ gauge_right h'.
Proof.
  split; [reflexivity|].
  destruct (hub_never_panics (visited visit) Hub.EvRunUnregister _ visited_orderly
    ltac:(intros c p; discriminate) eq_refl) as (h' & Hr & He & _ & _ & _ & _ & Hg).
  exists h'. split; [by rewrite <- Hr|]. split; [exact He|exact Hg].
Defined.

Lemma broadcast_reaches_the_room_witness :
  exists h', Hub.step (Hub.EvRunBroadcast (elements (Hub.room "s" (Hub.rooms (hub_with []))))) (hub_with []) =
      Some (inr h') /\ Hub.broadcast h' = [] /\
    Hub.clients h' !! 1%nat = Some (Hub.mkClient [hello] false "s" "" []).
Proof.
  destruct (broadcast_reaches_the_room (hub_with []) (Hub.mkMsg "s" hello) []
    (elements (Hub.room "s" (Hub.rooms (hub_with []))))) as (h' & Hs & Hb & _ & _ & Hc & _).
  - reflexivity.
  - reflexivity.
  - intros c Hc. change (c ∈ ({[0%nat; 1%nat]} : gset nat)) in Hc.
    apply elem_of_union in Hc as [Hin|Hin]; apply elem_of_singleton in Hin as ->;
      eexists; split; reflexivity.
  - exists h'. split; [exact Hs|]. split; [exact Hb|]. rewrite Hc. reflexivity.
Defined.

Lemma messages_stay_in_order_witness :
  exists x', Hub.clients (hub_with []) !! 1%nat = Some x' /\
    grows None (Hub.mkClient [] false "s" "" []) x'.
Proof.
  apply (messages_stay_in_order (Hub.EvWrite 1%nat) (hub_with []) (hub_with []) 1%nat); reflexivity.
Defined.

(** User 2 spelled with a plus sign is parsed, and never reached. *)
Lemma fan_out_meets_subscription_witness :
  Hub.fan_out (saleChannel (uuid_String 7%N)) = Some (uuid_String 7%N) /\
  (Hub.fan_out (userChannel (uuid_String 2%N)) = Some (uuid_prefix ++ "+2")%string <->
   (uuid_prefix ++ "+2")%string = uuid_String 2%N).
Proof.
  apply (fan_out_meets_subscription 7%N 2%N (uuid_String 7%N) (uuid_prefix ++ "+2"));
    [reflexivity|reflexivity|done|reflexivity].
Defined.

(** ** HTTP *)

Definition server : Http.Server := Http.mkServer service limiter true.

Definition reserve_request : Http.Request :=
  Http.mkRequest Http.MethodPost ["api"; "sales"; uuid_String 7%N; "reserve"] "" "alice" "k" "10.0.0.1:9"
    (Http.mkBody (Some (Http.mkReserveRequest 2%N 3%N)) None None None).

Lemma every_request_is_answered_witness :
  match Http.ServeHTTP server reserve_request with
  | None => False
  | Some p => exists resp w', run p sample_world = (Ok resp, w') /\ Http.statusCode resp ∈ api_codes
  end.
Proof.
  destruct (Http.ServeHTTP server reserve_request) as [p|] eqn:E; [|discriminate E].
  destruct (every_request_is_answered server reserve_request p sample_world E)
    as (resp & w' & _ & Hr & Hc & _).
  by exists resp, w'.
Defined.

Lemma http_reserve_refines_witness :
  match Http.ServeHTTP server reserve_request with
  | None => False
  | Some p => wp (R := ref_state) (D := db) p sample (fun o v' => exists resp, o = Ok resp /\
      reserve_answer 7%N 2%N 3%N sample_ledger sample resp v')
  end.
Proof.
  destruct (Http.ServeHTTP server reserve_request) as [p|] eqn:E; [|discriminate E].
  apply (http_reserve_refines server reserve_request (uuid_String 7%N) 7%N (Http.mkReserveRequest 2%N 3%N)
    sample_ledger 10); [done|done|apply Parse_String|done|apply limiter_args| |done| |exact E].
  - apply sample_implements.
  - right. vm_compute. reflexivity.
Defined.

Definition reservation_request (m : Http.Method) (rest : list string) : Http.Request :=
  Http.mkRequest m (["api"; "reservations"; uuid_String 50%N] ++ rest) "" "alice" "k" "10.0.0.1:9"
    (Http.mkBody None None None None).

Lemma http_confirm_refines_witness :
  match Http.ServeHTTP server (reservation_request Http.MethodPost ["confirm"]) with
  | None => False
  | Some p => wp (R := ref_state) (D := db) p sample (fun o v' => exists resp, o = Ok resp /\
      confirm_answer 50%N "k" sample_ledger sample resp v')
  end.
Proof.
  destruct (Http.ServeHTTP server (reservation_request Http.MethodPost ["confirm"])) as [p|] eqn:E;
    [|discriminate E].
  apply (http_confirm_refines server (reservation_request Http.MethodPost ["confirm"]) (uuid_String 50%N)
    50%N sample_ledger p sample);
    [done|done|apply Parse_String|done|reflexivity|apply sample_schema| | |exact E].
  - intros w Hw. cbn in Hw. injection Hw as <-. apply sample_implements.
  - intros n. rewrite fresh_numbers. reflexivity.
Defined.

Lemma http_release_refines_witness :
  match Http.ServeHTTP server (reservation_request Http.MethodDelete []) with
  | None => False
  | Some p => wp (R := ref_state) (D := db) p sample (fun o v' => exists resp, o = Ok resp /\
      release_answer 50%N sample_ledger sample resp v')
  end.
Proof.
  destruct (Http.ServeHTTP server (reservation_request Http.MethodDelete [])) as [p|] eqn:E;
    [|discriminate E].
  apply (http_release_refines server (reservation_request Http.MethodDelete []) (uuid_String 50%N) 50%N
    sample_ledger p sample); [done|done|apply Parse_String|apply sample_schema| |exact E].
  intros w Hw. cbn in Hw. injection Hw as <-. split; [apply sample_implements|done].
Defined.

(** ** Schedules *)

Definition tasks : list task :=
  [HandleRequest reserve_request; HandleExpiredKey (ttlKey (uuid_String 50%N)); Reconcile].

Definition buyers : list task := [HandleRequest reserve_request; HandleExpiredKey (ttlKey (uuid_String 50%N))].

(** A reservation, the confirmation of another one, a live update, the expiry of
    a third and a tick of the warning ticker. *)
Definition rush : list task :=
  [HandleRequest reserve_request; HandleRequest (reservation_request Http.MethodPost ["confirm"]);
   HandleWebSocketRequest None (uuid_String 7%N) ""; HandleExpiredKey (ttlKey (uuid_String 51%N));
   WarnExpiring].

Lemma rush_orderly : orderly_by task_row task_key rush.
Proof.
  split; [apply (bool_decide_unpack (NoDup (omap task_row rush))); vm_compute; exact I| |].
  - apply (bool_decide_unpack (NoDup (omap task_key rush))); vm_compute; exact I.
  - constructor; [|constructor]. split; [discriminate|reflexivity].
Qed.

Definition rush_turns : list nat := concat (repeat [0; 1; 2; 3; 4] 25)%nat.

Lemma server_conserves_stock_witness :
  let s := pool_run rush_turns (run_task server handler <$> rush, sample_world) in
  within_stock 7%N 2 (snd s) /\
  (Forall (fun p => finished p = true) (fst s) -> consistent 7%N 2 (view_of (snd s))).
Proof.
  cbn zeta. destruct (pool_run rush_turns (run_task server handler <$> rush, sample_world)) as [ps' w'] eqn:E.
  apply (server_conserves_stock _ server handler 7%N 2 rush sample_world w' ps').
  - apply distinct_numbers.
  - apply clock_still.
  - apply rush_orderly.
  - repeat constructor.
  - apply sample_stocked.
  - apply sample_ids.
  - rewrite <- E. apply pool_run_steps.
Defined.

Definition shoppers : list task :=
  [HandleRequest reserve_request; HandleRequest reserve_request;
   HandleWebSocketRequest None (uuid_String 7%N) ""; WarnExpiring].

Lemma shoppers_never_oversell_witness :
  sells_within 7%N 1 1 sample_world
    (snd (pool_run rush_turns (run_task server handler <$> shoppers, sample_world))).
Proof.
  destruct (pool_run rush_turns (run_task server handler <$> shoppers, sample_world)) as [ps' w'] eqn:E.
  apply (shoppers_never_oversell _ server handler 7%N shoppers sample_world w' ps' 1 1);
    [repeat constructor|apply sample_stock|done|vm_compute; reflexivity|split; vm_compute; reflexivity|].
  rewrite <- E. apply pool_run_steps.
Defined.

(** All five are done in the end: one unit is held and one is sold. *)
Example rush_ends :
  let s := pool_run rush_turns (run_task server handler <$> rush, sample_world) in
  forallb finished (fst s) = true /\
  stock (view_of (snd s)) 7%N = Some (0, 1) /\ sold 7%N (tables (w_pg (snd s))) = 1.
Proof. vm_compute. repeat split. Qed.

Lemma buyers_begin : exists s, nsteps (pool_step (R := ref_state) (D := db)) 1
  (run_task server handler <$> buyers, sample_world) s.
Proof.
  destruct (run_task server handler (HandleRequest reserve_request)) as [a|m|X c k] eqn:E;
    [discriminate E|discriminate E|].
  eexists. apply nsteps_once. cbn [fmap list_fmap buyers]. rewrite E. apply (pool_call []).
Qed.

(** Twenty-one turns each, one after the other. *)
Definition buyers_turns : list nat := (repeat 1%nat 21 ++ repeat 0%nat 21)%list.

Lemma done_in_21_turns_witness :
  Forall (fun p => finished p = true)
    (fst (pool_run buyers_turns (run_task server handler <$> buyers, sample_world))) /\
  (1 <= 21 * length buyers)%nat.
Proof.
  destruct (done_in_21_turns server handler buyers buyers_turns sample_world) as [H1 H2].
  - reflexivity.
  - intros i Hi. change (length buyers) with 2%nat in Hi. destruct i as [|[|i]]; [vm_compute; lia..|lia].
  - split; [exact H1|]. destruct buyers_begin as [s Hs]. exact (H2 1%nat s Hs).
Defined.


(** ** A WebSocket request *)

(** The request for live updates of sale 7, and what its client meets: the hub
    serves its registration and broadcasts 256 updates before GetSale is back. *)
Definition upgrading : Session.session Session.Upgraded :=
  Session.HandleWebSocket (fun _ => None) (Session.mkWriter true) 0%nat (uuid_String 7%N) "".

Definition sale_update : list Session.move :=
  [Session.Other (Hub.EvPublish (uuid_String 7%N) (JStr "update"));
   Session.Other (Hub.EvRunBroadcast [0%nat])].

Definition crowded : list Session.move :=
  ([Session.Own; Session.Own; Session.Other Hub.EvRunRegister] ++ concat (repeat sale_update 256) ++
   [Session.Own; Session.Own; Session.Own])%list.

(** One update more: the hub drops the client and closes its channel. *)
Definition dropped : list Session.move :=
  (sale_update ++ [Session.Other (Hub.EvSpawned 0); Session.Other Hub.EvRunUnregister; Session.Own])%list.

Definition hung : Session.state :=
  match Session.play crowded (upgrading, Hub.NewHub, sample_world) with
  | Some s => s
  | None => (Session.SPanic "", Hub.NewHub, sample_world)
  end.

Definition at_snapshot : Session.session Session.Upgraded :=
  Session.sbind (Session.send_snapshot 0%nat (inr (mkSale 7%N "" 0 0 0 "" 0, mkSaleStats 1 1 2)))
    (fun _ => Session.SRet (Session.Connected (uuid_String 7%N) "")).

Lemma full_buffer_stops_the_handler_witness :
  exists s h w, Session.play dropped hung = Some (s, h, w) /\ full h 0%nat /\
    (s = at_snapshot \/ s = Session.SPanic "send on closed channel").
Proof.
  destruct (Session.play dropped hung) as [[[s h] w]|] eqn:E; [|vm_compute in E; discriminate E].
  exists s, h, w. split; [reflexivity|].
  destruct (full_buffer_stops_the_handler dropped 0%nat (uuid_String 7%N) "" (mkSale 7%N "" 0 0 0 "" 0)
    (mkSaleStats 1 1 2) (snd (fst hung)) h (snd hung) w s) as (_ & Hf & Hs).
  - eexists. split; [vm_compute; reflexivity|]. apply Nat.leb_le. vm_compute. reflexivity.
  - repeat (apply Forall_cons_2; [discriminate|]). apply Forall_nil_2.
  - refine (eq_trans _ E). vm_compute. reflexivity.
  - split; [exact Hf|]. destruct Hs as [[Hs _]|Hs]; [left|right]; exact Hs.
Defined.

(** The handler has panicked. *)
Example dropped_panics :
  match Session.play dropped hung with Some (Session.SPanic m, _, _) => m | _ => "" end =
  "send on closed channel".
Proof. vm_compute. reflexivity. Qed.

Definition websocket_get : Http.Request :=
  Http.mkRequest Http.MethodGet ["ws"; "sales"; uuid_String 7%N] "" "" "" "10.0.0.1:5000"
    (Http.mkBody None None None None).

(** gorilla as it is: only a Hijacker can be upgraded. *)
Definition gorilla (w : Session.ResponseWriter) : option Http.Response :=
  if Session.Hijacker w then None
  else Some (Http.Error "websocket: response does not implement http.Hijacker" 500).

Lemma websocket_request_witness :
  (exists h w n, Session.play (repeat Session.Own n)
       (Session.HandleWebSocket gorilla (Session.mkWriter true) 0%nat (uuid_String 7%N) "", Hub.NewHub, sample_world) =
     Some (Session.SRet (Session.Connected (uuid_String 7%N) ""), h, w)) /\
  match Session.ServeWebSocket gorilla (Session.mkWriter true) 0%nat websocket_get with
  | None => False
  | Some s => exists o w, Session.play [Session.Own] (s, Hub.NewHub, sample_world) =
      Some (Session.SRet (Ok o), Hub.NewHub, w)
  end.
Proof.
  destruct (websocket_request gorilla (Session.mkWriter true) 0%nat (uuid_String 7%N) "" (uuid_String 7%N) ""
    Hub.NewHub sample_world) as [H1 H2]. split.
  - destruct H1 as (sale & res & w & n & _ & _ & _ & H); [vm_compute; reflexivity|reflexivity|reflexivity|
      cbn; unfold Hub.register_capacity; lia|].
    do 3 eexists. exact H.
  - destruct (Session.ServeWebSocket gorilla (Session.mkWriter true) 0%nat websocket_get) as [s|] eqn:E;
      [|discriminate E].
    destruct (H2 ltac:(intros [[]]; [done|by eexists]) websocket_get s E) as (resp & o & w & _ & H & _).
    exists o, w. exact H.
Defined.

(** ** A watching client *)

Definition stock_event (n : Z) : json := Publisher.Event "stock_update" [("remaining", JNum n)].

Definition sale_channel (sale : uuid) : string := saleChannel (uuid_String sale).

(** Two updates of sale 7 and one of sale 8 between them. *)
Definition published_events : list (string * json) :=
  [(sale_channel 7%N, stock_event 1); (sale_channel 8%N, stock_event 4); (sale_channel 7%N, stock_event 0)].

Definition hub_after (es : list Hub.event) (h : Hub.Hub) : Hub.Hub :=
  match Hub.steps es h with Some (inr h') => h' | _ => h end.

Definition watching : Hub.Hub :=
  hub_after [Hub.EvConnect 0%nat; Hub.EvSubscribe 0%nat (uuid_String 7%N) ""; Hub.EvRunRegister] Hub.NewHub.

Definition three_broadcasts : list Hub.event :=
  [Hub.EvPublish (uuid_String 7%N) (stock_event 1); Hub.EvPublish (uuid_String 8%N) (stock_event 4);
   Hub.EvRunBroadcast [0%nat]; Hub.EvRunBroadcast []; Hub.EvWrite 0%nat;
   Hub.EvPublish (uuid_String 7%N) (stock_event 0); Hub.EvRunBroadcast [0%nat]; Hub.EvWrite 0%nat].

Definition watched : Hub.Hub := hub_after three_broadcasts watching.

Lemma watching_only : only_in 0%nat (uuid_String 7%N) watching.
Proof.
  intros k. assert (Hub.rooms watching = Hub.join (uuid_String 7%N) 0%nat ∅) as -> by (vm_compute; reflexivity).
  rewrite elem_of_room_join. unfold Hub.room. rewrite lookup_empty. cbn. split.
  - intros [H|(_ & -> & _)]; [by apply elem_of_empty in H|reflexivity].
  - intros ->. right. repeat split. discriminate.
Qed.

(** A buffer of at most three messages is not full. *)
Lemma short_not_full h c x : Hub.clients h !! c = Some x -> (length (Hub.send x) < 256)%nat -> ~ full h c.
Proof. intros Hx Hl (y & Hy & Hfull). unfold Hub.send_capacity in Hfull. replace y with x in * by congruence. lia. Qed.

Lemma watching_attentive : attentive 0%nat (uuid_String 7%N) three_broadcasts watching.
Proof.
  assert (forall h x, Hub.clients h !! 0%nat = Some x -> (length (Hub.send x) <? 256)%nat = true ->
    forall msg rest, Hub.broadcast h = msg :: rest ->
    forall order, attentive_step 0%nat (uuid_String 7%N) (Hub.EvRunBroadcast order) h) as Hroom.
  { intros h x Hx Hl msg rest Hb order. cbn. rewrite Hb. intros _. eapply short_not_full; [exact Hx|].
    by apply Nat.ltb_lt. }
  assert (forall h e rest h', attentive_step 0%nat (uuid_String 7%N) e h -> Hub.step e h = Some (inr h') ->
    attentive 0%nat (uuid_String 7%N) rest h' -> attentive 0%nat (uuid_String 7%N) (e :: rest) h) as Hnext.
  { intros h e rest h' H1 H2 H3. cbn [attentive]. by rewrite H2. }
  unfold three_broadcasts.
  repeat (eapply Hnext;
    [first [exact I|eapply Hroom; vm_compute; reflexivity]|vm_compute; reflexivity|]). exact I.
Qed.

Lemma subscriber_sees_every_event_witness :
  exists x, Hub.clients watched !! 0%nat = Some x /\ concat (Hub.frames x) = [stock_event 1; stock_event 0].
Proof.
  destruct (subscriber_sees_every_event 7%N published_events three_broadcasts watching watched 0%nat
    (Hub.mkClient [] false (uuid_String 7%N) "" []))
    as (x' & Hx' & _ & Hframes); [|vm_compute; reflexivity|vm_compute; reflexivity|vm_compute; reflexivity|
      apply watching_only|apply watching_attentive|].
  - repeat (apply Forall_cons_2; [eexists; reflexivity|]). apply Forall_nil_2.
  - exists x'. split; [exact Hx'|]. rewrite Hframes; [vm_compute; reflexivity|vm_compute; reflexivity|].
    vm_compute in Hx'. injection Hx' as <-. reflexivity.
Defined.

(** ** A crash in the middle of a sale *)

(** Redis has lost everything. The server starts and fills it again; a buyer's row
    is committed, but the answer is lost and the goroutine dies before it has
    given the unit back; then Redis loses the available counter again. *)
Definition storm : Oracle := plan (fun n => if Nat.eqb n 18 then LostReply "unexpected EOF" else NoFault).

Definition blank_world : world ref_state db := mkWorld (mkRef ∅ []) sample_db 0 [].

Definition restarted : pool unit :=
  pool_run (O := storm) (repeat 0%nat 12) ([ignore Recovery.ReconcileOnStartup], blank_world).

Definition mid_reserve : pool unit :=
  pool_run (O := storm) (repeat 1%nat 9)
    ((fst restarted ++ [run_task server handler (HandleRequest reserve_request)])%list, snd restarted).

Definition after_storm : world ref_state db :=
  set_redis (mkRef (delete (availableKey (uuid_String 7%N)) (ref_data (w_redis (snd mid_reserve)))) [])
    (snd mid_reserve).

Lemma storm_run schedule s : chaos_steps (O := storm) server handler s (pool_run (O := storm) schedule s).
Proof.
  apply (rtc_subrel (pool_step (O := storm))); [intros x y; apply call_made|apply pool_run_steps].
Qed.

Lemma storm_shape (w : world ref_state db) s1 s2 t r :
  chaos_steps (O := storm) server handler ([ignore Recovery.ReconcileOnStartup], w) s1 ->
  chaos_steps (O := storm) server handler ((fst s1 ++ [run_task server handler t])%list, snd s1) s2 ->
  dataset r ⊆ dataset (w_redis (snd s2)) ->
  chaos_steps (O := storm) server handler ([], w) ([], set_redis r (snd s2)).
Proof.
  intros H1 H2 Hr. eapply rtc_l; [apply server_restarts|]. etransitivity; [exact H1|].
  destruct s1 as [ps1 w1]. eapply rtc_l; [apply (task_arrives server handler _ _ t)|].
  etransitivity; [exact H2|]. destruct s2 as [ps2 w2].
  eapply rtc_l; [apply (goroutines_die _ _ _ []), submseteq_nil_l|]. by apply rtc_once, redis_forgets.
Qed.

Lemma stormy_steps : chaos_steps (O := storm) server handler ([], blank_world) ([], after_storm).
Proof.
  unfold after_storm. apply (storm_shape blank_world restarted mid_reserve (HandleRequest reserve_request)).
  - unfold restarted. apply storm_run.
  - unfold mid_reserve. apply storm_run.
  - apply (delete_subseteq (ref_data (w_redis (snd mid_reserve)))).
Qed.

Lemma blank_modest : modest (view_of blank_world).
Proof.
  split; [|split].
  - intros s k _. left. apply lookup_empty.
  - vm_compute. discriminate.
  - intros id s Hs. change (t_sales (v_db (view_of blank_world))) with (t_sales sample_db) in Hs.
    unfold sample_db, t_sales in Hs. apply lookup_singleton_Some in Hs as [_ <-]. split; done.
Qed.

(** The counters are those of two live reservations on two units. *)
Lemma chaos_then_one_pass_heals_witness :
  held 7%N (tables (w_pg after_storm)) = 2 /\ stock (view_of after_storm) 7%N = None /\
  let r := run Worker.reconcileAllSales after_storm in
  fst r = Ok None /\ readings (view_of (snd r)) 7%N = Some (0, 2).
Proof.
  split; [vm_compute; reflexivity|]. split; [vm_compute; reflexivity|].
  destruct (chaos_then_one_pass_heals storm still server handler blank_world after_storm [] Worker.reconcileAllSales
    blank_modest stormy_steps ltac:(vm_compute; discriminate) _ ltac:(left; reflexivity)) as (Ho & (Hheal & _) & _).
  split; [exact Ho|]. destruct sample_sale as (s & Hs & Ha & Ht). specialize (Hheal 7%N s Hs).
  rewrite bool_decide_true in Hheal by exact Ha. destruct Hheal as (n & Hr & _).
  rewrite Ht in Hr. rewrite Hr. vm_compute. reflexivity.
Defined.

(** ** Startup *)

(** SERVER_PORT is in the environment and in the file, the replica in the file. *)
Definition dotenv : gmap string string :=
  <["SERVER_PORT" := "7000"]> (<["REDIS_REPLICA_URL" := "redis://replica"]> ∅).
Definition environment : gmap string string := <["SERVER_PORT" := "9000"]> ∅.
Definition settings : ref_viper := mkViper environment false (inr dotenv) ∅ ∅.

(** A host where everything works but the replica; the SHA of a text is its length. *)
#[local] Instance sound_host : Host := {|
  os_getenv _ := "";
  os_read_file _ path := inr ("text of " ++ path);
  otlp_new _ _ := None;
  resource_new _ := None;
  redis_parse_url _ := None;
  redis_ping _ c := match conn_role c with Primary => None | Replica => Some "connection refused" end;
  script_load _ _ text := inr ("sha of " ++ text);
  pgxpool_new _ _ := None;
  wait_quit _ := None;
  server_shutdown _ := None
|}.

Lemma load_takes_the_first_layer_witness :
  fst (Config.Load settings) = inr (config_of environment dotenv) /\
  Config.ServerPort (config_of environment dotenv) = "9000".
Proof.
  destruct (load_takes_the_first_layer settings (mkViper environment true (inr dotenv) dotenv ∅) None)
    as (H1 & _ & H2); [reflexivity|].
  split; [exact H1|]. apply (H2 environment dotenv "9000"). reflexivity.
Defined.

Definition drifted_world : world ref_state db := mkWorld (mkRef drifted_data []) sample_db 0 [].

Definition started : exit unit * process ref_state db := boot_run (Main.main settings) (fresh_process drifted_world).

Definition started_config : Config.Config :=
  match fst (Config.Load settings) with inr c => c | inl _ => Config.mkConfig "" "" "" "" 0 0 0 0 end.

(** The SHA of a script on this host. *)
Definition sha_of (name : string) : string := "sha of text of internal/redis/scripts/" ++ name.

Definition started_client : RedisObject.Client :=
  RedisObject.mkClient (mkConn Primary (Config.RedisURL started_config)) None (sha_of "reserve.lua")
    (sha_of "release.lua") (sha_of "confirm.lua") (sha_of "waitlist_join.lua") (sha_of "waitlist_promote.lua").

Lemma started_goroutines : p_goroutines (snd started) =
  launched started_config started_client "sha of text of internal/redis/scripts/token_bucket.lua".
Proof. vm_compute. reflexivity. Qed.

Lemma started_serves : serving (snd started).
Proof.
  exists ":9000". eexists. rewrite started_goroutines. do 6 apply list_elem_of_further.
  apply list_elem_of_here.
Qed.

Lemma serving_server_is_ready_witness :
  Http.statusCode (Http.HealthzHandler (p_ready (snd started))) = 200 /\
  active_consistent drifted (view_of (p_world (snd started))).
Proof.
  destruct (serving_server_is_ready settings drifted_world (fst started) (snd started)
    (surjective_pairing _) started_serves) as (H1 & _ & H3).
  split; [exact H1|]. apply H3; [exact still_no_faults|apply drifted_counted|apply sample_small|
    apply sample_not_overdue].
Defined.

(** The replica that is configured is down; the reservations live ten minutes. *)
Lemma main_wires_the_services_witness :
  exists cfg cl sha, p_goroutines (snd started) = launched cfg cl sha /\
    handler_of (the_handler cfg cl) = ExpiryHandler.mkExpiryHandler 600 true.
Proof.
  destruct (main_wires_the_services settings drifted_world (fst started) (snd started)
    (surjective_pairing _) started_serves) as (cfg & cl & sha & Hcfg & Hg & _ & _ & _ & Hh).
  exists cfg, cl, sha. split; [exact Hg|]. rewrite Hh. vm_compute in Hcfg. injection Hcfg as <-. reflexivity.
Defined.

Lemma main_closes_what_it_opened_witness :
  p_open (snd started) = [RedisConn (mkConn Replica "redis://replica")] /\
  exists cfg replica l tracer exporter, replica_state (Config.RedisReplicaURL cfg) replica l /\
    tracing tracer exporter /\ p_open (snd started) = (left_open replica l ++ exporter)%list.
Proof.
  split; [vm_compute; reflexivity|].
  pose proof (main_closes_what_it_opened settings drifted_world (fst started) (snd started) (surjective_pairing _)) as H.
  assert (fst started = Returned tt) as Eo by (vm_compute; reflexivity). rewrite Eo in H.
  destruct H as (cfg & rep & l & tr & ex & _ & Hl & Ht & _ & Ho). exists cfg, rep, l, tr, ex.
  split; [exact Hl|]. split; [exact Ht|exact Ho].
Defined.

(** ** Streams, pumps and the response cache *)

Definition purchase : EventLogger.StreamEvent := EventLogger.mkEvent "reserved" "u" "" "s" 5.
Definition delivered : list EventLogger.turn :=
  [EventLogger.Read (inl "redis: nil");
   EventLogger.Read (inr [("sale:x:events", [EventLogger.mkMessage "5-0" (EventLogger.values purchase)])]);
   EventLogger.CtxDone "context canceled"].

Lemma logged_events_are_never_consumed_witness :
  omap handled (fst (EventLogger.StartConsumer "g" "c" (fun _ => None) delivered)) = [].
Proof.
  apply (logged_events_are_never_consumed "g" "c" (fun _ => None) delivered).
  repeat constructor. intros s m ->%list_elem_of_singleton ->%list_elem_of_singleton. by exists purchase.
Defined.

(** An entry without a timestamp is handled and acknowledged. *)
Example untimed_is_acked :
  omap acked (fst (EventLogger.StartConsumer "g" "c" (fun _ => None)
    [EventLogger.Read (inr [("k", [EventLogger.mkMessage "5-0" {["Type" := "reserved"]}])])])) = [("k", "5-0")].
Proof. vm_compute. reflexivity. Qed.

Definition pump_events : list Pumps.wake :=
  [Pumps.Received "{1}" ["{2}"; "{3}"] None None; Pumps.TickerC None; Pumps.Received "{4}" [] None None;
   Pumps.Received "{5}" ["{6}"] (Some "broken pipe") None].

Lemma frames_carry_the_messages_witness :
  (concat (map Pumps.lines (Pumps.frames (fst (Pumps.StartWritePump pump_events)))) ++ ["{5}"])%list =
    ["{1}"; "{2}"; "{3}"; "{4}"; "{5}"].
Proof.
  pose proof (frames_carry_the_messages pump_events) as H.
  destruct (Pumps.StartWritePump pump_events) as [ops dn]. apply H. repeat constructor.
Defined.

#[local] Instance map_cache : Idempotency.Cache (gmap string Idempotency.cached) := {|
  Idempotency.CacheGet k c := (match c !! k with Some x => inr x | None => inl "redis: nil" end, c);
  Idempotency.CacheSet k x _ c := (None, <[k := x]> c)
|}.

#[local] Instance map_cache_laws : CacheLaws (gmap string Idempotency.cached).
Proof.
  refine {| holds c k := c !! k |}; cbn.
  - intros k c x ->. done.
  - intros k c ->. by eexists.
  - intros k x ttl c _. eexists. split; [done|]. intros k'.
    destruct (String.eqb_spec k' k) as [->|Hne]; [apply lookup_insert_eq|by rewrite lookup_insert_ne].
Defined.

(** The order of one sale, and then a reservation under the same key. *)
Definition confirm_request : Http.Request :=
  Http.mkRequest Http.MethodPost ["api"; "reservations"; uuid_String 50%N; "confirm"] "" "bob" "k" "10.0.0.2:9"
    (Http.mkBody None None None None).

Definition answering (r : Http.Request) (n : nat) : outcome Http.Response * nat :=
  (Ok (Http.Error "sold out" 409), S n).

Lemma second_post_is_a_replay_witness :
  exists c', Idempotency.IdempotencyMiddleware answering reserve_request (∅ : gmap string Idempotency.cached, 0%nat) =
      (Ok (Http.Error "sold out" 409), (c', 1%nat)) /\
    Http.statusCode (Http.Error "sold out" 409) = 409.
Proof.
  destruct (second_post_is_a_replay answering reserve_request confirm_request "k"
    (∅ : gmap string Idempotency.cached) 0%nat (Http.Error "sold out" 409) 1%nat) as (c' & H & _); try done.
  exists c'. split; [exact H|reflexivity].
Defined.
